(* ===== verification/_CoqProject ===== *)
-Q . S2P
Prelude.v
RustStr.v
F64.v
F64Theory.v
Yaml.v
ConfigTypes.v
Validation.v
Deserialize.v
Samples.v
ValidationSpec.v
DeserializeSpec.v
EnvoyGen.v
EnvoyGenSpec.v
RateLimit.v
RateLimitSpec.v
Auth.v
Refresh.v
AuthSpec.v
RefreshSpec.v
Observability.v
Plugins.v
PluginsSpec.v
Sandbox.v
SandboxSpec.v
GatewayApiSpec.v
Http.v
ExtAuthz.v
ExtAuthzSpec.v
ExtAuthzResponses.v
ExtProc.v
SocketAddr.v
XdsResources.v
Xds.v
XdsResourcesSpec.v
XdsSpec.v
XdsStatusSpec.v
Tracing.v
UnitTests.v
Admin.v
AdminSpec.v
Server.v
ServerSpec.v
Gateway.v
GatewaySpec.v
Concurrent.v
Live.v
ConcurrentSpec.v
InterleavingSpec.v
ProgressSpec.v
ReloadOrderSpec.v
PushSpec.v
AdmissionSpec.v
LiveSpec.v
