(* ===== verification/Prelude.v ===== *)
(** * OpenApiGateway: verification of the control plane

    The gateway puts Envoy in front of a set of services and keeps the
    decisions in a control plane written in Rust ([controlplane/] and
    [shared/]).  The control plane reads one YAML file, validates it, writes
    Envoy's static bootstrap or serves Envoy over xDS, and answers three kinds
    of calls: the authorisation check of every request (ext_authz), message
    processing (ext_proc) and an admin API with a configuration reload.  This
    library models that code, component by component, and proves what makes it
    correct.

    ** The parts and the files

    - [Prelude]: results, machine integers, the state monad of the handlers,
      iterator operations, the stable sort, tactics and lemmas on them.
    - [RustStr]: strings as byte strings with the standard-library operations
      the code uses (splitting, trimming of Unicode white space, parsing and
      printing of integers, ordering, lossy UTF-8), and their lemmas.
    - [F64], [F64Theory]: IEEE binary64 as computed by the kernel's
      specification floats, and the rounding theory the bucket needs.
    - [Yaml]: the YAML library as an interface with laws and a model.
    - [ConfigTypes]: the structs of [shared/src/config_types.rs] and the error
      types; [Samples]: the sample configuration of the loader's tests.
    - [Deserialize] / [DeserializeSpec]: the derived [Deserialize] of those
      structs, over the nodes of a YAML document as the interface [SerdeYaml].
    - [Validation] / [ValidationSpec]: [config/validation.rs] and [loader.rs];
      validation accepts exactly the configurations of a declarative
      specification.
    - [EnvoyGen] / [EnvoyGenSpec]: [config/envoy_gen.rs] and
      [envoy_ext_authz.rs]; a validated configuration always yields a bootstrap
      without dangling clusters, which is what the serialiser is given, and the
      virtual hosts partition the routes.
    - [RateLimit] / [RateLimitSpec]: [ratelimit/]; the local bucket in binary64
      and the Redis script as a function of the server's database, the limiter
      with its connection and its degraded modes.
    - [Auth] / [AuthSpec]: [auth/]; token validation, the key caches and their
      registry.  [Refresh] / [RefreshSpec]: the refresh loop of a cache with its
      notifier, and the requests that trigger it and wait.
    - [Observability]: [observability/metrics.rs] and [logs.rs]; [Tracing]:
      [observability/tracing_init.rs].
    - [Plugins] / [PluginsSpec]: [plugins/]; scripts are trees of the SDK calls
      they make, run against the Lua machine's interface [LuaVm].
    - [Sandbox]: [plugins/sandbox.rs] and the tables of [plugins/sdk.rs], over
      a heap of Lua tables and closures with the mlua library as the interface
      [MluaLib]; [SandboxSpec]: what a sandboxed script finds in its globals,
      and how it gets out; [GatewayApiSpec]: a script that goes through the installed tables does
      what [Plugins] says its calls do.
    - [Http]: header maps (interface) and responses; [ExtAuthz] /
      [ExtAuthzSpec]: [extauthz/]; the whole check as a state transformer over
      the application state, with the plugin engine behind the interface
      [PluginHost] that [Plugins] implements; [ExtAuthzResponses]: the frame of
      a check, legal status codes, tracing headers, and what plugins can put
      into a response.
    - [ExtProc]: [extproc/]; the processor, and the stream as a step system of
      the task, which waits for the client's messages and for room in its bounded
      channel, and of the client, which sends, reads, stops or goes.
    - [XdsResources] / [XdsResourcesSpec]: [xds/resources.rs], [snapshot.rs],
      [protocol.rs]; [Xds] / [XdsSpec]: [xds/version.rs], [registry.rs],
      [server.rs]; the channels of sixteen responses, the ADS task cut at its
      awaits and interleaved with other streams and reloads, and a broadcast in
      turns that wait for room; [XdsStatusSpec]: what the status of a peer reports.
    - [Admin] / [AdminSpec]: [admin/] and [startup.rs]; assembling the state,
      probes, and the reload through plugins, xDS and the bootstrap.
    - [SocketAddr]: the standard library's parser of socket addresses; [Server]
      / [ServerSpec]: [serve] and [run] of [startup.rs] and the admin router;
      which servers a configuration starts, and which requests change what.
    - [Gateway] / [GatewaySpec]: the control plane as one system, whose events
      are checks, admin requests, key fetches and ADS turns in any order.
    - [Concurrent]: checks and reloads cut at their awaits, every send of a
      broadcast included, as tasks beside that system, with the read-write lock of
      the configuration and tasks that are dropped when their client goes.
      [ConcurrentSpec]: the stretches of a check compose to the handler;
      [InterleavingSpec]: permits, the in-flight gauge and what a check sees;
      [ProgressSpec]: what is answered, and what waits for an Envoy;
      [ReloadOrderSpec]: which files the parts serve; [PushSpec]: what the ADS
      streams are sent; [AdmissionSpec]: who is let through.
    - [Live]: the refresh loops and notifiers beside those tasks, so that keys
      change only when a loop ends a fetch and a check waits until it is
      notified or its time is up.  [LiveSpec]: waits are served, requests
      complete, and what happens to a key that is new.
    - [UnitTests]: the repository's inline unit tests, translated and evaluated
      on the model.

    A file named [XSpec] holds the theorems about [X]; smaller components have
    both in one file.  Operations keep the names of the source.

    ** What is shown

    - Configuration: a document is accepted exactly when its keys and values fit
      the declared fields, and every configuration whose numbers fit their types
      has a document that reads back; validation is equivalent to its
      specification, and what validates can always be published, as a bootstrap
      and as an xDS snapshot.
    - Authorisation: a request is let through on a protected route only with a
      token the validator accepts and a token of the bucket of its route and its
      address or subject; the subject header is authentic whatever the plugins do;
      every branch has its verdict, one log entry and one metric for its route,
      method and status, and gives its permit back; routes match by longest
      prefix.
    - Rate limits: both buckets admit exactly their capacity while no time passes
      (the local one with a finite rate), tokens stay within bounds under every
      clock, keys are injective
      and independent, and every failure mode has its decision.
    - Authentication: soundness and completeness of token validation, what a
      failed fetch leaves and when the refreshed keys are used.
    - Plugins: chains are complete and sorted, reserved headers stay out of the
      upstream headers, a reload is atomic and drops cached instances.
    - xDS: the virtual hosts agree with the bootstrap's; under every
      interleaving only responses of built snapshots are sent, and a reload that
      is not kept waiting reaches every registered stream.
      The status of a peer is the one its message history implies.
    - Sandbox: which globals are removed, narrowed, replaced and left; following
      fields and [require] alone a script finds no function that the sandbox
      removes, but calling [module], which is left, leads to all of them; the
      installed SDK refines the abstract calls.
    - Reload: all or nothing unless it waits for an Envoy, and from startup on the configuration, the
      snapshot and the plugin chains come from one validated file.
    - Servers: the servers that run are those of the configuration, and of all
      admin requests only a reload changes the state.
    - The whole system: through any sequence of events the served parts stay
      those of the reported file, permits come back, and cached keys are keys that
      a startup provider published.
    - Requests in flight: a check sees one configuration from its route to its
      answer whatever reloads do meanwhile, an allowed request on a protected
      route was authenticated for the configuration active at its answer, the
      permits bound the checks in flight, every check is answered within a bounded
      number of moves and every reload too unless it waits for an Envoy that is
      connected and does not receive, for which it waits whatever else happens,
      and reloads that do not overlap keep the parts consistent.  Whatever overlaps, a response sent to an Envoy is built from
      a validated file and a version names one configuration.
    - Key refresh: a check that waits for keys waits for a fetch that is under
      way, a check is answered even when no fetch ever ends, and a rotated key is
      accepted as soon as the triggered fetch ends, if the loop was idle and no
      other check asks for the same keys meanwhile.
    - Behaviours of the code that differ from its intent or its documents are
      stated as theorems too (for example [engine_failure_allows],
      [exit_not_recognised], [exit_takes_effect_late], [route_order_mismatch],
      [reconnect_loses_updates], [ack_is_answered_again],
      [reloaded_provider_unavailable], [plugin_sets_identity_header],
      [invalid_exit_status_allows], [hostname_listen_address_is_fatal],
      [overlapping_reloads_diverge], [overlapping_reloads_split_envoys],
      [abandoned_reload_diverges], [busy_loop_refuses_new_key],
      [second_check_wakes_first], [stalled_envoy_blocks_reload],
      [module_escapes_sandbox], [infinite_rate_admits_all],
      [inflight_gauge_drifts]).

    ** Modelling decisions

    Unsigned integers are [Z] values kept in range by their parsers and by the
    wrapping operations; a panic is [None] where the code can panic.  Clocks,
    network and file system answers are arguments of the operations that read
    them.  Third-party crates are type classes with the laws that their
    documentation gives (YAML, JWT, Lua numbers, the Lua machine, mlua tables,
    header maps, protobuf encoding); each class has a concrete model on which
    the witnesses evaluate.  No definition needs fuel: loops are structural on the data they
    traverse, and the concurrent parts (key refresh, ext_proc stream, ADS
    streams) are step systems whose theorems quantify over all traces.  In
    [Xds] a version counter of 64 bits is assumed not to be exhausted by the
    trace, and a rebuild is one step, in which an argument says which Envoys
    receive when a send has to wait for them, and which does not happen when one
    of them does not; [Concurrent] cuts it into build, store and the sends of the
    broadcast.  A broadcast holds the guard of a shard of the registry while it
    waits; the guard is not modelled, so that the model has runs in which a
    stream registers where the code makes it (and its worker thread) wait: what
    is shown of all runs holds of the code's, but that a turn is possible says
    nothing about worker threads that block on the guard.  In [Gateway] a check
    and an admin request are handled without interruption by other events, and no
    key is fetched while a check waits for one; in [ExtAuthz] the fetches that end
    during the wait are an argument; in [Concurrent] they are cut where they wait
    for shared state, the cache is the one of that moment, and the lock is fair,
    as tokio documents it.  How long a check waits for keys is open in
    [Concurrent] and decided in [Live], where the notifier is tokio's: a permit
    at most, waiters in order, and a wait that is dropped after it was chosen
    passes its notification on.  Timeouts and intervals are events that may come
    at any time of the wait they end.  Inside a stretch of [Concurrent] stay the
    exchange with Redis, whose script is atomic, and the log phase of the plugins,
    which touches the machine of its own thread.  [uninterrupted_check] ties the
    two: a check whose turns are consecutive does what the handler of [Gateway]
    does.

    ** What is not modelled

    The two [main] functions (they only start the runtime), generated protobuf
    bindings, and what libraries parse or print: YAML text, the text exposition
    of metrics, RFC 3339 times, SHA-256.  The execution of a Lua chunk is the
    interface [LuaVm]; of the functions a Lua library leaves in the globals only
    what [module] does to its caller's environment is written down.  Unit tests
    that need the Lua interpreter, sockets, files or a real key are not translated.

    Of the implementation every function that decides something or changes state
    has a definition; what no definition translates are imports, module
    declarations, derived [Debug] and [Clone], constructors of server wrappers
    and the accessors of private fields. *)
From stdpp Require Export base option list gmap strings pretty sorting.
From Stdlib Require Export ZArith Lia.

(** ** Results

    [result E A] is Rust's [Result<A, E>].  The error type comes first so that
    [result E] is a monad for stdpp's notations: [x ← e; k] is Rust's
    [let x = e?; k] and [mapM f l] is
    [l.iter().map(f).collect::<Result<Vec<_>, _>>()]. *)
Inductive result (E A : Type) : Type :=
  | Ok (a : A)
  | Err (e : E).
Arguments Ok {E A} a.
Arguments Err {E A} e.

Global Instance result_ret {E} : MRet (result E) := λ A a, Ok a.
Global Instance result_bind {E} : MBind (result E) :=
  λ A B f r, match r with Ok a => f a | Err e => Err e end.
Global Instance result_fmap {E} : FMap (result E) :=
  λ A B f r, match r with Ok a => Ok (f a) | Err e => Err e end.

Definition map_err {E F A} (f : E → F) (r : result E A) : result F A :=
  match r with Ok a => Ok a | Err e => Err (f e) end.

Definition ok_or {E A} (e : E) (o : option A) : result E A :=
  match o with Some a => Ok a | None => Err e end.

Definition is_ok {E A} (r : result E A) : bool :=
  match r with Ok _ => true | Err _ => false end.

Definition is_err {E A} (r : result E A) : bool := negb (is_ok r).

Definition ok {E A} (r : result E A) : option A :=
  match r with Ok a => Some a | Err _ => None end.

(** ** Machine integers

    Unsigned integers are [Z] values in range; a conversion or an operation
    that can leave the range wraps with the functions below (Rust's [as] and
    the release profile's arithmetic). *)
Declare Scope machine_scope.
Delimit Scope machine_scope with mach.

Definition u16_max : Z := 65535.
Definition u32_max : Z := 4294967295.
Definition u64_max : Z := 18446744073709551615.

Definition as_u32 (z : Z) : Z := (z `mod` 4294967296)%Z.
Definition as_u64 (z : Z) : Z := (z `mod` 18446744073709551616)%Z.
Definition as_i64 (z : Z) : Z :=
  let m := (z `mod` 18446744073709551616)%Z in
  if (m <? 9223372036854775808)%Z then m else (m - 18446744073709551616)%Z.
Definition as_i32 (z : Z) : Z :=
  let m := (z `mod` 4294967296)%Z in
  if (m <? 2147483648)%Z then m else (m - 4294967296)%Z.

Definition wrapping_add (a b : Z) : Z := as_u64 (a + b).
Definition wrapping_mul (a b : Z) : Z := as_u64 (a * b).

Notation "a '+u64' b" := (wrapping_add a b) (at level 50, left associativity) : machine_scope.
Notation "a '*u64' b" := (wrapping_mul a b) (at level 40, left associativity) : machine_scope.

Definition is_u64 (z : Z) : Prop := (0 ≤ z ≤ u64_max)%Z.
Definition is_u32 (z : Z) : Prop := (0 ≤ z ≤ u32_max)%Z.
Definition is_u16 (z : Z) : Prop := (0 ≤ z ≤ u16_max)%Z.

(** ** Slice and iterator operations *)

(** [iter().find(p)]: the first element satisfying [p]. *)
Fixpoint iter_find {A} (p : A → bool) (l : list A) : option A :=
  match l with
  | [] => None
  | x :: l' => if p x then Some x else iter_find p l'
  end.

(** [iter().max_by_key(f)]: Rust returns the last of several maximal elements. *)
Definition max_by_key {A} (f : A → nat) (l : list A) : option A :=
  foldl (λ best x,
    match best with
    | None => Some x
    | Some b => if (f b <=? f x)%nat then Some x else Some b
    end) None l.

(** [sort_by(cmp)] / [sort()]: a stable sort, as an insertion sort with the
    comparison [cmp]; [Slice::sort_by] promises stability. *)
Fixpoint sort_insert {A} (cmp : A → A → comparison) (x : A) (l : list A) : list A :=
  match l with
  | [] => [x]
  | y :: l' =>
      match cmp x y with
      | Gt => y :: sort_insert cmp x l'
      | _ => x :: l
      end
  end.

Fixpoint stable_sort {A} (cmp : A → A → comparison) (l : list A) : list A :=
  match l with
  | [] => []
  | x :: l' => sort_insert cmp x (stable_sort cmp l')
  end.

(** ** A state monad

    Handlers that mutate shared state are written as functions
    [S → A * S]; [x ←ₛ m; k] runs [m], then [k] in the state [m] left. *)
Definition st (S A : Type) : Type := S → A * S.

Definition st_ret {S A} (a : A) : st S A := λ s, (a, s).
Definition st_bind {S A B} (m : st S A) (k : A → st S B) : st S B :=
  λ s, let '(a, s') := m s in k a s'.
Definition st_modify {S} (f : S → S) : st S unit := λ s, (tt, f s).
Definition st_gets {S A} (f : S → A) : st S A := λ s, (f s, s).

Notation "x '<--' m ';;' k" := (st_bind m (λ x, k))
  (at level 100, m at next level, right associativity) : stdpp_scope.
Notation "m ';;;' k" := (st_bind m (λ _, k))
  (at level 100, right associativity) : stdpp_scope.

(** ** Tactics and hint databases *)
Create HintDb gw discriminated.

Ltac case_res :=
  repeat match goal with
  | H : context [match ?r with Ok _ => _ | Err _ => _ end] |- _ =>
      let E := fresh "E" in destruct r eqn:E; simplify_eq/=
  | |- context [match ?r with Ok _ => _ | Err _ => _ end] =>
      let E := fresh "E" in destruct r eqn:E; simplify_eq/=
  end.

(** Split every [if] and [match] of the goal, keeping the equations. *)
Ltac split_cases :=
  repeat (case_match; simplify_eq/=; try done).

(** ** Lemmas on results *)
Lemma result_bind_Ok {E A B} (r : result E A) (f : A → result E B) b :
  r ≫= f = Ok b ↔ ∃ a, r = Ok a ∧ f a = Ok b.
Proof. destruct r; simpl; naive_solver. Qed.

Lemma mapM_Ok {E A B} (f : A → result E B) l k :
  mapM f l = Ok k ↔ Forall2 (λ x y, f x = Ok y) l k.
Proof.
  revert k; induction l as [|x l IH]; intros k; simpl.
  - split; [intros [= <-]; constructor | by inversion 1].
  - rewrite result_bind_Ok. setoid_rewrite result_bind_Ok. split.
    + intros (y & Hy & k' & Hk & [= <-]). constructor; [done | by apply IH].
    + inversion 1; simplify_eq. eexists; split; [done|].
      eexists; split; [by apply IH | done].
Qed.

Lemma mapM_Ok_all {E A B} (f : A → result E B) l :
  (∀ x, x ∈ l → ∃ y, f x = Ok y) → ∃ k, mapM f l = Ok k.
Proof.
  induction l as [|x l IH]; intros H; simpl; [by eexists|].
  destruct (H x) as [y ->]; [set_solver|]. simpl.
  destruct IH as [k ->]; [set_solver|]. simpl. by eexists.
Qed.

Lemma mapM_Err {E A B} (f : A → result E B) l e :
  mapM f l = Err e → ∃ x, x ∈ l ∧ f x = Err e.
Proof.
  induction l as [|x l IH]; simpl; [done|].
  destruct (f x) eqn:Hx; simpl.
  - destruct (mapM f l); simpl; [done|]. intros [= <-].
    destruct IH as (y & ? & ?); [done|]. exists y. set_solver.
  - intros [= <-]. exists x. set_solver.
Qed.

Lemma mapM_Some_app {A B} (f : A → option B) l1 l2 k1 k2 :
  mapM f l1 = Some k1 → mapM f l2 = Some k2 → mapM f (l1 ++ l2) = Some (k1 ++ k2).
Proof. rewrite !mapM_Some. apply Forall2_app. Qed.

(** A computation that is known to succeed is equal to the success of the
    value read off with a default. *)
Definition is_some {A} (o : option A) : bool :=
  match o with Some _ => true | None => false end.
Definition unwrap_or {E A} (d : A) (r : result E A) : A :=
  match r with Ok a => a | Err _ => d end.

Lemma some_default {A} (d : A) (o : option A) : is_some o = true → o = Some (default d o).
Proof. by destruct o. Qed.
Lemma is_none_eq {A} (o : option A) : is_some o = false → o = None.
Proof. by destruct o. Qed.
Lemma ok_unwrap_or {E A} (d : A) (r : result E A) : is_ok r = true → r = Ok (unwrap_or d r).
Proof. by destruct r. Qed.

(** ** Lemmas on the state monad *)
Lemma bind_fst {S A B} (m : st S A) (k : A → st S B) s : (st_bind m k s).1 = (k (m s).1 (m s).2).1.
Proof. unfold st_bind. by destruct (m s). Qed.

(** ** Lemmas on lists *)
Lemma Forall2_impl_elem {A B} (P Q : A → B → Prop) l k :
  Forall2 P l k → (∀ x y, x ∈ l → P x y → Q x y) → Forall2 Q l k.
Proof.
  induction 1 as [|x y l k Hxy _ IH]; intros HQ; constructor; [apply HQ; [left|done]|].
  apply IH. intros. apply HQ; [by right|done].
Qed.

Lemma iter_find_Some {A} (p : A → bool) l x :
  iter_find p l = Some x → x ∈ l ∧ p x = true.
Proof.
  induction l as [|y l IH]; simpl; [done|]. destruct (p y) eqn:Hy.
  - intros [= <-]. split; [set_solver|done].
  - intros H. destruct (IH H). split; [set_solver|done].
Qed.

Lemma iter_find_None {A} (p : A → bool) l :
  iter_find p l = None ↔ ∀ x, x ∈ l → p x = false.
Proof.
  induction l as [|y l IH]; simpl; [set_solver|]. destruct (p y) eqn:Hy.
  - split; [done|]. intros H. rewrite H in Hy; [done|set_solver].
  - rewrite IH. split; [|set_solver].
    intros H x. rewrite elem_of_cons. intros [->|]; auto.
Qed.

Lemma iter_find_exists {A} (p : A → bool) l x :
  x ∈ l → p x = true → ∃ y, iter_find p l = Some y.
Proof.
  intros Hx Hp. destruct (iter_find p l) eqn:E; [by eexists|].
  rewrite iter_find_None in E. rewrite E in Hp; done.
Qed.

Lemma iter_find_app {A} (p : A → bool) l k :
  iter_find p (l ++ k) = match iter_find p l with Some x => Some x | None => iter_find p k end.
Proof. induction l as [|x l IH]; simpl; [done|]. by destruct (p x). Qed.

(** When the key is unique in the list, [find] by key returns that element. *)
Lemma iter_find_unique {A} (f : A → string) l x :
  NoDup (f <$> l) → x ∈ l →
  iter_find (λ y, bool_decide (f y = f x)) l = Some x.
Proof.
  induction l as [|y l IH]; simpl; [set_solver|].
  rewrite NoDup_cons, elem_of_cons. intros [Hn Hd] [->|Hx].
  - by rewrite bool_decide_eq_true_2.
  - rewrite bool_decide_eq_false_2; [auto|].
    intros Heq. apply Hn. rewrite Heq. apply list_elem_of_fmap; eauto.
Qed.

(** ** The stable sort

    A comparison function is an order when "not greater" is transitive and
    total; [stable_sort] then returns a sorted permutation that keeps the
    relative order of elements that compare equal. *)
Class CmpOrder {A} (cmp : A → A → comparison) : Prop := {
  cmp_trans x y z : cmp x y ≠ Gt → cmp y z ≠ Gt → cmp x z ≠ Gt;
  cmp_opp x y : cmp y x = CompOpp (cmp x y)
}.

Definition cmp_le {A} (cmp : A → A → comparison) (x y : A) : Prop := cmp x y ≠ Gt.

Section sorting.
Context {A : Type} (cmp : A → A → comparison).

Lemma sort_insert_perm x l : sort_insert cmp x l ≡ₚ x :: l.
Proof.
  induction l as [|y l IH]; simpl; [done|]. destruct (cmp x y); [done..|].
  rewrite IH. by constructor.
Qed.

Lemma stable_sort_perm l : stable_sort cmp l ≡ₚ l.
Proof. induction l as [|x l IH]; simpl; [done|]. by rewrite sort_insert_perm, IH. Qed.

Context `{!CmpOrder cmp}.

Lemma sort_insert_sorted x l :
  StronglySorted (cmp_le cmp) l → StronglySorted (cmp_le cmp) (sort_insert cmp x l).
Proof.
  induction 1 as [|y l Hl IH Hy]; simpl; [repeat constructor|].
  destruct (cmp x y) eqn:E.
  1,2: constructor; [by constructor|]; constructor; [by unfold cmp_le; rewrite E|];
    eapply Forall_impl; [exact Hy|]; intros z Hz; eapply cmp_trans; [|exact Hz]; by rewrite E.
  constructor; [done|]. rewrite sort_insert_perm. constructor; [|done].
  unfold cmp_le. rewrite cmp_opp, E. done.
Qed.

Lemma stable_sort_sorted l : StronglySorted (cmp_le cmp) (stable_sort cmp l).
Proof. induction l as [|x l IH]; simpl; [constructor|]. by apply sort_insert_sorted. Qed.

Lemma cmp_eq_trans x y z : cmp x y = Eq → cmp y z = Eq → cmp x z = Eq.
Proof.
  intros Hxy Hyz.
  assert (cmp x z ≠ Gt) by (eapply (cmp_trans x y z); congruence).
  assert (cmp z x ≠ Gt).
  { eapply (cmp_trans z y x); rewrite cmp_opp; [rewrite Hyz|rewrite Hxy]; done. }
  rewrite (cmp_opp x z) in *. by destruct (cmp x z).
Qed.

Lemma cmp_lt_le_trans x y z : cmp x y = Lt → cmp y z ≠ Gt → cmp x z = Lt.
Proof.
  intros Hxy Hyz. assert (cmp x z ≠ Gt) by (apply (cmp_trans x y z); congruence).
  destruct (cmp x z) eqn:E; [|done..]. exfalso.
  assert (Hyx : cmp y x ≠ Gt) by (apply (cmp_trans y z x); [done|by rewrite cmp_opp, E]).
  by rewrite cmp_opp, Hxy in Hyx.
Qed.

(** Inserting into a sorted list puts [x] before every element equal to it. *)
Lemma sort_insert_stable x l (k : A) :
  StronglySorted (cmp_le cmp) l →
  filter (λ y, cmp k y = Eq) (sort_insert cmp x l) = filter (λ y, cmp k y = Eq) (x :: l).
Proof.
  induction 1 as [|y l Hl IH Hy]; simpl; [done|].
  destruct (cmp x y) eqn:E; [done..|].
  rewrite filter_cons. rewrite IH. rewrite !filter_cons.
  destruct (decide (cmp k x = Eq)) as [Hx|]; [|done].
  destruct (decide (cmp k y = Eq)) as [Hky|]; [|done].
  assert (cmp x k = Eq) by by rewrite cmp_opp, Hx.
  by rewrite (cmp_eq_trans x k y) in E.
Qed.

Lemma stable_sort_stable l (k : A) :
  filter (λ y, cmp k y = Eq) (stable_sort cmp l) = filter (λ y, cmp k y = Eq) l.
Proof.
  induction l as [|x l IH]; simpl; [done|].
  rewrite sort_insert_stable by apply stable_sort_sorted.
  rewrite !filter_cons. by rewrite IH.
Qed.

Lemma stable_sort_unique l1 l2 :
  (∀ x y, cmp x y = Eq → cmp y x = Eq → x = y) →
  l1 ≡ₚ l2 → stable_sort cmp l1 = stable_sort cmp l2.
Proof.
  intros Heq Hp. apply (StronglySorted_unique_strong (cmp_le cmp)).
  - intros x y _ _ Hxy Hyx. unfold cmp_le in *. rewrite cmp_opp in Hyx.
    apply Heq; [|rewrite cmp_opp]; by destruct (cmp x y).
  - apply stable_sort_sorted.
  - apply stable_sort_sorted.
  - by rewrite !stable_sort_perm.
Qed.
End sorting.
