(* ===== verification/RustStr.v ===== *)
(** * Rust's string and number formatting operations

    The [str] and integer methods of Rust's standard library that the gateway
    calls.  A Rust string is its UTF-8 byte sequence, kept as a [string] of
    8-bit [ascii] characters; lengths and indices are byte counts, as in Rust. *)
From S2P Require Import Prelude.
From Stdlib Require Import Ascii.

(** ** Searching and slicing *)

(** [s.starts_with(p)] *)
Definition starts_with (p s : string) : bool := String.prefix p s.

(** [s.strip_prefix(p)] *)
Fixpoint strip_prefix (p s : string) : option string :=
  match p, s with
  | EmptyString, _ => Some s
  | String a p', String b s' => if decide (a = b) then strip_prefix p' s' else None
  | String _ _, EmptyString => None
  end.

(** [&s[..n]] and [&s[n..]] *)
Fixpoint str_take (n : nat) (s : string) : string :=
  match n, s with
  | S n', String a s' => String a (str_take n' s')
  | _, _ => EmptyString
  end.

Fixpoint str_drop (n : nat) (s : string) : string :=
  match n, s with
  | S n', String _ s' => str_drop n' s'
  | _, _ => s
  end.

(** [s.rfind(c)]: the index of the last [c]. *)
Fixpoint rfind (c : ascii) (s : string) : option nat :=
  match s with
  | EmptyString => None
  | String a s' =>
      match rfind c s' with
      | Some i => Some (S i)
      | None => if decide (a = c) then Some 0%nat else None
      end
  end.

(** [s.rsplitn(2, c).collect::<Vec<_>>()]: the part after the last [c], then
    the part before it; the whole string when there is no [c]. *)
Definition rsplitn2 (c : ascii) (s : string) : list string :=
  match rfind c s with
  | Some i => [str_drop (S i) s; str_take i s]
  | None => [s]
  end.

(** [s.split_once(c)]: around the first [c]. *)
Fixpoint split_once (c : ascii) (s : string) : option (string * string) :=
  match s with
  | EmptyString => None
  | String a s' =>
      if decide (a = c) then Some (EmptyString, s')
      else match split_once c s' with
           | Some (l, r) => Some (String a l, r)
           | None => None
           end
  end.

(** [s.split(c).next()]: the part before the first [c]; [split] always yields
    at least one piece. *)
Definition split_first (c : ascii) (s : string) : string :=
  match split_once c s with Some (l, _) => l | None => s end.

(** [s.contains(needle)] *)
Fixpoint str_contains (needle s : string) : bool :=
  starts_with needle s ||
  match s with EmptyString => false | String _ s' => str_contains needle s' end.

(** [v.join(sep)] *)
Fixpoint join (sep : string) (v : list string) : string :=
  match v with
  | [] => EmptyString
  | [x] => x
  | x :: v' => x +:+ sep +:+ join sep v'
  end.

Definition str_is_empty (s : string) : bool :=
  match s with EmptyString => true | String _ _ => false end.

(** ** Whitespace

    [char::is_whitespace] is Unicode's White_Space.  [ws_len s] is the number
    of bytes of the white-space character [s] begins with, 0 when it does not
    begin with one; [ws_len_rev] does the same for a reversed byte sequence. *)
Definition byte_in (lo hi : N) (a : ascii) : bool :=
  (lo <=? N_of_ascii a)%N && (N_of_ascii a <=? hi)%N.
Definition byte_is (n : N) (a : ascii) : bool := (N_of_ascii a =? n)%N.

Definition ws1 (a : ascii) : bool := byte_in 9 13 a || byte_is 32 a.
Definition ws2 (a b : ascii) : bool := byte_is 194 a && (byte_is 133 b || byte_is 160 b).
Definition ws3 (a b c : ascii) : bool :=
  (byte_is 225 a && byte_is 154 b && byte_is 128 c) ||
  (byte_is 226 a && byte_is 128 b &&
     (byte_in 128 138 c || byte_is 168 c || byte_is 169 c || byte_is 175 c)) ||
  (byte_is 226 a && byte_is 129 b && byte_is 159 c) ||
  (byte_is 227 a && byte_is 128 b && byte_is 128 c).

Definition ws_len (s : string) : nat :=
  match s with
  | EmptyString => 0
  | String a s1 =>
      if ws1 a then 1
      else match s1 with
           | EmptyString => 0
           | String b s2 =>
               if ws2 a b then 2
               else match s2 with
                    | EmptyString => 0
                    | String c _ => if ws3 a b c then 3 else 0
                    end
           end
  end%nat.

Definition ws_len_rev (s : string) : nat :=
  match s with
  | EmptyString => 0
  | String c s1 =>
      if ws1 c then 1
      else match s1 with
           | EmptyString => 0
           | String b s2 =>
               if ws2 b c then 2
               else match s2 with
                    | EmptyString => 0
                    | String a _ => if ws3 a b c then 3 else 0
                    end
           end
  end%nat.

(** Drop white space from the front; [skip] counts the bytes left of the
    white-space character being dropped. *)
Fixpoint trim_go (len : string → nat) (skip : nat) (s : string) : string :=
  match s with
  | EmptyString => EmptyString
  | String a s' =>
      match skip with
      | S k => trim_go len k s'
      | O => match len s with O => s | S k => trim_go len k s' end
      end
  end.

(** [s.trim()] *)
Definition trim (s : string) : string :=
  String.rev (trim_go ws_len_rev 0 (String.rev (trim_go ws_len 0 s))).

(** [s.split_whitespace()] *)
Fixpoint split_ws_go (skip : nat) (cur s : string) : list string :=
  match s with
  | EmptyString => if str_is_empty cur then [] else [cur]
  | String a s' =>
      match skip with
      | S k => split_ws_go k cur s'
      | O => match ws_len s with
             | O => split_ws_go 0 (cur +:+ String a EmptyString) s'
             | S k => (if str_is_empty cur then [] else [cur]) ++ split_ws_go k EmptyString s'
             end
      end
  end.
Definition split_whitespace (s : string) : list string := split_ws_go 0 EmptyString s.

(** ** ASCII case *)
Definition ascii_lower (a : ascii) : ascii :=
  if byte_in 65 90 a then ascii_of_N (N_of_ascii a + 32) else a.
Fixpoint to_ascii_lowercase (s : string) : string :=
  match s with
  | EmptyString => EmptyString
  | String a s' => String (ascii_lower a) (to_ascii_lowercase s')
  end.
Definition eq_ignore_ascii_case (s t : string) : bool :=
  bool_decide (to_ascii_lowercase s = to_ascii_lowercase t).

(** ** Numbers *)
Definition digit_val (a : ascii) : option Z :=
  if byte_in 48 57 a then Some (Z.of_N (N_of_ascii a) - 48)%Z else None.

(** The digit loop of [from_str_radix] for an unsigned type with maximum
    [max]: every step is a checked multiplication and a checked addition. *)
Fixpoint parse_digits (max acc : Z) (s : string) : option Z :=
  match s with
  | EmptyString => Some acc
  | String a s' =>
      d ← digit_val a;
      if (max <? acc * 10)%Z then None
      else if (max <? acc * 10 + d)%Z then None
      else parse_digits max (acc * 10 + d)%Z s'
  end.

(** [s.parse::<uN>()]: empty and lone-sign inputs fail, one leading ['+'] is
    accepted, ['-'] is an invalid digit of an unsigned type. *)
Definition parse_uint (max : Z) (s : string) : option Z :=
  match s with
  | EmptyString => None
  | String a EmptyString => if byte_is 43 a then None else parse_digits max 0 s
  | String a s' => if byte_is 43 a then parse_digits max 0 s' else parse_digits max 0 s
  end.
Definition parse_u16 : string → option Z := parse_uint u16_max.
Definition parse_u32 : string → option Z := parse_uint u32_max.

(** [n.to_string()] / [format!("{n}")] *)
Definition fmt_int (n : Z) : string := pretty n.

(** [format!("{n:0w$}")]: zero-padding to width [w]. *)
Fixpoint zeros (n : nat) : string :=
  match n with O => EmptyString | S k => String "0" (zeros k) end.
Definition fmt_int_pad (w : nat) (n : Z) : string :=
  zeros (w - String.length (fmt_int n)) +:+ fmt_int n.

(** [format!("{n:08x}")] for a [u32]: eight hexadecimal digits. *)
Definition hex_digit (n : Z) : ascii :=
  if (n <? 10)%Z then ascii_of_N (Z.to_N (48 + n)) else ascii_of_N (Z.to_N (87 + n)).
Fixpoint fmt_hex_go (k : nat) (n : Z) (s : string) : string :=
  match k with
  | O => s
  | S k' => fmt_hex_go k' (Z.shiftr n 4) (String (hex_digit (Z.land n 15)) s)
  end.
Definition fmt_hex8 (n : Z) : string := fmt_hex_go 8 n EmptyString.

(** ** String order

    [Ord] for [String] compares bytes lexicographically. *)
Definition str_cmp (s t : string) : comparison := String.compare s t.

Fixpoint strs_cmp (v w : list string) : comparison :=
  match v, w with
  | [], [] => Eq
  | [], _ => Lt
  | _, [] => Gt
  | x :: v', y :: w' => match str_cmp x y with Eq => strs_cmp v' w' | c => c end
  end.

(** [v.sort()] on a [Vec<String>] *)
Definition sort_strings (v : list string) : list string := stable_sort str_cmp v.

(** ** [String::from_utf8_lossy]

    Every maximal invalid prefix of a sequence becomes U+FFFD. *)
Definition replacement (rest : string) : string :=
  String (ascii_of_N 239) (String (ascii_of_N 191) (String (ascii_of_N 189) rest)).
Definition cont : ascii → bool := byte_in 128 191.
(** The second byte of a three-byte and of a four-byte sequence. *)
Definition second3 (b c : ascii) : bool :=
  (byte_is 224 b && byte_in 160 191 c) || (byte_in 225 236 b && cont c) ||
  (byte_is 237 b && byte_in 128 159 c) || (byte_in 238 239 b && cont c).
Definition second4 (b c : ascii) : bool :=
  (byte_is 240 b && byte_in 144 191 c) || (byte_in 241 243 b && cont c) ||
  (byte_is 244 b && byte_in 128 143 c).

Fixpoint from_utf8_lossy (s : string) : string :=
  match s with
  | EmptyString => EmptyString
  | String b s1 =>
      if byte_in 0 127 b then String b (from_utf8_lossy s1)
      else match s1 with
      | EmptyString => replacement EmptyString
      | String c s2 =>
          if byte_in 194 223 b then
            if cont c then String b (String c (from_utf8_lossy s2))
            else replacement (from_utf8_lossy s1)
          else if second3 b c then
            match s2 with
            | EmptyString => replacement EmptyString
            | String d s3 =>
                if cont d then String b (String c (String d (from_utf8_lossy s3)))
                else replacement (from_utf8_lossy s2)
            end
          else if second4 b c then
            match s2 with
            | EmptyString => replacement EmptyString
            | String d s3 =>
                if cont d then
                  match s3 with
                  | EmptyString => replacement EmptyString
                  | String e s4 =>
                      if cont e
                      then String b (String c (String d (String e (from_utf8_lossy s4))))
                      else replacement (from_utf8_lossy s3)
                  end
                else replacement (from_utf8_lossy s2)
            end
          else replacement (from_utf8_lossy s1)
      end
  end.

(** The bytes of a string as a list, for membership statements. *)
Definition bytes (s : string) : list ascii := String.list_ascii_of_string s.

(** ** Lemmas *)
Lemma str_app_nil_l s : EmptyString +:+ s = s.
Proof. done. Qed.

Lemma str_app_cons a s t : String a s +:+ t = String a (s +:+ t).
Proof. done. Qed.

Lemma str_app_nil_r s : s +:+ EmptyString = s.
Proof. induction s as [|a s IH]; [done|]. by rewrite str_app_cons, IH. Qed.

Lemma str_app_assoc s t u : (s +:+ t) +:+ u = s +:+ t +:+ u.
Proof. induction s as [|a s IH]; [done|]. by rewrite !str_app_cons, IH. Qed.

Lemma str_length_app s t : String.length (s +:+ t) = (String.length s + String.length t)%nat.
Proof. induction s as [|a s IH]; [done|]. rewrite str_app_cons. simpl. by rewrite IH. Qed.

Lemma bytes_app s t : bytes (s +:+ t) = bytes s ++ bytes t.
Proof.
  unfold bytes. induction s as [|a s IH]; [done|]. rewrite str_app_cons. simpl. by rewrite IH.
Qed.

Lemma str_app_inj_l s t u : s +:+ t = s +:+ u → t = u.
Proof. induction s as [|a s IH]; [done|]. rewrite !str_app_cons. intros [= ?]. auto. Qed.

Lemma str_is_empty_true s : str_is_empty s = true ↔ s = EmptyString.
Proof. by destruct s. Qed.

Lemma str_is_empty_false s : str_is_empty s = false ↔ s ≠ EmptyString.
Proof. by destruct s. Qed.

Lemma starts_with_app p t : starts_with p (p +:+ t) = true.
Proof.
  unfold starts_with. induction p as [|a p IH]; [by destruct t|].
  rewrite str_app_cons. simpl. by destruct (ascii_dec a a).
Qed.

Lemma starts_with_iff p s : starts_with p s = true ↔ ∃ t, s = p +:+ t.
Proof.
  split; [|by intros [t ->]; apply starts_with_app].
  unfold starts_with. revert s. induction p as [|a p IH]; intros s; [by exists s|].
  destruct s as [|b s]; simpl; [done|]. destruct (ascii_dec a b) as [->|]; [|done].
  intros [t ->]%IH. by exists t.
Qed.

Lemma rfind_None c s : rfind c s = None ↔ c ∉ bytes s.
Proof.
  unfold bytes. induction s as [|a s IH]; simpl; [set_solver|].
  destruct (rfind c s) eqn:E.
  - split; [done|]. intros Hn. destruct IH as [_ IH]. discriminate IH. set_solver.
  - case_decide; set_solver.
Qed.

Lemma rfind_Some c s i : rfind c s = Some i →
  s = str_take i s +:+ String c (str_drop (S i) s) ∧ c ∉ bytes (str_drop (S i) s).
Proof.
  revert i. induction s as [|a s IH]; intros i; simpl; [done|].
  destruct (rfind c s) as [j|] eqn:E.
  - intros [= <-]. destruct (IH j eq_refl) as [H1 H2]. split; [|done].
    simpl. rewrite str_app_cons. f_equal. exact H1.
  - case_decide; [|done]. intros [= <-]. subst. split; [done|].
    simpl. replace (str_drop 0 s) with s by by destruct s. by apply rfind_None.
Qed.

Lemma rfind_app_last c h t : c ∉ bytes t → rfind c (h +:+ String c t) = Some (String.length h).
Proof.
  intros Ht. induction h as [|a h IH].
  - apply rfind_None in Ht. rewrite str_app_nil_l. simpl. rewrite Ht.
    by rewrite decide_True.
  - rewrite str_app_cons. simpl. by rewrite IH.
Qed.

Lemma str_take_app h t : str_take (String.length h) (h +:+ t) = h.
Proof.
  induction h as [|a h IH]; [by destruct t|]. rewrite str_app_cons. simpl. by rewrite IH.
Qed.

Lemma str_drop_app h c t : str_drop (S (String.length h)) (h +:+ String c t) = t.
Proof.
  induction h as [|a h IH]; [by destruct t|]. rewrite str_app_cons. simpl in *. done.
Qed.

(** The two readings of a ["host:port"] string that the code uses agree. *)
Lemma rsplitn2_app c h t : c ∉ bytes t → rsplitn2 c (h +:+ String c t) = [t; h].
Proof.
  intros Ht. unfold rsplitn2. rewrite rfind_app_last by done.
  by rewrite str_drop_app, str_take_app.
Qed.

(** *** Decimal printing and parsing *)
Lemma digit_val_pretty x : (x < 10)%N → digit_val (pretty_N_char x) = Some (Z.of_N x).
Proof.
  intros Hx.
  assert (x = 0 ∨ x = 1 ∨ x = 2 ∨ x = 3 ∨ x = 4 ∨ x = 5 ∨ x = 6 ∨ x = 7 ∨ x = 8 ∨ x = 9)%N
    by lia.
  by destruct_or!; subst.
Qed.

Lemma parse_digits_step max acc a s d :
  digit_val a = Some d → (0 ≤ d)%Z → (acc * 10 + d ≤ max)%Z →
  parse_digits max acc (String a s) = parse_digits max (acc * 10 + d) s.
Proof.
  intros Ha Hd Hmax. cbn [parse_digits]. rewrite Ha. cbn [mbind option_bind].
  rewrite !(proj2 (Z.ltb_ge max _)) by lia. done.
Qed.

(** Printing [x] in front of [s] and parsing the whole continues at [s] with
    the accumulator multiplied up; [x ≤ max] keeps every step in range. *)
Lemma parse_digits_pretty_go max x s :
  (Z.of_N x ≤ max)%Z →
  (x = 0%N → False) →
  parse_digits max 0 (pretty_N_go x s) = parse_digits max (Z.of_N x) s.
Proof.
  revert s. induction (N.lt_wf_0 x) as [x _ IH]; intros s Hmax Hx.
  rewrite pretty_N_go_step by lia.
  pose proof (N.div_mod x 10 ltac:(lia)) as Hdm.
  pose proof (N.mod_lt x 10 ltac:(lia)) as Hlt.
  pose proof (digit_val_pretty _ Hlt) as Hdig.
  assert (x `div` 10 < x)%N as Hdiv by (apply N.div_lt; lia).
  revert Hdm Hlt Hdig Hdiv. generalize (x `div` 10)%N (x `mod` 10)%N.
  intros q r Hdm Hlt Hdig Hdiv.
  destruct (decide (q = 0)%N) as [->|Hz].
  - rewrite pretty_N_go_0. rewrite (parse_digits_step _ _ _ _ _ Hdig) by lia.
    f_equal. lia.
  - rewrite IH by lia. rewrite (parse_digits_step _ _ _ _ _ Hdig) by lia.
    f_equal. lia.
Qed.

Lemma pretty_N_go_digits x s :
  (∀ a, a ∈ bytes s → is_Some (digit_val a)) →
  ∀ a, a ∈ bytes (pretty_N_go x s) → is_Some (digit_val a).
Proof.
  revert s. induction (N.lt_wf_0 x) as [x _ IH]; intros s Hs.
  destruct (decide (x = 0)%N) as [->|Hx]; [by rewrite pretty_N_go_0|].
  rewrite pretty_N_go_step by lia. apply IH; [apply N.div_lt; lia|].
  intros a. unfold bytes. simpl. rewrite elem_of_cons. intros [->|]; [|by apply Hs].
  rewrite digit_val_pretty; [by eexists|]. apply N.mod_lt. lia.
Qed.

Lemma fmt_int_pos n : (0 < n)%Z → fmt_int n = pretty_N_go (Z.to_N n) EmptyString.
Proof.
  intros Hn. unfold fmt_int. destruct n as [|p|p]; [lia| |lia]. simpl.
  change (pretty (Z.pos p)) with (pretty (N.pos p)). unfold pretty, pretty_N.
  by rewrite decide_False.
Qed.

Lemma fmt_int_digits n a : (0 ≤ n)%Z → a ∈ bytes (fmt_int n) → is_Some (digit_val a).
Proof.
  intros Hn. destruct (decide (n = 0)%Z) as [->|Hz].
  - unfold bytes, fmt_int. vm_compute. intros H. inversion H; subst; [by eexists|].
    match goal with HH : _ ∈ [] |- _ => inversion HH end.
  - rewrite fmt_int_pos by lia. apply pretty_N_go_digits. intros ?. unfold bytes. set_solver.
Qed.

Lemma fmt_int_nonempty n : (0 ≤ n)%Z → fmt_int n ≠ EmptyString.
Proof.
  intros Hn Heq. destruct (decide (n = 0)%Z) as [->|]; [by vm_compute in Heq|].
  rewrite fmt_int_pos in Heq by lia.
  pose proof (parse_digits_pretty_go n (Z.to_N n) EmptyString ltac:(lia) ltac:(lia)) as Hp.
  rewrite Heq in Hp. simpl in Hp. injection Hp. lia.
Qed.

(** Parsing what was printed gives the number back. *)
Lemma parse_fmt_int max n : (0 ≤ n ≤ max)%Z → parse_uint max (fmt_int n) = Some n.
Proof.
  intros Hn.
  assert (Hpd : parse_digits max 0 (fmt_int n) = Some n).
  { destruct (decide (n = 0)%Z) as [->|Hz].
    - unfold fmt_int. change (pretty 0%Z) with (String "0" EmptyString).
      by rewrite (parse_digits_step _ _ _ _ 0) by (done || lia).
    - rewrite fmt_int_pos by lia. rewrite parse_digits_pretty_go by lia. simpl. f_equal. lia. }
  destruct (fmt_int n) as [|a s] eqn:E.
  { by apply fmt_int_nonempty in E; [|lia]. }
  assert (byte_is 43 a = false) as Ha.
  { destruct (byte_is 43 a) eqn:Hb; [|done]. unfold byte_is in Hb. apply N.eqb_eq in Hb.
    destruct (fmt_int_digits n a) as [d Hd]; [lia|rewrite E; unfold bytes; set_solver|].
    unfold digit_val, byte_in in Hd. rewrite Hb in Hd. done. }
  unfold parse_uint. rewrite Ha. by destruct s.
Qed.

Lemma parse_digits_range max acc s n :
  (0 ≤ acc ≤ max)%Z → parse_digits max acc s = Some n → (0 ≤ n ≤ max)%Z.
Proof.
  revert acc. induction s as [|a s IH]; intros acc Hacc; simpl; [by intros [= <-]|].
  unfold digit_val. destruct (byte_in 48 57 a) eqn:Hb; simpl; [|done].
  unfold byte_in in Hb. apply andb_true_iff in Hb as [Hlo%N.leb_le Hhi%N.leb_le].
  destruct (Z.ltb_spec max (acc * 10)); [done|].
  destruct (Z.ltb_spec max (acc * 10 + (Z.of_N (N_of_ascii a) - 48))); [done|].
  apply IH. lia.
Qed.

Lemma parse_uint_range max s n : (0 ≤ max)%Z → parse_uint max s = Some n → (0 ≤ n ≤ max)%Z.
Proof.
  intros Hmax. unfold parse_uint. destruct s as [|a [|b s]]; [done| |];
    destruct (byte_is 43 a); try done; apply parse_digits_range; lia.
Qed.

Lemma fmt_hex_go_length k n s : String.length (fmt_hex_go k n s) = (k + String.length s)%nat.
Proof. revert n s. induction k as [|k IH]; intros n s; simpl; [done|]. rewrite IH. simpl. lia. Qed.

(** *** Order on strings *)
Lemma str_cmp_refl s : str_cmp s s = Eq.
Proof.
  unfold str_cmp. induction s as [|a s IH]; simpl; [done|].
  unfold Ascii.compare. by rewrite N.compare_refl.
Qed.

Lemma str_cmp_eq s t : str_cmp s t = Eq ↔ s = t.
Proof. split; [apply String.compare_eq_iff|]. intros ->. apply str_cmp_refl. Qed.

Lemma str_cmp_le s t : str_cmp s t ≠ Gt ↔ String.le s t.
Proof. unfold str_cmp, String.le, String.leb. by destruct (String.compare s t). Qed.

Global Instance str_cmp_order : CmpOrder str_cmp.
Proof.
  split.
  - intros s t u. rewrite !str_cmp_le. apply PreOrder_Transitive.
  - intros s t. unfold str_cmp. rewrite (String.compare_antisym t s).
    by destruct (String.compare s t).
Qed.

Lemma strs_cmp_eq v w : strs_cmp v w = Eq ↔ v = w.
Proof.
  revert w. induction v as [|x v IH]; intros [|y w]; simpl; try done.
  destruct (str_cmp x y) eqn:E.
  - apply str_cmp_eq in E as ->. rewrite IH. naive_solver.
  - split; [done|]. intros [= -> ->]. by rewrite str_cmp_refl in E.
  - split; [done|]. intros [= -> ->]. by rewrite str_cmp_refl in E.
Qed.

Global Instance strs_cmp_order : CmpOrder strs_cmp.
Proof.
  split.
  - intros v. induction v as [|x v IH]; intros [|y w] [|z u]; simpl; try done.
    destruct (str_cmp x y) eqn:Exy; [apply str_cmp_eq in Exy as ->|..]; [|intros _|done].
    + destruct (str_cmp y z); [apply IH|done..].
    + intros Hyz. rewrite (cmp_lt_le_trans str_cmp x y z); [done|done|].
      by destruct (str_cmp y z).
  - intros v. induction v as [|x v IH]; intros [|y w]; simpl; try done.
    rewrite (cmp_opp x y). destruct (str_cmp x y); simpl; auto.
Qed.

Lemma sort_strings_perm v : sort_strings v ≡ₚ v.
Proof. apply stable_sort_perm. Qed.

(** Sorting canonicalises: two lists sort to the same list exactly when one
    is a permutation of the other. *)
Lemma sort_strings_eq v w : sort_strings v = sort_strings w ↔ v ≡ₚ w.
Proof.
  split.
  - intros Heq. by rewrite <-(sort_strings_perm v), Heq, sort_strings_perm.
  - intros Hp. apply (stable_sort_unique str_cmp); [|done].
    intros x y Hxy _. by apply str_cmp_eq.
Qed.

(** *** Splitting at the first separator *)
Lemma split_once_None c s : c ∉ bytes s → split_once c s = None.
Proof.
  unfold bytes. induction s as [|a s IH]; [done|]. cbn [split_once String.list_ascii_of_string].
  rewrite not_elem_of_cons. intros [Hne Hs]. rewrite decide_False by done. by rewrite IH.
Qed.

Lemma split_once_app c s t : c ∉ bytes s → split_once c (s +:+ String c t) = Some (s, t).
Proof.
  unfold bytes. induction s as [|a s IH].
  - intros _. rewrite str_app_nil_l. simpl. by rewrite decide_True.
  - cbn [String.list_ascii_of_string]. rewrite not_elem_of_cons, str_app_cons. intros [Hne Hs].
    cbn [split_once]. rewrite decide_False by done. by rewrite IH.
Qed.

Lemma split_once_Some c s a b :
  split_once c s = Some (a, b) → s = a +:+ String c b ∧ c ∉ bytes a.
Proof.
  revert a; induction s as [|x s IH]; simpl; intros a H; [done|].
  case_match; simplify_eq/=.
  - split; [done|set_solver].
  - destruct (split_once c s) as [[a' b']|]; simplify_eq/=.
    destruct (IH a') as [-> Hn]; [done|]. split; [done|]. set_solver.
Qed.

Lemma not_digit_not_in_int c n : (0 ≤ n)%Z → digit_val c = None → c ∉ bytes (fmt_int n).
Proof. intros Hn Hc Hin. destruct (fmt_int_digits n c Hn Hin) as [d Hd]. congruence. Qed.
