(* ===== verification/F64.v ===== *)
(** * Rust's [f64]

    IEEE 754 binary64 with round-to-nearest-even, as the executable
    specification [SpecFloat] at precision 53 and maximal exponent 1024, and
    the [f64] methods and casts the gateway uses. *)
From S2P Require Import Prelude.
From Stdlib Require Export SpecFloat.

Notation f64 := spec_float.

Definition f64_prec : Z := 53.
Definition f64_emax : Z := 1024.

Definition f64_add : f64 → f64 → f64 := SFadd f64_prec f64_emax.
Definition f64_sub : f64 → f64 → f64 := SFsub f64_prec f64_emax.
Definition f64_mul : f64 → f64 → f64 := SFmul f64_prec f64_emax.
Definition f64_div : f64 → f64 → f64 := SFdiv f64_prec f64_emax.

(** Comparison operators; every one of them is [false] on a NaN. *)
Definition f64_lt (x y : f64) : bool := SFltb x y.
Definition f64_le (x y : f64) : bool := SFleb x y.
Definition f64_gt (x y : f64) : bool := SFltb y x.
Definition f64_ge (x y : f64) : bool := SFleb y x.

(** [n as f64] for an integer [n]: rounds to the nearest double. *)
Definition f64_of_int (n : Z) : f64 := binary_normalize f64_prec f64_emax n 0 false.

Definition f64_zero : f64 := S754_zero false.
Definition f64_one : f64 := S754_finite false 4503599627370496 (-52).

(** [x.min(y)]: a NaN argument is ignored. *)
Definition f64_min (x y : f64) : f64 :=
  match x, y with
  | S754_nan, _ => y
  | _, S754_nan => x
  | _, _ => if f64_lt y x then y else x
  end.

(** The integer part of a finite value, rounded down. *)
Definition dyadic_floor (s : bool) (m : positive) (e : Z) : Z :=
  if (0 <=? e)%Z then cond_Zopp s (Z.pos m * 2 ^ e)
  else cond_Zopp s (Z.pos m) / 2 ^ (- e).

(** [x.floor()] and [x.ceil()]; a zero result keeps the sign of [x]. *)
Definition f64_floor (x : f64) : f64 :=
  match x with
  | S754_finite s m e =>
      if (0 <=? e)%Z then x
      else let z := dyadic_floor s m e in
           if (z =? 0)%Z then S754_zero s else f64_of_int z
  | _ => x
  end.
Definition f64_ceil (x : f64) : f64 :=
  match x with
  | S754_finite s m e =>
      if (0 <=? e)%Z then x
      else let z := (- dyadic_floor (negb s) m e)%Z in
           if (z =? 0)%Z then S754_zero s else f64_of_int z
  | _ => x
  end.

(** [x as uN]: truncates toward zero and saturates; a NaN gives 0. *)
Definition f64_as_uint (max : Z) (x : f64) : Z :=
  match x with
  | S754_nan | S754_zero _ | S754_infinity true => 0
  | S754_infinity false => max
  | S754_finite true _ _ => 0
  | S754_finite false m e => Z.min max (dyadic_floor false m e)
  end.
Definition f64_as_u64 : f64 → Z := f64_as_uint u64_max.

Global Instance f64_eq_dec : EqDecision f64.
Proof. solve_decision. Defined.

Definition is_nan (x : f64) : bool := match x with S754_nan => true | _ => false end.

(** A value of the type [f64]: a finite one has a canonical mantissa. *)
Definition f64_valid (x : f64) : Prop := valid_binary f64_prec f64_emax x = true.
