(* ===== verification/F64Theory.v ===== *)
(** * Rounding theory for [f64]

    The facts about binary64 arithmetic the rate limiter relies on, proved from
    the executable specification: the result of a rounding is canonical,
    rounding is exact on representable values and never passes a representable
    value, comparison agrees with the order of values, and integers below
    [2^53] are added, subtracted and converted exactly. *)
From S2P Require Import Prelude F64.

Local Open Scope Z_scope.

(** ** Values

    [sc m e] is the value [m * 2^e] scaled by [2^4000]; every exponent that
    occurs in the operations is above [-4000]. *)
Definition sc (m e : Z) : Z := m * 2 ^ (e + 4000).

Definition fexp64 (e : Z) : Z := Z.max (e - 53) (-1074).

(** Canonical pairs of mantissa and exponent. *)
Definition canon (m e : Z) : Prop := 0 < m ∧ fexp64 (Zdigits2 m + e) = e.

(** A non-negative value, in particular not a NaN. *)
Definition nonneg (x : f64) : Prop :=
  match x with
  | S754_zero _ => True
  | S754_finite s _ _ | S754_infinity s => s = false
  | S754_nan => False
  end.

Definition is_finite (x : f64) : bool :=
  match x with S754_zero _ | S754_finite _ _ _ => true | _ => false end.

(** A rounded mantissa [m], at most [2^53], at exponent [e]. *)
Definition pack (s : bool) (m e : Z) : f64 :=
  if m =? 0 then S754_zero s
  else if m =? 2 ^ 53 then
    if e + 1 <=? 971 then S754_finite s (2 ^ 52)%positive (e + 1) else S754_infinity s
  else if e <=? 971 then S754_finite s (Z.to_pos m) e else S754_infinity s.

Lemma fexp_64 e : fexp f64_prec f64_emax e = fexp64 e.
Proof. reflexivity. Qed.

(** ** Digits *)
Lemma digits2_pos_bounds m :
  2 ^ (Z.pos (digits2_pos m) - 1) ≤ Z.pos m < 2 ^ Z.pos (digits2_pos m).
Proof.
  induction m as [m IH|m IH|]; cbn [digits2_pos]; [| |done].
  all: rewrite Pos2Z.inj_succ; replace (Z.succ _ - 1) with (Z.succ (Z.pos (digits2_pos m) - 1)) by lia;
    rewrite !Z.pow_succ_r by lia; lia.
Qed.

Lemma Zdigits2_bounds m : 0 < m → 2 ^ (Zdigits2 m - 1) ≤ m < 2 ^ Zdigits2 m.
Proof. intros Hm. destruct m as [|m|]; try lia. apply digits2_pos_bounds. Qed.

Lemma Zdigits2_pos m : 0 < m → 0 < Zdigits2 m.
Proof. destruct m; simpl; lia. Qed.

Lemma pow2_lt_inv a b : 0 ≤ b → 2 ^ a < 2 ^ b → a < b.
Proof. intros Hb H. apply (Z.pow_lt_mono_r_iff 2); lia. Qed.

(** The number of digits is determined by the power-of-two bracket. *)
Lemma Zdigits2_unique m d : 0 < m → 1 ≤ d → 2 ^ (d - 1) ≤ m < 2 ^ d → Zdigits2 m = d.
Proof.
  intros Hm Hd H. pose proof (Zdigits2_bounds m Hm) as Hb. pose proof (Zdigits2_pos m Hm).
  assert (d - 1 < Zdigits2 m) by (apply pow2_lt_inv; lia).
  assert (Zdigits2 m - 1 < d) by (apply pow2_lt_inv; lia). lia.
Qed.

Lemma Zdigits2_le m d : 0 < m → 0 ≤ d → m < 2 ^ d → Zdigits2 m ≤ d.
Proof.
  intros Hm Hd H. pose proof (Zdigits2_bounds m Hm). pose proof (Zdigits2_pos m Hm).
  assert (Zdigits2 m - 1 < d) by (apply pow2_lt_inv; lia). lia.
Qed.

Lemma Zdigits2_ge m d : 0 < m → 1 ≤ d → 2 ^ (d - 1) ≤ m → d ≤ Zdigits2 m.
Proof.
  intros Hm Hd H. pose proof (Zdigits2_bounds m Hm). pose proof (Zdigits2_pos m Hm).
  assert (d - 1 < Zdigits2 m) by (apply pow2_lt_inv; lia). lia.
Qed.

Lemma Zdigits2_shift m k : 0 < m → 0 ≤ k → Zdigits2 (m * 2 ^ k) = Zdigits2 m + k.
Proof.
  intros Hm Hk. pose proof (Zdigits2_bounds m Hm). pose proof (Zdigits2_pos m Hm).
  pose proof (Z.pow_pos_nonneg 2 k ltac:(lia) Hk).
  apply Zdigits2_unique; [lia..|].
  replace (Zdigits2 m + k - 1) with (Zdigits2 m - 1 + k) by lia.
  rewrite !Z.pow_add_r by lia. nia.
Qed.

(** ** Shifting right *)
Lemma iter_pos_ind {A} (f : A → A) (P : Z → A → Prop) :
  (∀ n x, P n x → P (n + 1) (f x)) → ∀ p n x, P n x → P (n + Z.pos p) (iter_pos f p x).
Proof.
  intros Hf. induction p as [p IH|p IH|]; intros n x Hx; cbn [iter_pos].
  - replace (n + Z.pos p~1) with (n + 1 + Z.pos p + Z.pos p) by lia. auto.
  - replace (n + Z.pos p~0) with (n + Z.pos p + Z.pos p) by lia. auto.
  - auto.
Qed.

(** After [n] shifts the record holds the quotient by [2^n]; when no bit and
    no location was lost the remainder is zero. *)
Definition shifted (exact : bool) (m n : Z) (r : shr_record) : Prop :=
  0 ≤ n ∧ shr_m r = m / 2 ^ n ∧
  (exact = true → loc_of_shr_record r = loc_Exact ↔ m mod 2 ^ n = 0).

Lemma loc_exact_iff r : loc_of_shr_record r = loc_Exact ↔ shr_r r = false ∧ shr_s r = false.
Proof. destruct r as [? [] []]; simpl; naive_solver. Qed.

Lemma shr_1_m r : 0 ≤ shr_m r → shr_m (shr_1 r) = shr_m r / 2.
Proof.
  intros Hm. destruct r as [m rr s]; cbn [shr_m] in Hm.
  destruct m as [|[p|p|]|]; cbn [shr_1 shr_m]; try lia; try reflexivity.
  - rewrite (Pos2Z.inj_xI p). Z.to_euclidean_division_equations; lia.
  - rewrite (Pos2Z.inj_xO p). Z.to_euclidean_division_equations; lia.
Qed.

Lemma shr_1_loc r :
  0 ≤ shr_m r →
  loc_of_shr_record (shr_1 r) = loc_Exact ↔ loc_of_shr_record r = loc_Exact ∧ shr_m r mod 2 = 0.
Proof.
  intros Hm. rewrite !loc_exact_iff. destruct r as [m rr s]; cbn [shr_m] in Hm.
  assert (∀ p, Z.pos p~1 mod 2 ≠ 0) as H1.
  { intros p. rewrite (Pos2Z.inj_xI p). intros H. Z.to_euclidean_division_equations; lia. }
  assert (∀ p, Z.pos p~0 mod 2 = 0) as H0.
  { intros p. rewrite (Pos2Z.inj_xO p). Z.to_euclidean_division_equations; lia. }
  destruct m as [|[p|p|]|]; try lia; cbn [shr_1 shr_m shr_r shr_s]; rewrite orb_false_iff.
  - naive_solver.
  - specialize (H1 p). naive_solver.
  - specialize (H0 p). naive_solver.
  - naive_solver.
Qed.

Lemma div2_pow m n : 0 ≤ n → m / 2 ^ n / 2 = m / 2 ^ (n + 1).
Proof. intros Hn. rewrite Z.pow_add_r, Z.div_div by lia. done. Qed.

Lemma mod2_pow m n : 0 ≤ n → (m mod 2 ^ n = 0 ∧ (m / 2 ^ n) mod 2 = 0) ↔ m mod 2 ^ (n + 1) = 0.
Proof.
  intros Hn. rewrite Z.pow_add_r, Z.rem_mul_r by lia.
  pose proof (Z.mod_pos_bound m (2 ^ n) ltac:(lia)).
  pose proof (Z.mod_pos_bound (m / 2 ^ n) 2 ltac:(lia)). change (2 ^ 1) with 2. nia.
Qed.

Lemma shr_1_shifted b m n r : 0 ≤ m → shifted b m n r → shifted b m (n + 1) (shr_1 r).
Proof.
  intros Hm (Hn & Hr & Hl).
  assert (0 ≤ shr_m r) by (rewrite Hr; apply Z.div_pos; lia).
  split; [lia|]. split; [by rewrite shr_1_m, Hr, div2_pow|].
  intros Hb. rewrite shr_1_loc, (Hl Hb), Hr by done. by apply mod2_pow.
Qed.

Lemma shr_shifted (b : bool) m e l n :
  0 ≤ m → (b = true → l = loc_Exact) →
  let '(r, e') := shr (shr_record_of_loc m l) e n in
  shifted b m (Z.max 0 n) r ∧ e' = e + Z.max 0 n.
Proof.
  intros Hm Hl.
  assert (shifted b m 0 (shr_record_of_loc m l)) as H0.
  { split; [done|]. rewrite Z.pow_0_r, Z.div_1_r, Z.mod_1_r.
    split; [by destruct l as [|[]]|]. intros ->. by rewrite Hl. }
  unfold shr. destruct n as [|p|p]; [split; [done|lia]..| |split; [done|lia]].
  split; [|lia]. change (Z.max 0 (Z.pos p)) with (0 + Z.pos p).
  apply iter_pos_ind; [|done]. intros k r. by apply shr_1_shifted.
Qed.

(** ** Rounding *)
Lemma round_nearest_even_cases m l :
  (round_nearest_even m l = m ∨ round_nearest_even m l = m + 1) ∧
  (l = loc_Exact → round_nearest_even m l = m).
Proof. destruct l as [|[]]; simpl; try (destruct (Z.even m)); split; auto; done. Qed.

(** The quotient at the target exponent has at most 53 digits, and exactly 53
    above the minimal exponent. *)
Lemma quotient_digits m e :
  0 < m → e ≤ fexp64 (Zdigits2 m + e) →
  let E := fexp64 (Zdigits2 m + e) in
  m / 2 ^ (E - e) < 2 ^ 53 ∧ (E = -1074 ∨ 2 ^ 52 ≤ m / 2 ^ (E - e)).
Proof.
  intros Hm He E. pose proof (Zdigits2_bounds m Hm) as [Hlo Hhi]. unfold fexp64 in *.
  assert (0 < 2 ^ (E - e)) by (apply Z.pow_pos_nonneg; lia).
  split.
  - apply Z.div_lt_upper_bound; [done|]. rewrite <-Z.pow_add_r by lia.
    eapply Z.lt_le_trans; [exact Hhi|]. apply Z.pow_le_mono_r; lia.
  - destruct (Z.le_gt_cases E (-1074)); [left; lia|right].
    apply Z.div_le_lower_bound; [done|]. rewrite <-Z.pow_add_r by lia.
    replace (E - e + 52) with (Zdigits2 m - 1) by lia. done.
Qed.

Lemma fexp64_small m E : 0 < m → m < 2 ^ 53 → -1074 ≤ E → fexp64 (Zdigits2 m + E) ≤ E.
Proof. intros Hm Hlt HE. pose proof (Zdigits2_le m 53 Hm ltac:(lia) Hlt). unfold fexp64. lia. Qed.

(** The second shift renormalises a mantissa that reached [2^53]. *)
Lemma second_shift s m E :
  0 ≤ m ≤ 2 ^ 53 → -1074 ≤ E →
  (let '(r, e') := shr_fexp f64_prec f64_emax m E loc_Exact in
   match shr_m r with
   | Z0 => S754_zero s
   | Zpos m' => if e' <=? f64_emax - f64_prec then S754_finite s m' e' else S754_infinity s
   | _ => S754_nan
   end) = pack s m E.
Proof.
  intros Hm HE. unfold shr_fexp. rewrite fexp_64. unfold pack.
  destruct (Z.eqb_spec m 0) as [->|Hz].
  { cbn [Zdigits2]. replace (fexp64 (0 + E) - E) with (Z.max (-53) (-1074 - E)) by (unfold fexp64; lia).
    unfold shr. by destruct (Z.max (-53) (-1074 - E)) eqn:?; try lia. }
  destruct (Z.eqb_spec m (2 ^ 53)) as [->|H53].
  { replace (Zdigits2 (2 ^ 53)) with 54 by reflexivity.
    replace (fexp64 (54 + E) - E) with 1 by (unfold fexp64; lia). reflexivity. }
  pose proof (fexp64_small m E ltac:(lia) ltac:(lia) HE).
  unfold shr. destruct (fexp64 (Zdigits2 m + E) - E) eqn:?; try lia; by destruct m; try lia.
Qed.

Lemma round_aux_spec (b s : bool) m e l :
  0 ≤ m → (b = true → l = loc_Exact) → e ≤ fexp64 (Zdigits2 m + e) →
  let E := fexp64 (Zdigits2 m + e) in
  ∃ M, (M = m / 2 ^ (E - e) ∨ M = m / 2 ^ (E - e) + 1) ∧
    (b = true → m mod 2 ^ (E - e) = 0 → M = m / 2 ^ (E - e)) ∧
    0 ≤ M ≤ 2 ^ 53 ∧ binary_round_aux f64_prec f64_emax s m e l = pack s M E.
Proof.
  intros Hm Hl He E. unfold binary_round_aux.
  pose proof (shr_shifted b m e l (E - e) Hm Hl) as Hsh.
  unfold shr_fexp at 1. rewrite fexp_64.
  change (fexp64 (Zdigits2 m + e)) with E.
  destruct (shr (shr_record_of_loc m l) e (E - e)) as [r e'].
  destruct Hsh as [(_ & Hq & Hx) ->]. replace (Z.max 0 (E - e)) with (E - e) in * by lia.
  replace (e + (E - e)) with E by lia.
  destruct (round_nearest_even_cases (shr_m r) (loc_of_shr_record r)) as [Hc He'].
  exists (round_nearest_even (shr_m r) (loc_of_shr_record r)). rewrite Hq in *.
  assert (0 ≤ m / 2 ^ (E - e) < 2 ^ 53) as Hbd.
  { destruct (decide (m = 0)) as [->|]; [rewrite Z.div_0_l; [lia|apply Z.pow_nonzero; lia]|].
    split; [apply Z.div_pos; [done|apply Z.pow_pos_nonneg; lia]|].
    by apply quotient_digits; [lia|]. }
  split_and!; [done| |lia|lia|].
  - intros Hb Hmod. apply He'. by apply Hx.
  - apply second_shift; [lia|]. unfold E, fexp64. lia.
Qed.

(** Packing a rounded mantissa gives a valid number. *)
Lemma bounded_64 m e :
  bounded f64_prec f64_emax m e = true ↔ fexp64 (Z.pos (digits2_pos m) + e) = e ∧ e ≤ 971.
Proof.
  unfold bounded, canonical_mantissa. rewrite fexp_64, andb_true_iff, Z.eqb_eq, Z.leb_le.
  change (f64_emax - f64_prec) with 971. done.
Qed.

Lemma pack_valid s M E :
  0 ≤ M ≤ 2 ^ 53 → -1074 ≤ E → (E = -1074 ∨ 2 ^ 52 ≤ M) → f64_valid (pack s M E).
Proof.
  intros HM HE Hn. unfold pack, f64_valid.
  destruct (Z.eqb_spec M 0); [done|]. destruct (Z.eqb_spec M (2 ^ 53)) as [->|].
  - destruct (Z.leb_spec (E + 1) 971); [|done]. simpl. apply bounded_64. split; [|done].
    change (Z.pos (digits2_pos (2 ^ 52))) with 53. unfold fexp64. lia.
  - destruct (Z.leb_spec E 971); [|done]. simpl. apply bounded_64. split; [|done].
    change (Z.pos (digits2_pos (Z.to_pos M))) with (Zdigits2 (Z.pos (Z.to_pos M))).
    rewrite Z2Pos.id by lia.
    pose proof (Zdigits2_le M 53 ltac:(lia) ltac:(lia) ltac:(lia)). unfold fexp64.
    destruct Hn as [->|Hn]; [lia|].
    pose proof (Zdigits2_ge M 53 ltac:(lia) ltac:(lia) ltac:(done)). lia.
Qed.

Lemma pack_nonneg M E : nonneg (pack false M E).
Proof. unfold pack. by destruct (M =? 0), (M =? 2 ^ 53), (E + 1 <=? 971), (E <=? 971). Qed.

(** Rounding a non-negative mantissa gives a valid non-negative number. *)
Lemma round_aux_valid s m e l :
  0 ≤ m → e ≤ fexp64 (Zdigits2 m + e) → f64_valid (binary_round_aux f64_prec f64_emax s m e l).
Proof.
  intros Hm He. destruct (round_aux_spec false s m e l Hm ltac:(done) He) as (M & HM & _ & Hb & ->).
  destruct (decide (m = 0)) as [->|].
  { rewrite Z.div_0_l in HM by (apply Z.pow_nonzero; lia).
    assert (fexp64 (Zdigits2 0 + e) = -1074) as -> by (unfold fexp64 in *; simpl in *; lia).
    by destruct HM as [-> | ->]; destruct s. }
  apply pack_valid; [done|unfold fexp64; lia|].
  destruct (quotient_digits m e) as [_ Hq]; [lia|done|]. lia.
Qed.

Lemma round_aux_nonneg m e l :
  0 ≤ m → e ≤ fexp64 (Zdigits2 m + e) → nonneg (binary_round_aux f64_prec f64_emax false m e l).
Proof.
  intros Hm He. destruct (round_aux_spec false false m e l Hm ltac:(done) He) as (M & _ & _ & _ & ->).
  apply pack_nonneg.
Qed.

(** ** Comparison and values *)
Lemma sc_pow m e k : 0 ≤ k → -4000 ≤ e → sc (m * 2 ^ k) e = sc m (e + k).
Proof.
  intros Hk He. unfold sc. replace (e + k + 4000) with (k + (e + 4000)) by lia.
  rewrite (Z.pow_add_r 2 k) by lia. ring.
Qed.

Lemma sc_le m1 m2 e : -4000 ≤ e → sc m1 e ≤ sc m2 e ↔ m1 ≤ m2.
Proof.
  intros He. unfold sc. pose proof (Z.pow_pos_nonneg 2 (e + 4000) ltac:(lia) ltac:(lia)). nia.
Qed.

Lemma sc_lt m1 m2 e : -4000 ≤ e → sc m1 e < sc m2 e ↔ m1 < m2.
Proof.
  intros He. unfold sc. pose proof (Z.pow_pos_nonneg 2 (e + 4000) ltac:(lia) ltac:(lia)). nia.
Qed.

Lemma canon_bounds m e :
  canon m e → -1074 ≤ e ∧ m < 2 ^ 53 ∧ (e = -1074 ∨ 2 ^ 52 ≤ m).
Proof.
  intros [Hm He]. pose proof (Zdigits2_bounds m Hm) as [Hlo Hhi]. unfold fexp64 in He.
  assert (Zdigits2 m ≤ 53) by lia. split_and!; [lia| |].
  - eapply Z.lt_le_trans; [exact Hhi|]. apply Z.pow_le_mono_r; lia.
  - destruct (Z.eq_dec e (-1074)) as [->|]; [by left|right].
    assert (Zdigits2 m = 53) as Hd by lia. by rewrite Hd in Hlo.
Qed.

(** A larger exponent means a larger value. *)
Lemma canon_exp_lt m1 e1 m2 e2 : canon m1 e1 → canon m2 e2 → e1 < e2 → sc m1 e1 < sc m2 e2.
Proof.
  intros H1 H2 He. apply canon_bounds in H1 as (? & ? & _). apply canon_bounds in H2 as (? & ? & H2).
  assert (sc m2 e2 = sc (m2 * 2 ^ (e2 - e1)) e1) as -> by (rewrite sc_pow by lia; f_equal; lia).
  apply sc_lt; [lia|].
  assert (2 ^ 1 ≤ 2 ^ (e2 - e1)) by (apply Z.pow_le_mono_r; lia). lia.
Qed.

Lemma compare_value m1 e1 m2 e2 :
  canon (Z.pos m1) e1 → canon (Z.pos m2) e2 →
  SFcompare (S754_finite false m1 e1) (S754_finite false m2 e2) =
  Some (sc (Z.pos m1) e1 ?= sc (Z.pos m2) e2).
Proof.
  intros H1 H2. cbn [SFcompare]. f_equal.
  pose proof (canon_bounds _ _ H1) as (He1 & _). pose proof (canon_bounds _ _ H2) as (He2 & _).
  destruct (Z.compare_spec e1 e2) as [->|Hlt|Hgt].
  - change (Pos.compare_cont Eq m1 m2) with (Z.pos m1 ?= Z.pos m2).
    destruct (Z.compare_spec (Z.pos m1) (Z.pos m2)) as [->|?|?]; symmetry.
    + apply Z.compare_refl.
    + apply Z.compare_lt_iff. apply sc_lt; lia.
    + apply Z.compare_gt_iff. apply sc_lt; lia.
  - symmetry. apply Z.compare_lt_iff. by apply canon_exp_lt.
  - symmetry. apply Z.compare_gt_iff. by apply canon_exp_lt.
Qed.

Lemma valid_canon s m e : f64_valid (S754_finite s m e) ↔ canon (Z.pos m) e ∧ e ≤ 971.
Proof.
  unfold f64_valid, canon. cbn [valid_binary Zdigits2]. rewrite bounded_64.
  split; [intros [? ?]; split_and!; done || lia|naive_solver].
Qed.

(** ** Rounding and representable values

    [shl_align] brings a mantissa to a smaller exponent without changing its
    value. *)
Lemma iter_xO m d : Z.pos (Pos.iter xO m d) = Z.pos m * 2 ^ Z.pos d.
Proof.
  revert m. induction d as [|d IH] using Pos.peano_ind; intros m; [simpl; lia|].
  rewrite Pos.iter_succ, Pos2Z.inj_xO, IH, Pos2Z.inj_succ, Z.pow_succ_r by lia. lia.
Qed.

Lemma shl_align_spec m e e' :
  e' ≤ e → Z.pos (fst (shl_align m e e')) = Z.pos m * 2 ^ (e - e') ∧ snd (shl_align m e e') = e'.
Proof.
  intros He. unfold shl_align. destruct (e' - e) eqn:Hd; try lia.
  - replace (e - e') with 0 by lia. simpl. split; lia.
  - replace (e - e') with (Z.pos p) by lia. simpl. by rewrite iter_xO.
Qed.

Lemma shl_align_ge m e e' : e ≤ e' → shl_align m e e' = (m, e).
Proof. intros He. unfold shl_align. by destruct (e' - e) eqn:Hd; try lia. Qed.

(** [binary_round] rounds an aligned mantissa of the same value. *)
Lemma binary_round_aligned s m e :
  -4000 ≤ e →
  ∃ m' e', binary_round f64_prec f64_emax s m e =
             binary_round_aux f64_prec f64_emax s (Z.pos m') e' loc_Exact ∧
    -4000 ≤ e' ∧ e' ≤ fexp64 (Zdigits2 (Z.pos m') + e') ∧ sc (Z.pos m') e' = sc (Z.pos m) e.
Proof.
  intros He. unfold binary_round. rewrite fexp_64.
  change (Z.pos (digits2_pos m)) with (Zdigits2 (Z.pos m)).
  set (E := fexp64 (Zdigits2 (Z.pos m) + e)).
  destruct (Z.le_gt_cases e E) as [Hle|Hgt].
  - rewrite shl_align_ge by done. exists m, e. done.
  - destruct (shl_align_spec m e E ltac:(lia)) as [H1 H2].
    destruct (shl_align m e E) as [m' e'] eqn:Ha. simpl in H1, H2. subst e'.
    assert (-1074 ≤ E) by (unfold E, fexp64; lia).
    exists m', E. split; [done|]. split; [lia|].
    rewrite H1, Zdigits2_shift by lia. split; [unfold E, fexp64 in *; lia|].
    rewrite sc_pow by lia. f_equal. lia.
Qed.

Lemma sc_eq_shift m1 e1 m2 e2 :
  -4000 ≤ e1 → e1 ≤ e2 → sc m1 e1 = sc m2 e2 → m1 = m2 * 2 ^ (e2 - e1).
Proof.
  intros He1 He H. assert (sc m2 e2 = sc (m2 * 2 ^ (e2 - e1)) e1) as Heq
    by (rewrite sc_pow by lia; f_equal; lia).
  rewrite Heq in H. unfold sc in H. apply Z.mul_cancel_r in H; [done|].
  apply Z.pow_nonzero; lia.
Qed.

(** The position of the leading digit is determined by the value. *)
Lemma sc_digits m1 e1 m2 e2 :
  0 < m1 → 0 < m2 → -4000 ≤ e1 → -4000 ≤ e2 → sc m1 e1 = sc m2 e2 →
  Zdigits2 m1 + e1 = Zdigits2 m2 + e2.
Proof.
  intros H1 H2 He1 He2 H. destruct (Z.le_ge_cases e1 e2).
  - rewrite (sc_eq_shift m1 e1 m2 e2), Zdigits2_shift by lia. lia.
  - rewrite (sc_eq_shift m2 e2 m1 e1), Zdigits2_shift by lia. lia.
Qed.

(** Rounding is exact on representable values. *)
Lemma round_exact s m e my ey :
  -4000 ≤ e → canon (Z.pos my) ey → ey ≤ 971 → sc (Z.pos m) e = sc (Z.pos my) ey →
  binary_round f64_prec f64_emax s m e = S754_finite s my ey.
Proof.
  intros He Hc Hmax Hval. pose proof (canon_bounds _ _ Hc) as (Hmin & Hlt & _).
  destruct (binary_round_aligned s m e He) as (m' & e' & -> & He' & Hal & Hv').
  rewrite Hval in Hv'. 
  assert (Zdigits2 (Z.pos m') + e' = Zdigits2 (Z.pos my) + ey) as Hd by (apply sc_digits; lia).
  destruct (round_aux_spec true s (Z.pos m') e' loc_Exact ltac:(lia) ltac:(done) Hal)
    as (M & _ & Hex & _ & ->).
  destruct Hc as [_ Hc]. rewrite Hd, Hc in *.
  pose proof (sc_eq_shift (Z.pos m') e' (Z.pos my) ey He' Hal Hv') as Hm'.
  assert (2 ^ (ey - e') ≠ 0) by (apply Z.pow_nonzero; lia).
  rewrite Hm' in Hex. rewrite Z.mod_mul, Z.div_mul in Hex by done.
  rewrite Hex by done. unfold pack.
  destruct (Z.eqb_spec (Z.pos my) 0); [lia|]. destruct (Z.eqb_spec (Z.pos my) (2 ^ 53)); [lia|].
  destruct (Z.leb_spec ey 971); [done|lia].
Qed.

(** The value of a packed number: zero, the rounded value, or an overflow. *)
Lemma pack_cases s M E :
  0 ≤ M ≤ 2 ^ 53 → -1074 ≤ E → (E = -1074 ∨ 2 ^ 52 ≤ M) →
  (M = 0 ∧ pack s M E = S754_zero s) ∨
  (∃ m e, pack s M E = S754_finite s m e ∧ canon (Z.pos m) e ∧ sc (Z.pos m) e = sc M E) ∨
  (pack s M E = S754_infinity s ∧ sc (2 ^ 53) 971 ≤ sc M E).
Proof.
  intros HM HE Hn. pose proof (pack_valid s M E HM HE Hn) as Hv. unfold pack in *.
  destruct (Z.eqb_spec M 0); [by left|]. right.
  destruct (Z.eqb_spec M (2 ^ 53)) as [->|].
  - destruct (Z.leb_spec (E + 1) 971).
    + left. do 2 eexists. split; [done|]. split; [by apply valid_canon in Hv as [? _]|].
      change (Z.pos (2 ^ 52)) with (2 ^ 52). rewrite <-sc_pow by lia. done.
    + right. split; [done|]. unfold sc. apply Z.mul_le_mono_nonneg_l; [lia|].
      apply Z.pow_le_mono_r; lia.
  - destruct (Z.leb_spec E 971).
    + left. do 2 eexists. split; [done|]. split; [by apply valid_canon in Hv as [? _]|].
      by rewrite Z2Pos.id by lia.
    + right. split; [done|]. assert (2 ^ 52 ≤ M) by lia.
      assert (sc M E = sc (M * 2 ^ (E - 971)) 971) as -> by (rewrite sc_pow by lia; f_equal; lia).
      apply sc_le; [lia|]. assert (2 ^ 1 ≤ 2 ^ (E - 971)) by (apply Z.pow_le_mono_r; lia). lia.
Qed.

(** The rounded mantissa does not pass a representable value above it. *)
Lemma rounded_le_repr m e M my ey :
  let E := fexp64 (Zdigits2 (Z.pos m) + e) in
  -4000 ≤ e → e ≤ E → canon (Z.pos my) ey → sc (Z.pos m) e ≤ sc (Z.pos my) ey →
  (M = Z.pos m / 2 ^ (E - e) ∨ M = Z.pos m / 2 ^ (E - e) + 1) →
  (Z.pos m mod 2 ^ (E - e) = 0 → M = Z.pos m / 2 ^ (E - e)) →
  sc M E ≤ sc (Z.pos my) ey.
Proof.
  intros E He HE Hc Hle HM Hex. pose proof (canon_bounds _ _ Hc) as (Hmin & Hlt & _).
  destruct (quotient_digits (Z.pos m) e) as [_ Hq]; [done..|]. fold E in Hq.
  assert (0 < 2 ^ (E - e)) as Hp by (apply Z.pow_pos_nonneg; lia).
  pose proof (Z.div_mod (Z.pos m) (2 ^ (E - e)) ltac:(lia)) as Hdm.
  pose proof (Z.mod_pos_bound (Z.pos m) (2 ^ (E - e)) Hp) as Hmb.
  set (q := Z.pos m / 2 ^ (E - e)) in *.
  destruct (Z.le_gt_cases E ey) as [Hey|Hey].
  - assert (∀ e0, e0 ≤ ey → -4000 ≤ e0 →
      sc (Z.pos my) ey = sc (Z.pos my * 2 ^ (ey - e0)) e0) as Hsh
      by (intros; rewrite sc_pow by lia; f_equal; lia).
    rewrite (Hsh E) by (unfold E, fexp64 in *; lia). apply sc_le; [unfold E, fexp64 in *; lia|].
    rewrite (Hsh e) in Hle by lia. apply sc_le in Hle; [|done].
    replace (ey - e) with ((ey - E) + (E - e)) in Hle by lia.
    rewrite Z.pow_add_r in Hle by lia. set (Y := 2 ^ (ey - E)) in *.
    destruct (Z.eq_dec (Z.pos m mod 2 ^ (E - e)) 0) as [H0|H0]; [rewrite (Hex H0)|]; nia.
  - exfalso. assert (2 ^ 52 ≤ q) by (unfold E, fexp64 in *; lia).
    assert (sc (2 ^ 52) E ≤ sc (Z.pos m) e).
    { replace E with (e + (E - e)) by lia. rewrite <-sc_pow by lia. apply sc_le; [done|].
      replace (e + (E - e) - e) with (E - e) by lia. nia. }
    assert (sc (2 ^ 53) ey ≤ sc (2 ^ 52) E).
    { change (2 ^ 53) with (2 ^ 52 * 2 ^ 1). rewrite sc_pow by lia. unfold sc.
      apply Z.mul_le_mono_nonneg_l; [lia|]. apply Z.pow_le_mono_r; lia. }
    assert (sc (Z.pos my) ey < sc (2 ^ 53) ey) by (apply sc_lt; lia). lia.
Qed.

(** Rounding a positive value that is at most a representable number gives a
    number that is at most that number. *)
Lemma round_le_repr m e my ey :
  -4000 ≤ e → canon (Z.pos my) ey → ey ≤ 971 → sc (Z.pos m) e ≤ sc (Z.pos my) ey →
  f64_le (binary_round f64_prec f64_emax false m e) (S754_finite false my ey) = true.
Proof.
  intros He Hc Hmax Hle. destruct (binary_round_aligned false m e He) as (m' & e' & -> & He' & Hal & Hv).
  rewrite <-Hv in Hle.
  destruct (round_aux_spec true false (Z.pos m') e' loc_Exact ltac:(lia) ltac:(done) Hal)
    as (M & HM & Hex & Hb & ->).
  pose proof (rounded_le_repr m' e' M my ey He' Hal Hc Hle HM (Hex eq_refl)) as Hr.
  pose proof (canon_bounds _ _ Hc) as (Hmin & Hlt & _).
  destruct (quotient_digits (Z.pos m') e') as [_ Hq]; [done..|].
  destruct (pack_cases false M (fexp64 (Zdigits2 (Z.pos m') + e')))
    as [[_ ->]|[(m1 & e1 & -> & Hc1 & Hv1)|[-> Hinf]]]; [done|unfold fexp64; lia|lia|done| |].
  - unfold f64_le, SFleb. rewrite compare_value, Hv1 by done.
    destruct (Z.compare_spec (sc M (fexp64 (Zdigits2 (Z.pos m') + e'))) (sc (Z.pos my) ey)); [done..|lia].
  - exfalso. assert (sc (Z.pos my) ey < sc (2 ^ 53) 971); [|lia].
    eapply Z.lt_le_trans; [apply (sc_lt _ (2 ^ 53)); lia|].
    unfold sc. apply Z.mul_le_mono_nonneg_l; [lia|]. apply Z.pow_le_mono_r; lia.
Qed.

(** ** Order *)
Lemma f64_le_refl x : is_nan x = false → f64_le x x = true.
Proof.
  unfold f64_le, SFleb. destruct x as [s|[]| |[] m e]; cbn [SFcompare is_nan]; try done; intros _;
    rewrite Z.compare_refl; change (Pos.compare_cont Eq m m) with (Pos.compare m m);
    by rewrite Pos.compare_refl.
Qed.

Lemma f64_lt_total x y :
  is_nan x = false → is_nan y = false → f64_lt y x = false → f64_le x y = true.
Proof.
  unfold f64_le, f64_lt, SFleb, SFltb.
  destruct x as [|[]| |[] m e], y as [|[]| |[] m' e']; cbn [SFcompare is_nan]; try done; intros _ _;
    rewrite (Z.compare_antisym e e'); change (Pos.compare_cont Eq m m') with (Pos.compare m m');
    change (Pos.compare_cont Eq m' m) with (Pos.compare m' m); rewrite (Pos.compare_antisym m m');
    destruct (e ?= e'), (m ?= m')%positive; done.
Qed.

Lemma f64_le_trans x y z :
  nonneg x → nonneg y → f64_le x y = true → f64_le y z = true → f64_le x z = true.
Proof.
  unfold f64_le, SFleb.
  destruct x as [|?| |? m1 e1]; [..|done|]; simpl; intros Hx;
    destruct y as [|?| |? m2 e2]; try done; simpl; intros Hy; subst;
    destruct z as [|[]| |[] m3 e3]; cbn [SFcompare]; try done.
  change (Pos.compare_cont Eq m1 m2) with (Pos.compare m1 m2).
  change (Pos.compare_cont Eq m2 m3) with (Pos.compare m2 m3).
  change (Pos.compare_cont Eq m1 m3) with (Pos.compare m1 m3).
  destruct (Z.compare_spec e1 e2), (Z.compare_spec e2 e3), (Z.compare_spec e1 e3),
    (Pos.compare_spec m1 m2), (Pos.compare_spec m2 m3), (Pos.compare_spec m1 m3); intros; try done; lia.
Qed.

Lemma nonneg_not_nan x : nonneg x → is_nan x = false.
Proof. by destruct x. Qed.

Lemma nonneg_ge_zero x : nonneg x ↔ f64_le f64_zero x = true.
Proof. unfold f64_le, SFleb. destruct x as [|[]| |[]]; simpl; naive_solver. Qed.

(** ** [min] *)
Lemma f64_min_le x y : is_nan y = false → f64_le (f64_min x y) y = true.
Proof.
  intros Hy. unfold f64_min. destruct (is_nan x) eqn:Hx; [destruct x; try done; by apply f64_le_refl|].
  assert ((match x, y with S754_nan, _ => y | _, S754_nan => x
           | _, _ => if f64_lt y x then y else x end) = if f64_lt y x then y else x) as ->
    by (by destruct x, y).
  destruct (f64_lt y x) eqn:Hlt; [by apply f64_le_refl|by apply f64_lt_total].
Qed.

Lemma f64_min_either x y : f64_min x y = x ∧ is_nan x = false ∨ f64_min x y = y.
Proof. unfold f64_min. destruct x, y; simpl; try (destruct (f64_lt _ _)); auto. Qed.

Lemma f64_min_eq x y : f64_le x y = true → f64_min x y = x.
Proof.
  unfold f64_min, f64_le, f64_lt, SFleb, SFltb.
  destruct x as [|[]| |[] m e], y as [|[]| |[] m' e']; cbn [SFcompare]; try done;
    rewrite (Z.compare_antisym e e'); change (Pos.compare_cont Eq m m') with (Pos.compare m m');
    change (Pos.compare_cont Eq m' m) with (Pos.compare m' m); rewrite (Pos.compare_antisym m m');
    destruct (e ?= e'), (m ?= m')%positive; done.
Qed.

(** ** Arithmetic on non-negative numbers *)
Lemma normalize_nonneg z e : 0 ≤ z → -4000 ≤ e →
  nonneg (binary_normalize f64_prec f64_emax z e false) ∧
  f64_valid (binary_normalize f64_prec f64_emax z e false).
Proof.
  intros Hz He. destruct z as [|m|m]; [done| |lia]. cbn [binary_normalize].
  destruct (binary_round_aligned false m e He) as (m' & e' & -> & _ & Hal & _).
  split; [by apply round_aux_nonneg|by apply round_aux_valid].
Qed.

(** [align m e ez] as a number. *)
Lemma align_value m e ez :
  ez ≤ e → -4000 ≤ ez → sc (Z.pos (fst (shl_align m e ez))) ez = sc (Z.pos m) e.
Proof.
  intros He Hz. destruct (shl_align_spec m e ez He) as [-> _]. rewrite sc_pow by lia. f_equal. lia.
Qed.

Lemma valid_exp s m e : f64_valid (S754_finite s m e) → -1074 ≤ e ≤ 971.
Proof. intros [Hc ?]%valid_canon. apply canon_bounds in Hc as (? & _). lia. Qed.

Lemma f64_add_nonneg x y :
  nonneg x → nonneg y → f64_valid x → f64_valid y → nonneg (f64_add x y) ∧ f64_valid (f64_add x y).
Proof.
  destruct x as [s| | |s m e], y as [s'| | |s' m' e']; simpl; try done; intros Hx Hy Vx Vy; subst;
    try done; [by destruct s, s'|].
  apply valid_exp in Vx, Vy. apply normalize_nonneg; simpl; lia.
Qed.

Lemma Zdigits2_mul_ge m1 m2 :
  0 < m1 → 0 < m2 → Zdigits2 m1 + Zdigits2 m2 - 1 ≤ Zdigits2 (m1 * m2).
Proof.
  intros H1 H2. pose proof (Zdigits2_bounds m1 H1). pose proof (Zdigits2_bounds m2 H2).
  pose proof (Zdigits2_pos m1 H1). pose proof (Zdigits2_pos m2 H2).
  apply Zdigits2_ge; [lia..|].
  replace (Zdigits2 m1 + Zdigits2 m2 - 1 - 1) with ((Zdigits2 m1 - 1) + (Zdigits2 m2 - 1)) by lia.
  rewrite Z.pow_add_r by lia.
  apply Z.mul_le_mono_nonneg; try lia; apply Z.pow_nonneg; lia.
Qed.

Lemma f64_mul_nonneg x y :
  nonneg x → nonneg y → f64_valid x → f64_valid y →
  (is_nan (f64_mul x y) = false → nonneg (f64_mul x y)) ∧ f64_valid (f64_mul x y).
Proof.
  destruct x as [s| | |s m e], y as [s'| | |s' m' e']; simpl; try done; intros Hx Hy Vx Vy; subst;
    try done.
  assert (e + e' ≤ fexp64 (Zdigits2 (Z.pos (m * m')) + (e + e'))) as Hal.
  { apply valid_canon in Vx as [[_ Hc1] _], Vy as [[_ Hc2] _].
    pose proof (Zdigits2_mul_ge (Z.pos m) (Z.pos m') ltac:(lia) ltac:(lia)) as Hd.
    pose proof (Zdigits2_pos (Z.pos m) ltac:(lia)). pose proof (Zdigits2_pos (Z.pos m') ltac:(lia)).
    rewrite Pos2Z.inj_mul. unfold fexp64 in *. lia. }
  split; [intros _; by apply round_aux_nonneg|by apply round_aux_valid].
Qed.

Lemma div_core_align m1 e1 m2 e2 :
  let '(q, e', l) := SFdiv_core_binary f64_prec f64_emax (Z.pos m1) e1 (Z.pos m2) e2 in
  0 ≤ q ∧ e' ≤ fexp64 (Zdigits2 q + e').
Proof.
  unfold SFdiv_core_binary. rewrite fexp_64.
  set (d1 := Zdigits2 (Z.pos m1)). set (d2 := Zdigits2 (Z.pos m2)).
  set (e' := Z.min (fexp64 (d1 + e1 - (d2 + e2))) (e1 - e2)).
  set (s := e1 - e2 - e'). assert (0 ≤ s) as Hs by (unfold s, e'; lia).
  set (m' := match s with Z0 => Z.pos m1 | Z.pos _ => Z.shiftl (Z.pos m1) s | Z.neg _ => 0 end).
  assert (m' = Z.pos m1 * 2 ^ s) as Hm'.
  { unfold m'. destruct s eqn:E; [simpl; lia| |lia]. by rewrite Z.shiftl_mul_pow2 by lia. }
  destruct (Z.div_eucl m' (Z.pos m2)) as [q r] eqn:Hq.
  assert (q = m' / Z.pos m2) as -> by (unfold Z.div; by rewrite Hq).
  assert (0 < m') by (rewrite Hm'; pose proof (Z.pow_pos_nonneg 2 s ltac:(lia) Hs); lia).
  assert (0 ≤ m' / Z.pos m2) as Hq0 by (apply Z.div_pos; lia). split; [done|].
  assert (d1 + s - d2 ≤ Zdigits2 (m' / Z.pos m2)) as Hd.
  { destruct (Z.le_gt_cases (d1 + s - d2) 0) as [Hle|Hgt].
    { etrans; [exact Hle|]. destruct (m' / Z.pos m2); simpl; lia. }
    pose proof (Zdigits2_bounds (Z.pos m1) ltac:(lia)) as [Hlo _]. fold d1 in Hlo.
    pose proof (Zdigits2_bounds (Z.pos m2) ltac:(lia)) as [_ Hhi]. fold d2 in Hhi.
    pose proof (Zdigits2_pos (Z.pos m1) ltac:(lia)). fold d1 in H0.
    pose proof (Zdigits2_pos (Z.pos m2) ltac:(lia)). fold d2 in H1.
    assert (2 ^ (d1 + s - d2 - 1) ≤ m' / Z.pos m2) as Hle.
    { apply Z.div_le_lower_bound; [lia|]. rewrite Hm'.
      etrans; [apply Z.mul_le_mono_nonneg_r; [apply Z.pow_nonneg; lia|apply Z.lt_le_incl, Hhi]|].
      rewrite <-Z.pow_add_r by lia. replace (d2 + (d1 + s - d2 - 1)) with ((d1 - 1) + s) by lia.
      rewrite Z.pow_add_r by lia. apply Z.mul_le_mono_nonneg_r; [apply Z.pow_nonneg; lia|done]. }
    apply Zdigits2_ge; [|lia|done].
    eapply Z.lt_le_trans; [|exact Hle]. apply Z.pow_pos_nonneg; lia. }
  unfold s, e' in Hd |- *. unfold fexp64 in *. lia.
Qed.

Lemma f64_div_nonneg x m e :
  nonneg x → is_finite x = true → f64_valid x →
  nonneg (f64_div x (S754_finite false m e)) ∧ f64_valid (f64_div x (S754_finite false m e)).
Proof.
  destruct x as [s| | |s m' e']; simpl; try done; intros -> _ _.
  unfold f64_div. cbn [SFdiv].
  pose proof (div_core_align m' e' m e) as H. destruct (SFdiv_core_binary _ _ _ _ _ _) as [[q e''] l].
  destruct H. split; [by apply round_aux_nonneg|by apply round_aux_valid].
Qed.

(** Subtracting a smaller number: the result is non-negative and not above the
    minuend. *)
Lemma f64_sub_le x y :
  nonneg x → nonneg y → is_finite y = true → f64_valid x → f64_valid y → f64_le y x = true →
  nonneg (f64_sub x y) ∧ f64_valid (f64_sub x y) ∧ f64_le (f64_sub x y) x = true.
Proof.
  intros Hx Hy Fy Vx Vy Hle.
  destruct x as [s|s| |s m e], y as [s'| | |s' m' e']; simpl in Hx, Hy, Fy; subst; try done.
  { by destruct s, s'. }
  { split_and!; try done. by apply f64_le_refl. }
  pose proof (valid_exp _ _ _ Vx). pose proof (valid_exp _ _ _ Vy).
  apply valid_canon in Vx as [Cx Ex], Vy as [Cy _].
  unfold f64_le, SFleb in Hle. rewrite compare_value in Hle by done.
  assert (sc (Z.pos m') e' ≤ sc (Z.pos m) e) as Hv
    by (destruct (Z.compare_spec (sc (Z.pos m') e') (sc (Z.pos m) e)); [lia..|done]). clear Hle.
  unfold f64_sub. cbn [SFsub cond_Zopp]. set (ez := Z.min e e').
  assert (sc (Z.pos (fst (shl_align m e ez))) ez = sc (Z.pos m) e) as H1 by (apply align_value; lia).
  assert (sc (Z.pos (fst (shl_align m' e' ez))) ez = sc (Z.pos m') e') as H2 by (apply align_value; lia).
  set (X := Z.pos (fst (shl_align m e ez))) in *. set (Y := Z.pos (fst (shl_align m' e' ez))) in *.
  assert (0 ≤ X - Y) as Hd by (rewrite <-H1, <-H2 in Hv; apply sc_le in Hv; lia).
  destruct (normalize_nonneg (X - Y) ez Hd ltac:(lia)) as [Hn Hval]. split_and!; [done..|].
  destruct (X - Y) as [|d|] eqn:HXY; [done| |lia]. cbn [binary_normalize].
  apply round_le_repr; [lia|done..|]. rewrite <-H1. apply sc_le; lia.
Qed.

(** Integers are valid non-negative numbers; below [2^53] they are exact. *)
Lemma f64_of_int_nonneg n : 0 ≤ n → nonneg (f64_of_int n) ∧ f64_valid (f64_of_int n).
Proof. intros. by apply normalize_nonneg. Qed.

Lemma f64_of_int_exact n :
  0 < n < 2 ^ 53 →
  ∃ m e, f64_of_int n = S754_finite false m e ∧ canon (Z.pos m) e ∧ -52 ≤ e ≤ 0 ∧
    Z.pos m = n * 2 ^ (- e).
Proof.
  intros Hn. pose proof (Zdigits2_pos n ltac:(lia)).
  pose proof (Zdigits2_le n 53 ltac:(lia) ltac:(lia) ltac:(lia)).
  set (e := Zdigits2 n - 53).
  assert (0 < n * 2 ^ (- e)) as Hpos
    by (pose proof (Z.pow_pos_nonneg 2 (- e) ltac:(lia) ltac:(lia)); lia).
  exists (Z.to_pos (n * 2 ^ (- e))), e. rewrite Z2Pos.id by done.
  assert (canon (n * 2 ^ (- e)) e) as Hc.
  { split; [done|]. rewrite Zdigits2_shift by lia. unfold fexp64. lia. }
  split_and!; try done; try lia. destruct n as [|p|]; try lia.
  unfold f64_of_int. cbn [binary_normalize]. apply round_exact; [lia| |lia|].
  - by rewrite Z2Pos.id by done.
  - rewrite Z2Pos.id by done. rewrite sc_pow by lia. f_equal. lia.
Qed.

Lemma f64_of_int_finite n : 0 ≤ n < 2 ^ 53 → is_finite (f64_of_int n) = true.
Proof.
  intros Hn. destruct (decide (n = 0)) as [->|]; [done|].
  destruct (f64_of_int_exact n) as (m & e & -> & _); [lia|done].
Qed.

Lemma f64_one_int : f64_of_int 1 = f64_one.
Proof. reflexivity. Qed.

Lemma f64_of_int_sub_one n : 1 ≤ n < 2 ^ 53 → f64_sub (f64_of_int n) f64_one = f64_of_int (n - 1).
Proof.
  intros Hn. destruct (f64_of_int_exact n) as (m & e & -> & Hc & He & Hm); [lia|].
  unfold f64_sub, f64_one. cbn [SFsub cond_Zopp]. set (ez := Z.min e (-52)).
  assert (ez = -52) as Hez by (unfold ez; lia).
  destruct (shl_align_spec m e ez ltac:(lia)) as [HX _].
  destruct (shl_align_spec 4503599627370496 (-52) ez ltac:(lia)) as [HY _].
  rewrite HX, HY, Hm, Hez. clear HX HY.
  assert (n * 2 ^ (- e) * 2 ^ (e - -52) - 4503599627370496 * 2 ^ (-52 - -52) = (n - 1) * 2 ^ 52) as ->.
  { rewrite <-Z.mul_assoc, <-Z.pow_add_r by lia. replace (- e + (e - -52)) with 52 by lia.
    simpl. lia. }
  destruct (decide (n = 1)) as [->|]; [done|].
  destruct (f64_of_int_exact (n - 1)) as (m1 & e1 & -> & Hc1 & He1 & Hm1); [lia|].
  destruct ((n - 1) * 2 ^ 52) as [|p|] eqn:Hp; [lia| |lia]. cbn [binary_normalize].
  apply round_exact; [lia|done|lia|]. rewrite <-Hp, Hm1, !sc_pow by lia. f_equal. lia.
Qed.

Lemma f64_of_int_ge_one n : 0 ≤ n < 2 ^ 53 → f64_ge (f64_of_int n) f64_one = (1 <=? n).
Proof.
  intros Hn. destruct (decide (n = 0)) as [->|]; [done|].
  destruct (f64_of_int_exact n) as (m & e & -> & Hc & He & Hm); [lia|].
  unfold f64_ge, SFleb, f64_one. rewrite compare_value by done. rewrite Hm.
  rewrite sc_pow by lia. replace (e + - e) with 0 by lia.
  change 4503599627370496 with (1 * 2 ^ 52). rewrite sc_pow by lia. change (-52 + 52) with 0.
  destruct (Z.leb_spec 1 n); [|lia].
  destruct (Z.compare_spec (sc 1 0) (sc n 0)) as [|?|Hgt]; [done..|].
  apply (sc_lt n 1 0) in Hgt; lia.
Qed.

Lemma f64_of_int_le n k : 0 ≤ n ≤ k → k < 2 ^ 53 → f64_le (f64_of_int n) (f64_of_int k) = true.
Proof.
  intros Hn Hk. destruct (decide (n = 0)) as [->|].
  { apply nonneg_ge_zero, f64_of_int_nonneg. lia. }
  destruct (f64_of_int_exact n) as (m & e & -> & Hc & He & Hm); [lia|].
  destruct (f64_of_int_exact k) as (m' & e' & -> & Hc' & He' & Hm'); [lia|].
  unfold f64_le, SFleb. rewrite compare_value, Hm, Hm', !sc_pow by done || lia.
  replace (e + - e) with 0 by lia. replace (e' + - e') with 0 by lia.
  destruct (Z.compare_spec (sc n 0) (sc k 0)) as [|?|Hgt]; [done..|].
  apply (sc_lt k n 0) in Hgt; lia.
Qed.

Lemma f64_floor_int n : 0 ≤ n < 2 ^ 53 → f64_floor (f64_of_int n) = f64_of_int n.
Proof.
  intros Hn. destruct (decide (n = 0)) as [->|]; [done|].
  destruct (f64_of_int_exact n) as (m & e & Heq & Hc & He & Hm); [lia|].
  rewrite Heq at 1. cbn [f64_floor]. destruct (Z.leb_spec 0 e); [done|].
  assert (dyadic_floor false m e = n) as ->.
  { unfold dyadic_floor. cbn [cond_Zopp]. rewrite Hm. destruct (Z.leb_spec 0 e); [lia|].
    rewrite Z.div_mul; [done|]. apply Z.pow_nonzero; lia. }
  by destruct (Z.eqb_spec n 0); [lia|].
Qed.

(** Reading an integer back. *)
Lemma f64_floor_of_int n : 0 ≤ n < 2 ^ 53 → f64_as_u64 (f64_floor (f64_of_int n)) = n.
Proof.
  intros Hn. rewrite f64_floor_int by done. destruct (decide (n = 0)) as [->|]; [done|].
  destruct (f64_of_int_exact n) as (m & e & -> & Hc & He & Hm); [lia|].
  unfold f64_as_u64, dyadic_floor. cbn [f64_as_uint cond_Zopp]. unfold dyadic_floor.
  cbn [cond_Zopp]. rewrite Hm. unfold u64_max. destruct (Z.leb_spec 0 e).
  - assert (e = 0) as -> by lia. simpl. lia.
  - rewrite Z.div_mul; [lia|]. apply Z.pow_nonzero; lia.
Qed.
