(* ===== verification/Yaml.v ===== *)
(** * The YAML library

    [serde_yaml] is a dependency, so the gateway's use of it is an interface:
    [YamlLib] has the types and operations the code calls, [YamlLaws] the
    documented behaviour the theorems rely on (a mapping returns what was
    inserted last under a key; the constructors of [Value] are told apart by
    its accessors).  [yaml_model] is an implementation by association lists
    that satisfies the laws; witnesses evaluate on it. *)
From S2P Require Import Prelude.

Class YamlLib := {
  (** [serde_yaml::Value], [serde_yaml::Mapping] and [serde_yaml::Error] *)
  Value : Type;
  Mapping : Type;
  YamlError : Type;
  VString : string → Value;
  VBool : bool → Value;
  (** [Value::Number(Number::from(n))] for a [u64] *)
  VNumber : Z → Value;
  VSequence : list Value → Value;
  VMapping : Mapping → Value;
  (** [Mapping::new()] and [m.insert(key, value)] *)
  Mapping_new : Mapping;
  Mapping_insert : Mapping → Value → Value → Mapping;
  (** [serde_yaml::to_value(Mapping::new())] and the test for the mapping variant *)
  to_value_mapping : Mapping → result YamlError Value;
  as_mapping : Value → option Mapping;
  (** [serde_yaml::to_string(&v)] *)
  yaml_to_string : Value → result YamlError string;
  yaml_error_to_string : YamlError → string;
  (** Accessors: [v.get(key)], [v.as_str()], [v.as_u64()], [v.as_bool()],
      [v.as_sequence()] *)
  vget : Value → string → option Value;
  as_str : Value → option string;
  as_u64_num : Value → option Z;
  as_bool : Value → option bool;
  as_sequence : Value → option (list Value)
}.

Class YamlLaws (Y : YamlLib) : Prop := {
  vget_new k : vget (VMapping Mapping_new) k = None;
  vget_insert_eq m k v : vget (VMapping (Mapping_insert m (VString k) v)) k = Some v;
  vget_insert_ne m k k' v :
    k ≠ k' → vget (VMapping (Mapping_insert m (VString k) v)) k' = vget (VMapping m) k';
  as_str_string s : as_str (VString s) = Some s;
  as_u64_number n : as_u64_num (VNumber n) = Some n;
  as_bool_bool b : as_bool (VBool b) = Some b;
  as_sequence_seq l : as_sequence (VSequence l) = Some l;
  to_value_mapping_ok m : to_value_mapping m = Ok (VMapping m);
  as_mapping_mapping m : as_mapping (VMapping m) = Some m
}.

(** [v["a"]["b"]] is [path v ["a"; "b"]]; indices of sequences are taken with
    [seq_at]. *)
Definition path `{YamlLib} (v : Value) (ks : list string) : option Value :=
  foldl (λ o k, o ≫= λ v, vget v k) (Some v) ks.
Definition seq_at `{YamlLib} (i : nat) (v : Value) : option Value :=
  as_sequence v ≫= λ l, l !! i.

(** ** A model of the interface *)
Module YamlModel.
Inductive value :=
  | MStr (s : string) | MBool (b : bool) | MNum (n : Z)
  | MSeq (l : list value) | MMap (l : list (value * value)).

Definition key_is (k : string) (v : value) : bool :=
  match v with MStr s => bool_decide (s = k) | _ => false end.

Definition insert_str (k : string) (v : value) (m : list (value * value)) : list (value * value) :=
  filter (λ kv, key_is k kv.1 = false) m ++ [(MStr k, v)].

Definition insert (m : list (value * value)) (k v : value) : list (value * value) :=
  match k with MStr s => insert_str s v m | _ => m ++ [(k, v)] end.

Definition get (v : value) (k : string) : option value :=
  match v with
  | MMap m => snd <$> iter_find (λ kv, key_is k kv.1) m
  | _ => None
  end.

Global Instance yaml_model : YamlLib := {|
  Value := value; Mapping := list (value * value); YamlError := string;
  VString := MStr; VBool := MBool; VNumber := MNum; VSequence := MSeq; VMapping := MMap;
  Mapping_new := []; Mapping_insert := insert;
  to_value_mapping m := Ok (MMap m);
  as_mapping v := match v with MMap m => Some m | _ => None end;
  yaml_to_string _ := Ok "yaml"; yaml_error_to_string e := e;
  vget := get;
  as_str v := match v with MStr s => Some s | _ => None end;
  as_u64_num v := match v with MNum n => Some n | _ => None end;
  as_bool v := match v with MBool b => Some b | _ => None end;
  as_sequence v := match v with MSeq l => Some l | _ => None end
|}.

Lemma find_app_last (k : string) v m :
  iter_find (λ kv : value * value, key_is k kv.1) (filter (λ kv, key_is k kv.1 = false) m ++ [(MStr k, v)])
  = Some (MStr k, v).
Proof.
  induction m as [|[k' v'] m IH]; simpl.
  - by rewrite bool_decide_eq_true_2.
  - rewrite filter_cons. case_decide as Hk; simpl in *; [|done]. by rewrite Hk.
Qed.

Lemma find_app_other (k k' : string) v (m : list (value * value)) :
  k ≠ k' →
  iter_find (λ kv, key_is k' kv.1) (filter (λ kv, key_is k kv.1 = false) m ++ [(MStr k, v)])
  = iter_find (λ kv, key_is k' kv.1) m.
Proof.
  intros Hne. induction m as [|[k1 v1] m IH]; simpl.
  - by rewrite bool_decide_eq_false_2.
  - rewrite filter_cons. case_decide as Hk; simpl in *; [by rewrite IH|].
    destruct (key_is k' k1) eqn:Hk1; [|done]. destruct k1; simpl in *; try done.
    apply bool_decide_eq_true in Hk1. destruct (bool_decide (s = k)) eqn:Hs; [|done].
    apply bool_decide_eq_true in Hs. congruence.
Qed.

Global Instance yaml_model_laws : YamlLaws yaml_model.
Proof.
  split; try done; intros; simpl.
  - unfold insert, insert_str. by rewrite find_app_last.
  - unfold insert, insert_str. by rewrite find_app_other.
Qed.
End YamlModel.
