(* ===== verification/ConfigTypes.v ===== *)
(** * Configuration data

    The structs of [shared/src/config_types.rs] and the error types of
    [shared/src/config_error.rs] and [shared/src/error.rs], one Module per
    struct so that fields keep their names.  Unsigned fields are [Z] (the
    deserialiser only yields values in range, see [DeserializeSpec]), [f64]
    fields are binary64 values, [serde_yaml::Value] is the abstract [Value]. *)
From S2P Require Import Prelude RustStr F64 Yaml.

(** ** Structs *)
Module GatewayServer.
Record GatewayServer := mk {
  listen_address : string;
  admin_address : string;
  request_timeout_ms : Z;
  idle_timeout_ms : Z;
  max_request_body_bytes : Z;
  trust_forwarded_headers : bool;
  extauthz_address : option string;
  max_concurrent_requests : option Z
}.
End GatewayServer.

Module AuthProvider.
Record AuthProvider := mk {
  name : string;
  issuer : string;
  audience : string;
  jwks_uri : string;
  cache_ttl_seconds : Z;
  clock_skew_seconds : Z
}.
End AuthProvider.

Module AuthConfig.
Record AuthConfig := mk { providers : list AuthProvider.AuthProvider }.
End AuthConfig.

Module SurvivabilityMode.
Record SurvivabilityMode := mk {
  enabled : bool;
  fallback_capacity : Z;
  fallback_refill_rate_per_sec : f64
}.
End SurvivabilityMode.

Module RateLimitsConfig.
Record RateLimitsConfig := mk {
  redis_address : string;
  redis_db : Z;
  redis_key_prefix : string;
  default_timeout_ms : Z;
  fail_open : bool;
  survivability_mode : SurvivabilityMode.SurvivabilityMode
}.
End RateLimitsConfig.

Module RouteRateLimit.
Record RouteRateLimit := mk {
  bucket_capacity : Z;
  refill_rate_per_sec : f64;
  key_by : string
}.
End RouteRateLimit.

Module UpstreamConfig.
Record UpstreamConfig := mk {
  service : string;
  request_timeout_ms : Z;
  retries : Z
}.
End UpstreamConfig.

Module HealthCheckConfig.
Record HealthCheckConfig := mk {
  path : string;
  interval_ms : Z;
  timeout_ms : Z
}.
End HealthCheckConfig.

Module ServiceConfig.
Record ServiceConfig := mk {
  name : string;
  endpoints : list string;
  health_check : HealthCheckConfig.HealthCheckConfig
}.
End ServiceConfig.

Module TracingConfig.
Record TracingConfig := mk {
  enabled : bool;
  otlp_endpoint : string;
  sample_rate : f64
}.
End TracingConfig.

Module ObservabilityConfig.
Record ObservabilityConfig := mk {
  access_log_json : bool;
  prometheus_enabled : bool;
  tracing : TracingConfig.TracingConfig
}.
End ObservabilityConfig.

Definition default_true : bool := true.
Definition default_fail_mode : string := "closed".
Definition default_plugin_max_memory_bytes : Z := 8 * 1024 * 1024.
Definition default_plugin_max_instructions : Z := 1000000.
Definition default_plugin_chain_timeout_ms : Z := 50.
Definition default_xds_listen_address : string := "0.0.0.0:18000".
Definition default_ext_proc_listen_address : string := "0.0.0.0:19000".

Module PluginLimits.
Record PluginLimits := mk {
  max_memory_bytes : Z;
  max_instructions : Z;
  chain_timeout_ms : Z
}.
Definition PluginLimits_default : PluginLimits := {|
  max_memory_bytes := default_plugin_max_memory_bytes;
  max_instructions := default_plugin_max_instructions;
  chain_timeout_ms := default_plugin_chain_timeout_ms
|}.
End PluginLimits.

Module PluginInstance.
Record PluginInstance `{YamlLib} := mk {
  name : string;
  enabled : bool;
  fail_mode : string;
  config : Value
}.
Arguments mk {_}.
End PluginInstance.

Module RouteConfig.
Record RouteConfig `{YamlLib} := mk {
  name : string;
  hostnames : list string;
  path_prefix : string;
  methods : list string;
  auth_required : bool;
  auth_provider : option string;
  required_scopes : option (list string);
  rate_limit : RouteRateLimit.RouteRateLimit;
  upstream : UpstreamConfig.UpstreamConfig;
  plugins : list PluginInstance.PluginInstance
}.
Arguments mk {_}.
End RouteConfig.

Module PluginsConfig.
Record PluginsConfig `{YamlLib} := mk {
  enabled : bool;
  directory : string;
  limits : PluginLimits.PluginLimits;
  global : list PluginInstance.PluginInstance
}.
Arguments mk {_}.
(** [#[derive(Default)]] *)
Definition PluginsConfig_default `{YamlLib} : PluginsConfig := {|
  enabled := false; directory := EmptyString; limits := PluginLimits.PluginLimits_default; global := []
|}.
End PluginsConfig.

Module XdsConfig.
Record XdsConfig := mk { enabled : bool; listen_address : string }.
Definition XdsConfig_default : XdsConfig := {|
  enabled := false; listen_address := default_xds_listen_address
|}.
End XdsConfig.

Module ExtProcConfig.
Record ExtProcConfig := mk { enabled : bool; listen_address : string }.
Definition ExtProcConfig_default : ExtProcConfig := {|
  enabled := false; listen_address := default_ext_proc_listen_address
|}.
End ExtProcConfig.

Module GatewayConfig.
Record GatewayConfig `{YamlLib} := mk {
  version : Z;
  gateway : GatewayServer.GatewayServer;
  auth : AuthConfig.AuthConfig;
  rate_limits : RateLimitsConfig.RateLimitsConfig;
  routes : list RouteConfig.RouteConfig;
  services : list ServiceConfig.ServiceConfig;
  observability : ObservabilityConfig.ObservabilityConfig;
  plugins : PluginsConfig.PluginsConfig;
  xds : XdsConfig.XdsConfig;
  ext_proc : ExtProcConfig.ExtProcConfig
}.
Arguments mk {_}.
End GatewayConfig.

Export AuthProvider(AuthProvider) RouteConfig(RouteConfig) ServiceConfig(ServiceConfig)
  GatewayConfig(GatewayConfig) PluginInstance(PluginInstance) PluginLimits(PluginLimits)
  RateLimitsConfig(RateLimitsConfig).

(** ** Errors *)
Inductive ConfigError :=
  | InvalidVersion (expected actual : Z)
  | DuplicateName (kind name : string)
  | UnknownReference (field target_kind target : string)
  | InvalidValue (field reason : string)
  | MissingConditional (field reason : string)
  | YamlParse (message : string).

Global Instance ConfigError_eq_dec : EqDecision ConfigError.
Proof. solve_decision. Defined.

(** [Display] of one error, from its [#[error(...)]] attribute. *)
Definition ConfigError_to_string (e : ConfigError) : string :=
  match e with
  | InvalidVersion expected actual =>
      "version must be " +:+ fmt_int expected +:+ ", got " +:+ fmt_int actual
  | DuplicateName kind name => "duplicate " +:+ kind +:+ " name: " +:+ name
  | UnknownReference field target_kind target =>
      field +:+ " references unknown " +:+ target_kind +:+ ": " +:+ target
  | InvalidValue field reason => field +:+ ": " +:+ reason
  | MissingConditional field reason => field +:+ ": " +:+ reason
  | YamlParse m => "YAML parse error: " +:+ m
  end.

(** [ConfigErrors]: the accumulated errors of a validation. *)
Record ConfigErrors := ConfigErrors_new { errors : list ConfigError }.

Definition ConfigErrors_is_empty (e : ConfigErrors) : bool :=
  match errors e with [] => true | _ => false end.
Definition ConfigErrors_len (e : ConfigErrors) : nat := length (errors e).

Definition newline : string := String (Ascii.ascii_of_nat 10) EmptyString.

(** [Display] of [ConfigErrors]: a header line and one numbered line per error. *)
Definition ConfigErrors_to_string (e : ConfigErrors) : string :=
  fmt_int (Z.of_nat (length (errors e))) +:+ " config error(s):" +:+ newline +:+
  (fix go (i : Z) (l : list ConfigError) : string :=
     match l with
     | [] => EmptyString
     | x :: l' => "  " +:+ fmt_int (i + 1) +:+ ": " +:+ ConfigError_to_string x +:+ newline +:+
                  go (i + 1)%Z l'
     end) 0%Z (errors e).

Inductive GatewayError :=
  | InvalidSpec (m : string)
  | RouteNotFound (method path : string)
  | ValidationFailed (m : string)
  | Upstream (m : string)
  | Config (e : ConfigErrors).
