(* ===== verification/Validation.v ===== *)
(** * Configuration validation

    [controlplane/src/config/validation.rs] and [loader.rs].  The Rust code
    pushes onto a shared [&mut Vec<ConfigError>]; here every check takes the
    vector and returns it with the errors appended. *)
From S2P Require Import Prelude RustStr F64 Yaml ConfigTypes.
From Stdlib Require Import Ascii.

Definition VALID_METHODS : list string := ["GET"; "POST"; "PUT"; "DELETE"; "PATCH"; "HEAD"].
Definition VALID_KEY_BY : list string := ["ip"; "sub"].
Definition VALID_PLUGIN_FAIL_MODES : list string := ["closed"; "open"].

Notation errs_t := (list ConfigError).

Definition push (e : ConfigError) (errs : errs_t) : errs_t := errs ++ [e].

(** [if b { errs.push(e) }] *)
Definition push_if (b : bool) (e : ConfigError) (errs : errs_t) : errs_t :=
  if b then push e errs else errs.

(** [if b { f(errs) }] and [if let Some(x) = o { f(x, errs) }] *)
Definition when (b : bool) (f : errs_t → errs_t) (errs : errs_t) : errs_t :=
  if b then f errs else errs.
Definition if_some {A} (o : option A) (f : A → errs_t → errs_t) (errs : errs_t) : errs_t :=
  match o with Some x => f x errs | None => errs end.

(** [for x in l { f(x, errs) }] *)
Definition for_each {A} (f : A → errs_t → errs_t) (l : list A) (errs : errs_t) : errs_t :=
  foldl (λ errs x, f x errs) errs l.

(** [for x in l { ...; if !seen.insert(name(x)) { errs.push(dup(x)) } }]: the
    [HashSet] is threaded along with the errors. *)
Definition for_each_unique {A} (body : A → errs_t → errs_t) (name : A → string)
    (dup : A → ConfigError) (l : list A) (errs : errs_t) : errs_t :=
  (foldl (λ '(seen, errs) x,
     let errs := body x errs in
     (({[name x]} ∪ seen : gset string), push_if (bool_decide (name x ∈ (seen : gset string))) (dup x) errs))
   ((∅ : gset string), errs) l).2.

Definition validate_host_port (value field : string) (errs : errs_t) : errs_t :=
  let parts := rsplitn2 ":" value in
  push_if
    (negb (length parts =? 2)%nat ||
     negb (bool_decide (is_Some (parse_u16 (default EmptyString (parts !! 0%nat))))) ||
     str_is_empty (default EmptyString (parts !! 1%nat)))
    (InvalidValue field ("must be host:port format, got: " +:+ value)) errs.

Definition validate_plugin_instance `{YamlLib} (field_prefix : string) (plugin : PluginInstance)
    (errs : errs_t) : errs_t :=
  let errs := push_if (str_is_empty (trim (PluginInstance.name plugin)))
    (InvalidValue (field_prefix +:+ "[].name") "must not be empty") errs in
  push_if (negb (bool_decide (PluginInstance.fail_mode plugin ∈ VALID_PLUGIN_FAIL_MODES)))
    (InvalidValue (field_prefix +:+ "[" +:+ PluginInstance.name plugin +:+ "].fail_mode")
       ("must be one of: " +:+ join ", " VALID_PLUGIN_FAIL_MODES)) errs.

Section validation.
Context `{Y : YamlLib}.
(** [Url::parse(s).is_ok()], of the [url] crate. *)
Context (url_parse_ok : string → bool).

Definition check_version (cfg : GatewayConfig) (errs : errs_t) : errs_t :=
  push_if (negb (GatewayConfig.version cfg =? 1)%Z)
    (InvalidVersion 1 (GatewayConfig.version cfg)) errs.

Definition check_uniqueness (cfg : GatewayConfig) (errs : errs_t) : errs_t :=
  let errs := for_each_unique (λ _ e, e) RouteConfig.name
    (λ r, DuplicateName "route" (RouteConfig.name r)) (GatewayConfig.routes cfg) errs in
  let errs := for_each_unique (λ _ e, e) ServiceConfig.name
    (λ s, DuplicateName "service" (ServiceConfig.name s)) (GatewayConfig.services cfg) errs in
  for_each_unique (λ _ e, e) AuthProvider.name
    (λ p, DuplicateName "auth provider" (AuthProvider.name p))
    (AuthConfig.providers (GatewayConfig.auth cfg)) errs.

Definition check_route_references (service_names provider_names : gset string)
    (r : RouteConfig) (errs : errs_t) : errs_t :=
  let errs := push_if (negb (bool_decide (UpstreamConfig.service (RouteConfig.upstream r) ∈ service_names)))
    (UnknownReference ("routes[" +:+ RouteConfig.name r +:+ "].upstream.service") "service"
       (UpstreamConfig.service (RouteConfig.upstream r))) errs in
  when (RouteConfig.auth_required r)
    (if_some (RouteConfig.auth_provider r) (λ provider,
       push_if (negb (bool_decide (provider ∈ provider_names)))
         (UnknownReference ("routes[" +:+ RouteConfig.name r +:+ "].auth_provider") "auth provider"
            provider))) errs.

Definition check_referential_integrity (cfg : GatewayConfig) (errs : errs_t) : errs_t :=
  let service_names : gset string := list_to_set (ServiceConfig.name <$> GatewayConfig.services cfg) in
  let provider_names : gset string :=
    list_to_set (AuthProvider.name <$> AuthConfig.providers (GatewayConfig.auth cfg)) in
  for_each (check_route_references service_names provider_names) (GatewayConfig.routes cfg) errs.

(** The loop over [cfg.auth.providers] of [check_value_constraints] *)
Definition check_provider_values (p : AuthProvider) (errs : errs_t) : errs_t :=
  let errs := push_if (str_is_empty (AuthProvider.name p))
    (InvalidValue "auth.providers[].name" "must not be empty") errs in
  let errs := push_if (negb (url_parse_ok (AuthProvider.jwks_uri p)))
    (InvalidValue ("auth.providers[" +:+ AuthProvider.name p +:+ "].jwks_uri")
       "must be a valid URL") errs in
  push_if (AuthProvider.cache_ttl_seconds p =? 0)%Z
    (InvalidValue ("auth.providers[" +:+ AuthProvider.name p +:+ "].cache_ttl_seconds")
       "must be > 0") errs.

(** The loop over [cfg.routes] *)
Definition check_route_values (r : RouteConfig) (errs : errs_t) : errs_t :=
  let prefix := "routes[" +:+ RouteConfig.name r +:+ "]" in
  let rl := RouteConfig.rate_limit r in
  let errs := push_if (str_is_empty (RouteConfig.name r))
    (InvalidValue "routes[].name" "must not be empty") errs in
  let errs := push_if (bool_decide (RouteConfig.hostnames r = []))
    (InvalidValue (prefix +:+ ".hostnames") "must not be empty") errs in
  let errs := push_if (bool_decide (RouteConfig.methods r = []))
    (InvalidValue (prefix +:+ ".methods") "must not be empty") errs in
  let errs := push_if (negb (starts_with "/" (RouteConfig.path_prefix r)))
    (InvalidValue (prefix +:+ ".path_prefix") "must start with '/'") errs in
  let errs := for_each (λ m, push_if (negb (bool_decide (m ∈ VALID_METHODS)))
      (InvalidValue (prefix +:+ ".methods") ("invalid HTTP method: " +:+ m)))
    (RouteConfig.methods r) errs in
  let errs := push_if (RouteRateLimit.bucket_capacity rl <? 1)%Z
    (InvalidValue (prefix +:+ ".rate_limit.bucket_capacity") "must be >= 1") errs in
  let errs := push_if (f64_le (RouteRateLimit.refill_rate_per_sec rl) f64_zero)
    (InvalidValue (prefix +:+ ".rate_limit.refill_rate_per_sec") "must be > 0") errs in
  let errs := push_if (negb (bool_decide (RouteRateLimit.key_by rl ∈ VALID_KEY_BY)))
    (InvalidValue (prefix +:+ ".rate_limit.key_by")
       ("must be one of: " +:+ join ", " VALID_KEY_BY)) errs in
  for_each_unique (validate_plugin_instance (prefix +:+ ".plugins")) PluginInstance.name
    (λ p, DuplicateName "route plugin" (RouteConfig.name r +:+ ":" +:+ PluginInstance.name p))
    (RouteConfig.plugins r) errs.

(** The loop over [cfg.services] *)
Definition check_service_values (s : ServiceConfig) (errs : errs_t) : errs_t :=
  let prefix := "services[" +:+ ServiceConfig.name s +:+ "]" in
  let errs := push_if (str_is_empty (ServiceConfig.name s))
    (InvalidValue "services[].name" "must not be empty") errs in
  let errs := push_if (bool_decide (ServiceConfig.endpoints s = []))
    (InvalidValue (prefix +:+ ".endpoints") "must not be empty") errs in
  let errs := for_each (λ ep, validate_host_port ep (prefix +:+ ".endpoints"))
    (ServiceConfig.endpoints s) errs in
  push_if (negb (starts_with "/" (HealthCheckConfig.path (ServiceConfig.health_check s))))
    (InvalidValue (prefix +:+ ".health_check.path") "must start with '/'") errs.

(** The [plugins] block *)
Definition check_plugin_limits (pc : PluginsConfig.PluginsConfig) (errs : errs_t) : errs_t :=
  let limits := PluginsConfig.limits pc in
  when (PluginsConfig.enabled pc) (λ errs,
    let errs := push_if (str_is_empty (trim (PluginsConfig.directory pc)))
      (InvalidValue "plugins.directory" "must not be empty when plugins are enabled") errs in
    let errs := push_if (PluginLimits.max_memory_bytes limits =? 0)%Z
      (InvalidValue "plugins.limits.max_memory_bytes" "must be > 0") errs in
    let errs := push_if (PluginLimits.max_instructions limits =? 0)%Z
      (InvalidValue "plugins.limits.max_instructions" "must be > 0") errs in
    push_if (PluginLimits.chain_timeout_ms limits =? 0)%Z
      (InvalidValue "plugins.limits.chain_timeout_ms" "must be > 0") errs) errs.

(** The gateway, xDS and ext_proc addresses *)
Definition check_addresses (cfg : GatewayConfig) (errs : errs_t) : errs_t :=
  let gw := GatewayConfig.gateway cfg in
  let errs := validate_host_port (GatewayServer.listen_address gw) "gateway.listen_address" errs in
  let errs := validate_host_port (GatewayServer.admin_address gw) "gateway.admin_address" errs in
  let errs := if_some (GatewayServer.extauthz_address gw)
    (λ a, validate_host_port a "gateway.extauthz_address") errs in
  let errs := when (XdsConfig.enabled (GatewayConfig.xds cfg))
    (validate_host_port (XdsConfig.listen_address (GatewayConfig.xds cfg)) "xds.listen_address") errs in
  when (ExtProcConfig.enabled (GatewayConfig.ext_proc cfg))
    (validate_host_port (ExtProcConfig.listen_address (GatewayConfig.ext_proc cfg))
       "ext_proc.listen_address") errs.

Definition check_value_constraints (cfg : GatewayConfig) (errs : errs_t) : errs_t :=
  let tracing := ObservabilityConfig.tracing (GatewayConfig.observability cfg) in
  let errs := check_addresses cfg errs in
  let errs := for_each check_provider_values (AuthConfig.providers (GatewayConfig.auth cfg)) errs in
  let errs := validate_host_port (RateLimitsConfig.redis_address (GatewayConfig.rate_limits cfg))
                "rate_limits.redis_address" errs in
  let errs := for_each check_route_values (GatewayConfig.routes cfg) errs in
  let errs := for_each check_service_values (GatewayConfig.services cfg) errs in
  let errs := push_if (f64_lt (TracingConfig.sample_rate tracing) f64_zero ||
                       f64_gt (TracingConfig.sample_rate tracing) f64_one)
    (InvalidValue "observability.tracing.sample_rate" "must be between 0.0 and 1.0") errs in
  let errs := check_plugin_limits (GatewayConfig.plugins cfg) errs in
  for_each_unique (validate_plugin_instance "plugins.global") PluginInstance.name
    (λ p, DuplicateName "global plugin" (PluginInstance.name p))
    (PluginsConfig.global (GatewayConfig.plugins cfg)) errs.

Definition check_route_conditions (r : RouteConfig) (errs : errs_t) : errs_t :=
  let prefix := "routes[" +:+ RouteConfig.name r +:+ "]" in
  let errs := push_if (RouteConfig.auth_required r && bool_decide (RouteConfig.auth_provider r = None))
    (MissingConditional (prefix +:+ ".auth_provider") "required when auth_required is true") errs in
  if_some (RouteConfig.required_scopes r) (λ scopes, push_if (bool_decide (scopes = []))
    (InvalidValue (prefix +:+ ".required_scopes") "must be non-empty when present")) errs.

Definition check_conditional_requirements (cfg : GatewayConfig) (errs : errs_t) : errs_t :=
  let tracing := ObservabilityConfig.tracing (GatewayConfig.observability cfg) in
  let errs := for_each check_route_conditions (GatewayConfig.routes cfg) errs in
  push_if (TracingConfig.enabled tracing && str_is_empty (TracingConfig.otlp_endpoint tracing))
    (MissingConditional "observability.tracing.otlp_endpoint" "required when tracing is enabled") errs.

Definition validate (cfg : GatewayConfig) : result ConfigErrors unit :=
  let errs := check_version cfg [] in
  let errs := check_uniqueness cfg errs in
  let errs := check_referential_integrity cfg errs in
  let errs := check_value_constraints cfg errs in
  let errs := check_conditional_requirements cfg errs in
  match errs with
  | [] => Ok tt
  | _ => Err (ConfigErrors_new errs)
  end.

(** ** Loading ([loader.rs])

    [yaml_from_str] is [serde_yaml::from_str::<GatewayConfig>]. *)
Context (yaml_from_str : string → result YamlError GatewayConfig).

Definition load_config_from_str (yaml : string) : result ConfigErrors GatewayConfig :=
  cfg ← map_err (λ e, ConfigErrors_new [YamlParse (yaml_error_to_string e)]) (yaml_from_str yaml);
  _ ← validate cfg;
  Ok cfg.

(** [read_to_string] is [std::fs::read_to_string], with the I/O error as its
    message. *)
Definition load_config (read_to_string : string → result string string) (file : string)
    : result ConfigErrors GatewayConfig :=
  contents ← map_err (λ e, ConfigErrors_new [YamlParse ("failed to read " +:+ file +:+ ": " +:+ e)])
               (read_to_string file);
  load_config_from_str contents.
End validation.
