(* ===== verification/Deserialize.v ===== *)
(** * Reading the configuration

    [#[derive(Deserialize)]] on the structs of [shared/src/config_types.rs].
    The YAML parser is a library: [SerdeYaml] is what it offers to a derived
    implementation (the calls of serde's data model).  How a struct is put
    together from the entries of a mapping is determined by its fields, their
    types and their attributes, and that is translated here: entries are taken
    in document order, an unknown key ([deny_unknown_fields]) or a repeated one
    is an error, each value is read with the type of its field, and at the end
    a field without an entry takes its default or is an error, in the order of
    the declaration. *)
From S2P Require Import Prelude RustStr F64 Yaml ConfigTypes Validation.

(** ** What the format offers *)
Class SerdeYaml `{YamlLib} := {
  (** A node of the document. *)
  Node : Type;
  de_string : Node → result YamlError string;
  de_bool : Node → result YamlError bool;
  (** An unsigned integer of at most the given value. *)
  de_unsigned : Z → Node → result YamlError Z;
  de_f64 : Node → result YamlError f64;
  (** [deserialize_option]: [None] for a null. *)
  de_some : Node → result YamlError (option Node);
  de_seq : Node → result YamlError (list Node);
  (** [deserialize_struct] with the names of the fields: the entries it presents. *)
  de_entries : list string → Node → result YamlError (list (string * Node));
  de_value : Node → result YamlError Value;
  (** [Value::default()] *)
  value_default : Value;
  (** The errors of [serde::de::Error]. *)
  unknown_field : string → list string → YamlError;
  duplicate_field : string → YamlError;
  missing_field : string → YamlError
}.

Section deserialize.
Context `{Y : YamlLib} `{S : !SerdeYaml}.

(** ** Types *)
Definition de_u32 : Node → result YamlError Z := de_unsigned u32_max.
Definition de_u64 : Node → result YamlError Z := de_unsigned u64_max.
(** [usize] on a 64-bit target *)
Definition de_usize : Node → result YamlError Z := de_unsigned u64_max.
Definition de_option {A} (d : Node → result YamlError A) (n : Node) : result YamlError (option A) :=
  o ← de_some n;
  match o with None => Ok None | Some n' => a ← d n'; Ok (Some a) end.
Definition de_vec {A} (d : Node → result YamlError A) (n : Node) : result YamlError (list A) :=
  l ← de_seq n; mapM d l.

(** ** Structs *)
Definition find_field (k : string) (m : list (string * Node)) : option Node :=
  snd <$> iter_find (λ e, bool_decide (e.1 = k)) m.

(** The fields of a struct: their names with the check of a value's type, and
    how the struct is built from the entries. *)
Record Fields (A : Type) := mk_fields {
  known : list (string * (Node → result YamlError unit));
  build : list (string * Node) → result YamlError A
}.
Arguments mk_fields {A}.
Arguments known {A}.
Arguments build {A}.

Definition names {A} (F : Fields A) : list string := (known F).*1.

Definition checks_as {A} (d : Node → result YamlError A) (n : Node) : result YamlError unit :=
  _ ← d n; Ok tt.
Definition constructor {A} (a : A) : Fields A := mk_fields [] (λ _, Ok a).
Definition with_field {A B} (F : Fields (A → B)) (k : string) (d : Node → result YamlError A)
    (missing : result YamlError A) : Fields B :=
  mk_fields (known F ++ [(k, checks_as d)]) (λ m,
    f ← build F m;
    a ← match find_field k m with Some n => d n | None => missing end;
    Ok (f a)).

(** The loop over the entries, with the fields seen so far. *)
Fixpoint visit_map (fields : list (string * (Node → result YamlError unit))) (seen : list string)
    (m : list (string * Node)) : result YamlError unit :=
  match m with
  | [] => Ok tt
  | (k, n) :: m =>
      match iter_find (λ f, bool_decide (f.1 = k)) fields with
      | None => Err (unknown_field k (fields.*1))
      | Some f =>
          if bool_decide (k ∈ seen) then Err (duplicate_field k)
          else _ ← f.2 n; visit_map fields (k :: seen) m
      end
  end.
Definition struct {A} (F : Fields A) (n : Node) : result YamlError A :=
  m ← de_entries (names F) n;
  _ ← visit_map (known F) [] m;
  build F m.
End deserialize.
Arguments Fields {_ _}.
Arguments mk_fields {_ _ _}.
Arguments known {_ _ _}.
Arguments build {_ _ _}.

(** A field that must be present, and one with [#[serde(default)]] or
    [#[serde(default = "...")]]. *)
Notation "F ⊛ k : d" := (with_field F k d (Err (missing_field k)))
  (at level 67, left associativity, k at level 0, d at level 60).
Notation "F ⊛? k : d 'or' v" := (with_field F k d (Ok v))
  (at level 67, left associativity, k at level 0, d at level 60, v at level 60).

(** ** The structs of the configuration *)
Section config.
Context `{Y : YamlLib} `{S : !SerdeYaml}.

Definition GatewayServer_fields : Fields GatewayServer.GatewayServer :=
  constructor GatewayServer.mk
  ⊛ "listen_address" : de_string
  ⊛ "admin_address" : de_string
  ⊛ "request_timeout_ms" : de_u64
  ⊛ "idle_timeout_ms" : de_u64
  ⊛ "max_request_body_bytes" : de_u64
  ⊛ "trust_forwarded_headers" : de_bool
  ⊛? "extauthz_address" : (de_option de_string) or None
  ⊛? "max_concurrent_requests" : (de_option de_u64) or None.

Definition AuthProvider_fields : Fields AuthProvider :=
  constructor AuthProvider.mk
  ⊛ "name" : de_string
  ⊛ "issuer" : de_string
  ⊛ "audience" : de_string
  ⊛ "jwks_uri" : de_string
  ⊛ "cache_ttl_seconds" : de_u64
  ⊛ "clock_skew_seconds" : de_u64.
Definition AuthConfig_fields : Fields AuthConfig.AuthConfig :=
  constructor AuthConfig.mk
  ⊛ "providers" : (de_vec (struct AuthProvider_fields)).

Definition SurvivabilityMode_fields : Fields SurvivabilityMode.SurvivabilityMode :=
  constructor SurvivabilityMode.mk
  ⊛ "enabled" : de_bool
  ⊛ "fallback_capacity" : de_u64
  ⊛ "fallback_refill_rate_per_sec" : de_f64.
Definition RateLimitsConfig_fields : Fields RateLimitsConfig :=
  constructor RateLimitsConfig.mk
  ⊛ "redis_address" : de_string
  ⊛ "redis_db" : de_u32
  ⊛ "redis_key_prefix" : de_string
  ⊛ "default_timeout_ms" : de_u64
  ⊛ "fail_open" : de_bool
  ⊛ "survivability_mode" : (struct SurvivabilityMode_fields).

Definition PluginInstance_fields : Fields PluginInstance :=
  constructor PluginInstance.mk
  ⊛ "name" : de_string
  ⊛? "enabled" : de_bool or default_true
  ⊛? "fail_mode" : de_string or default_fail_mode
  ⊛? "config" : de_value or value_default.

Definition RouteRateLimit_fields : Fields RouteRateLimit.RouteRateLimit :=
  constructor RouteRateLimit.mk
  ⊛ "bucket_capacity" : de_u64
  ⊛ "refill_rate_per_sec" : de_f64
  ⊛ "key_by" : de_string.
Definition UpstreamConfig_fields : Fields UpstreamConfig.UpstreamConfig :=
  constructor UpstreamConfig.mk
  ⊛ "service" : de_string
  ⊛ "request_timeout_ms" : de_u64
  ⊛ "retries" : de_u32.
Definition RouteConfig_fields : Fields RouteConfig :=
  constructor RouteConfig.mk
  ⊛ "name" : de_string
  ⊛ "hostnames" : (de_vec de_string)
  ⊛ "path_prefix" : de_string
  ⊛ "methods" : (de_vec de_string)
  ⊛ "auth_required" : de_bool
  ⊛? "auth_provider" : (de_option de_string) or None
  ⊛? "required_scopes" : (de_option (de_vec de_string)) or None
  ⊛ "rate_limit" : (struct RouteRateLimit_fields)
  ⊛ "upstream" : (struct UpstreamConfig_fields)
  ⊛? "plugins" : (de_vec (struct PluginInstance_fields)) or [].

Definition HealthCheckConfig_fields : Fields HealthCheckConfig.HealthCheckConfig :=
  constructor HealthCheckConfig.mk
  ⊛ "path" : de_string
  ⊛ "interval_ms" : de_u64
  ⊛ "timeout_ms" : de_u64.
Definition ServiceConfig_fields : Fields ServiceConfig :=
  constructor ServiceConfig.mk
  ⊛ "name" : de_string
  ⊛ "endpoints" : (de_vec de_string)
  ⊛ "health_check" : (struct HealthCheckConfig_fields).

Definition TracingConfig_fields : Fields TracingConfig.TracingConfig :=
  constructor TracingConfig.mk
  ⊛ "enabled" : de_bool
  ⊛ "otlp_endpoint" : de_string
  ⊛ "sample_rate" : de_f64.
Definition ObservabilityConfig_fields : Fields ObservabilityConfig.ObservabilityConfig :=
  constructor ObservabilityConfig.mk
  ⊛ "access_log_json" : de_bool
  ⊛ "prometheus_enabled" : de_bool
  ⊛ "tracing" : (struct TracingConfig_fields).

Definition PluginLimits_fields : Fields PluginLimits :=
  constructor PluginLimits.mk
  ⊛? "max_memory_bytes" : de_usize or default_plugin_max_memory_bytes
  ⊛? "max_instructions" : de_u32 or default_plugin_max_instructions
  ⊛? "chain_timeout_ms" : de_u64 or default_plugin_chain_timeout_ms.
Definition PluginsConfig_fields : Fields PluginsConfig.PluginsConfig :=
  constructor PluginsConfig.mk
  ⊛? "enabled" : de_bool or false
  ⊛? "directory" : de_string or EmptyString
  ⊛? "limits" : (struct PluginLimits_fields) or PluginLimits.PluginLimits_default
  ⊛? "global" : (de_vec (struct PluginInstance_fields)) or [].
Definition XdsConfig_fields : Fields XdsConfig.XdsConfig :=
  constructor XdsConfig.mk
  ⊛? "enabled" : de_bool or false
  ⊛? "listen_address" : de_string or default_xds_listen_address.
Definition ExtProcConfig_fields : Fields ExtProcConfig.ExtProcConfig :=
  constructor ExtProcConfig.mk
  ⊛? "enabled" : de_bool or false
  ⊛? "listen_address" : de_string or default_ext_proc_listen_address.

Definition GatewayConfig_fields : Fields GatewayConfig :=
  constructor GatewayConfig.mk
  ⊛ "version" : de_u32
  ⊛ "gateway" : (struct GatewayServer_fields)
  ⊛ "auth" : (struct AuthConfig_fields)
  ⊛ "rate_limits" : (struct RateLimitsConfig_fields)
  ⊛ "routes" : (de_vec (struct RouteConfig_fields))
  ⊛ "services" : (de_vec (struct ServiceConfig_fields))
  ⊛ "observability" : (struct ObservabilityConfig_fields)
  ⊛? "plugins" : (struct PluginsConfig_fields) or PluginsConfig.PluginsConfig_default
  ⊛? "xds" : (struct XdsConfig_fields) or XdsConfig.XdsConfig_default
  ⊛? "ext_proc" : (struct ExtProcConfig_fields) or ExtProcConfig.ExtProcConfig_default.

(** [serde_yaml::from_str::<GatewayConfig>]: the parser, then the derived
    implementation. *)
Definition yaml_from_str (parse : string → result YamlError Node) (yaml : string)
    : result YamlError GatewayConfig :=
  n ← parse yaml; struct GatewayConfig_fields n.
End config.
