(* ===== verification/Samples.v ===== *)
(** * A sample configuration

    The configuration of the loader's tests ([VALID_YAML] of
    [controlplane/src/config/loader.rs]) and variations of it, on the model of
    the YAML library; the witnesses evaluate on them. *)
From S2P Require Import Prelude RustStr F64 Yaml ConfigTypes.

Definition sample_server : GatewayServer.GatewayServer :=
  GatewayServer.mk "0.0.0.0:8080" "0.0.0.0:9090" 15000 60000 10485760 false
    (Some "0.0.0.0:10003") None.

Definition sample_provider : AuthProvider :=
  AuthProvider.mk "main" "https://auth.example.local/" "api-gateway"
    "http://localhost:7001/.well-known/jwks.json" 300 30.

Definition sample_rate_limits : RateLimitsConfig :=
  RateLimitsConfig.mk "redis:6379" 0 "rl" 50 false
    (SurvivabilityMode.mk true 20 (f64_of_int 5)).

Definition sample_route : RouteConfig :=
  RouteConfig.mk "public-api" ["api.example.com"] "/public" ["GET"; "POST"] false None None
    (RouteRateLimit.mk 100 (f64_of_int 10) "ip")
    (UpstreamConfig.mk "backend" 5000 1) [].

Definition sample_private_route : RouteConfig :=
  RouteConfig.mk "private-api" ["api.example.com"] "/private" ["GET"] true (Some "main")
    (Some ["api.read"])
    (RouteRateLimit.mk 50 (f64_of_int 10) "sub")
    (UpstreamConfig.mk "backend" 1500 0) [].

Definition sample_service : ServiceConfig :=
  ServiceConfig.mk "backend" ["backend-01:8080"] (HealthCheckConfig.mk "/healthz" 2000 500).

Definition sample_observability : ObservabilityConfig.ObservabilityConfig :=
  ObservabilityConfig.mk true true (TracingConfig.mk false EmptyString f64_zero).

Definition config_with (routes : list RouteConfig) (services : list ServiceConfig) : GatewayConfig :=
  GatewayConfig.mk 1 sample_server (AuthConfig.mk [sample_provider]) sample_rate_limits
    routes services sample_observability PluginsConfig.PluginsConfig_default XdsConfig.XdsConfig_default ExtProcConfig.ExtProcConfig_default.

Definition sample_config : GatewayConfig :=
  config_with [sample_route; sample_private_route] [sample_service].

(** The route of [sample_route] with another rate. *)
Definition route_with_rate (rate : f64) : RouteConfig :=
  RouteConfig.mk "public-api" ["api.example.com"] "/public" ["GET"; "POST"] false None None
    (RouteRateLimit.mk 100 rate "ip") (UpstreamConfig.mk "backend" 5000 1) [].

(** A route with the given name, hosts, prefix and service. *)
Definition make_route (name : string) (hosts : list string) (prefix service : string) : RouteConfig :=
  RouteConfig.mk name hosts prefix ["GET"] false None None
    (RouteRateLimit.mk 100 (f64_of_int 10) "ip") (UpstreamConfig.mk service 5000 0) [].
