(* ===== verification/ValidationSpec.v ===== *)
(** * Validation: specification and proofs

    [valid_config] states declaratively what a configuration must satisfy;
    [validate] accepts exactly the configurations that do.  Every check only
    appends to the error vector, and appends nothing exactly when its
    condition holds: [Checks f P].  The instances of [Checks] follow the
    structure of the code, so type class search assembles the proof. *)
From S2P Require Import Prelude RustStr F64 Yaml ConfigTypes Validation Samples.
From Stdlib Require Import Ascii.

(** ** Specification *)

(** A ["host:port"] address: a non-empty host, a colon and a port that fits 16
    bits and has no colon of its own. *)
Definition host_port (value : string) : Prop :=
  ∃ host port n, value = host +:+ String ":" port ∧ (":"%char) ∉ bytes port ∧
    host ≠ EmptyString ∧ parse_u16 port = Some n.

(** The decimal constraints reject a value only when the comparison holds, so
    a NaN passes them. *)
Definition rate_accepted (x : f64) : Prop := f64_le x f64_zero = false.
Definition sample_rate_accepted (x : f64) : Prop :=
  f64_lt x f64_zero = false ∧ f64_gt x f64_one = false.

Definition valid_plugin `{YamlLib} (p : PluginInstance) : Prop :=
  trim (PluginInstance.name p) ≠ EmptyString ∧
  PluginInstance.fail_mode p ∈ ["closed"; "open"].

Definition valid_provider (url_parse_ok : string → bool) (p : AuthProvider) : Prop :=
  AuthProvider.name p ≠ EmptyString ∧ url_parse_ok (AuthProvider.jwks_uri p) = true ∧
  AuthProvider.cache_ttl_seconds p ≠ 0%Z.

Definition valid_rate_limit (rl : RouteRateLimit.RouteRateLimit) : Prop :=
  (1 ≤ RouteRateLimit.bucket_capacity rl)%Z ∧
  rate_accepted (RouteRateLimit.refill_rate_per_sec rl) ∧
  RouteRateLimit.key_by rl ∈ ["ip"; "sub"].

Definition valid_route `{YamlLib} (r : RouteConfig) : Prop :=
  RouteConfig.name r ≠ EmptyString ∧
  RouteConfig.hostnames r ≠ [] ∧
  RouteConfig.methods r ≠ [] ∧
  starts_with "/" (RouteConfig.path_prefix r) = true ∧
  Forall (λ m, m ∈ ["GET"; "POST"; "PUT"; "DELETE"; "PATCH"; "HEAD"]) (RouteConfig.methods r) ∧
  valid_rate_limit (RouteConfig.rate_limit r) ∧
  Forall valid_plugin (RouteConfig.plugins r) ∧
  NoDup (PluginInstance.name <$> RouteConfig.plugins r).

(** A route that requires authentication names a configured provider, and a
    present scope list is not empty. *)
Definition valid_route_auth `{YamlLib} (providers : list string) (r : RouteConfig) : Prop :=
  (RouteConfig.auth_required r = true →
     ∃ p, RouteConfig.auth_provider r = Some p ∧ p ∈ providers) ∧
  RouteConfig.required_scopes r ≠ Some [].

Definition valid_service (s : ServiceConfig) : Prop :=
  ServiceConfig.name s ≠ EmptyString ∧
  ServiceConfig.endpoints s ≠ [] ∧
  Forall host_port (ServiceConfig.endpoints s) ∧
  starts_with "/" (HealthCheckConfig.path (ServiceConfig.health_check s)) = true.

Definition valid_plugins `{YamlLib} (pc : PluginsConfig.PluginsConfig) : Prop :=
  (PluginsConfig.enabled pc = true →
     trim (PluginsConfig.directory pc) ≠ EmptyString ∧
     PluginLimits.max_memory_bytes (PluginsConfig.limits pc) ≠ 0%Z ∧
     PluginLimits.max_instructions (PluginsConfig.limits pc) ≠ 0%Z ∧
     PluginLimits.chain_timeout_ms (PluginsConfig.limits pc) ≠ 0%Z) ∧
  Forall valid_plugin (PluginsConfig.global pc) ∧
  NoDup (PluginInstance.name <$> PluginsConfig.global pc).

Definition valid_addresses `{YamlLib} (cfg : GatewayConfig) : Prop :=
  let gw := GatewayConfig.gateway cfg in
  host_port (GatewayServer.listen_address gw) ∧
  host_port (GatewayServer.admin_address gw) ∧
  (∀ a, GatewayServer.extauthz_address gw = Some a → host_port a) ∧
  (XdsConfig.enabled (GatewayConfig.xds cfg) = true →
     host_port (XdsConfig.listen_address (GatewayConfig.xds cfg))) ∧
  (ExtProcConfig.enabled (GatewayConfig.ext_proc cfg) = true →
     host_port (ExtProcConfig.listen_address (GatewayConfig.ext_proc cfg))) ∧
  host_port (RateLimitsConfig.redis_address (GatewayConfig.rate_limits cfg)).

Record valid_config `{YamlLib} (url_parse_ok : string → bool) (cfg : GatewayConfig) : Prop := {
  valid_version : GatewayConfig.version cfg = 1%Z;
  valid_route_names : NoDup (RouteConfig.name <$> GatewayConfig.routes cfg);
  valid_service_names : NoDup (ServiceConfig.name <$> GatewayConfig.services cfg);
  valid_provider_names :
    NoDup (AuthProvider.name <$> AuthConfig.providers (GatewayConfig.auth cfg));
  valid_upstreams : Forall (λ r, UpstreamConfig.service (RouteConfig.upstream r)
      ∈ (ServiceConfig.name <$> GatewayConfig.services cfg)) (GatewayConfig.routes cfg);
  valid_auth : Forall (valid_route_auth
      (AuthProvider.name <$> AuthConfig.providers (GatewayConfig.auth cfg)))
      (GatewayConfig.routes cfg);
  valid_addrs : valid_addresses cfg;
  valid_providers : Forall (valid_provider url_parse_ok) (AuthConfig.providers (GatewayConfig.auth cfg));
  valid_routes : Forall valid_route (GatewayConfig.routes cfg);
  valid_services : Forall valid_service (GatewayConfig.services cfg);
  valid_tracing_rate : sample_rate_accepted (TracingConfig.sample_rate
      (ObservabilityConfig.tracing (GatewayConfig.observability cfg)));
  valid_plugin_config : valid_plugins (GatewayConfig.plugins cfg);
  valid_tracing_endpoint :
    TracingConfig.enabled (ObservabilityConfig.tracing (GatewayConfig.observability cfg)) = true →
    TracingConfig.otlp_endpoint (ObservabilityConfig.tracing (GatewayConfig.observability cfg))
      ≠ EmptyString
}.

(** ** Checks *)

(** [f] appends errors to the vector, and none exactly when [P] holds. *)
Class Checks (f : errs_t → errs_t) (P : Prop) : Prop :=
  checks : ∃ d, (∀ errs, f errs = errs ++ d) ∧ (d = [] ↔ P).

Lemma Checks_nil f P : Checks f P → (f [] = [] ↔ P).
Proof. intros (d & Hf & HP). by rewrite Hf. Qed.

Lemma Checks_iff f P Q : Checks f P → (P ↔ Q) → Checks f Q.
Proof. intros (d & Hf & HP) HPQ. exists d. split; [done|]. by rewrite HP. Qed.

Global Instance Checks_id : Checks (λ e, e) True.
Proof. exists []. split; [intros; by rewrite app_nil_r|done]. Qed.

Lemma Checks_seq f g P Q : Checks f P → Checks g Q → Checks (λ e, g (f e)) (P ∧ Q).
Proof.
  intros (d & Hf & HP) (d' & Hg & HQ). exists (d ++ d'). split.
  - intros errs. by rewrite Hg, Hf, (assoc_L (++)).
  - rewrite app_nil. by rewrite HP, HQ.
Qed.

Global Instance Checks_push_if b e : Checks (push_if b e) (b = false).
Proof.
  exists (if b then [e] else []). split; [|by destruct b].
  intros errs. destruct b; simpl; [done|]. by rewrite app_nil_r.
Qed.

Lemma Checks_if (b : bool) f P : Checks f P → Checks (when b f) (b = true → P).
Proof.
  destruct b; intros H; [eapply Checks_iff; [exact H|]; naive_solver|].
  eapply Checks_iff; [apply Checks_id|]. naive_solver.
Qed.

Lemma Checks_option {A} (o : option A) (f : A → errs_t → errs_t) (P : A → Prop) :
  (∀ x, Checks (f x) (P x)) →
  Checks (if_some o f) (∀ x, o = Some x → P x).
Proof.
  intros Hf. destruct o as [x|].
  - eapply Checks_iff; [apply (Hf x)|]. naive_solver.
  - eapply Checks_iff; [apply Checks_id|]. naive_solver.
Qed.

Lemma Checks_for_each {A} (f : A → errs_t → errs_t) (P : A → Prop) l :
  (∀ x, Checks (f x) (P x)) → Checks (for_each f l) (Forall P l).
Proof.
  intros Hf. unfold for_each. induction l as [|x l IH]; simpl.
  - eapply Checks_iff; [apply Checks_id|]. split; [constructor|done].
  - eapply Checks_iff; [apply (Checks_seq _ _ _ _ (Hf x) IH)|].
    by rewrite Forall_cons.
Qed.

(** The loop with a [HashSet] checks that the names are pairwise distinct and
    none of them was in the set before. *)
Lemma Checks_unique_go {A} body (P : A → Prop) (name : A → string) dup l :
  (∀ x, Checks (body x) (P x)) →
  ∀ seen : gset string,
  Checks (λ errs, (foldl (λ '(seen, errs) x,
       let errs := body x errs in
       (({[name x]} ∪ seen : gset string),
        push_if (bool_decide (name x ∈ (seen : gset string))) (dup x) errs)) (seen, errs) l).2)
    (Forall P l ∧ NoDup (name <$> l) ∧ ∀ x, x ∈ l → name x ∉ seen).
Proof.
  intros Hb. induction l as [|x l IH]; intros seen; simpl.
  - eapply Checks_iff; [apply Checks_id|]. split; [|done]. intros _.
    split_and!; [constructor|constructor|set_solver].
  - pose proof (Checks_seq _ _ _ _ (Hb x)
      (Checks_push_if (bool_decide (name x ∈ seen)) (dup x))) as H1.
    eapply Checks_iff; [apply (Checks_seq _ _ _ _ H1 (IH ({[name x]} ∪ seen)))|].
    rewrite bool_decide_eq_false, Forall_cons, NoDup_cons, list_elem_of_fmap.
    set_unfold. split.
    + intros [[HP Hn] (HF & HD & HS)]. split_and!; try done.
      * intros (y & Heq & Hy). eapply HS; eauto.
      * intros y [->|Hy]; [done|]. intros ?. eapply HS; eauto.
    + intros [[HP HF] [[Hn HD] HS]]. split_and!; try done; [by apply HS; left|].
      intros y Hy [Heq|?]; [|eapply HS; eauto]. apply Hn. eauto.
Qed.

Lemma Checks_for_each_unique {A} body (P : A → Prop) (name : A → string) dup l :
  (∀ x, Checks (body x) (P x)) →
  Checks (for_each_unique body name dup l) (Forall P l ∧ NoDup (name <$> l)).
Proof.
  intros Hb. eapply Checks_iff; [apply (Checks_unique_go body P name dup l Hb ∅)|].
  set_solver.
Qed.

(** Follow the code of a check: the condition of a sequence is the conjunction
    of the conditions of its steps. *)
Ltac check_step :=
  lazymatch goal with
  | |- Checks (push_if _ _) _ => apply Checks_push_if
  | |- Checks (when _ _) _ => apply Checks_if
  | |- Checks (if_some _ _) _ => apply Checks_option; intros ?
  | |- Checks (for_each _ _) _ => apply Checks_for_each; intros ?
  | |- Checks (for_each_unique _ _ _ _) _ => apply Checks_for_each_unique; intros ?
  | |- Checks (λ e, e) _ => apply Checks_id
  | |- Checks (λ e, ?g (@?f e)) ?P =>
      lazymatch f with
      | (λ e, e) => refine (_ : Checks g P)
      | _ => eapply (Checks_seq f g)
      end
  | |- Checks _ _ => apply _
  end.
Ltac check_all := cbv beta zeta; repeat (check_step; cbv beta zeta).
(** Reduce a [Checks] goal to the equivalence of the assembled condition with
    the stated one. *)
Ltac by_checks := eapply Checks_iff; [check_all|].

Lemma validate_host_port_iff value :
  (negb (length (rsplitn2 ":" value) =? 2)%nat ||
   negb (bool_decide (is_Some (parse_u16 (default EmptyString (rsplitn2 ":" value !! 0%nat))))) ||
   str_is_empty (default EmptyString (rsplitn2 ":" value !! 1%nat))) = false
  ↔ host_port value.
Proof.
  unfold host_port. split.
  - unfold rsplitn2. destruct (rfind ":" value) as [i|] eqn:E; [|done]. simpl.
    destruct (rfind_Some _ _ _ E) as [Heq Hno].
    rewrite orb_false_iff, negb_false_iff, bool_decide_eq_true, str_is_empty_false.
    intros [[n Hn] Hh]. by exists (str_take i value), (str_drop (S i) value), n.
  - intros (host & port & n & -> & Hno & Hh & Hp). rewrite rsplitn2_app by done. simpl.
    rewrite bool_decide_eq_true_2 by (rewrite Hp; by eexists). simpl.
    by apply str_is_empty_false.
Qed.

Global Instance validate_host_port_checks value field :
  Checks (validate_host_port value field) (host_port value).
Proof. unfold validate_host_port. by_checks. apply validate_host_port_iff. Qed.

Global Instance validate_plugin_instance_checks `{YamlLib} prefix p :
  Checks (validate_plugin_instance prefix p) (valid_plugin p).
Proof.
  unfold validate_plugin_instance, valid_plugin. by_checks.
  by rewrite str_is_empty_false, negb_false_iff, bool_decide_eq_true.
Qed.

Section checks.
Context `{Y : YamlLib} (url_parse_ok : string → bool).

Global Instance check_version_checks cfg :
  Checks (check_version cfg) (GatewayConfig.version cfg = 1%Z).
Proof. unfold check_version. by_checks. by rewrite negb_false_iff, Z.eqb_eq. Qed.

Global Instance check_uniqueness_checks cfg :
  Checks (check_uniqueness cfg)
    (NoDup (RouteConfig.name <$> GatewayConfig.routes cfg) ∧
     NoDup (ServiceConfig.name <$> GatewayConfig.services cfg) ∧
     NoDup (AuthProvider.name <$> AuthConfig.providers (GatewayConfig.auth cfg))).
Proof.
  unfold check_uniqueness. by_checks.
  assert (∀ A (l : list A), Forall (λ _, True) l) by (intros; by apply Forall_true).
  naive_solver.
Qed.

Global Instance check_provider_values_checks p :
  Checks (check_provider_values url_parse_ok p) (valid_provider url_parse_ok p).
Proof.
  unfold check_provider_values, valid_provider. by_checks.
  rewrite str_is_empty_false, negb_false_iff, Z.eqb_neq. naive_solver.
Qed.

Global Instance check_route_values_checks r : Checks (check_route_values r) (valid_route r).
Proof.
  unfold check_route_values, valid_route, valid_rate_limit, rate_accepted. by_checks.
  rewrite str_is_empty_false, !bool_decide_eq_false, !negb_false_iff, Z.ltb_ge, bool_decide_eq_true.
  setoid_rewrite negb_false_iff. setoid_rewrite bool_decide_eq_true. naive_solver.
Qed.

Global Instance check_service_values_checks s :
  Checks (check_service_values s) (valid_service s).
Proof.
  unfold check_service_values, valid_service. by_checks.
  rewrite str_is_empty_false, bool_decide_eq_false, negb_false_iff. naive_solver.
Qed.

Global Instance check_addresses_checks cfg :
  Checks (check_addresses cfg)
    (let gw := GatewayConfig.gateway cfg in
     host_port (GatewayServer.listen_address gw) ∧ host_port (GatewayServer.admin_address gw) ∧
     (∀ a, GatewayServer.extauthz_address gw = Some a → host_port a) ∧
     (XdsConfig.enabled (GatewayConfig.xds cfg) = true →
        host_port (XdsConfig.listen_address (GatewayConfig.xds cfg))) ∧
     (ExtProcConfig.enabled (GatewayConfig.ext_proc cfg) = true →
        host_port (ExtProcConfig.listen_address (GatewayConfig.ext_proc cfg)))).
Proof. unfold check_addresses. by_checks. naive_solver. Qed.

Global Instance check_plugin_limits_checks pc :
  Checks (check_plugin_limits pc)
    (PluginsConfig.enabled pc = true →
     trim (PluginsConfig.directory pc) ≠ EmptyString ∧
     PluginLimits.max_memory_bytes (PluginsConfig.limits pc) ≠ 0%Z ∧
     PluginLimits.max_instructions (PluginsConfig.limits pc) ≠ 0%Z ∧
     PluginLimits.chain_timeout_ms (PluginsConfig.limits pc) ≠ 0%Z).
Proof.
  unfold check_plugin_limits. by_checks. rewrite str_is_empty_false, !Z.eqb_neq. naive_solver.
Qed.

Global Instance check_referential_integrity_checks cfg :
  Checks (check_referential_integrity cfg)
    (Forall (λ r, UpstreamConfig.service (RouteConfig.upstream r)
        ∈ (ServiceConfig.name <$> GatewayConfig.services cfg) ∧
      (RouteConfig.auth_required r = true → ∀ p, RouteConfig.auth_provider r = Some p →
        p ∈ (AuthProvider.name <$> AuthConfig.providers (GatewayConfig.auth cfg))))
      (GatewayConfig.routes cfg)).
Proof.
  unfold check_referential_integrity, check_route_references. by_checks.
  setoid_rewrite negb_false_iff. setoid_rewrite bool_decide_eq_true.
  setoid_rewrite elem_of_list_to_set. done.
Qed.

Global Instance check_value_constraints_checks cfg :
  Checks (check_value_constraints url_parse_ok cfg)
    (valid_addresses cfg ∧
     Forall (valid_provider url_parse_ok) (AuthConfig.providers (GatewayConfig.auth cfg)) ∧
     Forall valid_route (GatewayConfig.routes cfg) ∧
     Forall valid_service (GatewayConfig.services cfg) ∧
     sample_rate_accepted (TracingConfig.sample_rate
       (ObservabilityConfig.tracing (GatewayConfig.observability cfg))) ∧
     valid_plugins (GatewayConfig.plugins cfg)).
Proof.
  unfold check_value_constraints, valid_addresses, valid_plugins, sample_rate_accepted. by_checks.
  rewrite orb_false_iff. naive_solver.
Qed.

Global Instance check_conditional_requirements_checks cfg :
  Checks (check_conditional_requirements cfg)
    (Forall (λ r, (RouteConfig.auth_required r = true → RouteConfig.auth_provider r ≠ None) ∧
        RouteConfig.required_scopes r ≠ Some []) (GatewayConfig.routes cfg) ∧
     (TracingConfig.enabled (ObservabilityConfig.tracing (GatewayConfig.observability cfg)) = true →
      TracingConfig.otlp_endpoint (ObservabilityConfig.tracing (GatewayConfig.observability cfg))
        ≠ EmptyString)).
Proof.
  unfold check_conditional_requirements, check_route_conditions. by_checks.
  setoid_rewrite andb_false_iff. setoid_rewrite bool_decide_eq_false.
  rewrite str_is_empty_false. rewrite !Forall_forall. split.
  - intros [HR HT]. split; [|destruct (TracingConfig.enabled _); naive_solver].
    intros r Hr. destruct (HR r Hr) as [Ha Hs].
    split; [intros Hreq; destruct Ha as [Ha|Ha]; [congruence|done]|].
    intros Hsc. by apply (Hs [] Hsc).
  - intros [HR HT]. split; [|destruct (TracingConfig.enabled _); naive_solver].
    intros r Hr. destruct (HR r Hr) as [Ha Hs].
    split; [|by intros x Hx ->].
    destruct (RouteConfig.auth_required r); [right; by apply Ha|by left].
Qed.

(** The whole validation as one check. *)
Lemma validate_checks cfg :
  Checks (λ e, check_conditional_requirements cfg (check_value_constraints url_parse_ok cfg
            (check_referential_integrity cfg (check_uniqueness cfg (check_version cfg e)))))
    (valid_config url_parse_ok cfg).
Proof.
  by_checks. rewrite !Forall_and. split.
  - intros [[[[Hv (Hr & Hs & Hp)] [Hu Ha]] (Had & Hpr & Hro & Hse & Ht & Hpl)] [[Hc Hsc] Hte]].
    split; try done. rewrite Forall_forall in *. intros r Hin.
    specialize (Ha r Hin). specialize (Hc r Hin). simpl in *. split; [|by apply Hsc].
    intros Hreq. destruct (RouteConfig.auth_provider r) as [p|] eqn:Hp'; [|naive_solver].
    exists p. split; [done|]. by apply Ha.
  - intros []. split_and!; try done; rewrite Forall_forall in *; intros r Hin;
      destruct (valid_auth0 r Hin) as [Ha Hs]; simpl; try done; naive_solver.
Qed.
End checks.

(** The error vector of the uniqueness loop holds one error per repeated name. *)
Lemma for_each_unique_length {A} (name : A → string) dup (l : list A) errs (seen : gset string) :
  (length (foldl (λ '(seen, errs) x,
       (({[name x]} ∪ seen : gset string),
        push_if (bool_decide (name x ∈ (seen : gset string))) (dup x) errs)) (seen, errs) l).2
   + size (list_to_set (name <$> l) ∪ seen : gset string)
   = length errs + length l + size seen)%nat.
Proof.
  revert errs seen. induction l as [|x l IH]; intros errs seen.
  - simpl. rewrite (left_id_L ∅ (∪)). lia.
  - rewrite fmap_cons, list_to_set_cons. cbn [foldl length].
    specialize (IH (push_if (bool_decide (name x ∈ seen)) (dup x) errs) ({[name x]} ∪ seen)).
    replace ({[name x]} ∪ list_to_set (name <$> l) ∪ seen)
      with (list_to_set (name <$> l) ∪ ({[name x]} ∪ seen) : gset string) by set_solver.
    destruct (decide (name x ∈ seen)) as [Hin|Hin].
    + rewrite bool_decide_eq_true_2 in * by done. cbn [push_if] in *. unfold push in *.
      rewrite length_app in IH. cbn [length] in IH.
      assert ({[name x]} ∪ seen = seen) as Hs by set_solver. rewrite Hs in *. lia.
    + rewrite bool_decide_eq_false_2 in * by done. cbn [push_if] in *.
      rewrite (size_union {[name x]} seen) in IH by set_solver. rewrite size_singleton in IH.
      lia.
Qed.

Lemma for_each_unique_count {A} (name : A → string) dup (l : list A) errs :
  length (for_each_unique (λ _ e, e) name dup l errs)
  = (length errs + (length l - size (list_to_set (name <$> l) : gset string)))%nat.
Proof.
  pose proof (for_each_unique_length name dup l errs ∅) as H.
  pose proof (for_each_unique_length name dup l [] ∅) as H0.
  rewrite (right_id_L ∅ (∪)), size_empty in H, H0.
  unfold for_each_unique. cbn [length] in *. lia.
Qed.

(** ** Properties *)
Section properties.
Context `{Y : YamlLib} (url_parse_ok : string → bool).

Lemma validate_valid (cfg : GatewayConfig) :
  validate url_parse_ok cfg = Ok tt ↔ valid_config url_parse_ok cfg.
Proof.
  rewrite <-(Checks_nil _ _ (validate_checks url_parse_ok cfg)). unfold validate.
  by destruct (check_conditional_requirements _ _).
Qed.

(** [C8] Validation is sound and complete: [validate] accepts a configuration
    exactly when the declarative [valid_config] holds of it. *)
Theorem validate_ok_iff (cfg : GatewayConfig) :
  validate url_parse_ok cfg = Ok tt ↔ valid_config url_parse_ok cfg.
Proof. apply validate_valid. Qed.

(** Validation is not fail-fast: for every kind of name, the uniqueness
    check reports exactly as many duplicates as there are names beyond the
    distinct ones. *)
Theorem uniqueness_reports_every_duplicate (cfg : GatewayConfig) :
  length (check_uniqueness cfg []) =
  ((length (GatewayConfig.routes cfg)
      - size (list_to_set (RouteConfig.name <$> GatewayConfig.routes cfg) : gset string)) +
   (length (GatewayConfig.services cfg)
      - size (list_to_set (ServiceConfig.name <$> GatewayConfig.services cfg) : gset string)) +
   (length (AuthConfig.providers (GatewayConfig.auth cfg))
      - size (list_to_set (AuthProvider.name <$> AuthConfig.providers (GatewayConfig.auth cfg))
              : gset string)))%nat.
Proof. unfold check_uniqueness. rewrite !for_each_unique_count. done. Qed.

(** Loading returns a configuration exactly when the YAML parses to it and
    it is valid; a parse failure is reported as a single [YamlParse] error. *)
Theorem load_config_from_str_spec (yaml_from_str : string → result YamlError GatewayConfig) yaml :
  match yaml_from_str yaml with
  | Ok cfg => (load_config_from_str url_parse_ok yaml_from_str yaml = Ok cfg ↔
                 valid_config url_parse_ok cfg) ∧
              (∀ cfg', load_config_from_str url_parse_ok yaml_from_str yaml = Ok cfg' → cfg' = cfg)
  | Err e => load_config_from_str url_parse_ok yaml_from_str yaml =
             Err (ConfigErrors_new [YamlParse (yaml_error_to_string e)])
  end.
Proof.
  unfold load_config_from_str. destruct (yaml_from_str yaml) as [cfg|e]; [|done]. simpl.
  rewrite <-(Checks_nil _ _ (validate_checks url_parse_ok cfg)). unfold validate.
  destruct (check_conditional_requirements _ _); simpl; naive_solver.
Qed.
End properties.

(** The range checks on [f64] fields let a NaN through: a route whose
    [refill_rate_per_sec] is NaN, and a NaN [sample_rate], pass validation
    although their messages ask for "> 0" and "between 0.0 and 1.0". *)
Theorem nan_passes_validation :
  let cfg := config_with [route_with_rate S754_nan] [sample_service] in
  validate (λ _, true) cfg = Ok tt ∧
  f64_gt S754_nan f64_zero = false ∧
  validate (λ _, true) (GatewayConfig.mk 1 sample_server (AuthConfig.mk [sample_provider])
    sample_rate_limits [sample_route] [sample_service]
    (ObservabilityConfig.mk true true (TracingConfig.mk false EmptyString S754_nan))
    PluginsConfig.PluginsConfig_default XdsConfig.XdsConfig_default ExtProcConfig.ExtProcConfig_default) = Ok tt.
Proof. split_and!; vm_compute; reflexivity. Qed.
