(* ===== verification/DeserializeSpec.v ===== *)
(** * Theorems on reading the configuration

    Which documents are accepted and what they yield, and that every
    configuration whose numbers fit their types has a document. *)
From S2P Require Import Prelude RustStr F64 Yaml ConfigTypes Validation Deserialize Samples ValidationSpec.

Section structs.
Context `{Y : YamlLib} `{S : !SerdeYaml}.
Notation entries := (list (string * Node)).

(** ** The loop over the entries *)
Lemma find_field_elem k (m : entries) n : find_field k m = Some n → (k, n) ∈ m.
Proof.
  unfold find_field. destruct (iter_find _ m) as [[k' n']|] eqn:E; [|done]. intros [= ->].
  apply iter_find_Some in E as [Hin Hk]. simpl in Hk. apply bool_decide_eq_true in Hk. by subst.
Qed.
Lemma find_field_NoDup k (m : entries) n : NoDup m.*1 → (k, n) ∈ m → find_field k m = Some n.
Proof.
  intros Hnd Hin. unfold find_field. induction m as [|[k' n'] m IH]; [by apply not_elem_of_nil in Hin|].
  simpl in *. apply NoDup_cons in Hnd as [Hnin Hnd]. apply elem_of_cons in Hin as [[= -> ->]|Hin].
  - by rewrite bool_decide_eq_true_2.
  - rewrite bool_decide_eq_false_2; [by apply IH|]. intros ->. apply Hnin.
    apply list_elem_of_fmap. by exists (k, n).
Qed.

Definition has_check (fields : list (string * (Node → result YamlError unit))) (k : string) (n : Node) : Prop :=
  ∃ f, iter_find (λ f, bool_decide (f.1 = k)) fields = Some f ∧ f.2 n = Ok tt.

Lemma visit_map_ok fields seen (m : entries) :
  visit_map fields seen m = Ok tt ↔
  NoDup m.*1 ∧ (∀ k, k ∈ m.*1 → k ∉ seen) ∧ ∀ k n, (k, n) ∈ m → has_check fields k n.
Proof.
  revert seen. induction m as [|[k n] m IH]; intros seen; simpl.
  { split; [intros _|done]. split_and!; [constructor|set_solver|set_solver]. }
  unfold has_check in *. rewrite NoDup_cons. setoid_rewrite elem_of_cons.
  destruct (iter_find _ fields) as [f|] eqn:Ef.
  2: { split; [done|]. intros (_ & _ & Hc). destruct (Hc k n ltac:(by left)) as (f & Hf & _). congruence. }
  case_bool_decide as Hseen.
  { split; [done|]. intros (_ & Hd & _). by destruct (Hd k ltac:(by left)). }
  rewrite result_bind_Ok. split.
  - intros ([] & Hf & (Hnd & Hs & Hc)%IH). split_and!; [|done| |].
    + intros Hin. apply (Hs k Hin). set_solver.
    + intros k' [->|Hin]; [done|]. specialize (Hs k' Hin). set_solver.
    + intros k' n' [[= -> ->]|Hin]; [eauto|by apply Hc].
  - intros ([Hnin Hnd] & Hs & Hc). destruct (Hc k n ltac:(by left)) as (f' & Hf' & Hn).
    rewrite Ef in Hf'. injection Hf' as <-. exists tt. split; [done|]. apply IH. split_and!; [done| |].
    + intros k' Hin. rewrite elem_of_cons. intros [->|Hin']; [done|]. by apply (Hs k'); [right|].
    + intros k' n' Hin. apply Hc. by right.
Qed.

(** ** Structs *)

(** Building the struct reads every field it knows. *)
Class Covers {A} (F : Fields A) : Prop := covers m a k c n :
  (k, c) ∈ known F → build F m = Ok a → find_field k m = Some n → c n = Ok tt.
Global Instance covers_constructor {A} (a : A) : Covers (constructor a).
Proof. intros m a' k c n Hin. by apply not_elem_of_nil in Hin. Qed.
Global Instance covers_with_field {A B} (F : Fields (A → B)) k d missing :
  Covers F → Covers (with_field F k d missing).
Proof.
  intros HF m b k' c n Hin Hb Hn. simpl in Hin, Hb.
  apply result_bind_Ok in Hb as (f & Hf & (a & Ha & _)%result_bind_Ok).
  apply elem_of_app in Hin as [Hin|Hin]; [by eapply HF|].
  apply list_elem_of_singleton in Hin as [= -> ->]. rewrite Hn in Ha. unfold checks_as. by rewrite Ha.
Qed.

Lemma struct_ok {A} (F : Fields A) `{!Covers F} n a :
  struct F n = Ok a ↔
  ∃ m, de_entries (names F) n = Ok m ∧ NoDup m.*1 ∧ m.*1 ⊆ names F ∧ build F m = Ok a.
Proof.
  unfold struct. rewrite result_bind_Ok. setoid_rewrite result_bind_Ok. split.
  - intros (m & Hm & [] & (Hnd & _ & Hc)%visit_map_ok & Hb). exists m. split_and!; try done.
    intros k ([k' n'] & -> & Hin)%list_elem_of_fmap. destruct (Hc k' n' Hin) as (f & Hf & _).
    apply iter_find_Some in Hf as [Hf Hk]. apply bool_decide_eq_true in Hk.
    apply list_elem_of_fmap. by exists f.
  - intros (m & Hm & Hnd & Hsub & Hb). exists m. split; [done|]. exists tt. split; [|done].
    apply visit_map_ok. split_and!; [done|set_solver|]. intros k n' Hin.
    assert (k ∈ names F) as ([k' c] & Hk' & Hin')%list_elem_of_fmap.
    { apply Hsub, list_elem_of_fmap. by exists (k, n'). }
    simpl in Hk'. subst k'.
    destruct (iter_find_exists (λ f : string * _, bool_decide (f.1 = k)) (known F) (k, c) Hin')
      as ([k2 c2] & Hf); [by apply bool_decide_eq_true|]. exists (k2, c2). split; [done|]. simpl.
    apply iter_find_Some in Hf as [Hf Hk]. apply bool_decide_eq_true in Hk. simpl in Hk. subst k2.
    eapply covers; [done|done|]. by apply find_field_NoDup.
Qed.

(** A field of the document, and one that may be left out. *)
Definition field_is {A} (m : entries) (k : string) (d : Node → result YamlError A) (a : A) : Prop :=
  ∃ n, (k, n) ∈ m ∧ d n = Ok a.
Definition field_or {A} (m : entries) (k : string) (d : Node → result YamlError A) (v a : A) : Prop :=
  field_is m k d a ∨ (k ∉ m.*1 ∧ a = v).

Lemma find_field_None k (m : entries) : find_field k m = None ↔ k ∉ m.*1.
Proof.
  unfold find_field. rewrite fmap_None, iter_find_None, list_elem_of_fmap. split.
  - intros Hn ([k' n] & Hk & Hin). specialize (Hn _ Hin). simpl in *. by rewrite bool_decide_eq_true_2 in Hn.
  - intros Hn [k' n] Hin. apply bool_decide_eq_false. simpl. intros ->. apply Hn. by exists (k, n).
Qed.
Lemma required_ok {A} (m : entries) k (d : Node → result YamlError A) a :
  NoDup m.*1 →
  (match find_field k m with Some n => d n | None => Err (missing_field k) end = Ok a ↔ field_is m k d a).
Proof.
  intros Hnd. split.
  - destruct (find_field k m) as [n|] eqn:E; [|done]. intros Hd. exists n.
    split; [by apply find_field_elem|done].
  - intros (n & Hin & Hd). by rewrite (find_field_NoDup _ _ _ Hnd Hin).
Qed.
Lemma defaulted_ok {A} (m : entries) k (d : Node → result YamlError A) v a :
  NoDup m.*1 →
  (match find_field k m with Some n => d n | None => Ok v end = Ok a ↔ field_or m k d v a).
Proof.
  intros Hnd. unfold field_or. split.
  - destruct (find_field k m) as [n|] eqn:E.
    + intros Hd. left. exists n. split; [by apply find_field_elem|done].
    + intros [= <-]. right. split; [by apply find_field_None|done].
  - intros [(n & Hin & Hd)|[Hn ->]].
    + by rewrite (find_field_NoDup _ _ _ Hnd Hin).
    + apply find_field_None in Hn. by rewrite Hn.
Qed.
End structs.

(** The fields of a struct that has been read. *)
Ltac read_binds H :=
  lazymatch type of H with
  | _ ≫= _ = Ok _ =>
      let a := fresh "a" in let Ha := fresh "Ha" in let f := fresh "f" in let Hf := fresh "Hf" in
      apply result_bind_Ok in H as (f & Hf & (a & Ha & H)%result_bind_Ok);
      injection H as <-; read_binds Hf
  | Ok _ = Ok _ => injection H as <-
  end.
Ltac read_fields H :=
  try lazymatch type of H with build (?F _ _) _ = Ok _ => unfold F in H end;
  cbn [build with_field constructor] in H; read_binds H.

Section config.
Context `{Y : YamlLib} `{S : !SerdeYaml}.
Implicit Types cfg : GatewayConfig.

(** ** The root of the document *)
Definition root_fields : list string :=
  ["version"; "gateway"; "auth"; "rate_limits"; "routes"; "services"; "observability";
   "plugins"; "xds"; "ext_proc"].

(** [C11] Which documents are configurations, and of what: the root must be a
    mapping whose keys are among the ten known ones, without repetition; the
    seven sections that have no default must be there and each be readable as
    its type; [plugins], [xds] and [ext_proc] may be left out, and then take
    their defaults.  Anything else, a misspelt key included, is an error. *)
Theorem config_document (n : Node) (cfg : GatewayConfig) :
  struct GatewayConfig_fields n = Ok cfg ↔
  ∃ m, de_entries root_fields n = Ok m ∧ NoDup m.*1 ∧ m.*1 ⊆ root_fields ∧
    field_is m "version" de_u32 (GatewayConfig.version cfg) ∧
    field_is m "gateway" (struct GatewayServer_fields) (GatewayConfig.gateway cfg) ∧
    field_is m "auth" (struct AuthConfig_fields) (GatewayConfig.auth cfg) ∧
    field_is m "rate_limits" (struct RateLimitsConfig_fields) (GatewayConfig.rate_limits cfg) ∧
    field_is m "routes" (de_vec (struct RouteConfig_fields)) (GatewayConfig.routes cfg) ∧
    field_is m "services" (de_vec (struct ServiceConfig_fields)) (GatewayConfig.services cfg) ∧
    field_is m "observability" (struct ObservabilityConfig_fields) (GatewayConfig.observability cfg) ∧
    field_or m "plugins" (struct PluginsConfig_fields) (PluginsConfig.mk false EmptyString (PluginLimits.mk 8388608 1000000 50) []) (GatewayConfig.plugins cfg) ∧
    field_or m "xds" (struct XdsConfig_fields) (XdsConfig.mk false "0.0.0.0:18000") (GatewayConfig.xds cfg) ∧
    field_or m "ext_proc" (struct ExtProcConfig_fields) (ExtProcConfig.mk false "0.0.0.0:19000") (GatewayConfig.ext_proc cfg).
Proof.
  assert (Hc : Covers GatewayConfig_fields) by apply _. rewrite (struct_ok GatewayConfig_fields).
  change (names GatewayConfig_fields) with root_fields. split.
  - intros (m & Hm & Hnd & Hsub & Hb). exists m. split_and!; try done;
      read_fields Hb; simpl; (by apply required_ok) || by apply defaulted_ok.
  - intros (m & Hm & Hnd & Hsub & H1 & H2 & H3 & H4 & H5 & H6 & H7 & H8 & H9 & H10). exists m.
    split_and!; try done. apply (required_ok _ _ _ _ Hnd) in H1, H2, H3, H4, H5, H6, H7.
    apply (defaulted_ok _ _ _ _ _ Hnd) in H8, H9, H10.
    unfold GatewayConfig_fields. cbn [build with_field constructor mbind result_bind].
    change (PluginsConfig.mk false EmptyString (PluginLimits.mk 8388608 1000000 50) [])
      with PluginsConfig.PluginsConfig_default in H8.
    change (XdsConfig.mk false "0.0.0.0:18000") with XdsConfig.XdsConfig_default in H9.
    change (ExtProcConfig.mk false "0.0.0.0:19000") with ExtProcConfig.ExtProcConfig_default in H10.
    rewrite H1, H2, H3, H4, H5, H6, H7. cbn [mbind result_bind].
    rewrite H8. cbn [mbind result_bind]. rewrite H9. cbn [mbind result_bind]. rewrite H10. by destruct cfg.
Qed.

(** ** Ranges

    The integer fields are in the ranges of their Rust types. *)
Definition server_in_range (s : GatewayServer.GatewayServer) : Prop :=
  is_u64 (GatewayServer.request_timeout_ms s) ∧ is_u64 (GatewayServer.idle_timeout_ms s) ∧
  is_u64 (GatewayServer.max_request_body_bytes s) ∧
  from_option is_u64 True (GatewayServer.max_concurrent_requests s).
Definition provider_in_range (p : AuthProvider) : Prop :=
  is_u64 (AuthProvider.cache_ttl_seconds p) ∧ is_u64 (AuthProvider.clock_skew_seconds p).
Definition auth_in_range (a : AuthConfig.AuthConfig) : Prop :=
  Forall provider_in_range (AuthConfig.providers a).
Definition survivability_in_range (s : SurvivabilityMode.SurvivabilityMode) : Prop :=
  is_u64 (SurvivabilityMode.fallback_capacity s).
Definition rate_limits_in_range (r : RateLimitsConfig) : Prop :=
  is_u32 (RateLimitsConfig.redis_db r) ∧ is_u64 (RateLimitsConfig.default_timeout_ms r) ∧
  survivability_in_range (RateLimitsConfig.survivability_mode r).
Definition bucket_in_range (b : RouteRateLimit.RouteRateLimit) : Prop :=
  is_u64 (RouteRateLimit.bucket_capacity b).
Definition upstream_in_range (u : UpstreamConfig.UpstreamConfig) : Prop :=
  is_u64 (UpstreamConfig.request_timeout_ms u) ∧ is_u32 (UpstreamConfig.retries u).
Definition route_in_range (r : RouteConfig) : Prop :=
  bucket_in_range (RouteConfig.rate_limit r) ∧ upstream_in_range (RouteConfig.upstream r).
Definition health_in_range (h : HealthCheckConfig.HealthCheckConfig) : Prop :=
  is_u64 (HealthCheckConfig.interval_ms h) ∧ is_u64 (HealthCheckConfig.timeout_ms h).
Definition service_in_range (s : ServiceConfig) : Prop := health_in_range (ServiceConfig.health_check s).
Definition limits_in_range (l : PluginLimits) : Prop :=
  is_u64 (PluginLimits.max_memory_bytes l) ∧ is_u32 (PluginLimits.max_instructions l) ∧
  is_u64 (PluginLimits.chain_timeout_ms l).
Definition plugins_in_range (p : PluginsConfig.PluginsConfig) : Prop := limits_in_range (PluginsConfig.limits p).
Definition config_in_range (cfg : GatewayConfig) : Prop :=
  is_u32 (GatewayConfig.version cfg) ∧ server_in_range (GatewayConfig.gateway cfg) ∧
  auth_in_range (GatewayConfig.auth cfg) ∧ rate_limits_in_range (GatewayConfig.rate_limits cfg) ∧
  Forall route_in_range (GatewayConfig.routes cfg) ∧ Forall service_in_range (GatewayConfig.services cfg) ∧
  plugins_in_range (GatewayConfig.plugins cfg).

End config.

(** ** Every configuration has a document *)
Class SerdeBuild `{YamlLib} (S : SerdeYaml) := {
  n_string : string → Node;
  n_bool : bool → Node;
  n_int : Z → Node;
  n_f64 : f64 → Node;
  n_null : Node;
  n_seq : list Node → Node;
  n_map : list (string * Node) → Node;
  n_value : Value → Node;
  de_string_of s : de_string (n_string s) = Ok s;
  de_bool_of b : de_bool (n_bool b) = Ok b;
  de_unsigned_of max z : (0 ≤ z ≤ max)%Z → de_unsigned max (n_int z) = Ok z;
  de_f64_of x : de_f64 (n_f64 x) = Ok x;
  de_some_null : de_some n_null = Ok None;
  de_some_string s : de_some (n_string s) = Ok (Some (n_string s));
  de_some_int z : de_some (n_int z) = Ok (Some (n_int z));
  de_some_seq l : de_some (n_seq l) = Ok (Some (n_seq l));
  de_seq_of l : de_seq (n_seq l) = Ok l;
  de_entries_of names m : de_entries names (n_map m) = Ok m;
  de_value_of v : de_value (n_value v) = Ok v
}.

Section documents.
Context `{Y : YamlLib} `{S : !SerdeYaml} `{B : !SerdeBuild S}.

Definition n_option {A} (f : A → Node) (o : option A) : Node := from_option f n_null o.
Definition n_vec {A} (f : A → Node) (l : list A) : Node := n_seq (f <$> l).

Lemma de_u64_of z : is_u64 z → de_u64 (n_int z) = Ok z.
Proof. apply de_unsigned_of. Qed.
Lemma de_u32_of z : is_u32 z → de_u32 (n_int z) = Ok z.
Proof. apply de_unsigned_of. Qed.
Lemma de_usize_of z : is_u64 z → de_usize (n_int z) = Ok z.
Proof. apply de_unsigned_of. Qed.
Lemma de_vec_of {A} (d : Node → result YamlError A) f l :
  Forall (λ a, d (f a) = Ok a) l → de_vec d (n_vec f l) = Ok l.
Proof.
  intros Hl. unfold de_vec, n_vec. rewrite de_seq_of. cbn [mbind result_bind]. apply mapM_Ok.
  induction Hl; constructor; done.
Qed.
Lemma de_strings_of l : de_vec de_string (n_vec n_string l) = Ok l.
Proof. apply de_vec_of, Forall_true, de_string_of. Qed.
Lemma de_option_string_of o : de_option de_string (n_option n_string o) = Ok o.
Proof.
  unfold de_option. destruct o as [s|]; simpl; [|by rewrite de_some_null].
  rewrite de_some_string. simpl. by rewrite de_string_of.
Qed.
Lemma de_option_u64_of o : from_option is_u64 True o → de_option de_u64 (n_option n_int o) = Ok o.
Proof.
  intros Ho. unfold de_option. destruct o as [z|]; simpl; [|by rewrite de_some_null].
  rewrite de_some_int. simpl. by rewrite de_u64_of.
Qed.
Lemma de_option_strings_of o : de_option (de_vec de_string) (n_option (n_vec n_string) o) = Ok o.
Proof.
  unfold de_option. destruct o as [l|]; simpl; [|by rewrite de_some_null].
  unfold n_vec at 1. rewrite de_some_seq. simpl. fold (n_vec n_string l). by rewrite de_strings_of.
Qed.

(** A mapping with the entries of a struct. *)
Lemma struct_of_map {A} (F : Fields A) `{!Covers F} m a :
  bool_decide (NoDup m.*1) = true → forallb (λ k, bool_decide (k ∈ names F)) m.*1 = true →
  build F m = Ok a → struct F (n_map m) = Ok a.
Proof.
  intros Hnd%bool_decide_eq_true Hsub Hb. apply struct_ok; [done|]. exists m. split_and!; try done.
  - apply de_entries_of.
  - intros k Hk. rewrite forallb_forall in Hsub. eapply bool_decide_eq_true_1, Hsub. by apply list_elem_of_In.
Qed.

Definition doc_server (s : GatewayServer.GatewayServer) : Node := n_map
  [("listen_address", n_string (GatewayServer.listen_address s));
   ("admin_address", n_string (GatewayServer.admin_address s));
   ("request_timeout_ms", n_int (GatewayServer.request_timeout_ms s));
   ("idle_timeout_ms", n_int (GatewayServer.idle_timeout_ms s));
   ("max_request_body_bytes", n_int (GatewayServer.max_request_body_bytes s));
   ("trust_forwarded_headers", n_bool (GatewayServer.trust_forwarded_headers s));
   ("extauthz_address", n_option n_string (GatewayServer.extauthz_address s));
   ("max_concurrent_requests", n_option n_int (GatewayServer.max_concurrent_requests s))].
Definition doc_provider (p : AuthProvider) : Node := n_map
  [("name", n_string (AuthProvider.name p)); ("issuer", n_string (AuthProvider.issuer p));
   ("audience", n_string (AuthProvider.audience p)); ("jwks_uri", n_string (AuthProvider.jwks_uri p));
   ("cache_ttl_seconds", n_int (AuthProvider.cache_ttl_seconds p));
   ("clock_skew_seconds", n_int (AuthProvider.clock_skew_seconds p))].
Definition doc_auth (a : AuthConfig.AuthConfig) : Node := n_map
  [("providers", n_vec doc_provider (AuthConfig.providers a))].
Definition doc_survivability (s : SurvivabilityMode.SurvivabilityMode) : Node := n_map
  [("enabled", n_bool (SurvivabilityMode.enabled s));
   ("fallback_capacity", n_int (SurvivabilityMode.fallback_capacity s));
   ("fallback_refill_rate_per_sec", n_f64 (SurvivabilityMode.fallback_refill_rate_per_sec s))].
Definition doc_rate_limits (r : RateLimitsConfig) : Node := n_map
  [("redis_address", n_string (RateLimitsConfig.redis_address r));
   ("redis_db", n_int (RateLimitsConfig.redis_db r));
   ("redis_key_prefix", n_string (RateLimitsConfig.redis_key_prefix r));
   ("default_timeout_ms", n_int (RateLimitsConfig.default_timeout_ms r));
   ("fail_open", n_bool (RateLimitsConfig.fail_open r));
   ("survivability_mode", doc_survivability (RateLimitsConfig.survivability_mode r))].
Definition doc_plugin (p : PluginInstance) : Node := n_map
  [("name", n_string (PluginInstance.name p)); ("enabled", n_bool (PluginInstance.enabled p));
   ("fail_mode", n_string (PluginInstance.fail_mode p)); ("config", n_value (PluginInstance.config p))].
Definition doc_bucket (b : RouteRateLimit.RouteRateLimit) : Node := n_map
  [("bucket_capacity", n_int (RouteRateLimit.bucket_capacity b));
   ("refill_rate_per_sec", n_f64 (RouteRateLimit.refill_rate_per_sec b));
   ("key_by", n_string (RouteRateLimit.key_by b))].
Definition doc_upstream (u : UpstreamConfig.UpstreamConfig) : Node := n_map
  [("service", n_string (UpstreamConfig.service u));
   ("request_timeout_ms", n_int (UpstreamConfig.request_timeout_ms u));
   ("retries", n_int (UpstreamConfig.retries u))].
Definition doc_route (r : RouteConfig) : Node := n_map
  [("name", n_string (RouteConfig.name r)); ("hostnames", n_vec n_string (RouteConfig.hostnames r));
   ("path_prefix", n_string (RouteConfig.path_prefix r)); ("methods", n_vec n_string (RouteConfig.methods r));
   ("auth_required", n_bool (RouteConfig.auth_required r));
   ("auth_provider", n_option n_string (RouteConfig.auth_provider r));
   ("required_scopes", n_option (n_vec n_string) (RouteConfig.required_scopes r));
   ("rate_limit", doc_bucket (RouteConfig.rate_limit r)); ("upstream", doc_upstream (RouteConfig.upstream r));
   ("plugins", n_vec doc_plugin (RouteConfig.plugins r))].
Definition doc_health (h : HealthCheckConfig.HealthCheckConfig) : Node := n_map
  [("path", n_string (HealthCheckConfig.path h)); ("interval_ms", n_int (HealthCheckConfig.interval_ms h));
   ("timeout_ms", n_int (HealthCheckConfig.timeout_ms h))].
Definition doc_service (s : ServiceConfig) : Node := n_map
  [("name", n_string (ServiceConfig.name s)); ("endpoints", n_vec n_string (ServiceConfig.endpoints s));
   ("health_check", doc_health (ServiceConfig.health_check s))].
Definition doc_tracing (t : TracingConfig.TracingConfig) : Node := n_map
  [("enabled", n_bool (TracingConfig.enabled t)); ("otlp_endpoint", n_string (TracingConfig.otlp_endpoint t));
   ("sample_rate", n_f64 (TracingConfig.sample_rate t))].
Definition doc_observability (o : ObservabilityConfig.ObservabilityConfig) : Node := n_map
  [("access_log_json", n_bool (ObservabilityConfig.access_log_json o));
   ("prometheus_enabled", n_bool (ObservabilityConfig.prometheus_enabled o));
   ("tracing", doc_tracing (ObservabilityConfig.tracing o))].
Definition doc_limits (l : PluginLimits) : Node := n_map
  [("max_memory_bytes", n_int (PluginLimits.max_memory_bytes l));
   ("max_instructions", n_int (PluginLimits.max_instructions l));
   ("chain_timeout_ms", n_int (PluginLimits.chain_timeout_ms l))].
Definition doc_plugins (p : PluginsConfig.PluginsConfig) : Node := n_map
  [("enabled", n_bool (PluginsConfig.enabled p)); ("directory", n_string (PluginsConfig.directory p));
   ("limits", doc_limits (PluginsConfig.limits p)); ("global", n_vec doc_plugin (PluginsConfig.global p))].
Definition doc_xds (x : XdsConfig.XdsConfig) : Node := n_map
  [("enabled", n_bool (XdsConfig.enabled x)); ("listen_address", n_string (XdsConfig.listen_address x))].
Definition doc_ext_proc (x : ExtProcConfig.ExtProcConfig) : Node := n_map
  [("enabled", n_bool (ExtProcConfig.enabled x)); ("listen_address", n_string (ExtProcConfig.listen_address x))].
Definition doc_config (cfg : GatewayConfig) : Node := n_map
  [("version", n_int (GatewayConfig.version cfg)); ("gateway", doc_server (GatewayConfig.gateway cfg));
   ("auth", doc_auth (GatewayConfig.auth cfg)); ("rate_limits", doc_rate_limits (GatewayConfig.rate_limits cfg));
   ("routes", n_vec doc_route (GatewayConfig.routes cfg));
   ("services", n_vec doc_service (GatewayConfig.services cfg));
   ("observability", doc_observability (GatewayConfig.observability cfg));
   ("plugins", doc_plugins (GatewayConfig.plugins cfg)); ("xds", doc_xds (GatewayConfig.xds cfg));
   ("ext_proc", doc_ext_proc (GatewayConfig.ext_proc cfg))].

Lemma find_field_here k n (m : list (string * Node)) : find_field k ((k, n) :: m) = Some n.
Proof. unfold find_field. simpl. by rewrite bool_decide_eq_true_2. Qed.
Lemma find_field_next k k' n (m : list (string * Node)) :
  k' ≠ k → find_field k ((k', n) :: m) = find_field k m.
Proof. intros Hne. unfold find_field. simpl. by rewrite bool_decide_eq_false_2. Qed.
End documents.

(** Reads a document back, field by field. *)
Ltac read_back :=
  apply struct_of_map; [apply _|vm_compute; reflexivity|vm_compute; reflexivity|];
  lazymatch goal with |- build (?F _ _) _ = _ => unfold F end;
  cbn [build with_field constructor];
  repeat first
    [ rewrite find_field_here | rewrite find_field_next by done | rewrite de_string_of | rewrite de_bool_of
    | rewrite de_f64_of | rewrite de_value_of | rewrite de_strings_of | rewrite de_option_string_of
    | rewrite de_option_strings_of | rewrite de_u64_of by done | rewrite de_u32_of by done
    | rewrite de_usize_of by done | rewrite de_option_u64_of by done
    | rewrite de_vec_of by assumption | progress cbn [mbind result_bind]
    | match goal with H : struct _ _ = Ok _ |- _ => rewrite H end ].

Section roundtrip.
Context `{Y : YamlLib} `{S : !SerdeYaml} `{B : !SerdeBuild S}.

Lemma read_server s : server_in_range s → struct GatewayServer_fields (doc_server s) = Ok s.
Proof. intros (? & ? & ? & ?). read_back. by destruct s. Qed.
Lemma read_provider p : provider_in_range p → struct AuthProvider_fields (doc_provider p) = Ok p.
Proof. intros (? & ?). read_back. by destruct p. Qed.
Lemma read_auth a : auth_in_range a → struct AuthConfig_fields (doc_auth a) = Ok a.
Proof.
  intros Ha. assert (Forall (λ p, struct AuthProvider_fields (doc_provider p) = Ok p) (AuthConfig.providers a))
    by (eapply Forall_impl; [exact Ha|apply read_provider]). read_back. by destruct a.
Qed.
Lemma read_survivability s :
  survivability_in_range s → struct SurvivabilityMode_fields (doc_survivability s) = Ok s.
Proof. unfold survivability_in_range. intros ?. read_back. by destruct s. Qed.
Lemma read_rate_limits r : rate_limits_in_range r → struct RateLimitsConfig_fields (doc_rate_limits r) = Ok r.
Proof. intros (? & ? & ?%read_survivability). read_back. by destruct r. Qed.
Lemma read_plugin p : struct PluginInstance_fields (doc_plugin p) = Ok p.
Proof. read_back. by destruct p. Qed.
Lemma read_plugin_list ps : Forall (λ p, struct PluginInstance_fields (doc_plugin p) = Ok p) ps.
Proof. apply Forall_true, read_plugin. Qed.
Lemma read_bucket b : bucket_in_range b → struct RouteRateLimit_fields (doc_bucket b) = Ok b.
Proof. unfold bucket_in_range. intros ?. read_back. by destruct b. Qed.
Lemma read_upstream u : upstream_in_range u → struct UpstreamConfig_fields (doc_upstream u) = Ok u.
Proof. intros (? & ?). read_back. by destruct u. Qed.
Lemma read_route r : route_in_range r → struct RouteConfig_fields (doc_route r) = Ok r.
Proof.
  intros (?%read_bucket & ?%read_upstream). pose proof (read_plugin_list (RouteConfig.plugins r)).
  read_back. by destruct r.
Qed.
Lemma read_health h : health_in_range h → struct HealthCheckConfig_fields (doc_health h) = Ok h.
Proof. intros (? & ?). read_back. by destruct h. Qed.
Lemma read_service s : service_in_range s → struct ServiceConfig_fields (doc_service s) = Ok s.
Proof. intros ?%read_health. read_back. by destruct s. Qed.
Lemma read_tracing t : struct TracingConfig_fields (doc_tracing t) = Ok t.
Proof. read_back. by destruct t. Qed.
Lemma read_observability o : struct ObservabilityConfig_fields (doc_observability o) = Ok o.
Proof. pose proof (read_tracing (ObservabilityConfig.tracing o)). read_back. by destruct o. Qed.
Lemma read_limits l : limits_in_range l → struct PluginLimits_fields (doc_limits l) = Ok l.
Proof. intros (? & ? & ?). read_back. by destruct l. Qed.
Lemma read_plugins p : plugins_in_range p → struct PluginsConfig_fields (doc_plugins p) = Ok p.
Proof.
  intros ?%read_limits. pose proof (read_plugin_list (PluginsConfig.global p)). read_back. by destruct p.
Qed.
Lemma read_xds x : struct XdsConfig_fields (doc_xds x) = Ok x.
Proof. read_back. by destruct x. Qed.
Lemma read_ext_proc x : struct ExtProcConfig_fields (doc_ext_proc x) = Ok x.
Proof. read_back. by destruct x. Qed.

(** [C28] Nothing is lost or moved: a document that writes out every field of a
    configuration whose numbers fit their types is read back as exactly that
    configuration. *)
Theorem config_roundtrip (cfg : GatewayConfig) :
  config_in_range cfg → struct GatewayConfig_fields (doc_config cfg) = Ok cfg.
Proof.
  intros (? & ?%read_server & ?%read_auth & ?%read_rate_limits & Hr & Hs & ?%read_plugins).
  pose proof (read_observability (GatewayConfig.observability cfg)).
  pose proof (read_xds (GatewayConfig.xds cfg)). pose proof (read_ext_proc (GatewayConfig.ext_proc cfg)).
  assert (Forall (λ r, struct RouteConfig_fields (doc_route r) = Ok r) (GatewayConfig.routes cfg))
    by (eapply Forall_impl; [exact Hr|apply read_route]).
  assert (Forall (λ s, struct ServiceConfig_fields (doc_service s) = Ok s) (GatewayConfig.services cfg))
    by (eapply Forall_impl; [exact Hs|apply read_service]).
  read_back. by destruct cfg.
Qed.
End roundtrip.

(** ** A format, and witnesses on it *)
Module SerdeModel.
Inductive node :=
  | NNull | NBool (b : bool) | NInt (z : Z) | NFloat (x : f64) | NStr (s : string)
  | NSeq (l : list node) | NMap (m : list (string * node)) | NValue (v : Value (YamlLib := YamlModel.yaml_model)).

#[export] Instance serde_model : SerdeYaml (H := YamlModel.yaml_model) := {|
  Node := node;
  de_string n := match n with NStr s => Ok s | _ => Err "invalid type, expected a string" end;
  de_bool n := match n with NBool b => Ok b | _ => Err "invalid type, expected a boolean" end;
  de_unsigned max n :=
    match n with
    | NInt z => if (0 <=? z)%Z && (z <=? max)%Z then Ok z else Err "invalid value: integer"
    | _ => Err "invalid type, expected an integer"
    end;
  de_f64 n :=
    match n with NFloat x => Ok x | NInt z => Ok (f64_of_int z) | _ => Err "invalid type, expected f64" end;
  de_some n := match n with NNull => Ok None | _ => Ok (Some n) end;
  de_seq n := match n with NSeq l => Ok l | _ => Err "invalid type, expected a sequence" end;
  de_entries _ n := match n with NMap m => Ok m | _ => Err "invalid type, expected a mapping" end;
  de_value n := match n with NValue v => Ok v | _ => Err "not a value" end;
  value_default := YamlModel.MMap [];
  unknown_field k _ := "unknown field `" +:+ k +:+ "`";
  duplicate_field k := "duplicate field `" +:+ k +:+ "`";
  missing_field k := "missing field `" +:+ k +:+ "`"
|}.
#[export] Instance serde_model_build : SerdeBuild serde_model.
Proof.
  refine {| n_string := NStr; n_bool := NBool; n_int := NInt; n_f64 := NFloat; n_null := NNull;
            n_seq := NSeq; n_map := NMap; n_value := NValue |}; try done.
  intros max z [H1 H2]. simpl. apply Z.leb_le in H1, H2. by rewrite H1, H2.
Defined.
End SerdeModel.
Import SerdeModel.

Lemma config_roundtrip_witness : struct GatewayConfig_fields (doc_config sample_config) = Ok sample_config.
Proof.
  apply (config_roundtrip sample_config).
  unfold config_in_range, server_in_range, auth_in_range, provider_in_range, rate_limits_in_range,
    survivability_in_range, route_in_range, bucket_in_range, upstream_in_range, service_in_range,
    health_in_range, plugins_in_range, limits_in_range, is_u64, is_u32.
  repeat first [apply conj | apply Forall_cons | apply Forall_nil | exact I | (vm_compute; discriminate)].
Defined.
