(* ===== verification/EnvoyGen.v ===== *)
(** * Envoy bootstrap generation

    [controlplane/src/config/envoy_gen.rs] and [envoy_ext_authz.rs]: the
    translation of a gateway configuration into Envoy's static bootstrap, as a
    [serde_yaml::Value] that is then printed. *)
From S2P Require Import Prelude RustStr F64 Yaml ConfigTypes.
From Stdlib Require Import Ascii.

Inductive EnvoyGenError `{YamlLib} :=
  | InvalidEndpoint (endpoint : string)
  | Serialization (e : YamlError).

Definition EnvoyGenError_to_string `{YamlLib} (e : EnvoyGenError) : string :=
  match e with
  | InvalidEndpoint s => "invalid endpoint format '" +:+ s +:+ "': expected host:port"
  | Serialization e => "YAML serialization error: " +:+ yaml_error_to_string e
  end.

(** ** Endpoints and durations *)
Definition parse_endpoint `{YamlLib} (endpoint : string) : result EnvoyGenError (string * Z) :=
  colon_pos ← ok_or (InvalidEndpoint endpoint) (rfind ":" endpoint);
  let host := str_take colon_pos endpoint in
  let port_str := str_drop (S colon_pos) endpoint in
  if str_is_empty host then Err (InvalidEndpoint endpoint)
  else
    port ← ok_or (InvalidEndpoint endpoint) (parse_u16 port_str);
    Ok (host, port).

Definition duration_string (ms : Z) : string :=
  let secs := (ms / 1000)%Z in
  let frac := (ms mod 1000)%Z in
  if (frac =? 0)%Z then fmt_int secs +:+ "s"
  else fmt_int secs +:+ "." +:+ fmt_int_pad 3 frac +:+ "s".

(** ** Grouping of routes by host set

    [groups]: the sorted host names, the name of the first route that had
    them, and the entries so far.  [add_to_group] is the body of the loop:
    push onto the first group with the key, or start a new group. *)
Fixpoint add_to_group {V} (key : list string) (name : string) (entry : V)
    (groups : list (list string * string * list V)) : list (list string * string * list V) :=
  match groups with
  | [] => [(key, name, [entry])]
  | (k, n, es) :: gs =>
      if decide (k = key) then (k, n, es ++ [entry]) :: gs
      else (k, n, es) :: add_to_group key name entry gs
  end.

Section envoy_gen.
Context `{Y : YamlLib}.

Definition val (s : string) : Value := VString s.

(** A mapping built by a sequence of [insert] calls. *)
Definition mapping (kvs : list (string * Value)) : Mapping :=
  foldl (λ m kv, Mapping_insert m (val kv.1) kv.2) Mapping_new kvs.
Definition map_value (kvs : list (string * Value)) : Value := VMapping (mapping kvs).

Definition build_socket_address (host : string) (port : Z) : Value :=
  let sa := map_value [("address", val host); ("port_value", VNumber port)] in
  map_value [("socket_address", sa)].

Definition build_admin : Value :=
  map_value [("address", build_socket_address "127.0.0.1" 9901)].

Definition build_health_check (service : ServiceConfig) : Value :=
  let hc := ServiceConfig.health_check service in
  let http_hc := map_value [("path", val (HealthCheckConfig.path hc))] in
  map_value [("timeout", val (duration_string (HealthCheckConfig.timeout_ms hc)));
             ("interval", val (duration_string (HealthCheckConfig.interval_ms hc)));
             ("unhealthy_threshold", VNumber 3);
             ("healthy_threshold", VNumber 1);
             ("http_health_check", http_hc)].

Definition build_lb_endpoint (ep : string) : result EnvoyGenError Value :=
  hp ← parse_endpoint ep;
  let ep_inner := map_value [("address", build_socket_address hp.1 hp.2)] in
  Ok (map_value [("endpoint", ep_inner)]).

Definition build_cluster (service : ServiceConfig) : result EnvoyGenError Value :=
  lb_endpoints ← mapM build_lb_endpoint (ServiceConfig.endpoints service);
  let endpoint_group := map_value [("lb_endpoints", VSequence lb_endpoints)] in
  let load_assignment := map_value
    [("cluster_name", val (ServiceConfig.name service));
     ("endpoints", VSequence [endpoint_group])] in
  let health_check := build_health_check service in
  Ok (map_value
    [("name", val (ServiceConfig.name service));
     ("type", val "STRICT_DNS");
     ("lb_policy", val "ROUND_ROBIN");
     ("connect_timeout",
        val (duration_string (HealthCheckConfig.timeout_ms (ServiceConfig.health_check service))));
     ("load_assignment", load_assignment);
     ("health_checks", VSequence [health_check])]).

Definition build_clusters (services : list ServiceConfig) : result EnvoyGenError (list Value) :=
  mapM build_cluster services.

Definition build_route_entry (route : RouteConfig) : Value :=
  let up := RouteConfig.upstream route in
  let match_rule := map_value [("prefix", val (RouteConfig.path_prefix route))] in
  let retry := if (0 <? UpstreamConfig.retries up)%Z
    then [("retry_policy", map_value [("retry_on", val "5xx,connect-failure");
                                      ("num_retries", VNumber (UpstreamConfig.retries up))])]
    else [] in
  let route_action := map_value
    ([("cluster", val (UpstreamConfig.service up));
      ("timeout", val (duration_string (UpstreamConfig.request_timeout_ms up)))] ++ retry) in
  map_value [("match", match_rule); ("route", route_action)].

Definition route_key (route : RouteConfig) : list string :=
  sort_strings (RouteConfig.hostnames route).

(** The loop over [routes] *)
Definition group_routes {V} (entry : RouteConfig → V) (routes : list RouteConfig)
    : list (list string * string * list V) :=
  foldl (λ groups route,
    add_to_group (route_key route) (RouteConfig.name route) (entry route) groups) [] routes.

(** One virtual host; [None] is the panic of [.expect("route")]. *)
Definition build_virtual_host (routes : list RouteConfig)
    (group : list string * string * list Value) : option Value :=
  let '(_, name, route_entries) := group in
  matching ← iter_find (λ r, bool_decide (RouteConfig.name r = name)) routes;
  let domains := val <$> RouteConfig.hostnames matching in
  Some (map_value [("name", val name); ("domains", VSequence domains);
                   ("routes", VSequence route_entries)]).

Definition build_virtual_hosts (routes : list RouteConfig) : option (list Value) :=
  mapM (build_virtual_host routes) (group_routes build_route_entry routes).

(** ** ext_authz filter and cluster ([envoy_ext_authz.rs]) *)
Definition build_ext_authz_filter : Value :=
  let server_uri := map_value
    [("uri", val "http://gateway_manager_extauthz");
     ("cluster", val "gateway_manager_extauthz");
     ("timeout", val "0.250s")] in
  let auth_pattern := map_value [("exact", val "authorization")] in
  let host_pattern := map_value [("exact", val "host")] in
  let fwd_pattern := map_value [("prefix", val "x-forwarded-")] in
  let allowed_headers := map_value
    [("patterns", VSequence [auth_pattern; host_pattern; fwd_pattern])] in
  let auth_request := map_value [("allowed_headers", allowed_headers)] in
  let upstream_pattern := map_value [("prefix", val "x-auth-")] in
  let rl_pattern := map_value [("prefix", val "x-ratelimit-")] in
  let allowed_upstream := map_value [("patterns", VSequence [upstream_pattern; rl_pattern])] in
  let auth_response := map_value [("allowed_upstream_headers", allowed_upstream)] in
  let http_service := map_value
    [("server_uri", server_uri);
     ("authorization_request", auth_request);
     ("authorization_response", auth_response)] in
  let typed_config := map_value
    [("@type", val "type.googleapis.com/envoy.extensions.filters.http.ext_authz.v3.ExtAuthz");
     ("transport_api_version", val "V3");
     ("http_service", http_service);
     ("failure_mode_allow", VBool false)] in
  map_value [("name", val "envoy.filters.http.ext_authz"); ("typed_config", typed_config)].

Definition build_ext_authz_cluster (host : string) (port : Z) : Value :=
  let ep_inner := map_value [("address", build_socket_address host port)] in
  let lb_ep := map_value [("endpoint", ep_inner)] in
  let endpoint_group := map_value [("lb_endpoints", VSequence [lb_ep])] in
  let load_assignment := map_value
    [("cluster_name", val "gateway_manager_extauthz");
     ("endpoints", VSequence [endpoint_group])] in
  map_value
    [("name", val "gateway_manager_extauthz");
     ("type", val "STATIC");
     ("connect_timeout", val "0.250s");
     ("load_assignment", load_assignment)].

(** ** Listener and bootstrap *)
Definition build_router_filter : Value :=
  let router_typed := map_value
    [("@type", val "type.googleapis.com/envoy.extensions.filters.http.router.v3.Router")] in
  map_value [("name", val "envoy.filters.http.router"); ("typed_config", router_typed)].

Definition build_http_filters (cfg : GatewayConfig) : list Value :=
  match GatewayServer.extauthz_address (GatewayConfig.gateway cfg) with
  | Some _ => [build_ext_authz_filter]
  | None => []
  end ++ [build_router_filter].

Definition build_listener_value (cfg : GatewayConfig) (listen : string * Z)
    (virtual_hosts : list Value) : Value :=
  let route_config := map_value
    [("name", val "local_route"); ("virtual_hosts", VSequence virtual_hosts)] in
  let common_http := map_value
    [("idle_timeout",
        val (duration_string (GatewayServer.idle_timeout_ms (GatewayConfig.gateway cfg))))] in
  let hcm_typed_config := map_value
    [("@type", val "type.googleapis.com/envoy.extensions.filters.network.http_connection_manager.v3.HttpConnectionManager");
     ("stat_prefix", val "ingress_http");
     ("generate_request_id", VBool true);
     ("common_http_protocol_options", common_http);
     ("route_config", route_config);
     ("http_filters", VSequence (build_http_filters cfg))] in
  let hcm_filter := map_value
    [("name", val "envoy.filters.network.http_connection_manager");
     ("typed_config", hcm_typed_config)] in
  let filter_chain := map_value [("filters", VSequence [hcm_filter])] in
  map_value
    [("name", val "main_listener");
     ("address", build_socket_address listen.1 listen.2);
     ("filter_chains", VSequence [filter_chain])].

(** [None] is a panic. *)
Definition build_listener (cfg : GatewayConfig) : option (result EnvoyGenError Value) :=
  match parse_endpoint (GatewayServer.listen_address (GatewayConfig.gateway cfg)) with
  | Err e => Some (Err e)
  | Ok listen =>
      match build_virtual_hosts (GatewayConfig.routes cfg) with
      | None => None
      | Some virtual_hosts => Some (Ok (build_listener_value cfg listen virtual_hosts))
      end
  end.

(** The clusters of the services, and the ext_authz cluster if configured. *)
Definition build_all_clusters (cfg : GatewayConfig) : result EnvoyGenError (list Value) :=
  clusters ← build_clusters (GatewayConfig.services cfg);
  match GatewayServer.extauthz_address (GatewayConfig.gateway cfg) with
  | Some addr =>
      hp ← parse_endpoint addr;
      Ok (clusters ++ [build_ext_authz_cluster hp.1 hp.2])
  | None => Ok clusters
  end.

(** The root mapping with its two sections. *)
Definition build_root (listener : Value) (clusters : list Value) : result EnvoyGenError Value :=
  root ← map_err Serialization (to_value_mapping Mapping_new);
  let root := default Mapping_new (as_mapping root) in
  let static_resources := map_value
    [("listeners", VSequence [listener]); ("clusters", VSequence clusters)] in
  let root := Mapping_insert root (val "static_resources") static_resources in
  let root := Mapping_insert root (val "admin") build_admin in
  Ok (VMapping root).

Definition generate_envoy_value (cfg : GatewayConfig) : option (result EnvoyGenError Value) :=
  listener_r ← build_listener cfg;
  Some (listener ← listener_r;
        clusters ← build_all_clusters cfg;
        build_root listener clusters).

Definition generate_envoy_config (cfg : GatewayConfig) : option (result EnvoyGenError string) :=
  root_r ← generate_envoy_value cfg;
  Some (root ← root_r; map_err Serialization (yaml_to_string root)).
End envoy_gen.
