(* ===== verification/EnvoyGenSpec.v ===== *)
(** * Envoy bootstrap generation: properties *)
From S2P Require Import Prelude RustStr F64 Yaml ConfigTypes Validation Samples ValidationSpec EnvoyGen.
From Stdlib Require Import Ascii.

(** ** Reading durations back

    Envoy's duration syntax: a decimal number of seconds with an optional
    three-digit fraction, followed by ["s"]; the value in milliseconds. *)
Definition strip_suffix_s (s : string) : option string :=
  i ← rfind "s" s;
  if str_is_empty (str_drop (S i) s) then Some (str_take i s) else None.

Definition parse_duration (s : string) : option Z :=
  body ← strip_suffix_s s;
  match split_once "." body with
  | None => secs ← parse_uint u64_max body; Some (secs * 1000)%Z
  | Some (whole, frac) =>
      secs ← parse_uint u64_max whole;
      ms ← parse_uint u64_max frac;
      if (String.length frac =? 3)%nat then Some (secs * 1000 + ms)%Z else None
  end.

(** The groups of a list of routes: distinct keys; each group has the entries
    of the routes with that key, in order, and the name of the first of them;
    every route's key has a group. *)
Record groups_ok `{YamlLib} {V} (entry : RouteConfig → V) (routes : list RouteConfig)
    (groups : list (list string * string * list V)) : Prop := {
  groups_nodup : NoDup ((λ g, g.1.1) <$> groups);
  groups_entries k n es : (k, n, es) ∈ groups →
    es = entry <$> filter (λ r, route_key r = k) routes ∧
    RouteConfig.name <$> head (filter (λ r, route_key r = k) routes) = Some n;
  groups_cover r : r ∈ routes → route_key r ∈ ((λ g, g.1.1) <$> groups)
}.

(** ** Endpoints *)
Lemma parse_endpoint_app `{YamlLib} host port n :
  (":"%char) ∉ bytes port → host ≠ EmptyString → parse_u16 port = Some n →
  parse_endpoint (host +:+ String ":" port) = Ok (host, n).
Proof.
  intros Hno Hh Hp. unfold parse_endpoint. rewrite rfind_app_last by done. cbn [ok_or mbind result_bind].
  rewrite str_take_app, str_drop_app.
  rewrite (proj2 (str_is_empty_false host)) by done. by rewrite Hp.
Qed.

Lemma parse_endpoint_inv `{YamlLib} s host n :
  parse_endpoint s = Ok (host, n) →
  ∃ port, s = host +:+ String ":" port ∧ (":"%char) ∉ bytes port ∧ host ≠ EmptyString ∧
    parse_u16 port = Some n.
Proof.
  unfold parse_endpoint. destruct (rfind ":" s) as [i|] eqn:E; [|done]. cbn [ok_or mbind result_bind].
  destruct (rfind_Some _ _ _ E) as [Heq Hno].
  destruct (str_is_empty (str_take i s)) eqn:Hh; [done|].
  destruct (parse_u16 (str_drop (S i) s)) as [m|] eqn:Hp; [|done]. simpl. intros [= <- <-].
  exists (str_drop (S i) s). by rewrite <-str_is_empty_false.
Qed.

(** What the validator accepts is what the generators can parse. *)
Lemma parse_endpoint_host_port `{YamlLib} s :
  host_port s ↔ ∃ hp, parse_endpoint s = Ok hp.
Proof.
  split.
  - intros (host & port & n & -> & ? & ? & ?). exists (host, n). by apply parse_endpoint_app.
  - intros [[host n] (port & -> & ? & ? & ?)%parse_endpoint_inv]. by exists host, port, n.
Qed.

Lemma colon_not_in_int n : (0 ≤ n)%Z → (":"%char) ∉ bytes (fmt_int n).
Proof. intros Hn Hin. destruct (fmt_int_digits n _ Hn Hin) as [d Hd]. vm_compute in Hd. done. Qed.

(** ** Grouping *)
Lemma add_to_group_keys {V} key name (e : V) gs :
  (λ g, g.1.1) <$> add_to_group key name e gs =
  if decide (key ∈ ((λ g, g.1.1) <$> gs)) then (λ g, g.1.1) <$> gs
  else ((λ g, g.1.1) <$> gs) ++ [key].
Proof.
  induction gs as [|[[k n] es] gs IH]; [done|]. cbn [add_to_group].
  destruct (decide (k = key)) as [->|Hne].
  - rewrite !fmap_cons. rewrite decide_True by set_solver. done.
  - rewrite !fmap_cons, IH. cbn [fst]. repeat case_decide; [done|set_solver..|done].
Qed.

Lemma add_to_group_elem {V} key name (e : V) gs k n es :
  NoDup ((λ g, g.1.1) <$> gs) →
  (k, n, es) ∈ add_to_group key name e gs →
  (k ≠ key ∧ (k, n, es) ∈ gs) ∨
  (k = key ∧ ∃ es', (key, n, es') ∈ gs ∧ es = es' ++ [e]) ∨
  (k = key ∧ key ∉ ((λ g, g.1.1) <$> gs) ∧ n = name ∧ es = [e]).
Proof.
  induction gs as [|[[k1 n1] es1] gs IH]; cbn [add_to_group].
  - intros _ Hin. apply list_elem_of_singleton in Hin. simplify_eq. right; right. set_solver.
  - rewrite fmap_cons, NoDup_cons. cbn [fst]. intros [Hk Hnd].
    destruct (decide (k1 = key)) as [->|Hne]; rewrite elem_of_cons; intros [Heq|Hin].
    + simplify_eq. right; left. split; [done|]. eexists. split; [left|done].
    + left. split; [|by right]. intros ->. apply Hk. apply list_elem_of_fmap.
      by exists (key, n, es).
    + simplify_eq. left. split; [done|]. by left.
    + destruct (IH Hnd Hin) as [[? ?]|[(-> & es' & ? & ->)|(-> & Hno & -> & ->)]].
      * left. split; [done|]. by right.
      * right; left. split; [done|]. eexists. split; [by right|done].
      * right; right. split_and!; try done. set_solver.
Qed.

Lemma group_routes_snoc `{YamlLib} {V} (entry : RouteConfig → V) rs r :
  group_routes entry (rs ++ [r]) =
  add_to_group (route_key r) (RouteConfig.name r) (entry r) (group_routes entry rs).
Proof. unfold group_routes. by rewrite foldl_app. Qed.

Lemma group_routes_ok `{YamlLib} {V} (entry : RouteConfig → V) routes :
  groups_ok entry routes (group_routes entry routes).
Proof.
  induction routes as [|r rs IH] using rev_ind.
  { split; [constructor|set_solver|set_solver]. }
  destruct IH as [Hnd Hes Hcov]. rewrite group_routes_snoc. split.
  - rewrite add_to_group_keys. case_decide; [done|].
    apply NoDup_app. split_and!; [done|set_solver|apply NoDup_singleton].
  - intros k n es Hin. rewrite filter_app, filter_cons, filter_nil.
    destruct (add_to_group_elem _ _ _ _ _ _ _ Hnd Hin)
      as [[Hne Hin']|[(-> & es' & Hin' & ->)|(-> & Hno & -> & ->)]].
    + rewrite decide_False by done. rewrite app_nil_r. by apply Hes.
    + rewrite decide_True by done. destruct (Hes _ _ _ Hin') as [-> Hn].
      rewrite fmap_app. split; [done|].
      by destruct (filter (λ r0, route_key r0 = route_key r) rs).
    + rewrite decide_True by done.
      assert (filter (λ r0, route_key r0 = route_key r) rs = []) as ->; [|done].
      destruct (filter _ rs) as [|r0 l] eqn:E; [done|]. exfalso. apply Hno.
      assert (r0 ∈ filter (λ r0, route_key r0 = route_key r) rs) as Hr0 by (rewrite E; left).
      apply list_elem_of_filter in Hr0 as [<- Hr0]. by apply Hcov.
  - intros r0. rewrite elem_of_app, list_elem_of_singleton, add_to_group_keys.
    intros [Hr0| ->]; case_decide; set_solver.
Qed.

(** The name of every group is the name of a route with the group's key. *)
Lemma group_name_route `{YamlLib} {V} (entry : RouteConfig → V) routes k n es :
  (k, n, es) ∈ group_routes entry routes →
  ∃ r, r ∈ routes ∧ route_key r = k ∧ RouteConfig.name r = n.
Proof.
  intros Hin. destruct (group_routes_ok entry routes) as [_ Hes _].
  destruct (Hes _ _ _ Hin) as [_ Hn].
  destruct (filter (λ r, route_key r = k) routes) as [|r l] eqn:E; [done|].
  simpl in Hn. simplify_eq. exists r.
  assert (r ∈ filter (λ r, route_key r = k) routes) as Hr by (rewrite E; left).
  by apply list_elem_of_filter in Hr as [? ?].
Qed.

Lemma build_virtual_host_total `{YamlLib} routes g :
  g ∈ group_routes build_route_entry routes → ∃ v, build_virtual_host routes g = Some v.
Proof.
  destruct g as [[k n] es]. intros (r & Hr & _ & Hn)%group_name_route. simpl.
  destruct (iter_find_exists (λ r, bool_decide (RouteConfig.name r = n)) routes r) as [y ->];
    [done|by apply bool_decide_eq_true_2|]. by eexists.
Qed.

Lemma build_virtual_hosts_total `{YamlLib} routes : ∃ vs, build_virtual_hosts routes = Some vs.
Proof.
  unfold build_virtual_hosts.
  assert (Hall : Forall (λ g, is_Some (build_virtual_host routes g))
                   (group_routes build_route_entry routes)).
  { apply Forall_forall. intros g Hg. destruct (build_virtual_host_total routes g Hg) as [v ->].
    by eexists. }
  apply mapM_is_Some_2 in Hall as [vs Hvs]. by exists vs.
Qed.

(** ** Reading the generated document *)

(** The last binding of a key in a sequence of [insert] calls. *)
Fixpoint assoc_last {V} (k : string) (kvs : list (string * V)) : option V :=
  match kvs with
  | [] => None
  | (k', v) :: kvs' =>
      match assoc_last k kvs' with
      | Some v' => Some v'
      | None => if decide (k' = k) then Some v else None
      end
  end.

Definition vhost_name `{YamlLib} (v : Value) : option string := n ← vget v "name"; as_str n.
Definition vhost_domains `{YamlLib} (v : Value) : option (list string) :=
  d ← vget v "domains"; l ← as_sequence d; mapM as_str l.
Definition vhost_routes `{YamlLib} (v : Value) : option (list Value) :=
  r ← vget v "routes"; as_sequence r.
Definition entry_prefix `{YamlLib} (v : Value) : option string :=
  p ← path v ["match"; "prefix"]; as_str p.
Definition entry_cluster `{YamlLib} (v : Value) : option string :=
  c ← path v ["route"; "cluster"]; as_str c.

(** The typed configuration of the HTTP connection manager of a bootstrap. *)
Definition hcm_of `{YamlLib} (root : Value) : option Value :=
  ls ← path root ["static_resources"; "listeners"];
  l ← seq_at 0 ls;
  cs ← vget l "filter_chains";
  c ← seq_at 0 cs;
  fs ← vget c "filters";
  f ← seq_at 0 fs;
  vget f "typed_config".
Definition clusters_of `{YamlLib} (root : Value) : option (list Value) :=
  c ← path root ["static_resources"; "clusters"]; as_sequence c.
Definition http_filters_of `{YamlLib} (root : Value) : option (list Value) :=
  h ← hcm_of root; f ← vget h "http_filters"; as_sequence f.
Definition virtual_hosts_of `{YamlLib} (root : Value) : option (list Value) :=
  h ← hcm_of root; v ← path h ["route_config"; "virtual_hosts"]; as_sequence v.

Section reading.
Context `{Y : YamlLib} `{!YamlLaws Y}.

Lemma vget_mapping_go (kvs : list (string * Value)) m k :
  vget (VMapping (foldl (λ m kv, Mapping_insert m (val kv.1) kv.2) m kvs)) k =
  match assoc_last k kvs with Some v => Some v | None => vget (VMapping m) k end.
Proof.
  revert m. induction kvs as [|[k' v] kvs IH]; intros m; [done|].
  cbn [foldl assoc_last]. rewrite IH. destruct (assoc_last k kvs); [done|]. cbn [fst snd].
  case_decide as Hk; [subst; apply vget_insert_eq|by apply vget_insert_ne].
Qed.

Lemma vget_map_value kvs k : vget (map_value kvs) k = assoc_last k kvs.
Proof.
  unfold map_value, mapping. rewrite vget_mapping_go, vget_new. by destruct (assoc_last k kvs).
Qed.

Lemma mapM_as_str (l : list string) : mapM as_str (val <$> l) = Some l.
Proof.
  induction l as [|x l IH]; [done|]. rewrite fmap_cons. cbn [mapM]. rewrite IH.
  unfold val. by rewrite as_str_string.
Qed.

Lemma build_virtual_host_reads routes k n es v :
  build_virtual_host routes (k, n, es) = Some v →
  ∃ r, iter_find (λ r, bool_decide (RouteConfig.name r = n)) routes = Some r ∧
    vhost_name v = Some n ∧ vhost_domains v = Some (RouteConfig.hostnames r) ∧
    vhost_routes v = Some es.
Proof.
  simpl. destruct (iter_find _ routes) as [r|] eqn:Hr; [|done]. simpl. intros [= <-].
  exists r. unfold vhost_name, vhost_domains, vhost_routes. rewrite !vget_map_value. simpl.
  rewrite !as_sequence_seq. simpl. by rewrite as_str_string, mapM_as_str.
Qed.

Lemma entry_prefix_route r : entry_prefix (build_route_entry r) = Some (RouteConfig.path_prefix r).
Proof.
  unfold entry_prefix, path, build_route_entry. simpl. rewrite vget_map_value. simpl.
  rewrite vget_map_value. simpl. by rewrite as_str_string.
Qed.

Lemma entry_cluster_route r :
  entry_cluster (build_route_entry r) = Some (UpstreamConfig.service (RouteConfig.upstream r)).
Proof.
  unfold entry_cluster, path, build_route_entry. simpl. rewrite vget_map_value. simpl.
  rewrite vget_map_value. destruct (0 <? _)%Z; simpl; by rewrite as_str_string.
Qed.

Lemma root_reads cfg listen vhosts clusters root :
  build_root (build_listener_value cfg listen vhosts) clusters = Ok root →
  clusters_of root = Some clusters ∧ http_filters_of root = Some (build_http_filters cfg) ∧
  virtual_hosts_of root = Some vhosts.
Proof.
  unfold build_root. rewrite to_value_mapping_ok. simpl. rewrite as_mapping_mapping. simpl.
  intros [= <-].
  assert (Hsr : ∀ sr, path (VMapping (Mapping_insert (Mapping_insert Mapping_new
      (val "static_resources") sr) (val "admin") build_admin)) ["static_resources"] = Some sr).
  { intros sr. unfold path. simpl. rewrite vget_insert_ne by done. apply vget_insert_eq. }
  unfold clusters_of, http_filters_of, virtual_hosts_of, hcm_of, path in *. simpl in *.
  rewrite Hsr. simpl. rewrite !vget_map_value. simpl. rewrite as_sequence_seq.
  unfold seq_at. rewrite !as_sequence_seq. simpl. unfold build_listener_value.
  rewrite !vget_map_value. simpl. rewrite !as_sequence_seq. simpl. rewrite !vget_map_value. simpl.
  rewrite !as_sequence_seq. simpl. rewrite !vget_map_value. simpl.
  rewrite !vget_map_value. simpl. rewrite vget_map_value. simpl. by rewrite !as_sequence_seq.
Qed.
End reading.

(** ** Durations *)
Lemma strip_suffix_s_app x : strip_suffix_s (x +:+ "s") = Some x.
Proof.
  unfold strip_suffix_s. change "s" with (String "s" EmptyString).
  rewrite rfind_app_last by (unfold bytes; set_solver). cbn [mbind option_bind].
  by rewrite str_drop_app, str_take_app.
Qed.

Lemma pad3_reads n : (0 < n < 1000)%Z →
  String.length (fmt_int_pad 3 n) = 3%nat ∧ parse_uint u64_max (fmt_int_pad 3 n) = Some n.
Proof.
  intros Hn.
  assert (Hall : forallb (λ k, let z := Z.of_nat k in
      (String.length (fmt_int_pad 3 z) =? 3)%nat &&
      bool_decide (parse_uint u64_max (fmt_int_pad 3 z) = Some z)) (seq 1 999) = true)
    by (vm_compute; reflexivity).
  rewrite forallb_forall in Hall.
  specialize (Hall (Z.to_nat n)). cbv zeta in Hall. rewrite Z2Nat.id in Hall by lia.
  rewrite andb_true_iff, Nat.eqb_eq, bool_decide_eq_true in Hall.
  apply Hall, in_seq. lia.
Qed.

(** Durations survive the translation to Envoy: reading the string that
    [duration_string] prints gives the number of milliseconds back, for every
    [u64]. *)
Theorem duration_string_roundtrip (ms : Z) :
  is_u64 ms → parse_duration (duration_string ms) = Some ms.
Proof.
  intros [Hlo Hhi]. pose proof (Z.div_mod ms 1000 ltac:(lia)) as Hdm.
  pose proof (Z.mod_pos_bound ms 1000 ltac:(lia)) as Hmod.
  assert (0 ≤ ms / 1000 ≤ u64_max)%Z as Hdiv.
  { split; [by apply Z.div_pos|]. etrans; [|exact Hhi]. apply Z.div_le_upper_bound; lia. }
  unfold duration_string, parse_duration. destruct (Z.eqb_spec (ms mod 1000) 0) as [Hz|Hz].
  - rewrite strip_suffix_s_app. cbn [mbind option_bind].
    rewrite split_once_None by (apply not_digit_not_in_int; [lia|done]).
    rewrite parse_fmt_int by done. cbn [mbind option_bind]. f_equal. lia.
  - rewrite <-!str_app_assoc, strip_suffix_s_app, str_app_assoc. cbn [mbind option_bind].
    change "." with (String "." EmptyString). rewrite str_app_cons, str_app_nil_l.
    rewrite split_once_app by (apply not_digit_not_in_int; [lia|done]).
    rewrite parse_fmt_int by done. cbn [mbind option_bind].
    destruct (pad3_reads (ms mod 1000)) as [Hlen Hp]; [lia|]. rewrite Hp. cbn [mbind option_bind].
    rewrite Hlen. simpl. f_equal. lia.
Qed.

Lemma duration_string_roundtrip_witness :
  is_u64 1500 ∧ duration_string 1500 = "1.500s" ∧ parse_duration (duration_string 1500) = Some 1500%Z.
Proof.
  split; [vm_compute; done|]. split; [reflexivity|].
  apply (duration_string_roundtrip 1500). vm_compute; done.
Defined.

(** The endpoint parser inverts printing and accepts exactly the
    ["host:port"] strings of the validator: parsing a printed host and port
    gives them back, and [parse_endpoint] succeeds on a string exactly when
    validation accepts it. *)
Theorem parse_endpoint_spec `{YamlLib} :
  (∀ host port, host ≠ EmptyString → is_u16 port →
     parse_endpoint (host +:+ ":" +:+ fmt_int port) = Ok (host, port)) ∧
  (∀ s field, validate_host_port s field [] = [] ↔ ∃ hp, parse_endpoint s = Ok hp).
Proof.
  split.
  - intros host port Hh [Hlo Hhi]. change ":" with (String ":" EmptyString).
    rewrite str_app_cons, str_app_nil_l.
    apply parse_endpoint_app; [by apply colon_not_in_int|done|by apply parse_fmt_int].
  - intros s field. rewrite <-parse_endpoint_host_port. apply Checks_nil. apply _.
Qed.

(** ** Virtual hosts *)

(** The virtual host of a group has the name, host set and entries of it. *)
Lemma virtual_host_reads `{Y : YamlLib} `{!YamlLaws Y} routes k n es v :
  NoDup (RouteConfig.name <$> routes) →
  (k, n, es) ∈ group_routes build_route_entry routes →
  build_virtual_host routes (k, n, es) = Some v →
  vhost_name v = Some n ∧ vhost_routes v = Some es ∧
  ∃ ds, vhost_domains v = Some ds ∧ ds ≡ₚ k.
Proof.
  intros Hnd (r & Hr & <- & <-)%group_name_route (r' & Hfind & Hn & Hd & Hes)%build_virtual_host_reads.
  rewrite (iter_find_unique RouteConfig.name routes r) in Hfind by done. simplify_eq.
  split_and!; [done..|]. eexists; split; [done|]. symmetry. apply sort_strings_perm.
Qed.

(** Grouping is correct for uniquely named routes: generation does not
    panic, and the virtual hosts correspond to a partition of the routes by
    host set, one virtual host per distinct set, whose domains are that set
    and whose entries are the entries of exactly its routes in configuration
    order. *)
Theorem virtual_hosts_partition `{Y : YamlLib} `{!YamlLaws Y} (routes : list RouteConfig) :
  NoDup (RouteConfig.name <$> routes) →
  ∃ groups vhosts,
    groups_ok build_route_entry routes groups ∧
    build_virtual_hosts routes = Some vhosts ∧
    Forall2 (λ g v, vhost_name v = Some g.1.2 ∧ vhost_routes v = Some g.2 ∧
               ∃ ds, vhost_domains v = Some ds ∧ ds ≡ₚ g.1.1) groups vhosts.
Proof.
  intros Hnd. destruct (build_virtual_hosts_total routes) as [vs Hvs].
  exists (group_routes build_route_entry routes), vs.
  split_and!; [apply group_routes_ok|done|].
  unfold build_virtual_hosts in Hvs. apply mapM_Some_1 in Hvs.
  eapply Forall2_impl_elem; [exact Hvs|].
  intros [[k n] es] v Hg Hv. apply (virtual_host_reads routes); done.
Qed.

Lemma virtual_hosts_partition_witness :
  NoDup (RouteConfig.name <$> GatewayConfig.routes sample_config) ∧
  ∃ groups vhosts,
    groups_ok build_route_entry (GatewayConfig.routes sample_config) groups ∧
    build_virtual_hosts (GatewayConfig.routes sample_config) = Some vhosts ∧
    Forall2 (λ g v, vhost_name v = Some g.1.2 ∧ vhost_routes v = Some g.2 ∧
               ∃ ds, vhost_domains v = Some ds ∧ ds ≡ₚ g.1.1) groups vhosts.
Proof.
  assert (NoDup (RouteConfig.name <$> GatewayConfig.routes sample_config)) as H
    by (apply (bool_decide_unpack _); vm_compute; exact I).
  split; [exact H|]. apply (virtual_hosts_partition _ H).
Defined.

(** ** The whole bootstrap *)

Definition value_name `{YamlLib} (v : Value) : option string := n ← vget v "name"; as_str n.

(** The clusters and HTTP filters a configuration should produce, by name. *)
Definition cluster_names `{YamlLib} (cfg : GatewayConfig) : list string :=
  (ServiceConfig.name <$> GatewayConfig.services cfg) ++
  match GatewayServer.extauthz_address (GatewayConfig.gateway cfg) with
  | Some _ => ["gateway_manager_extauthz"]
  | None => []
  end.

Section bootstrap.
Context `{Y : YamlLib} `{!YamlLaws Y}.

Lemma build_cluster_ok (s : ServiceConfig) :
  Forall host_port (ServiceConfig.endpoints s) →
  ∃ v, build_cluster s = Ok v ∧ value_name v = Some (ServiceConfig.name s).
Proof.
  intros Hall. unfold build_cluster.
  destruct (mapM_Ok_all build_lb_endpoint (ServiceConfig.endpoints s)) as [lbs ->].
  { intros ep Hep. rewrite Forall_forall in Hall.
    destruct (proj1 (parse_endpoint_host_port ep)) as [hp Hhp]; [by apply Hall|].
    unfold build_lb_endpoint. rewrite Hhp. by eexists. }
  simpl. eexists; split; [done|].
  unfold value_name. rewrite vget_map_value. simpl. by rewrite as_str_string.
Qed.

Lemma build_clusters_ok (services : list ServiceConfig) :
  Forall (λ s, Forall host_port (ServiceConfig.endpoints s)) services →
  ∃ vs, build_clusters services = Ok vs ∧ mapM value_name vs = Some (ServiceConfig.name <$> services).
Proof.
  unfold build_clusters. induction 1 as [|s ss Hs _ (vs & IH & Hn)]; simpl; [by exists []|].
  destruct (build_cluster_ok s Hs) as (v & -> & Hv). simpl. rewrite IH. simpl.
  exists (v :: vs). split; [done|]. simpl. by rewrite Hv, Hn.
Qed.

Lemma build_all_clusters_ok cfg :
  Forall (λ s, Forall host_port (ServiceConfig.endpoints s)) (GatewayConfig.services cfg) →
  (∀ a, GatewayServer.extauthz_address (GatewayConfig.gateway cfg) = Some a → host_port a) →
  ∃ vs, build_all_clusters cfg = Ok vs ∧ mapM value_name vs = Some (cluster_names cfg).
Proof.
  intros Hs Ha. unfold build_all_clusters, cluster_names.
  destruct (build_clusters_ok _ Hs) as (vs & -> & Hn). simpl.
  destruct (GatewayServer.extauthz_address (GatewayConfig.gateway cfg)) as [a|];
    [|exists vs; by rewrite app_nil_r].
  destruct (proj1 (parse_endpoint_host_port a)) as [hp Hhp]; [by apply Ha|]. rewrite Hhp. simpl.
  eexists; split; [done|]. apply mapM_Some_app; [done|]. simpl.
  unfold value_name, build_ext_authz_cluster. rewrite vget_map_value. simpl.
  by rewrite as_str_string.
Qed.

Lemma filter_names cfg :
  mapM value_name (build_http_filters cfg) =
  Some (match GatewayServer.extauthz_address (GatewayConfig.gateway cfg) with
        | Some _ => ["envoy.filters.http.ext_authz"; "envoy.filters.http.router"]
        | None => ["envoy.filters.http.router"]
        end).
Proof.
  unfold build_http_filters, value_name, build_ext_authz_filter, build_router_filter.
  destruct (GatewayServer.extauthz_address _); simpl; rewrite !vget_map_value; simpl;
    by rewrite !as_str_string.
Qed.

(** The entries of the virtual hosts are the entries of the routes. *)
Lemma virtual_host_entries routes vs v es e :
  build_virtual_hosts routes = Some vs → v ∈ vs → vhost_routes v = Some es → e ∈ es →
  ∃ r, r ∈ routes ∧ e = build_route_entry r.
Proof.
  intros Hvs Hv Hes He. apply mapM_Some_1 in Hvs.
  apply list_elem_of_lookup in Hv as [i Hi].
  destruct (Forall2_lookup_r _ _ _ _ _ Hvs Hi) as ([[k n] es'] & Hg & Hb).
  apply build_virtual_host_reads in Hb as (r & _ & _ & _ & Hes'). simplify_eq.
  destruct (group_routes_ok build_route_entry routes) as [_ Hge _].
  destruct (Hge k n es) as [-> _]; [by eapply list_elem_of_lookup_2|].
  apply list_elem_of_fmap in He as (r' & -> & Hr'). exists r'. split; [|done].
  by apply list_elem_of_filter in Hr' as [_ ?].
Qed.

(** [C32] A configuration that passes validation always yields a bootstrap: the
    generator does not panic, and the text is what serde_yaml makes of the
    bootstrap, whose serialisation is the only error left; the bootstrap has one
    cluster per service (and the authorisation cluster when an ext_authz
    address is set), the ext_authz filter is in front of the router exactly
    when that address is set, and no virtual host routes to a cluster that
    does not exist. *)
Theorem valid_config_generates (url_parse_ok : string → bool) (cfg : GatewayConfig) :
  validate url_parse_ok cfg = Ok tt →
  ∃ root clusters vhosts filters,
    generate_envoy_value cfg = Some (Ok root) ∧
    generate_envoy_config cfg = Some (map_err Serialization (yaml_to_string root)) ∧
    clusters_of root = Some clusters ∧
    mapM value_name clusters = Some (cluster_names cfg) ∧
    http_filters_of root = Some filters ∧
    mapM value_name filters =
      Some (match GatewayServer.extauthz_address (GatewayConfig.gateway cfg) with
            | Some _ => ["envoy.filters.http.ext_authz"; "envoy.filters.http.router"]
            | None => ["envoy.filters.http.router"]
            end) ∧
    virtual_hosts_of root = Some vhosts ∧
    (∀ v es e c, v ∈ vhosts → vhost_routes v = Some es → e ∈ es → entry_cluster e = Some c →
       c ∈ cluster_names cfg).
Proof.
  intros Hv. apply validate_valid in Hv. destruct Hv.
  destruct valid_addrs as (Hl & _ & Hx & _).
  destruct (proj1 (parse_endpoint_host_port _) Hl) as [listen Hlisten].
  destruct (build_virtual_hosts_total (GatewayConfig.routes cfg)) as [vs Hvs].
  destruct (build_all_clusters_ok cfg) as (cs & Hcs & Hn); [|done|].
  { eapply Forall_impl; [done|]. by intros s (_ & _ & ? & _). }
  unfold generate_envoy_config, generate_envoy_value, build_listener. rewrite Hlisten, Hvs. simpl. rewrite Hcs. simpl.
  destruct (build_root (build_listener_value cfg listen vs) cs) as [root|] eqn:Hroot;
    [|unfold build_root in Hroot; by rewrite to_value_mapping_ok in Hroot].
  destruct (root_reads _ _ _ _ _ Hroot) as (? & ? & ?).
  exists root, cs, vs, (build_http_filters cfg). split_and!; try done; [apply filter_names|].
  intros v es e c Hv Hes He Hc.
  destruct (virtual_host_entries _ _ _ _ _ Hvs Hv Hes He) as (r & Hr & ->).
  rewrite entry_cluster_route in Hc. simplify_eq. rewrite Forall_forall in valid_upstreams.
  apply elem_of_app. left. by apply valid_upstreams.
Qed.
End bootstrap.

(** The same for a concrete configuration. *)
Lemma valid_config_generates_witness :
  validate (λ _, true) sample_config = Ok tt ∧
  ∃ root clusters, generate_envoy_value sample_config = Some (Ok root) ∧
    clusters_of root = Some clusters ∧
    mapM value_name clusters = Some ["backend"; "gateway_manager_extauthz"].
Proof.
  assert (validate (λ _, true) sample_config = Ok tt) as H by (vm_compute; reflexivity).
  split; [exact H|].
  destruct (valid_config_generates (λ _, true) sample_config H) as (root & cs & _ & _ & ? & _ & ? & ? & _).
  exists root, cs. split_and!; done.
Defined.

(** The domains of the generated virtual hosts, concatenated. *)
Definition all_domains `{YamlLib} (routes : list RouteConfig) : option (list string) :=
  vs ← build_virtual_hosts routes; ds ← mapM vhost_domains vs; Some (mjoin ds).

(** Routes whose host sets overlap without being equal put the same
    domain into two virtual hosts, in a configuration that passes validation,
    although Envoy accepts a domain in at most one. *)
Theorem overlapping_hosts_duplicate_domain :
  let routes := [make_route "a" ["x.com"; "y.com"] "/a" "backend";
                 make_route "b" ["x.com"] "/b" "backend"] in
  validate (λ _, true) (config_with routes [sample_service]) = Ok tt ∧
  all_domains routes = Some ["x.com"; "y.com"; "x.com"].
Proof. vm_compute. split; reflexivity. Qed.
