(* ===== verification/RateLimit.v ===== *)
(** * Rate limiting

    [controlplane/src/ratelimit/]: the in-memory token bucket ([bucket.rs]), the
    token bucket script that runs inside Redis ([lua.rs]) and the limiter that
    tries Redis and falls back ([limiter.rs]).

    Instants are nanoseconds and the wall clock is milliseconds, both passed
    as arguments by the caller that reads the clock.  Redis and the network are
    outside: a request to the server is answered, refused or lost as a
    [delivery] says, and the server runs the script's own semantics.  The number
    syntax of Lua and of the Redis client and the JSON reader are the interface
    [LuaLib]. *)
From S2P Require Import Prelude RustStr F64 Yaml ConfigTypes.
From Stdlib Require Import Ascii.

(** ** Durations *)
Definition nanos_per_sec : Z := 1000000000.

(** [now.duration_since(earlier)] saturates at zero. *)
Definition duration_since (now earlier : Z) : Z := Z.max 0 (now - earlier).

(** [Duration::as_secs_f64] *)
Definition as_secs_f64 (d : Z) : f64 :=
  f64_add (f64_of_int (d / nanos_per_sec))
          (f64_div (f64_of_int (d mod nanos_per_sec)) (f64_of_int nanos_per_sec)).

Definition f64_thousand : f64 := f64_of_int 1000.
Definition f64_two : f64 := f64_of_int 2.

(** ** The in-memory bucket *)
Module LocalBucket.
Record LocalBucket := mk {
  tokens : f64;
  capacity : f64;
  refill_rate : f64;
  last_refill : Z
}.

Definition new (now : Z) (capacity refill_rate : f64) : LocalBucket :=
  mk capacity capacity refill_rate now.

Definition refill (now : Z) (b : LocalBucket) : LocalBucket :=
  let elapsed := as_secs_f64 (duration_since now (last_refill b)) in
  let refilled := f64_mul (refill_rate b) elapsed in
  mk (f64_min (f64_add (tokens b) refilled) (capacity b)) (capacity b) (refill_rate b) now.

Definition set_tokens (t : f64) (b : LocalBucket) : LocalBucket :=
  mk t (capacity b) (refill_rate b) (last_refill b).

(** [(allowed, remaining_tokens, retry_after_ms)] *)
Definition try_consume (now : Z) (b : LocalBucket) : (bool * Z * Z) * LocalBucket :=
  let b := refill now b in
  if f64_ge (tokens b) f64_one then
    let b := set_tokens (f64_sub (tokens b) f64_one) b in
    ((true, f64_as_u64 (f64_floor (tokens b)), 0%Z), b)
  else
    let deficit := f64_sub f64_one (tokens b) in
    let retry_ms :=
      if f64_gt (refill_rate b) f64_zero
      then f64_as_u64 (f64_ceil (f64_mul (f64_div deficit (refill_rate b)) f64_thousand))
      else u64_max in
    ((false, 0%Z, retry_ms), b).
End LocalBucket.

Definition ttl_seconds (capacity : Z) (refill_rate : f64) : Z :=
  if f64_le refill_rate f64_zero then 3600
  else f64_as_u64 (f64_ceil (f64_mul (f64_div (f64_of_int capacity) refill_rate) f64_two)).

Definition build_key (prefix route dimension value : string) : string :=
  prefix +:+ ":" +:+ route +:+ ":" +:+ dimension +:+ ":" +:+ value.

(** ** Errors, decisions, modes *)
Inductive RateLimitError :=
  | RedisConnect (e : string)
  | RedisCommand (e : string)
  | Timeout
  | Unavailable
  | LuaResponseParse (e : string).

Definition RateLimitError_to_string (e : RateLimitError) : string :=
  match e with
  | RedisConnect s => "redis connection error: " +:+ s
  | RedisCommand s => "redis command error: " +:+ s
  | Timeout => "redis timeout"
  | Unavailable => "rate limiter unavailable"
  | LuaResponseParse s => "lua response parse error: " +:+ s
  end.

Inductive RateLimitMode := Redis | DegradedLocal | FailOpen.

Global Instance RateLimitMode_eq_dec : EqDecision RateLimitMode.
Proof. solve_decision. Defined.

Definition as_header_value (m : RateLimitMode) : string :=
  match m with
  | Redis | FailOpen => "redis"
  | DegradedLocal => "degraded-local"
  end.

Module RateDecision.
Record RateDecision := mk {
  allowed : bool;
  limit : Z;
  remaining : Z;
  retry_after_ms : Z;
  mode : RateLimitMode
}.
End RateDecision.
Export RateDecision(RateDecision).

Module LuaResponse.
Record LuaResponse := mk {
  allowed : Z;
  remaining_tokens : Z;
  retry_after_ms : Z
}.
End LuaResponse.
Export LuaResponse(LuaResponse).

(** ** The script *)

(** Number syntax of Lua 5.1 ([tostring], [tonumber]), the Redis client's
    rendering of an [f64] argument, and [serde_json::from_str::<LuaResponse>]. *)
Class LuaLib := {
  lua_tostring : f64 → string;
  lua_tonumber : string → option f64;
  redis_arg_f64 : f64 → string;
  parse_response : string → result string LuaResponse
}.

(** The JSON text of a response. *)
Definition response_json (allowed : string) (remaining retry : string) : string :=
  "{" +:+ String "034" ("allowed" +:+ String "034" (":" +:+ allowed +:+ "," +:+
  String "034" ("remaining_tokens" +:+ String "034" (":" +:+ remaining +:+ "," +:+
  String "034" ("retry_after_ms" +:+ String "034" (":" +:+ retry +:+ "}")))))).

(** Documented behaviour: integers of up to 14 digits print exactly, decimal
    integers and printed doubles read back, and the reader accepts a response
    with integers in range. *)
Class LuaLaws (L : LuaLib) : Prop := {
  tostring_int n : (0 ≤ n < 10 ^ 14)%Z → lua_tostring (f64_of_int n) = fmt_int n;
  tonumber_int n : is_u64 n → lua_tonumber (fmt_int n) = Some (f64_of_int n);
  tonumber_arg x : f64_valid x → is_nan x = false → lua_tonumber (redis_arg_f64 x) = Some x;
  parse_response_ints a r m : (0 ≤ a < 256)%Z → is_u64 r → is_u64 m →
    parse_response (response_json (fmt_int a) (fmt_int r) (fmt_int m)) = Ok (LuaResponse.mk a r m)
}.

(** A Redis hash as the script uses it: the two fields and the expiry on the
    server's clock, in milliseconds. *)
Module BucketHash.
Record BucketHash := mk {
  tokens : string;
  last_refill_ms : string;
  expires_at : option Z
}.
End BucketHash.
Export BucketHash(BucketHash).

Notation redis_db := (gmap string BucketHash).

(** The hash under a key, unless it has expired. *)
Definition live (now : Z) (db : redis_db) (key : string) : option BucketHash :=
  h ← db !! key;
  match BucketHash.expires_at h with
  | Some t => if (t <? now)%Z then None else Some h
  | None => Some h
  end.

(** The integer a number argument of [EXPIRE] stands for; the server refuses a
    number that is not an integer or whose deadline overflows 64 bits. *)
Definition expire_arg (now : Z) (x : f64) : option Z :=
  let in_range z := if (now + z * 1000 <=? 9223372036854775807)%Z then Some z else None in
  match x with
  | S754_zero _ => Some 0%Z
  | S754_finite false m e =>
      let z := dyadic_floor false m e in
      if bool_decide (f64_floor x = x) then in_range z else None
  | _ => None
  end.

(** [EXPIRE key ttl]: a time to live of zero deletes the key. *)
Definition redis_expire (now : Z) (key : string) (ttl : Z) (db : redis_db) : redis_db :=
  match db !! key with
  | Some h =>
      if (ttl <=? 0)%Z then delete key db
      else <[key := BucketHash.mk (BucketHash.tokens h) (BucketHash.last_refill_ms h)
                      (Some (now + ttl * 1000)%Z)]> db
  | None => db
  end.

(** Lua's [math.min(a, b)]. *)
Definition lua_min (a b : f64) : f64 := if f64_lt b a then b else a.

Section lua.
Context `{L : LuaLib}.

(** One run of [LUA_SCRIPT] with the clock of the server at [srv_now].  The
    arguments are strings; arithmetic on [nil] raises an error ([Err]). *)
Definition LUA_SCRIPT (srv_now : Z) (key : string) (argv : list string)
    (db : redis_db) : result string string * redis_db :=
  match lua_tonumber <$> argv with
  | [Some now_ms; Some capacity; Some refill_rate; Some requested; ttl_seconds] =>
      let h := live srv_now db key in
      let tokens := default capacity (h ≫= λ h, lua_tonumber (BucketHash.tokens h)) in
      let last_refill := default now_ms (h ≫= λ h, lua_tonumber (BucketHash.last_refill_ms h)) in
      let elapsed_s := f64_div (f64_sub now_ms last_refill) f64_thousand in
      let refilled := f64_mul refill_rate elapsed_s in
      let new_tokens := lua_min (f64_add tokens refilled) capacity in
      if f64_ge new_tokens requested then
        let new_tokens := f64_sub new_tokens requested in
        let db := <[key := BucketHash.mk (lua_tostring new_tokens) (lua_tostring now_ms)
                             (h ≫= BucketHash.expires_at)]> db in
        match ttl_seconds ≫= expire_arg srv_now with
        | None => (Err "ERR value is not an integer or out of range", db)
        | Some ttl =>
            (Ok (response_json "1" (lua_tostring (f64_floor new_tokens)) "0"),
             redis_expire srv_now key ttl db)
        end
      else
        let deficit := f64_sub requested new_tokens in
        let retry_ms := f64_ceil (f64_mul (f64_div deficit refill_rate) f64_thousand) in
        (Ok (response_json "0" "0" (lua_tostring retry_ms)), db)
  | _ => (Err "attempt to perform arithmetic on a nil value", db)
  end.

(** The arguments [try_redis] sends: one token is requested. *)
Definition script_args (now_ms capacity : Z) (refill_rate : f64) (ttl : Z) : list string :=
  [fmt_int now_ms; fmt_int capacity; redis_arg_f64 refill_rate; fmt_int 1; fmt_int ttl].

(** ** The limiter *)

(** How a request to Redis ends: the server ran the script and its reply came
    back, or a command error or the timeout is seen, and then the script may
    have run or not. *)
Inductive delivery :=
  | Delivered
  | Failed (executed : bool) (e : string)
  | Lost (executed : bool).

(** A connection attempt. *)
Inductive connect :=
  | Connected
  | Refused (e : string)
  | ConnectTimeout.
End lua.

Module RateLimiter.
(** The connection itself has no state the code looks at. *)
Record RateLimiter := mk {
  config : RateLimitsConfig;
  conn : option unit;
  fallback : gmap string LocalBucket.LocalBucket
}.
End RateLimiter.
Export RateLimiter(RateLimiter).

Section limiter.
Context `{L : LuaLib}.

(** [RateLimiter::from_config]: never fails. *)
Definition from_config (config : RateLimitsConfig) (c : connect) : RateLimiter :=
  RateLimiter.mk config (match c with Connected => Some tt | _ => None end) ∅.

Definition set_conn (c : option unit) (l : RateLimiter) : RateLimiter :=
  RateLimiter.mk (RateLimiter.config l) c (RateLimiter.fallback l).
Definition set_fallback (f : gmap string LocalBucket.LocalBucket) (l : RateLimiter) : RateLimiter :=
  RateLimiter.mk (RateLimiter.config l) (RateLimiter.conn l) f.

(** What the outside does during one call of [check]: the clocks it reads and
    the fate of the request. *)
Record env := mk_env {
  now_ms : Z;         (* SystemTime::now(), milliseconds as u64 *)
  srv_now : Z;        (* the server's clock *)
  fate : delivery;
  instant_new : Z;    (* Instant::now() when a fallback bucket is created *)
  instant : Z         (* Instant::now() when it is refilled *)
}.

Definition try_redis (e : env) (bucket_key : string) (capacity : Z) (refill_rate : f64)
    (l : RateLimiter) (db : redis_db)
    : result RateLimitError RateDecision * RateLimiter * redis_db :=
  match RateLimiter.conn l with
  | None => (Err (RedisConnect "no active connection"), l, db)
  | Some _ =>
      let ttl := ttl_seconds capacity refill_rate in
      let '(reply, db_run) :=
        LUA_SCRIPT (srv_now e) bucket_key (script_args (now_ms e) capacity refill_rate ttl) db in
      match fate e with
      | Delivered =>
          match reply with
          | Ok json_str =>
              (resp ← map_err LuaResponseParse (parse_response json_str);
               Ok (RateDecision.mk (LuaResponse.allowed resp =? 1)%Z capacity
                     (LuaResponse.remaining_tokens resp) (LuaResponse.retry_after_ms resp) Redis),
               l, db_run)
          | Err err => (Err (RedisCommand err), set_conn None l, db_run)
          end
      | Failed executed err =>
          (Err (RedisCommand err), set_conn None l, if executed then db_run else db)
      | Lost executed => (Err Timeout, set_conn None l, if executed then db_run else db)
      end
  end.

Definition enter_degraded (e : env) (bucket_key : string) (capacity : Z) (l : RateLimiter)
    : result RateLimitError RateDecision * RateLimiter :=
  let sm := RateLimitsConfig.survivability_mode (RateLimiter.config l) in
  if SurvivabilityMode.enabled sm then
    let bucket := default
      (LocalBucket.new (instant_new e) (f64_of_int (SurvivabilityMode.fallback_capacity sm))
         (SurvivabilityMode.fallback_refill_rate_per_sec sm))
      (RateLimiter.fallback l !! bucket_key) in
    let '((allowed, remaining, retry_after_ms), bucket) := LocalBucket.try_consume (instant e) bucket in
    (Ok (RateDecision.mk allowed (SurvivabilityMode.fallback_capacity sm) remaining
           retry_after_ms DegradedLocal),
     set_fallback (<[bucket_key := bucket]> (RateLimiter.fallback l)) l)
  else if RateLimitsConfig.fail_open (RateLimiter.config l) then
    (Ok (RateDecision.mk true capacity capacity 0 FailOpen), l)
  else (Err Unavailable, l).

Definition check (e : env) (bucket_key : string) (capacity : Z) (refill_rate : f64)
    (l : RateLimiter) (db : redis_db)
    : result RateLimitError RateDecision * RateLimiter * redis_db :=
  let '(r, l, db) := try_redis e bucket_key capacity refill_rate l db in
  match r with
  | Ok decision => (Ok decision, l, db)
  | Err _ => let '(r, l) := enter_degraded e bucket_key capacity l in (r, l, db)
  end.

(** [ping]: [alive] is whether the existing connection answers in time. *)
Definition ping (alive : bool) (c : connect) (l : RateLimiter) : bool * RateLimiter :=
  match RateLimiter.conn l, alive with
  | Some _, true => (true, l)
  | _, _ =>
      match c with
      | Connected => (true, set_conn (Some tt) l)
      | _ => (false, set_conn None l)
      end
  end.
End limiter.
