(* ===== verification/RateLimitSpec.v ===== *)
(** * Rate limiting: properties

    The bucket invariant under every schedule of calls, the exact number of
    admissions of both buckets when no time passes, the decision table of the
    limiter and the independence of keys. *)
From S2P Require Import Prelude RustStr F64 F64Theory Yaml ConfigTypes Samples RateLimit.
From Stdlib Require Import Ascii.

(** ** Specification *)

(** [0 ≤ tokens ≤ capacity], with the numbers valid and the rate not
    negative (it may be a NaN or infinite). *)
Record bucket_ok (b : LocalBucket.LocalBucket) : Prop := {
  ok_tokens_valid : f64_valid (LocalBucket.tokens b);
  ok_capacity_valid : f64_valid (LocalBucket.capacity b);
  ok_rate_valid : f64_valid (LocalBucket.refill_rate b);
  ok_rate : f64_lt (LocalBucket.refill_rate b) f64_zero = false;
  ok_nonneg : f64_le f64_zero (LocalBucket.tokens b) = true;
  ok_bound : f64_le (LocalBucket.tokens b) (LocalBucket.capacity b) = true
}.

(** A run: the bucket is asked once at each of the given instants. *)
Fixpoint run_bucket (ts : list Z) (b : LocalBucket.LocalBucket)
    : list (bool * Z * Z) * LocalBucket.LocalBucket :=
  match ts with
  | [] => ([], b)
  | t :: ts => let '(o, b) := LocalBucket.try_consume t b in
               let '(os, b) := run_bucket ts b in (o :: os, b)
  end.

(** A run of the script against one key at a fixed time. *)
Fixpoint run_script `{L : LuaLib} (srv_now : Z) (key : string) (argv : list string) (n : nat)
    (db : redis_db) : list (result string string) * redis_db :=
  match n with
  | O => ([], db)
  | S n => let '(o, db) := LUA_SCRIPT srv_now key argv db in
           let '(os, db) := run_script srv_now key argv n db in (o :: os, db)
  end.

(** Remaining counts of a bucket of [c] that admits [n] requests: [c-1],
    [c-2], ... *)
Fixpoint countdown (c : Z) (n : nat) : list Z :=
  match n with O => [] | S n => (c - 1)%Z :: countdown (c - 1)%Z n end.

(** The Redis attempt of a call got an answer it could use. *)
Definition redis_answers `{L : LuaLib} (e : env) (key : string) (capacity : Z) (rate : f64)
    (l : RateLimiter) (db : redis_db) (resp : LuaResponse) : Prop :=
  RateLimiter.conn l = Some tt ∧ fate e = Delivered ∧
  ∃ json, (LUA_SCRIPT (srv_now e) key (script_args (now_ms e) capacity rate
             (ttl_seconds capacity rate)) db).1 = Ok json ∧ parse_response json = Ok resp.

(** ** The in-memory bucket *)
Local Open Scope Z_scope.

Lemma as_secs_nonneg d : 0 ≤ d → nonneg (as_secs_f64 d) ∧ f64_valid (as_secs_f64 d).
Proof.
  intros Hd. unfold as_secs_f64.
  destruct (f64_of_int_nonneg (d / nanos_per_sec)) as [? ?]; [by apply Z.div_pos|].
  assert (0 ≤ d mod nanos_per_sec < nanos_per_sec) as Hm by by apply Z.mod_pos_bound.
  destruct (f64_of_int_nonneg (d mod nanos_per_sec)) as [? ?]; [lia|].
  destruct (f64_of_int_exact nanos_per_sec) as (m & e & -> & _); [done|].
  destruct (f64_div_nonneg (f64_of_int (d mod nanos_per_sec)) m e) as [? ?];
    [done|apply f64_of_int_finite; unfold nanos_per_sec in *; lia|done|].
  by apply f64_add_nonneg.
Qed.

Lemma not_negative_cases x : f64_lt x f64_zero = false → is_nan x = true ∨ nonneg x.
Proof. unfold f64_lt, SFltb. destruct x as [|[]| |[]]; simpl; auto. Qed.

(** The tokens after a refill, before the cap: valid, and non-negative unless
    they are a NaN. *)
Lemma refilled_tokens t r el :
  nonneg t → f64_valid t → f64_valid r → f64_lt r f64_zero = false → nonneg el → f64_valid el →
  f64_valid (f64_add t (f64_mul r el)) ∧
  (is_nan (f64_add t (f64_mul r el)) = false → nonneg (f64_add t (f64_mul r el))).
Proof.
  intros Ht Vt Vr Hr Hel Vel. destruct (not_negative_cases r Hr) as [Hnan|Hnn].
  - destruct r; try done. by destruct t.
  - destruct (f64_mul_nonneg r el Hnn Hel Vr Vel) as [Hm Vm].
    destruct (is_nan (f64_mul r el)) eqn:Hn.
    + destruct (f64_mul r el); try done. by destruct t.
    + destruct (f64_add_nonneg t (f64_mul r el)); auto.
Qed.

Lemma refill_ok now b : bucket_ok b → bucket_ok (LocalBucket.refill now b).
Proof.
  intros [Vt Vc Vr Hr Ht Hb]. apply nonneg_ge_zero in Ht.
  destruct (as_secs_nonneg (duration_since now (LocalBucket.last_refill b))) as [Hel Vel];
    [unfold duration_since; lia|].
  destruct (refilled_tokens _ _ _ Ht Vt Vr Hr Hel Vel) as [Vs Hs].
  unfold LocalBucket.refill.
  set (s := f64_add _ _) in *. set (c := LocalBucket.capacity b) in *.
  assert (nonneg c) as Hc.
  { unfold f64_le, SFleb in Hb. destruct (LocalBucket.tokens b) as [|?| |?], c as [|[]| |[]];
      simpl in *; subst; done. }
  assert (f64_le (f64_min s c) c = true) by (apply f64_min_le, nonneg_not_nan, Hc).
  destruct (f64_min_either s c) as [[Hm Hn]|Hm]; rewrite Hm in *; split; try done;
    apply nonneg_ge_zero; auto.
Qed.

Lemma try_consume_ok now b : bucket_ok b → bucket_ok (LocalBucket.try_consume now b).2.
Proof.
  intros Hb%(refill_ok now). unfold LocalBucket.try_consume.
  set (r := LocalBucket.refill now b) in *. destruct (f64_ge _ _) eqn:Hge; [|done].
  destruct Hb as [Vt Vc Vr Hr Ht Hle]. pose proof Ht as Hn. apply nonneg_ge_zero in Hn.
  destruct (f64_sub_le (LocalBucket.tokens r) f64_one) as (Hs & Vs & Hsle); [done..|].
  simpl. split; try done; simpl; [by apply nonneg_ge_zero|].
  by apply (f64_le_trans _ (LocalBucket.tokens r)).
Qed.

Lemma run_bucket_ok ts b : bucket_ok b → bucket_ok (run_bucket ts b).2.
Proof.
  revert b. induction ts as [|t ts IH]; intros b Hb; [done|]. cbn [run_bucket].
  pose proof (try_consume_ok t b Hb) as Hb'.
  destruct (LocalBucket.try_consume t b) as [o b']. specialize (IH b' Hb').
  by destruct (run_bucket ts b').
Qed.

Lemma new_bucket_ok now c r :
  0 ≤ c → f64_valid r → f64_lt r f64_zero = false → bucket_ok (LocalBucket.new now (f64_of_int c) r).
Proof.
  intros Hc Vr Hr. destruct (f64_of_int_nonneg c Hc) as [Hn Hv]. split; try done; simpl.
  - by apply nonneg_ge_zero.
  - by apply f64_le_refl, nonneg_not_nan.
Qed.

(** Adding nothing, and subtracting a number from itself. *)
Lemma f64_add_zero n s : 0 ≤ n < 2 ^ 53 → f64_add (f64_of_int n) (S754_zero s) = f64_of_int n.
Proof.
  intros Hn. destruct (decide (n = 0)) as [->|]; [by destruct s|].
  destruct (f64_of_int_exact n) as (m & e & -> & _); [lia|done].
Qed.

Lemma f64_mul_zero r : is_finite r = true → ∃ s, f64_mul r f64_zero = S754_zero s.
Proof. destruct r; try done; by eexists. Qed.

Lemma f64_sub_diag n : 0 ≤ n < 2 ^ 53 → f64_sub (f64_of_int n) (f64_of_int n) = f64_zero.
Proof.
  intros Hn. destruct (decide (n = 0)) as [->|]; [done|].
  destruct (f64_of_int_exact n) as (m & e & -> & _); [lia|].
  unfold f64_sub. cbn [SFsub cond_Zopp]. by rewrite Z.sub_diag.
Qed.

(** No time passes: the refill keeps the tokens. *)
Lemma refill_no_time t c r n :
  is_finite r = true → 0 ≤ n ≤ c → c < 2 ^ 53 →
  LocalBucket.refill t (LocalBucket.mk (f64_of_int n) (f64_of_int c) r t) =
  LocalBucket.mk (f64_of_int n) (f64_of_int c) r t.
Proof.
  intros Hr Hn Hc. unfold LocalBucket.refill. cbn [LocalBucket.tokens LocalBucket.capacity
    LocalBucket.refill_rate LocalBucket.last_refill].
  unfold duration_since. rewrite Z.sub_diag. change (as_secs_f64 (Z.max 0 0)) with f64_zero.
  destruct (f64_mul_zero r Hr) as [s ->]. rewrite f64_add_zero by lia. f_equal.
  apply f64_min_eq, f64_of_int_le; lia.
Qed.

Lemma countdown_run t c r n k :
  is_finite r = true → c < 2 ^ 53 → Z.of_nat k ≤ n ≤ c →
  run_bucket (replicate k t) (LocalBucket.mk (f64_of_int n) (f64_of_int c) r t) =
  ((λ rem, (true, rem, 0)) <$> countdown n k,
   LocalBucket.mk (f64_of_int (n - Z.of_nat k)) (f64_of_int c) r t).
Proof.
  intros Hr Hc. revert n. induction k as [|k IH]; intros n Hn; cbn [replicate run_bucket countdown].
  { by rewrite Z.sub_0_r. }
  unfold LocalBucket.try_consume. rewrite refill_no_time by (done || lia).
  cbn [LocalBucket.tokens]. rewrite f64_of_int_ge_one by lia.
  destruct (Z.leb_spec 1 n); [|lia].
  unfold LocalBucket.set_tokens. cbn [LocalBucket.tokens LocalBucket.capacity
    LocalBucket.refill_rate LocalBucket.last_refill].
  rewrite f64_of_int_sub_one, f64_floor_of_int by lia. rewrite IH by lia.
  rewrite fmap_cons. by replace (n - Z.of_nat (S k)) with (n - 1 - Z.of_nat k) by lia.
Qed.

Lemma exhausted_denies t c r :
  is_finite r = true → 0 ≤ c < 2 ^ 53 →
  ∃ retry, LocalBucket.try_consume t (LocalBucket.mk (f64_of_int 0) (f64_of_int c) r t) =
    ((false, 0, retry), LocalBucket.mk (f64_of_int 0) (f64_of_int c) r t).
Proof.
  intros Hr Hc. unfold LocalBucket.try_consume. rewrite refill_no_time by (done || lia).
  cbn [LocalBucket.tokens]. rewrite f64_of_int_ge_one by lia. by eexists.
Qed.

(** [C10] The token bucket invariant: a fallback bucket created with an integer
    capacity and a rate that is not negative holds between zero and its
    capacity tokens after every sequence of calls at arbitrary instants
    (clock steps backwards included), in binary64 arithmetic. *)
Theorem local_bucket_invariant (c created : Z) (rate : f64) (ts : list Z) :
  is_u64 c → f64_valid rate → f64_lt rate f64_zero = false →
  let b := (run_bucket ts (LocalBucket.new created (f64_of_int c) rate)).2 in
  f64_le f64_zero (LocalBucket.tokens b) = true ∧
  f64_le (LocalBucket.tokens b) (LocalBucket.capacity b) = true.
Proof.
  intros [Hc _] Vr Hr b.
  pose proof (run_bucket_ok ts _ (new_bucket_ok created c rate Hc Vr Hr)) as Hok.
  split; apply Hok.
Qed.

Lemma local_bucket_invariant_witness :
  let b := (run_bucket [5; 1000000000; 3] (LocalBucket.new 0 (f64_of_int 20) (f64_of_int 5))).2 in
  f64_le f64_zero (LocalBucket.tokens b) = true ∧
  f64_le (LocalBucket.tokens b) (LocalBucket.capacity b) = true.
Proof.
  apply (local_bucket_invariant 20 0 (f64_of_int 5) [5; 1000000000; 3]); vm_compute; done.
Defined.

(** [C5] A fallback bucket of capacity [c], for an integer [c] below 2^53 and a
    finite refill rate, admits exactly [c] requests when no time passes: the first
    [c] calls are allowed and report [c-1], ..., [0] tokens left, and the next call
    is denied and changes nothing.  (With an infinite rate, which validation lets
    through, it admits without end; see [infinite_rate_admits_all].) *)
Theorem local_bucket_admits_capacity (c t : Z) (rate : f64) :
  0 ≤ c < 2 ^ 53 → is_finite rate = true →
  ∃ b retry,
    run_bucket (replicate (Z.to_nat c) t) (LocalBucket.new t (f64_of_int c) rate) =
      ((λ rem, (true, rem, 0)) <$> countdown c (Z.to_nat c), b) ∧
    LocalBucket.try_consume t b = ((false, 0, retry), b).
Proof.
  intros Hc Hr. unfold LocalBucket.new. rewrite countdown_run by (done || lia).
  rewrite Z2Nat.id, Z.sub_diag by lia. destruct (exhausted_denies t c rate Hr Hc) as [retry Hd].
  by exists (LocalBucket.mk (f64_of_int 0) (f64_of_int c) rate t), retry.
Qed.

Lemma local_bucket_admits_capacity_witness :
  ∃ b retry,
    run_bucket (replicate 3 7) (LocalBucket.new 7 (f64_of_int 3) (f64_of_int 10)) =
      ([(true, 2, 0); (true, 1, 0); (true, 0, 0)], b) ∧
    LocalBucket.try_consume 7 b = ((false, 0, retry), b).
Proof. apply (local_bucket_admits_capacity 3 7 (f64_of_int 10)); [lia|reflexivity]. Defined.

(** A fallback rate of infinity passes validation and disables the limit: no
    time times infinity is not a number, and [min] with the capacity then gives the
    capacity, so every call finds a full bucket. *)
Theorem infinite_rate_admits_all (c t : Z) (n : nat) :
  1 ≤ c < 2 ^ 53 →
  (run_bucket (replicate n t) (LocalBucket.new t (f64_of_int c) (S754_infinity false))).1 =
    replicate n (true, c - 1, 0).
Proof.
  intros Hc. unfold LocalBucket.new.
  assert (Hstep : ∀ x, LocalBucket.try_consume t (LocalBucket.mk x (f64_of_int c) (S754_infinity false) t) =
    ((true, c - 1, 0), LocalBucket.mk (f64_of_int (c - 1)) (f64_of_int c) (S754_infinity false) t)).
  { intros x. unfold LocalBucket.try_consume, LocalBucket.refill. cbn [LocalBucket.tokens LocalBucket.capacity
      LocalBucket.refill_rate LocalBucket.last_refill].
    unfold duration_since. rewrite Z.sub_diag. change (as_secs_f64 (Z.max 0 0)) with f64_zero.
    change (f64_mul (S754_infinity false) f64_zero) with S754_nan.
    assert (f64_add x S754_nan = S754_nan) as -> by (by destruct x).
    assert (f64_min S754_nan (f64_of_int c) = f64_of_int c) as -> by done.
    rewrite f64_of_int_ge_one by lia. destruct (Z.leb_spec 1 c); [|lia].
    unfold LocalBucket.set_tokens. cbn [LocalBucket.tokens LocalBucket.capacity
      LocalBucket.refill_rate LocalBucket.last_refill].
    by rewrite f64_of_int_sub_one, f64_floor_of_int by lia. }
  assert (Hrun : ∀ n x, (run_bucket (replicate n t)
    (LocalBucket.mk x (f64_of_int c) (S754_infinity false) t)).1 = replicate n (true, c - 1, 0)).
  { clear n. induction n as [|n IH]; intros x; [done|]. cbn [replicate run_bucket]. rewrite Hstep.
    specialize (IH (f64_of_int (c - 1))). destruct (run_bucket (replicate n t) _). simpl in *. by rewrite IH. }
  apply Hrun.
Qed.

(** ** Keys *)
Lemma str_app_sep_inj c x y s t :
  c ∉ bytes x → c ∉ bytes y → x +:+ String c s = y +:+ String c t → x = y ∧ s = t.
Proof.
  revert y. induction x as [|a x IH]; intros [|b y]; unfold bytes; simpl.
  - by intros _ _ [= ->].
  - intros _ Hy [= -> _]. set_solver.
  - intros Hx _ [= -> _]. set_solver.
  - intros Hx Hy [= -> Heq]. destruct (IH y) as [-> ->]; [set_solver..|done|done].
Qed.

(** Buckets are not shared: for one key prefix, requests on routes whose
    names and dimensions contain no colon use the same bucket only if route,
    dimension and client value all agree. *)
Theorem build_key_injective (prefix r1 d1 v1 r2 d2 v2 : string) :
  (":"%char) ∉ bytes r1 → (":"%char) ∉ bytes r2 → (":"%char) ∉ bytes d1 → (":"%char) ∉ bytes d2 →
  build_key prefix r1 d1 v1 = build_key prefix r2 d2 v2 → r1 = r2 ∧ d1 = d2 ∧ v1 = v2.
Proof.
  intros Hr1 Hr2 Hd1 Hd2 Heq. unfold build_key in Heq. apply str_app_inj_l in Heq.
  change ":" with (String ":" EmptyString) in Heq. rewrite !str_app_cons, !str_app_nil_l in Heq.
  injection Heq as Heq. apply str_app_sep_inj in Heq as [-> Heq]; [|done..].
  by apply str_app_sep_inj in Heq as [-> ->].
Qed.

Lemma build_key_injective_witness :
  "public-api" = "public-api" ∧ "ip" = "ip" ∧ "10.0.0.1" = "10.0.0.1".
Proof.
  apply (build_key_injective "rl" "public-api" "ip" "10.0.0.1" "public-api" "ip" "10.0.0.1");
    [apply (bool_decide_unpack _); vm_compute; exact I..|reflexivity].
Defined.

(** ** The script *)
Section script.
Context `{L : LuaLib} `{!LuaLaws L}.

Definition hash_with (n now_ms srv_now ttl : Z) : BucketHash :=
  BucketHash.mk (fmt_int n) (fmt_int now_ms) (Some (srv_now + ttl * 1000)).

Lemma lua_min_le a b : f64_le a b = true → is_nan a = false → lua_min a b = a.
Proof.
  intros Hle Hn. pose proof (f64_min_eq a b Hle) as H. unfold f64_min in H. unfold lua_min.
  destruct a, b; try done; by destruct (f64_lt _ _).
Qed.

(** One run with [n] tokens and no elapsed time. *)
Lemma script_no_time srv key db now_ms c rate ttl n :
  0 ≤ now_ms < 10 ^ 14 → 0 ≤ n ≤ c → c < 10 ^ 14 → f64_valid rate → is_finite rate = true →
  is_u64 ttl →
  live srv db key = Some (hash_with n now_ms srv ttl) ∨ (live srv db key = None ∧ n = c) →
  LUA_SCRIPT srv key (script_args now_ms c rate ttl) db =
  if 1 <=? n then
    let db := <[key := BucketHash.mk (fmt_int (n - 1)) (fmt_int now_ms)
                         (live srv db key ≫= BucketHash.expires_at)]> db in
    match expire_arg srv (f64_of_int ttl) with
    | None => (Err "ERR value is not an integer or out of range", db)
    | Some t => (Ok (response_json "1" (fmt_int (n - 1)) "0"), redis_expire srv key t db)
    end
  else (Ok (response_json "0" "0" (lua_tostring
         (f64_ceil (f64_mul (f64_div (f64_sub f64_one f64_zero) rate) f64_thousand)))), db).
Proof.
  intros Hnow Hn Hc Vr Hr Httl Hlive. unfold LUA_SCRIPT, script_args.
  rewrite !fmap_cons, fmap_nil.
  rewrite !tonumber_int by (done || (unfold is_u64, u64_max; lia)).
  rewrite tonumber_arg by (done || by destruct rate).
  set (h := live srv db key) in *.
  assert (default (f64_of_int c) (h ≫= λ h, lua_tonumber (BucketHash.tokens h)) = f64_of_int n) as ->.
  { destruct Hlive as [->|[-> ->]]; [|done]. simpl.
    by rewrite tonumber_int by (unfold is_u64, u64_max; lia). }
  assert (default (f64_of_int now_ms) (h ≫= λ h, lua_tonumber (BucketHash.last_refill_ms h))
          = f64_of_int now_ms) as ->.
  { destruct Hlive as [->|[-> ->]]; [|done]. simpl.
    by rewrite tonumber_int by (unfold is_u64, u64_max; lia). }
  rewrite f64_sub_diag by lia. change (f64_div f64_zero f64_thousand) with f64_zero.
  destruct (f64_mul_zero rate Hr) as [s ->]. rewrite f64_add_zero by lia.
  rewrite lua_min_le by (apply f64_of_int_le || apply nonneg_not_nan, f64_of_int_nonneg; lia).
  cbv zeta. rewrite f64_one_int, f64_of_int_ge_one by lia.
  destruct (Z.leb_spec 1 n).
  - rewrite f64_of_int_sub_one by lia. rewrite !tostring_int by lia.
    rewrite f64_floor_int by lia. rewrite tostring_int by lia. done.
  - assert (n = 0) as -> by lia. done.
Qed.

Context (srv now_ms c ttl : Z) (key : string) (rate : f64).
Hypothesis Hnow : 0 ≤ now_ms < 10 ^ 14.
Hypothesis Hc : 0 ≤ c < 10 ^ 14.
Hypothesis Vrate : f64_valid rate.
Hypothesis Frate : is_finite rate = true.
Hypothesis Httl : 0 < ttl ≤ u64_max.
Hypothesis Hexp : expire_arg srv (f64_of_int ttl) = Some ttl.

Lemma live_insert db n t :
  0 < t → live srv (redis_expire srv key t (<[key := n]> db)) key =
    Some (BucketHash.mk (BucketHash.tokens n) (BucketHash.last_refill_ms n) (Some (srv + t * 1000))).
Proof.
  intros Ht. unfold redis_expire, live. rewrite lookup_insert_eq.
  destruct (Z.leb_spec t 0); [lia|]. rewrite lookup_insert_eq. simpl.
  destruct (Z.ltb_spec (srv + t * 1000) srv); [lia|done].
Qed.

Lemma script_countdown k : ∀ db n,
  Z.of_nat k ≤ n ≤ c →
  live srv db key = Some (hash_with n now_ms srv ttl) ∨ (live srv db key = None ∧ n = c) →
  ∃ db', run_script srv key (script_args now_ms c rate ttl) k db =
      ((λ rem, Ok (response_json "1" (fmt_int rem) "0")) <$> countdown n k, db') ∧
    (live srv db' key = Some (hash_with (n - Z.of_nat k) now_ms srv ttl) ∨
     (live srv db' key = None ∧ n - Z.of_nat k = c)).
Proof.
  induction k as [|k IH]; intros db n Hn Hlive; cbn [run_script countdown].
  { exists db. by rewrite Z.sub_0_r. }
  rewrite (script_no_time srv key db now_ms c rate ttl n) by (done || lia || (unfold is_u64; lia)).
  destruct (Z.leb_spec 1 n); [|lia]. cbv zeta. rewrite Hexp.
  edestruct (IH (redis_expire srv key ttl (<[key := BucketHash.mk (fmt_int (n - 1)) (fmt_int now_ms)
    (live srv db key ≫= BucketHash.expires_at)]> db)) (n - 1)) as (db' & Hrun & Hl); [lia| |].
  { left. rewrite live_insert by lia. done. }
  rewrite Hrun. exists db'. split; [done|].
  by replace (n - Z.of_nat (S k)) with (n - 1 - Z.of_nat k) by lia.
Qed.
End script.

(** [C6] The Redis script admits exactly [c] requests for a key when no time
    passes: on a server without a live bucket for the key, the first [c] runs
    reply "allowed" with [c-1], ..., [0] tokens remaining, and the next run
    replies "denied" and writes nothing.  The time to live must be positive
    and one the server accepts; counts and the clock stay below the 14 digits
    Lua prints exactly. *)
Theorem script_admits_capacity `{L : LuaLib} `{!LuaLaws L}
    (srv now_ms c ttl : Z) (key : string) (rate : f64) (db : redis_db) :
  0 ≤ now_ms < 10 ^ 14 → 0 ≤ c < 10 ^ 14 → f64_valid rate → is_finite rate = true →
  0 < ttl ≤ u64_max → expire_arg srv (f64_of_int ttl) = Some ttl → live srv db key = None →
  ∃ db' retry,
    run_script srv key (script_args now_ms c rate ttl) (Z.to_nat c) db =
      ((λ rem, Ok (response_json "1" (fmt_int rem) "0")) <$> countdown c (Z.to_nat c), db') ∧
    LUA_SCRIPT srv key (script_args now_ms c rate ttl) db' =
      (Ok (response_json "0" "0" retry), db').
Proof.
  intros Hnow Hc Vr Fr Httl Hexp Hnone.
  destruct (script_countdown srv now_ms c ttl key rate Hnow Hc Vr Fr Httl Hexp (Z.to_nat c) db c)
    as (db' & Hrun & Hl); [lia|by right|].
  exists db'. rewrite Z2Nat.id, Z.sub_diag in Hl by lia. eexists. split; [done|].
  rewrite (script_no_time srv key db' now_ms c rate ttl 0) by (done || lia || (unfold is_u64; lia)).
  done.
Qed.

(** ** A model of the number syntax *)
Module LuaModel.
Definition sign_char (s : bool) : ascii := if s then "-"%char else "+"%char.

(** Numbers that are not small integers print as sign, mantissa and biased
    exponent. *)
Definition enc (x : f64) : string :=
  match x with
  | S754_zero s => String "z" (String (sign_char s) EmptyString)
  | S754_infinity s => String "i" (String (sign_char s) EmptyString)
  | S754_nan => "n"
  | S754_finite s m e =>
      String "f" (String (sign_char s) (fmt_int (Z.pos m) +:+ String "e" (fmt_int (e + 1074))))
  end.

Definition dec (s : string) : option f64 :=
  match s with
  | String k (String c rest) =>
      let s := bool_decide (c = "-"%char) in
      if decide (k = "z"%char) then Some (S754_zero s)
      else if decide (k = "i"%char) then Some (S754_infinity s)
      else if decide (k = "f"%char) then
        '(m, e) ← split_once "e" rest;
        m ← parse_uint u64_max m; e ← parse_uint u64_max e;
        Some (S754_finite s (Z.to_pos m) (e - 1074))
      else None
  | _ => None
  end.

Definition tostring (x : f64) : string :=
  let n := f64_as_u64 x in
  if bool_decide (f64_of_int n = x) && (n <? 10 ^ 14) then fmt_int n else enc x.

Definition tonumber (s : string) : option f64 :=
  match parse_uint u64_max s with Some n => Some (f64_of_int n) | None => dec s end.

Definition field (name s : string) : option string :=
  strip_prefix (String "034" (name +:+ String "034" ":")) s.

Definition parse (s : string) : option LuaResponse :=
  s ← strip_prefix "{" s; s ← field "allowed" s;
  '(a, s) ← split_once "," s; s ← field "remaining_tokens" s;
  '(r, s) ← split_once "," s; s ← field "retry_after_ms" s;
  '(m, s) ← split_once "}" s;
  a ← parse_uint 255 a; r ← parse_uint u64_max r; m ← parse_uint u64_max m;
  if str_is_empty s then Some (LuaResponse.mk a r m) else None.

#[export] Instance lua_model : LuaLib := {|
  lua_tostring := tostring;
  lua_tonumber := tonumber;
  redis_arg_f64 := enc;
  parse_response s := ok_or "invalid response" (parse s)
|}.

Lemma strip_prefix_app p s : strip_prefix p (p +:+ s) = Some s.
Proof.
  induction p as [|a p IH]; [by destruct s|]. rewrite str_app_cons. simpl. by rewrite decide_True.
Qed.

Lemma field_app name s :
  field name (String "034" (name +:+ String "034" (":" +:+ s))) = Some s.
Proof.
  unfold field. rewrite <-(strip_prefix_app (String "034" (name +:+ String "034" ":")) s).
  f_equal. by rewrite (str_app_cons "034"), str_app_assoc.
Qed.

Lemma split_int c n s :
  0 ≤ n → digit_val c = None → split_once c (fmt_int n +:+ String c s) = Some (fmt_int n, s).
Proof. intros Hn Hc. apply split_once_app. by apply not_digit_not_in_int. Qed.

Lemma split_int_sep c n s :
  0 ≤ n → digit_val c = None →
  split_once c (fmt_int n +:+ String c EmptyString +:+ s) = Some (fmt_int n, s).
Proof. apply split_int. Qed.

Lemma tonumber_enc x : f64_valid x → is_nan x = false → tonumber (enc x) = Some x.
Proof.
  intros Hv Hn. destruct x as [[]|[]| |s m e]; try done.
  pose proof (valid_exp _ _ _ Hv). apply valid_canon in Hv as [Hc _].
  apply canon_bounds in Hc as (_ & ? & _).
  unfold tonumber. cbn [enc]. change (parse_uint u64_max _) with (@None Z). cbv iota beta.
  unfold dec. destruct (decide _); [done|]. destruct (decide _); [done|].
  destruct (decide _); [|done]. rewrite split_int by (done || lia). cbn [mbind option_bind].
  rewrite !parse_fmt_int by (unfold u64_max; lia). cbn [mbind option_bind].
  destruct s; simpl; do 2 f_equal; lia.
Qed.

#[export] Instance lua_model_laws : LuaLaws lua_model.
Proof.
  split; cbn [lua_tostring lua_tonumber redis_arg_f64 parse_response lua_model].
  - intros n Hn. unfold tostring. rewrite <-(f64_floor_int n), f64_floor_of_int by lia.
    rewrite f64_floor_int by lia. rewrite bool_decide_eq_true_2 by done.
    by destruct (Z.ltb_spec n (10 ^ 14)); [|lia].
  - intros n Hn. unfold tonumber. by rewrite parse_fmt_int.
  - apply tonumber_enc.
  - intros a r m Ha [Hr0 Hr] [Hm0 Hm]. unfold parse, response_json.
    rewrite (strip_prefix_app "{"). cbn [mbind option_bind]. rewrite field_app. cbn [mbind option_bind].
    rewrite (split_int_sep ","%char a) by (done || lia). cbn [mbind option_bind].
    rewrite field_app. cbn [mbind option_bind].
    rewrite (split_int_sep ","%char r) by (done || lia). cbn [mbind option_bind].
    rewrite field_app. cbn [mbind option_bind].
    rewrite (split_int "}"%char m) by (done || lia). cbn [mbind option_bind].
    rewrite !parse_fmt_int by lia. done.
Qed.
End LuaModel.

Lemma script_admits_capacity_witness :
  ∃ db' retry,
    run_script (L := LuaModel.lua_model) 1000 "rl:public-api:ip:10.0.0.1"
      (script_args (L := LuaModel.lua_model) 1711756799000 2 (f64_of_int 10) 1) 2 ∅ =
      ([Ok (response_json "1" "1" "0"); Ok (response_json "1" "0" "0")], db') ∧
    LUA_SCRIPT (L := LuaModel.lua_model) 1000 "rl:public-api:ip:10.0.0.1"
      (script_args (L := LuaModel.lua_model) 1711756799000 2 (f64_of_int 10) 1) db' =
      (Ok (response_json "0" "0" retry), db').
Proof.
  apply (script_admits_capacity (LuaLaws0 := LuaModel.lua_model_laws) 1000 1711756799000 2 1
           "rl:public-api:ip:10.0.0.1" (f64_of_int 10) ∅); try (vm_compute; done); lia.
Defined.

(** ** The limiter *)
Section limiter.
Context `{L : LuaLib}.

(** The outcome of the Redis attempt decides whether the fallback runs. *)
Lemma try_redis_spec e key cap rate l db :
  let '(r, l', db') := try_redis e key cap rate l db in
  RateLimiter.config l' = RateLimiter.config l ∧ RateLimiter.fallback l' = RateLimiter.fallback l ∧
  match r with
  | Ok d => ∃ resp, redis_answers e key cap rate l db resp ∧
      d = RateDecision.mk (LuaResponse.allowed resp =? 1) cap (LuaResponse.remaining_tokens resp)
            (LuaResponse.retry_after_ms resp) Redis ∧ l' = l
  | Err _ => ¬ ∃ resp, redis_answers e key cap rate l db resp
  end.
Proof.
  unfold try_redis, redis_answers. destruct (RateLimiter.conn l) as [[]|] eqn:Hconn;
    [|split_and!; [done..|]; by intros (? & ? & _)].
  destruct (LUA_SCRIPT _ _ _ _) as [[json|err] db'] eqn:Hs; destruct (fate e);
    try (split_and!; [done..|]; intros (? & _ & ? & ? & ? & _); simplify_eq/=; done).
  simpl. destruct (parse_response json) as [resp|] eqn:Hp; simpl; split_and!; try done.
  - exists resp. split_and!; try done. eauto.
  - intros (resp & _ & _ & json' & Hj & ?). simpl in Hj. congruence.
Qed.

(** A key other than the request's is never touched in the server. *)
Lemma script_other_keys srv key argv db k :
  k ≠ key → (LUA_SCRIPT srv key argv db).2 !! k = db !! k.
Proof.
  intros Hk. unfold LUA_SCRIPT, redis_expire. repeat (case_match; simpl; try done);
    rewrite ?lookup_delete_ne, ?lookup_insert_ne by done; done.
Qed.

Lemma try_redis_db_other e key cap rate l db k :
  k ≠ key → (try_redis e key cap rate l db).2 !! k = db !! k.
Proof.
  intros Hk. unfold try_redis. destruct (RateLimiter.conn l); [|done].
  pose proof (script_other_keys (srv_now e) key
    (script_args (now_ms e) cap rate (ttl_seconds cap rate)) db k Hk) as Hs.
  destruct (LUA_SCRIPT _ _ _ _) as [[] db']; simpl in Hs;
    destruct (fate e) as [|[]|[]]; done.
Qed.

(** [C7] The decision table of the limiter.  When Redis answers, the decision
    is the script's; otherwise survivability mode decides with the key's
    fallback bucket and the fallback limit, and only when it is off does
    [fail_open] allow the request; with neither, the limiter reports that it is
    unavailable. *)
Theorem check_decision_table (e : env) (key : string) (cap : Z) (rate : f64) (l : RateLimiter)
    (db : redis_db) :
  let sm := RateLimitsConfig.survivability_mode (RateLimiter.config l) in
  let bucket := default
    (LocalBucket.new (instant_new e) (f64_of_int (SurvivabilityMode.fallback_capacity sm))
       (SurvivabilityMode.fallback_refill_rate_per_sec sm)) (RateLimiter.fallback l !! key) in
  (∃ resp, redis_answers e key cap rate l db resp ∧
     (check e key cap rate l db).1.1 =
       Ok (RateDecision.mk (LuaResponse.allowed resp =? 1) cap (LuaResponse.remaining_tokens resp)
             (LuaResponse.retry_after_ms resp) Redis)) ∨
  ((¬ ∃ resp, redis_answers e key cap rate l db resp) ∧
   (check e key cap rate l db).1.1 =
     if SurvivabilityMode.enabled sm then
       let '((allowed, remaining, retry), _) := LocalBucket.try_consume (instant e) bucket in
       Ok (RateDecision.mk allowed (SurvivabilityMode.fallback_capacity sm) remaining retry
             DegradedLocal)
     else if RateLimitsConfig.fail_open (RateLimiter.config l) then
       Ok (RateDecision.mk true cap cap 0 FailOpen)
     else Err Unavailable).
Proof.
  intros sm bucket. unfold check. pose proof (try_redis_spec e key cap rate l db) as Hs.
  destruct (try_redis e key cap rate l db) as [[[d|err] l'] db'];
    destruct Hs as (Hc & Hf & Hs); [left|right].
  - destruct Hs as (resp & ? & -> & _). eauto.
  - split; [done|]. unfold enter_degraded. rewrite Hc, Hf. fold sm. fold bucket.
    destruct (SurvivabilityMode.enabled sm).
    + by destruct (LocalBucket.try_consume _ _) as [[[? ?] ?] ?].
    + by destruct (RateLimitsConfig.fail_open _).
Qed.

(** Keys are independent: a call for one key leaves the server's hash and
    the fallback bucket of every other key as they were. *)
Theorem check_keys_independent (e : env) (key k : string) (cap : Z) (rate : f64) (l : RateLimiter)
    (db : redis_db) :
  k ≠ key →
  let '(_, l', db') := check e key cap rate l db in
  db' !! k = db !! k ∧ RateLimiter.fallback l' !! k = RateLimiter.fallback l !! k.
Proof.
  intros Hk. unfold check. pose proof (try_redis_spec e key cap rate l db) as Hs.
  pose proof (try_redis_db_other e key cap rate l db k Hk) as Hdb.
  destruct (try_redis e key cap rate l db) as [[[d|err] l'] db'];
    destruct Hs as (_ & Hf & _); simpl in Hdb; [by rewrite Hf|].
  unfold enter_degraded. destruct (SurvivabilityMode.enabled _);
    [|destruct (RateLimitsConfig.fail_open _); by rewrite Hf].
  destruct (LocalBucket.try_consume _ _) as [[[? ?] ?] ?]. simpl.
  by rewrite lookup_insert_ne, Hf.
Qed.

(** Connection handling: after a call the limiter is connected exactly
    when it was connected and the request was answered by the server without a
    command error; a lost or refused request drops the connection, so that the
    next call goes straight to the fallback, and an answered [ping]
    reconnects. *)
Theorem connection_dropped_on_failure (e : env) (key : string) (cap : Z) (rate : f64)
    (l : RateLimiter) (db : redis_db) :
  (RateLimiter.conn (check e key cap rate l db).1.2 = Some tt ↔
     RateLimiter.conn l = Some tt ∧ fate e = Delivered ∧
     is_ok (LUA_SCRIPT (srv_now e) key (script_args (now_ms e) cap rate (ttl_seconds cap rate)) db).1
       = true) ∧
  (∀ alive c, let '(b, l') := ping alive c l in
     b = true ↔ RateLimiter.conn l' = Some tt).
Proof.
  split.
  - assert (∀ l0, RateLimiter.conn (enter_degraded e key cap l0).2 = RateLimiter.conn l0) as Hd.
    { intros l0. unfold enter_degraded.
      destruct (SurvivabilityMode.enabled _); [by destruct (LocalBucket.try_consume _ _) as [[[? ?] ?] ?]|].
      by destruct (RateLimitsConfig.fail_open _). }
    assert (RateLimiter.conn (check e key cap rate l db).1.2 =
            RateLimiter.conn (try_redis e key cap rate l db).1.2) as ->.
    { unfold check. destruct (try_redis _ _ _ _ _ _) as [[[] l'] db']; [done|].
      specialize (Hd l'). by destruct (enter_degraded e key cap l'). }
    unfold try_redis. destruct (RateLimiter.conn l) as [[]|] eqn:Hconn; [|simpl; naive_solver].
    destruct (LUA_SCRIPT _ _ _ _) as [[] db']; destruct (fate e); simpl; naive_solver.
  - intros alive c. unfold ping. destruct (RateLimiter.conn l) as [[]|] eqn:Hconn, alive, c;
      simpl; naive_solver.
Qed.
End limiter.

Lemma check_keys_independent_witness :
  let l := from_config sample_rate_limits ConnectTimeout in
  let '(_, l', db') := check (L := LuaModel.lua_model) (mk_env 0 0 Delivered 0 0) "a" 10 (f64_of_int 1) l ∅ in
  db' !! "b" = (∅ : redis_db) !! "b" ∧ RateLimiter.fallback l' !! "b" = RateLimiter.fallback l !! "b".
Proof.
  apply (check_keys_independent (L := LuaModel.lua_model) (mk_env 0 0 Delivered 0 0) "a" "b" 10
           (f64_of_int 1) (from_config sample_rate_limits ConnectTimeout) ∅). done.
Defined.
