(* ===== verification/Auth.v ===== *)
(** * Authentication

    [controlplane/src/auth/]: token validation ([validator.rs]), the JWKS cache
    of a provider ([jwks_cache.rs]), the registry of caches ([registry.rs]),
    errors ([error.rs]) and [validate_with_refresh] ([mod.rs]).  The refresh
    loop of a cache is in [Refresh].

    The [jsonwebtoken] crate is the interface [JwtLib]; the outcome of an HTTP
    fetch of a key set is an argument of the operations that fetch. *)
From S2P Require Import Prelude RustStr F64 Yaml ConfigTypes.

(** ** Errors *)
Inductive AuthError :=
  | MissingToken
  | InvalidTokenFormat
  | InvalidToken
  | UnsupportedAlgorithm
  | UnknownKeyId
  | InvalidSignature
  | InvalidIssuer
  | InvalidAudience
  | TokenExpired
  | TokenNotYetValid
  | MissingSubject
  | InsufficientScopes
  | AuthProviderUnavailable
  | JwksFetch (e : string).

Definition http_status (e : AuthError) : Z :=
  match e with
  | InsufficientScopes => 403
  | AuthProviderUnavailable | JwksFetch _ => 503
  | _ => 401
  end.

Definition error_code (e : AuthError) : string :=
  match e with
  | MissingToken => "missing_token"
  | InvalidTokenFormat => "invalid_token_format"
  | InvalidToken => "invalid_token"
  | UnsupportedAlgorithm => "unsupported_algorithm"
  | UnknownKeyId => "unknown_key_id"
  | InvalidSignature => "invalid_signature"
  | InvalidIssuer => "invalid_issuer"
  | InvalidAudience => "invalid_audience"
  | TokenExpired => "token_expired"
  | TokenNotYetValid => "token_not_yet_valid"
  | MissingSubject => "missing_subject"
  | InsufficientScopes => "insufficient_scopes"
  | AuthProviderUnavailable | JwksFetch _ => "auth_provider_unavailable"
  end.

(** ** Data *)
Module ValidatedIdentity.
Record ValidatedIdentity := mk {
  sub : string;
  iss : string;
  aud : list string;
  scopes : list string;
  exp_unix : Z
}.
End ValidatedIdentity.
Export ValidatedIdentity(ValidatedIdentity).

Inductive Audience :=
  | Single (s : string)
  | Multiple (v : list string).

Definition Audience_default : Audience := Multiple [].

Definition Audience_contains (a : Audience) (target : string) : bool :=
  match a with
  | Single s => bool_decide (s = target)
  | Multiple v => existsb (λ a, bool_decide (a = target)) v
  end.

Module Claims.
Record Claims := mk {
  sub : option string;
  iss : option string;
  aud : Audience;
  exp : option Z;
  nbf : option Z;
  scope : option string;
  scp : option (list string)
}.
End Claims.
Export Claims(Claims).

Module JwksRawKey.
Record JwksRawKey := mk {
  kid : string;
  kty : string;
  alg : option string;
  n : string;
  e : string
}.
End JwksRawKey.
Export JwksRawKey(JwksRawKey).

(** [JwksDocument] has a single field, [keys]. *)
Notation JwksDocument := (list JwksRawKey).

(** ** The JWT library *)
Inductive Algorithm :=
  | HS256 | HS384 | HS512 | ES256 | ES384 | RS256 | RS384 | RS512
  | PS256 | PS384 | PS512 | EdDSA.

Global Instance Algorithm_eq_dec : EqDecision Algorithm.
Proof. solve_decision. Defined.

Module Validation.
Record Validation := mk {
  required_spec_claims : list string;
  leeway : Z;
  validate_exp : bool;
  validate_nbf : bool;
  aud : option (list string);
  iss : option (list string);
  algorithms : list Algorithm
}.
End Validation.
Export Validation(Validation).

(** [jsonwebtoken::errors::ErrorKind], the kinds the code tells apart. *)
Inductive ErrorKind :=
  | KInvalidSignature | KInvalidIssuer | KInvalidAudience
  | KExpiredSignature | KImmatureSignature | KOther.

Module JwtHeader.
Record JwtHeader := mk { alg : Algorithm; kid : option string }.
End JwtHeader.

(** [decode now token key validation] is [decode::<Claims>] with the system
    clock at [now] seconds. *)
Class JwtLib := {
  DecodingKey : Type;
  decode_header : string → option JwtHeader.JwtHeader;
  decode : Z → string → DecodingKey → Validation → result ErrorKind Claims;
  from_rsa_components : string → string → result string DecodingKey
}.

(** What the crate documents of an accepted token.  [signed] is the
    cryptographic check of the signature under a key. *)
Class JwtLaws (J : JwtLib) (signed : string → DecodingKey → Prop) : Prop := {
  decode_signature now tok k v c : decode now tok k v = Ok c → signed tok k;
  decode_alg now tok k v c h : decode now tok k v = Ok c → decode_header tok = Some h →
    JwtHeader.alg h ∈ Validation.algorithms v;
  decode_issuer now tok k v c iss : decode now tok k v = Ok c → Validation.iss v = Some iss →
    "iss" ∈ Validation.required_spec_claims v → ∃ i, Claims.iss c = Some i ∧ i ∈ iss;
  decode_audience now tok k v c aud : decode now tok k v = Ok c → Validation.aud v = Some aud →
    "aud" ∈ Validation.required_spec_claims v → ∃ a, a ∈ aud ∧ Audience_contains (Claims.aud c) a = true;
  decode_exp now tok k v c : decode now tok k v = Ok c → Validation.validate_exp v = true →
    "exp" ∈ Validation.required_spec_claims v →
    ∃ e, Claims.exp c = Some e ∧ (now - Validation.leeway v ≤ e)%Z;
  decode_nbf now tok k v c n : decode now tok k v = Ok c → Validation.validate_nbf v = true →
    Claims.nbf c = Some n → (n ≤ now + Validation.leeway v)%Z
}.

(** ** Token validation *)
Section validator.
Context `{J : JwtLib}.

Record JwksKey := mk_key { kid : string; decoding_key : DecodingKey }.

Definition Validation_new (alg : Algorithm) : Validation :=
  Validation.mk ["exp"] 60 true false None None [alg].

(** The validation [decode_and_verify] sets up. *)
Definition provider_validation (provider : AuthProvider) : Validation :=
  let v := Validation_new RS256 in
  Validation.mk ["exp"; "iss"; "aud"] (AuthProvider.clock_skew_seconds provider) true true
    (Some [AuthProvider.audience provider]) (Some [AuthProvider.issuer provider])
    (Validation.algorithms v).

Definition of_error_kind (k : ErrorKind) : AuthError :=
  match k with
  | KInvalidSignature => InvalidSignature
  | KInvalidIssuer => InvalidIssuer
  | KInvalidAudience => InvalidAudience
  | KExpiredSignature => TokenExpired
  | KImmatureSignature => TokenNotYetValid
  | KOther => InvalidToken
  end.

Definition decode_and_verify (now : Z) (raw_token : string) (key : DecodingKey)
    (provider : AuthProvider) : result AuthError Claims :=
  map_err of_error_kind (decode now raw_token key (provider_validation provider)).

Definition extract_scopes (claims : Claims) : list string :=
  match Claims.scope claims with
  | Some scope_str => split_whitespace scope_str
  | None => match Claims.scp claims with Some scp_arr => scp_arr | None => [] end
  end.

Fixpoint check_scopes (token_scopes required : list string) : result AuthError unit :=
  match required with
  | [] => Ok tt
  | req :: required =>
      if existsb (λ s, bool_decide (s = req)) token_scopes
      then check_scopes token_scopes required
      else Err InsufficientScopes
  end.

Definition audience_list (a : Audience) : list string :=
  match a with Single s => [s] | Multiple v => v end.

Definition validate_token (now : Z) (raw_token : string) (provider : AuthProvider)
    (keys : list JwksKey) (required_scopes : list string) : result AuthError ValidatedIdentity :=
  header ← ok_or InvalidToken (decode_header raw_token);
  if bool_decide (JwtHeader.alg header ≠ RS256) then Err UnsupportedAlgorithm
  else
    token_kid ← ok_or UnknownKeyId (JwtHeader.kid header);
    key ← ok_or UnknownKeyId (iter_find (λ k, bool_decide (kid k = token_kid)) keys);
    claims ← decode_and_verify now raw_token (decoding_key key) provider;
    let token_scopes := extract_scopes claims in
    _ ← check_scopes token_scopes required_scopes;
    sub ← ok_or MissingSubject (Claims.sub claims);
    Ok (ValidatedIdentity.mk sub (default EmptyString (Claims.iss claims))
          (audience_list (Claims.aud claims)) token_scopes (default 0%Z (Claims.exp claims))).

(** ** The JWKS cache *)
Fixpoint parse_jwks_keys (doc : JwksDocument) : result AuthError (list JwksKey) :=
  match doc with
  | [] => Ok []
  | raw :: doc =>
      if bool_decide (JwksRawKey.kty raw ≠ "RSA") then parse_jwks_keys doc
      else
        key ← map_err (λ e, JwksFetch ("failed to parse RSA key kid=" +:+ JwksRawKey.kid raw
                                       +:+ ": " +:+ e))
                (from_rsa_components (JwksRawKey.n raw) (JwksRawKey.e raw));
        keys ← parse_jwks_keys doc;
        Ok (mk_key (JwksRawKey.kid raw) key :: keys)
  end.

(** [fetched_at] is an [Instant] in nanoseconds. *)
Record JwksCache := mk_cache {
  provider : AuthProvider;
  cached_keys : list JwksKey;
  fetched_at : Z
}.

Definition STALE_FACTOR : Z := 10.

(** The threshold is computed in [u64] seconds. *)
Definition is_stale (now : Z) (c : JwksCache) : bool :=
  let stale_threshold := (AuthProvider.cache_ttl_seconds (provider c) *u64 STALE_FACTOR)%mach in
  (stale_threshold * 1000000000 <? Z.max 0 (now - fetched_at c))%Z.

Definition get_keys (c : JwksCache) : list JwksKey :=
  (λ k, mk_key (kid k) (decoding_key k)) <$> cached_keys c.

(** [fetch_and_store]: the reply of the provider (the document, or a transport
    or decoding error) and the instant the write happens. *)
Definition fetch_and_store (reply : result string JwksDocument) (now : Z) (c : JwksCache)
    : result AuthError unit * JwksCache :=
  match map_err JwksFetch reply ≫= parse_jwks_keys with
  | Ok keys => (Ok tt, mk_cache (provider c) keys now)
  | Err e => (Err e, c)
  end.

(** [JwksCache::new]: the cache is returned only when the first fetch works. *)
Definition JwksCache_new (p : AuthProvider) (created : Z) (reply : result string JwksDocument)
    (now : Z) : result AuthError JwksCache :=
  let '(r, c) := fetch_and_store reply now (mk_cache p [] created) in
  _ ← r; Ok c.

(** ** The registry *)

(** [fetch p] is the outcome of the first fetch for the provider. *)
Definition registry_from_config (fetch : AuthProvider → result string JwksDocument) (now : Z)
    (providers : list AuthProvider) : result AuthError (gmap string JwksCache) :=
  foldl (λ acc p,
    caches ← acc;
    cache ← JwksCache_new p now (fetch p) now;
    Ok (<[AuthProvider.name p := cache]> caches)) (Ok ∅) providers.

Definition all_healthy (now : Z) (caches : gmap string JwksCache) : bool :=
  forallb (λ c, negb (is_stale now c)) (map_to_list caches).*2.

Definition registry_get (caches : gmap string JwksCache) (name : string) : option JwksCache :=
  caches !! name.

(** ** Validation with one refresh

    What the cached keys decide; [None] when a refresh is needed. *)
Definition validate_cached (now_unix instant : Z) (raw_token : string) (p : AuthProvider)
    (cache : JwksCache) (required_scopes : list string) : option (result AuthError ValidatedIdentity) :=
  if is_stale instant cache then Some (Err AuthProviderUnavailable)
  else
    match validate_token now_unix raw_token p (get_keys cache) required_scopes with
    | Err UnknownKeyId => None
    | other => Some other
    end.

(** [refreshed] is the cache when the second read happens: whatever the
    background loop made of it during the bounded wait, which ends at
    [now_again].  The boolean says whether a refresh was requested. *)
Definition validate_with_refresh (now_unix now_again instant : Z) (raw_token : string)
    (p : AuthProvider) (cache refreshed : JwksCache) (required_scopes : list string)
    : result AuthError ValidatedIdentity * bool :=
  match validate_cached now_unix instant raw_token p cache required_scopes with
  | Some r => (r, false)
  | None => (validate_token now_again raw_token p (get_keys refreshed) required_scopes, true)
  end.
End validator.
Arguments JwksKey : clear implicits.
Arguments JwksKey {_}.
Arguments JwksCache : clear implicits.
Arguments JwksCache {_}.
