(* ===== verification/Refresh.v ===== *)
(** * The key refresh protocol ([auth/jwks_cache.rs])

    Every key cache has a notifier and a background loop.  A request whose key
    id is unknown asks the loop for a fetch and waits, both through the same
    notifier; the loop waits for its time to live or for the notifier, fetches,
    and wakes everybody who waits.  Here are the notifier, the loop and the
    request's side as functions; [Live] puts them beside the requests. *)
From S2P Require Import Prelude RustStr ConfigTypes Auth.

(** ** The notifier ([tokio::sync::Notify])

    [waiters] is the queue of tasks in [notified().await].  [woken] are the tasks
    that [notify_one] chose and that have not run since: when such a task is
    dropped instead of run, its notification goes to the next waiter.  A task
    woken by [notify_waiters] is simply no longer in the queue. *)
Module Notify.
Record Notify := mk { permit : bool; waiters : list nat; woken : list nat }.

Definition new : Notify := mk false [] [].
(** The first waiter, or the permit when nobody waits. *)
Definition notify_one (n : Notify) : Notify :=
  match waiters n with
  | t :: ts => mk (permit n) ts (woken n ++ [t])
  | [] => mk true [] (woken n)
  end.
Definition notify_waiters (n : Notify) : Notify := mk (permit n) [] (woken n).
(** The first poll of [notified()]: ready if a permit is stored, else queued. *)
Definition notified (t : nat) (n : Notify) : bool * Notify :=
  if permit n then (true, mk false (waiters n) (woken n))
  else (false, mk false (waiters n ++ [t]) (woken n)).
(** A later poll: ready when the task has left the queue. *)
Definition polled (t : nat) (n : Notify) : option Notify :=
  if bool_decide (t ∈ waiters n) then None
  else Some (mk (permit n) (waiters n) (filter (.≠ t) (woken n))).
(** The wait is dropped. *)
Definition dropped (t : nat) (n : Notify) : Notify :=
  if bool_decide (t ∈ woken n)
  then notify_one (mk (permit n) (waiters n) (filter (.≠ t) (woken n)))
  else mk (permit n) (filter (.≠ t) (waiters n)) (woken n).
End Notify.

(** ** The background loop *)
Inductive loop_state :=
  | LoopStarting                  (* spawned, not yet in its select *)
  | LoopWaiting                   (* in its select *)
  | LoopFetching
  | LoopPanicked.                 (* [interval] panics for a period of zero *)

Record refresher := mk_refresher { notify : Notify.Notify; loop : loop_state }.
Definition set_notify (n : Notify.Notify) (r : refresher) : refresher := mk_refresher n (loop r).

(** The loop among the tasks that wait; a request [t] is [S t]. *)
Definition loop_task : nat := 0.

Definition spawn_refresh_loop (p : AuthProvider) : refresher :=
  mk_refresher Notify.new
    (if (AuthProvider.cache_ttl_seconds p =? 0)%Z then LoopPanicked else LoopStarting).

(** Entering the select; [tick] says that the interval's branch is taken, which
    leaves the notifier alone. *)
Definition select (tick : bool) (n : Notify.Notify) : refresher :=
  if tick then mk_refresher n LoopFetching
  else
    let '(ready, n) := Notify.notified loop_task n in
    mk_refresher n (if ready then LoopFetching else LoopWaiting).

Inductive loop_event :=
  | LoopBegins (tick : bool)
  | TtlElapsed
  | LoopWoken
  | FetchEnds (reply : result string JwksDocument) (now : Z) (tick : bool).

(** A turn of the loop; the fetched keys are stored by [key_fetch]. *)
Definition loop_turn (ev : loop_event) (r : refresher) : option refresher :=
  match loop r, ev with
  | LoopStarting, LoopBegins tick => Some (select tick (notify r))
  | LoopWaiting, TtlElapsed => Some (mk_refresher (Notify.dropped loop_task (notify r)) LoopFetching)
  | LoopWaiting, LoopWoken =>
      n ← Notify.polled loop_task (notify r); Some (mk_refresher n LoopFetching)
  | LoopFetching, FetchEnds _ _ tick => Some (select tick (Notify.notify_waiters (notify r)))
  | _, _ => None
  end.

(** ** The request's side *)
Definition trigger_refresh (r : refresher) : refresher := set_notify (Notify.notify_one (notify r)) r.
Definition wait_for_refresh (t : nat) (r : refresher) : bool * refresher :=
  let '(ready, n) := Notify.notified (S t) (notify r) in (ready, set_notify n r).
(** [validate_with_refresh] between its two validations. *)
Definition request_refresh (t : nat) (r : refresher) : bool * refresher :=
  wait_for_refresh t (trigger_refresh r).

Section registry.
Context `{J : JwtLib}.
Definition spawn_all_refresh_loops (caches : gmap string JwksCache) : gmap string refresher :=
  (λ c, spawn_refresh_loop (provider c)) <$> caches.
End registry.
