(* ===== verification/AuthSpec.v ===== *)
(** * Authentication: properties

    Soundness of token validation against the provider's configuration, the
    staleness policy of the key cache, the registry, and when the refreshed keys
    decide. *)
From S2P Require Import Prelude RustStr F64 Yaml ConfigTypes Samples Auth.

(** ** Specification *)

(** A token a provider's policy accepts with a key of the key set. *)
Record accepted_token `{J : JwtLib} (signed : string → DecodingKey → Prop) (now : Z)
    (tok : string) (p : AuthProvider) (keys : list JwksKey) (required : list string)
    (id : ValidatedIdentity) : Prop := {
  accepted_key : ∃ k h, k ∈ keys ∧ decode_header tok = Some h ∧ JwtHeader.alg h = RS256 ∧
    JwtHeader.kid h = Some (kid k) ∧ signed tok (decoding_key k);
  accepted_issuer : ValidatedIdentity.iss id = AuthProvider.issuer p;
  accepted_audience : AuthProvider.audience p ∈ ValidatedIdentity.aud id;
  accepted_exp : (now - AuthProvider.clock_skew_seconds p ≤ ValidatedIdentity.exp_unix id)%Z;
  accepted_scopes : ∀ s, s ∈ required → s ∈ ValidatedIdentity.scopes id
}.

(** ** Token validation *)
Lemma existsb_str l x : existsb (λ s, bool_decide (s = x)) l = true ↔ (x : string) ∈ l.
Proof.
  rewrite existsb_exists. setoid_rewrite bool_decide_eq_true.
  setoid_rewrite <-list_elem_of_In. naive_solver.
Qed.

Lemma check_scopes_ok have required :
  check_scopes have required = Ok tt ↔ ∀ s, s ∈ required → s ∈ have.
Proof.
  induction required as [|r rs IH]; simpl; [set_solver|].
  destruct (existsb _ have) eqn:E.
  - rewrite existsb_str in E. rewrite IH. set_solver.
  - split; [done|]. intros H. exfalso.
    assert (existsb (λ s, bool_decide (s = r)) have = true) by (apply existsb_str; set_solver).
    congruence.
Qed.

Lemma check_scopes_err have required e :
  check_scopes have required = Err e → e = InsufficientScopes.
Proof. induction required; simpl; [done|]. destruct (existsb _ _); naive_solver. Qed.

Lemma Audience_contains_list a t : Audience_contains a t = true ↔ t ∈ audience_list a.
Proof.
  destruct a; simpl; [rewrite bool_decide_eq_true; set_solver|apply existsb_str].
Qed.

Section validation.
Context `{J : JwtLib}.

Lemma validate_token_inv now tok p keys required id :
  validate_token now tok p keys required = Ok id ↔
  ∃ h k c, decode_header tok = Some h ∧ JwtHeader.alg h = RS256 ∧
    JwtHeader.kid h = Some (kid k) ∧
    iter_find (λ k', bool_decide (kid k' = kid k)) keys = Some k ∧
    decode now tok (decoding_key k) (provider_validation p) = Ok c ∧
    (∀ s, s ∈ required → s ∈ extract_scopes c) ∧
    Claims.sub c = Some (ValidatedIdentity.sub id) ∧
    id = ValidatedIdentity.mk (ValidatedIdentity.sub id) (default EmptyString (Claims.iss c))
           (audience_list (Claims.aud c)) (extract_scopes c) (default 0%Z (Claims.exp c)).
Proof.
  unfold validate_token. split.
  - destruct (decode_header tok) as [h|] eqn:Hh; [|done]. cbn [ok_or mbind result_bind].
    case_bool_decide as Halg; [done|].
    destruct (JwtHeader.kid h) as [kd|] eqn:Hkid; [|done]. cbn [ok_or mbind result_bind].
    destruct (iter_find _ keys) as [k|] eqn:Hk; [|done]. cbn [ok_or mbind result_bind].
    unfold decode_and_verify.
    destruct (decode _ _ _ _) as [c|] eqn:Hc; [|done]. cbn [map_err mbind result_bind].
    destruct (check_scopes _ _) as [[]|] eqn:Hs; [|done]. cbn [mbind result_bind].
    destruct (Claims.sub c) as [sub|] eqn:Hsub; [|done]. intros [= <-].
    pose proof (iter_find_Some _ _ _ Hk) as [_ Hkd]. apply bool_decide_eq_true in Hkd. subst kd.
    exists h, k, c. split_and!; try done. by apply check_scopes_ok.
  - intros (h & k & c & -> & Halg & Hkid & Hk & Hc & Hs & Hsub & Hid).
    cbn [ok_or mbind result_bind]. rewrite bool_decide_eq_false_2 by auto.
    rewrite Hkid. cbn [ok_or mbind result_bind]. rewrite Hk. cbn [ok_or mbind result_bind].
    unfold decode_and_verify. rewrite Hc. cbn [map_err mbind result_bind].
    rewrite (proj2 (check_scopes_ok _ _)) by done. cbn [mbind result_bind].
    rewrite Hsub. cbn [ok_or mbind result_bind]. by rewrite <-Hid.
Qed.

Lemma validate_token_accepted (signed : string → DecodingKey → Prop) `{!JwtLaws J signed}
    (now : Z) (tok : string) (p : AuthProvider) (keys : list JwksKey) (required : list string)
    (id : ValidatedIdentity) :
  validate_token now tok p keys required = Ok id →
  accepted_token signed now tok p keys required id.
Proof.
  intros (h & k & c & Hh & Halg & Hkid & Hk & Hc & Hs & _ & Hid)%validate_token_inv.
  destruct (decode_issuer _ _ _ _ _ [AuthProvider.issuer p] Hc) as (i & Hi & Hin);
    [done|set_solver|].
  destruct (decode_audience _ _ _ _ _ [AuthProvider.audience p] Hc) as (a & Ha & Hain);
    [done|set_solver|].
  destruct (decode_exp _ _ _ _ _ Hc) as (e & He & Hle); [done|set_solver|].
  rewrite Hid. split; cbn [ValidatedIdentity.iss ValidatedIdentity.aud ValidatedIdentity.exp_unix
    ValidatedIdentity.scopes].
  - exists k, h. split_and!; try done; [by apply iter_find_Some in Hk as [? _]|].
    by eapply decode_signature.
  - rewrite Hi. simpl. set_solver.
  - apply Audience_contains_list. set_solver.
  - by rewrite He.
  - done.
Qed.

(** [C3] Token validation is sound: an identity is returned only for a token
    whose header says RS256 and names a key of the key set, whose signature
    verifies under that key, which the provider's issuer issued for the
    provider's audience, which has not expired beyond the clock skew, and
    which carries every required scope. *)
Theorem validate_token_sound (signed : string → DecodingKey → Prop) `{!JwtLaws J signed}
    (now : Z) (tok : string) (p : AuthProvider) (keys : list JwksKey) (required : list string)
    (id : ValidatedIdentity) :
  validate_token now tok p keys required = Ok id →
  accepted_token signed now tok p keys required id.
Proof. by apply validate_token_accepted. Qed.

(** Exactly which tokens are accepted, relative to the JWT library: the
    header names RS256 and a key id, the first key with that id decodes the
    token under the provider's validation, all required scopes are present and
    the subject is. *)
Theorem validate_token_ok_iff (now : Z) (tok : string) (p : AuthProvider) (keys : list JwksKey)
    (required : list string) :
  (∃ id, validate_token now tok p keys required = Ok id) ↔
  ∃ h k c sub, decode_header tok = Some h ∧ JwtHeader.alg h = RS256 ∧
    JwtHeader.kid h = Some (kid k) ∧
    iter_find (λ k', bool_decide (kid k' = kid k)) keys = Some k ∧
    decode now tok (decoding_key k) (provider_validation p) = Ok c ∧
    (∀ s, s ∈ required → s ∈ extract_scopes c) ∧ Claims.sub c = Some sub.
Proof.
  setoid_rewrite validate_token_inv. split.
  - intros (id & h & k & c & ? & ? & ? & ? & ? & ? & ? & _). by exists h, k, c, (ValidatedIdentity.sub id).
  - intros (h & k & c & sub & ? & ? & ? & ? & ? & ? & Hsub).
    exists (ValidatedIdentity.mk sub (default EmptyString (Claims.iss c))
           (audience_list (Claims.aud c)) (extract_scopes c) (default 0%Z (Claims.exp c))), h, k, c.
    done.
Qed.

Lemma get_keys_cached (c : JwksCache) : get_keys c = cached_keys c.
Proof.
  unfold get_keys. rewrite <-(list_fmap_id (cached_keys c)) at 2.
  apply list_fmap_ext. by intros _ [] _.
Qed.

(** Whether the key is known does not depend on the time. *)
Lemma unknown_key_any_time now now' tok p keys required :
  validate_token now tok p keys required = Err UnknownKeyId →
  validate_token now' tok p keys required = Err UnknownKeyId.
Proof.
  unfold validate_token. destruct (decode_header tok) as [h|]; [|done]. simpl.
  case_bool_decide; [done|]. destruct (JwtHeader.kid h) as [k|]; [|done]. simpl.
  destruct (iter_find _ keys) as [key|]; [|done]. simpl. unfold decode_and_verify.
  destruct (decode now _ _ _) as [c|[]]; try done. simpl.
  destruct (check_scopes _ _) as [|err] eqn:Hs; simpl; [|by apply check_scopes_err in Hs as ->].
  by destruct (Claims.sub c).
Qed.
Lemma validate_cached_ok now instant tok p (c : JwksCache) required id :
  validate_cached now instant tok p c required = Some (Ok id) →
  is_stale instant c = false ∧ validate_token now tok p (cached_keys c) required = Ok id.
Proof.
  unfold validate_cached. rewrite get_keys_cached. destruct (is_stale instant c); [done|].
  destruct (validate_token now tok p (cached_keys c) required) as [id'|[]]; naive_solver.
Qed.
Lemma validate_with_refresh_ok now again instant tok p (c c' : JwksCache) required id :
  (validate_with_refresh now again instant tok p c c' required).1 = Ok id →
  is_stale instant c = false ∧
  (validate_token now tok p (cached_keys c) required = Ok id ∨
   validate_token again tok p (cached_keys c') required = Ok id).
Proof.
  unfold validate_with_refresh, validate_cached. rewrite !get_keys_cached. destruct (is_stale instant c); [done|].
  destruct (validate_token now tok p (cached_keys c) required) as [id'|[]]; naive_solver.
Qed.

(** The refresh path: an identity is only ever returned when the cache is
    not stale and the token validates against the keys before or after the
    refresh; a refresh is requested exactly when the cache is fresh and the key
    id is unknown; a stale cache makes the provider unavailable. *)
Theorem validate_with_refresh_spec (now again instant : Z) (tok : string) (p : AuthProvider)
    (c c' : JwksCache) (required : list string) :
  let '(r, requested) := validate_with_refresh now again instant tok p c c' required in
  (∀ id, r = Ok id → is_stale instant c = false ∧
     (validate_token now tok p (cached_keys c) required = Ok id ∨
      validate_token again tok p (cached_keys c') required = Ok id)) ∧
  (requested = true ↔ is_stale instant c = false ∧
     validate_token now tok p (cached_keys c) required = Err UnknownKeyId) ∧
  (is_stale instant c = true → r = Err AuthProviderUnavailable).
Proof.
  unfold validate_with_refresh, validate_cached. rewrite !get_keys_cached. destruct (is_stale instant c); [split_and!; naive_solver|].
  destruct (validate_token now tok p (cached_keys c) required) as [id|[]]; split_and!; naive_solver.
Qed.
End validation.

(** ** A model of the JWT library

    Tokens are looked up in a table of header, signing key and claims;
    [decode] checks the claims as the validation says. *)
Module JwtModel.
Definition claims_ok (now : Z) (v : Validation) (c : Claims) : bool :=
  match Validation.iss v, Claims.iss c with
  | Some issuers, Some i => bool_decide (i ∈ issuers)
  | Some _, None => false
  | None, _ => true
  end &&
  match Validation.aud v with
  | Some l => existsb (Audience_contains (Claims.aud c)) l
  | None => true
  end &&
  match Claims.exp c with
  | Some e => (now - Validation.leeway v <=? e)%Z
  | None => false
  end &&
  match Claims.nbf c with
  | Some n => (n <=? now + Validation.leeway v)%Z
  | None => true
  end.

Definition table : list (string * (JwtHeader.JwtHeader * string * Claims)) :=
  [("tok-1", (JwtHeader.mk RS256 (Some "k1"), "secret-1",
              Claims.mk (Some "user-123") (Some "https://auth.example.local/")
                (Multiple ["api-gateway"; "admin"]) (Some 2000%Z) None
                (Some "api.read api.write") None))].

Definition find_token (tok : string) := snd <$> iter_find (λ e, bool_decide (e.1 = tok)) table.

#[export] Instance jwt_model : JwtLib := {|
  DecodingKey := string;
  decode_header tok := (λ e, e.1.1) <$> find_token tok;
  decode now tok k v :=
    match find_token tok with
    | Some (h, k', c) =>
        if bool_decide (k = k') && bool_decide (JwtHeader.alg h ∈ Validation.algorithms v)
        then if claims_ok now v c then Ok c else Err KOther
        else Err KInvalidSignature
    | None => Err KOther
    end;
  from_rsa_components n e := if str_is_empty n then Err "empty" else Ok n
|}.

Definition signed (tok k : string) : Prop := (λ e, e.1.2) <$> find_token tok = Some k.

Lemma decode_inv now tok k v c :
  decode now tok k v = Ok c →
  ∃ h, find_token tok = Some (h, k, c) ∧ JwtHeader.alg h ∈ Validation.algorithms v ∧
    claims_ok now v c = true.
Proof.
  cbn [decode jwt_model]. destruct (find_token tok) as [[[h k'] c']|]; [|done].
  repeat case_bool_decide; simpl; try done. destruct (claims_ok now v c') eqn:E; [|done].
  intros [= <-]. subst. by exists h.
Qed.

#[export] Instance jwt_model_laws : JwtLaws jwt_model signed.
Proof.
  assert (∀ now tok k v c, decode now tok k v = Ok c → ∃ h,
    find_token tok = Some (h, k, c) ∧ JwtHeader.alg h ∈ Validation.algorithms v ∧
    match Validation.iss v, Claims.iss c with
    | Some issuers, Some i => bool_decide (i ∈ issuers) | Some _, None => false | None, _ => true
    end = true ∧
    match Validation.aud v with
    | Some l => existsb (Audience_contains (Claims.aud c)) l | None => true end = true ∧
    match Claims.exp c with
    | Some e => (now - Validation.leeway v <=? e)%Z | None => false end = true ∧
    match Claims.nbf c with
    | Some n => (n <=? now + Validation.leeway v)%Z | None => true end = true) as Hinv.
  { intros now tok k v c (h & ? & ? & Hc)%decode_inv. unfold claims_ok in Hc.
    rewrite !andb_true_iff in Hc. naive_solver. }
  split.
  - intros now tok k v c (h & Hf & _)%Hinv. unfold signed. by rewrite Hf.
  - intros now tok k v c h (h0 & Hf & Ha & _)%Hinv. cbn [decode_header jwt_model]. rewrite Hf. by intros [= <-].
  - intros now tok k v c l (h & _ & _ & Hi & _)%Hinv Hv _. rewrite Hv in Hi.
    destruct (Claims.iss c) as [i|]; [|done]. exists i. by apply bool_decide_eq_true in Hi.
  - intros now tok k v c l (h & _ & _ & _ & Ha & _)%Hinv Hv _. rewrite Hv in Ha.
    apply existsb_exists in Ha as (a & Hin & ?). exists a. by rewrite list_elem_of_In.
  - intros now tok k v c (h & _ & _ & _ & _ & He & _)%Hinv _ _.
    destruct (Claims.exp c) as [e|]; [|done]. exists e. split; [done|]. by apply Z.leb_le.
  - intros now tok k v c n (h & _ & _ & _ & _ & _ & Hn)%Hinv _ Hv. rewrite Hv in Hn.
    by apply Z.leb_le.
Qed.

Definition sample_keys : list (@JwksKey jwt_model) := [mk_key "k0" "secret-0"; mk_key "k1" "secret-1"].
End JwtModel.

Lemma validate_token_sound_witness :
  ∃ id, validate_token (J := JwtModel.jwt_model) 1990 "tok-1" sample_provider JwtModel.sample_keys
          ["api.read"] = Ok id ∧
    accepted_token (J := JwtModel.jwt_model) JwtModel.signed 1990 "tok-1" sample_provider
      JwtModel.sample_keys ["api.read"] id.
Proof.
  eexists. assert (validate_token (J := JwtModel.jwt_model) 1990 "tok-1" sample_provider
    JwtModel.sample_keys ["api.read"] = Ok (ValidatedIdentity.mk "user-123"
      "https://auth.example.local/" ["api-gateway"; "admin"] ["api.read"; "api.write"] 2000)) as H
    by (vm_compute; reflexivity).
  split; [exact H|].
  exact (validate_token_sound (J := JwtModel.jwt_model) JwtModel.signed
           (JwtLaws0 := JwtModel.jwt_model_laws) _ _ _ _ _ _ H).
Defined.

(** ** The cache and the registry *)
Section cache.
Context `{J : JwtLib}.

(** Staleness: when a fetch succeeds the cache holds exactly the RSA keys
    of the document and stays fresh for ten times the configured time to live
    and no longer (while that product fits 64 bits); when it fails the cache is
    left as it was. *)
Theorem fetch_and_store_spec (reply : result string JwksDocument) (now : Z) (c : JwksCache) :
  let '(r, c') := fetch_and_store reply now c in
  (r = Ok tt → ∃ doc keys, reply = Ok doc ∧ parse_jwks_keys doc = Ok keys ∧ cached_keys c' = keys ∧
     kid <$> keys = JwksRawKey.kid <$> filter (λ k, JwksRawKey.kty k = "RSA") doc ∧
     ∀ t, (0 ≤ AuthProvider.cache_ttl_seconds (provider c) * 10 ≤ u64_max)%Z →
       is_stale t c' = false ↔
       (t - now ≤ AuthProvider.cache_ttl_seconds (provider c) * 10 * 1000000000)%Z) ∧
  (∀ e, r = Err e → c' = c).
Proof.
  unfold fetch_and_store. destruct reply as [doc|e]; [|simpl; naive_solver].
  cbn [map_err mbind result_bind]. destruct (parse_jwks_keys doc) as [keys|e] eqn:Hp; [|naive_solver].
  split; [|done]. intros _. exists doc, keys. split_and!; try done.
  - clear now c. revert keys Hp. induction doc as [|raw doc IH]; intros keys; cbn [parse_jwks_keys];
      [by intros [= <-]|]. rewrite filter_cons. case_bool_decide as Hk; [rewrite decide_False by done; apply IH|].
    rewrite decide_True by done. destruct (from_rsa_components _ _); [|done]. simpl.
    destruct (parse_jwks_keys doc) as [ks|]; [|done]. intros [= <-]. rewrite !fmap_cons.
    by rewrite (IH ks).
  - intros t Ht. unfold is_stale, wrapping_mul, as_u64, STALE_FACTOR. simpl.
    unfold u64_max in Ht. rewrite Z.mod_small by lia.
    destruct (Z.ltb_spec (AuthProvider.cache_ttl_seconds (provider c) * 10 * 1000000000)
      (Z.max 0 (t - now))); split; try done; lia.
Qed.

Lemma JwksCache_new_provider p created reply now c :
  JwksCache_new p created reply now = Ok c → provider c = p.
Proof.
  unfold JwksCache_new, fetch_and_store. destruct (_ ≫= parse_jwks_keys); [|done]. by intros [= <-].
Qed.

Definition registry_step (fetch : AuthProvider → result string JwksDocument) (now : Z) :=
  λ (acc : result AuthError (gmap string JwksCache)) p,
    caches ← acc; cache ← JwksCache_new p now (fetch p) now;
    Ok (<[AuthProvider.name p := cache]> caches).

Lemma registry_snoc fetch now ps p :
  registry_from_config fetch now (ps ++ [p]) =
  registry_step fetch now (registry_from_config fetch now ps) p.
Proof. unfold registry_from_config. by rewrite foldl_app. Qed.

(** Start-up of authentication is all or nothing: the registry is built
    exactly when the first fetch of every provider succeeds, and then, provider
    names being unique, it has exactly one cache per provider, found under the
    provider's name. *)
Theorem registry_from_config_spec (fetch : AuthProvider → result string JwksDocument) (now : Z)
    (ps : list AuthProvider) :
  NoDup (AuthProvider.name <$> ps) →
  ((∃ reg, registry_from_config fetch now ps = Ok reg) ↔
     ∀ p, p ∈ ps → ∃ c, JwksCache_new p now (fetch p) now = Ok c) ∧
  (∀ reg, registry_from_config fetch now ps = Ok reg →
     ∀ name, registry_get reg name =
       (iter_find (λ p, bool_decide (AuthProvider.name p = name)) ps ≫=
          λ p, ok (JwksCache_new p now (fetch p) now))).
Proof.
  unfold registry_get. induction ps as [|p ps IH] using rev_ind.
  { intros _. split; [split; [set_solver|by eexists]|]. intros reg [= <-] name. done. }
  rewrite fmap_app, NoDup_app. intros (Hnd & Hdis & _). destruct (IH Hnd) as [IHok IHget].
  rewrite registry_snoc. unfold registry_step. split.
  - split.
    + destruct (registry_from_config fetch now ps) as [reg|] eqn:Hr; [|by intros [? ?]].
      simpl. destruct (JwksCache_new p now (fetch p) now) as [c|] eqn:Hc; [|by intros [? ?]].
      intros _ q. rewrite elem_of_app, list_elem_of_singleton. intros [Hq| ->]; [|by eexists].
      apply IHok; [by eexists|done].
    + intros Hall. destruct (proj2 IHok) as [reg ->]; [intros; apply Hall; set_solver|]. simpl.
      destruct (Hall p) as [c ->]; [set_solver|]. by eexists.
  - destruct (registry_from_config fetch now ps) as [reg|] eqn:Hr; [|done]. simpl.
    destruct (JwksCache_new p now (fetch p) now) as [c|] eqn:Hc; [|done].
    intros reg' [= <-] name. specialize (IHget reg eq_refl name).
    rewrite iter_find_app. destruct (decide (AuthProvider.name p = name)) as [<-|Hne].
    + rewrite lookup_insert_eq.
      destruct (iter_find _ ps) as [q|] eqn:Hf.
      { apply iter_find_Some in Hf as [Hq Hn%bool_decide_eq_true]. exfalso.
        apply (Hdis (AuthProvider.name p)); [|set_solver]. rewrite <-Hn.
        apply list_elem_of_fmap; eauto. }
      simpl. rewrite bool_decide_eq_true_2 by done. simpl. by rewrite Hc.
    + rewrite lookup_insert_ne, IHget by done.
      destruct (iter_find _ ps) as [q|]; [done|]. simpl. by rewrite bool_decide_eq_false_2.
Qed.
End cache.

Lemma registry_from_config_spec_witness :
  ∃ reg, registry_from_config (J := JwtModel.jwt_model)
    (λ _, Ok [JwksRawKey.mk "k1" "RSA" None "n" "e"]) 0 [sample_provider] = Ok reg.
Proof.
  apply (registry_from_config_spec (J := JwtModel.jwt_model)
    (λ _, Ok [JwksRawKey.mk "k1" "RSA" None "n" "e"]) 0 [sample_provider]).
  - apply (bool_decide_unpack _). vm_compute. exact I.
  - intros p _. eexists. reflexivity.
Defined.

(** The staleness threshold is computed in 64 bits: a time to live whose
    tenfold does not fit wraps around, and a cache fetched five seconds ago is
    reported stale although its time to live is astronomically long. *)
Theorem stale_threshold_wraps :
  let p := AuthProvider.mk "main" "iss" "aud" "http://localhost/" 1844674407370955162 30 in
  is_u64 (AuthProvider.cache_ttl_seconds p) ∧
  is_stale (J := JwtModel.jwt_model) 5000000000 (mk_cache p [] 0) = true.
Proof. vm_compute. split; [split|]; done. Qed.
