(* ===== verification/RefreshSpec.v ===== *)
(** * Theorems on the key refresh protocol

    The invariant of a notifier and its loop: the loop is first in the queue, and
    requests queue only while it is fetching or about to; so a request never
    waits for a fetch that is not under way.  And what the protocol does not
    give. *)
From S2P Require Import Prelude RustStr ConfigTypes Auth Refresh.

(** ** The invariant *)
Record refresher_ok (r : refresher) : Prop := {
  ok_permit : Notify.permit (notify r) = true → Notify.waiters (notify r) = [];
  ok_alone : loop_task ∈ Notify.waiters (notify r) →
    Notify.waiters (notify r) = [loop_task] ∧ loop r = LoopWaiting;
  ok_waiting : loop r = LoopWaiting →
    loop_task ∈ Notify.waiters (notify r) ∨ loop_task ∈ Notify.woken (notify r);
  ok_woken : loop_task ∈ Notify.woken (notify r) → loop r = LoopWaiting;
  ok_queue : Notify.waiters (notify r) ≠ [] → loop r = LoopWaiting ∨ loop r = LoopFetching;
  ok_nodup : NoDup (Notify.waiters (notify r) ++ Notify.woken (notify r))
}.

(** A task that is queued, or woken and not yet run. *)
Definition present (t : nat) (n : Notify.Notify) : Prop := t ∈ Notify.waiters n ++ Notify.woken n.

Lemma ok_spawn p : refresher_ok (spawn_refresh_loop p).
Proof.
  unfold spawn_refresh_loop. split; simpl; try done; try set_solver; [by destruct (_ =? _)%Z|constructor].
Qed.

Lemma ok_select tick n :
  Notify.waiters n = [] → loop_task ∉ Notify.woken n → NoDup (Notify.woken n) → refresher_ok (select tick n).
Proof.
  destruct n as [b ws wk]. simpl. intros -> Hw Hnd. unfold select, Notify.notified. simpl.
  destruct tick, b; split; simpl; try done; try set_solver.
  apply NoDup_cons. done.
Qed.

Lemma ok_trigger r : refresher_ok r → refresher_ok (trigger_refresh r).
Proof.
  destruct r as [[b [|t ws] wk] l]; intros [Hp Ha Hw Hk Hq Hn]; simpl in *.
  - by split.
  - assert (b = false) as -> by (destruct b; [by specialize (Hp eq_refl)|done]).
    apply NoDup_cons in Hn as [Hnt Hn]. split; simpl; try done.
    + intros Hin. destruct Ha as [[= <- ->] ->]; set_solver.
    + intros ->. destruct (Hw eq_refl); set_solver.
    + rewrite elem_of_app, list_elem_of_singleton. intros [?|<-]; [by apply Hk|by apply Ha; left].
    + intros _. by apply Hq.
    + rewrite (assoc_L (++)), (comm (++) _ [t]). by apply NoDup_cons.
Qed.

(** A request leaves the list of woken tasks, or the queue. *)
Lemma ok_forget r t b ws wk :
  refresher_ok r → t ≠ loop_task → notify r = Notify.mk b ws wk →
  refresher_ok (set_notify (Notify.mk b ws (filter (.≠ t) wk)) r).
Proof.
  destruct r as [n l]. intros [Hp Ha Hw Hk Hq Hn] Ht Hnr. simpl in *. subst n. split; simpl in *; try done.
  - intros ->. rewrite list_elem_of_filter. destruct (Hw eq_refl); auto.
  - rewrite list_elem_of_filter. intros [_ ?]. auto.
  - rewrite NoDup_app in Hn |- *. destruct Hn as (? & Hd & ?). split_and!; [done| |by apply NoDup_filter].
    intros x Hx. rewrite list_elem_of_filter. intros [_ ?]. by eapply Hd.
Qed.
Lemma ok_leave r t b ws wk :
  refresher_ok r → t ≠ loop_task → notify r = Notify.mk b ws wk →
  refresher_ok (set_notify (Notify.mk b (filter (.≠ t) ws) wk) r).
Proof.
  destruct r as [n l]. intros [Hp Ha Hw Hk Hq Hn] Ht Hnr. simpl in *. subst n. split; simpl in *; try done.
  - intros ->. by rewrite Hp.
  - rewrite list_elem_of_filter. intros [_ Hin]. destruct (Ha Hin) as [-> ->].
    by rewrite filter_cons_True, filter_nil by done.
  - intros ->. rewrite list_elem_of_filter. destruct (Hw eq_refl); auto.
  - intros Hne. apply Hq. intros ->. by apply Hne.
  - rewrite NoDup_app in Hn |- *. destruct Hn as (? & Hd & ?). split_and!; [by apply NoDup_filter| |done].
    intros x. rewrite list_elem_of_filter. intros [_ ?]. by apply Hd.
Qed.

Lemma ok_polled r t n :
  refresher_ok r → Notify.polled (S t) (notify r) = Some n → refresher_ok (set_notify n r).
Proof.
  intros Hr. unfold Notify.polled. case_bool_decide; [done|]. intros [= <-].
  destruct (notify r) as [b ws wk] eqn:Hn. simpl. by apply ok_forget.
Qed.
Lemma ok_dropped r t : refresher_ok r → refresher_ok (set_notify (Notify.dropped (S t) (notify r)) r).
Proof.
  intros Hr. unfold Notify.dropped. destruct (notify r) as [b ws wk] eqn:Hn. simpl. case_bool_decide.
  - apply (ok_trigger (set_notify (Notify.mk b ws (filter (.≠ S t) wk)) r)). by apply ok_forget.
  - by apply ok_leave.
Qed.
Lemma ok_request r t :
  refresher_ok r → ¬ present (S t) (notify r) → refresher_ok (request_refresh t r).2.
Proof.
  intros Hr [Hw Hk]%not_elem_of_app. pose proof (ok_trigger r Hr) as Ht. destruct Hr as [Hp Ha _ _ Hq Hn].
  destruct r as [[b [|x ws] wk] l]; simpl in *.
  - destruct Ht as [_ Ha' Hw' Hk' Hq' Hn']. by split.
  - assert (b = false) as -> by (destruct b; [by specialize (Hp eq_refl)|done]).
    assert (Hl : loop_task ∉ ws).
    { intros Hin. destruct Ha as [[= -> ->] _]; [by right|]. by apply not_elem_of_nil in Hin. }
    destruct Ht as [_ _ Hw' Hk' _ Hn']. split; simpl in *; try done.
    + rewrite elem_of_app, list_elem_of_singleton. by intros [?|?].
    + intros ->. destruct (Hw' eq_refl) as [?|?]; [done|by right].
    + intros _. by apply Hq.
    + rewrite (comm (++) ws), <-(assoc_L (++)). apply NoDup_cons. split; [|done].
      rewrite !elem_of_app, list_elem_of_singleton. apply not_elem_of_cons in Hw as [? ?].
      by intros [?|[?|?]].
Qed.

Lemma ok_loop_turn ev r r' : refresher_ok r → loop_turn ev r = Some r' → refresher_ok r'.
Proof.
  destruct r as [[b ws wk] l]. intros [Hp Ha Hw Hk Hq Hn]. apply NoDup_app in Hn as (Hws & Hd & Hwk).
  unfold loop_turn. simpl in *. destruct l, ev as [tick| | |reply now tick]; try done.
  - intros [= <-]. destruct ws as [|x ws]; [|by destruct (Hq ltac:(done))].
    apply ok_select; [done| |done]. intros Hin. by specialize (Hk Hin).
  - (* the time to live is over *)
    intros [= <-]. unfold Notify.dropped. simpl. case_bool_decide as Hin.
    + assert (Hnw : loop_task ∉ ws) by (intros Hx; by eapply Hd).
      destruct ws as [|x ws]; simpl; split; simpl; try done.
      * rewrite list_elem_of_filter. by intros [? _].
      * by apply NoDup_filter.
      * intros ->. by specialize (Hp eq_refl).
      * intros Hx. destruct Hnw. by right.
      * rewrite elem_of_app, list_elem_of_filter, list_elem_of_singleton. intros [[? _]|Heq]; [done|]; subst x.
        destruct Hnw. by left.
      * intros _. by right.
      * apply NoDup_cons in Hws as [Hx Hws]. apply NoDup_app. split_and!; [done| |].
        -- intros y Hy. rewrite elem_of_app, list_elem_of_filter, list_elem_of_singleton.
           intros [[_ ?]| ->]; [|done]. apply (Hd y); [by right|done].
        -- apply NoDup_app. split_and!; [by apply NoDup_filter| |apply NoDup_singleton].
           intros y. rewrite list_elem_of_filter, list_elem_of_singleton. intros [_ Hy] ->.
           apply (Hd x); [by left|done].
    + destruct (Hw eq_refl) as [Hl|?]; [|done]. destruct (Ha Hl) as [-> _].
      rewrite filter_cons_False, filter_nil by (intros Hx; by apply Hx).
      split; simpl; try done. by intros ?%not_elem_of_nil.
  - (* notified *)
    unfold Notify.polled. simpl. case_bool_decide as Hin; [done|]. intros [= <-]. split; simpl; try done.
    + rewrite list_elem_of_filter. by intros [? _].
    + intros _. by right.
    + apply NoDup_app. split_and!; [done| |by apply NoDup_filter]. intros x Hx.
      rewrite list_elem_of_filter. intros [_ ?]. by eapply Hd.
  - intros [= <-]. apply ok_select; [done| |done]. intros Hin. by specialize (Hk Hin).
Qed.

(** ** Who is queued or woken *)
Lemma present_notify_one x n : present x (Notify.notify_one n) ↔ present x n.
Proof. destruct n as [b [|t ws] wk]; unfold present; simpl; [done|]. set_solver. Qed.
Lemma present_notified x t n :
  present x (Notify.notified t n).2 → present x n ∨ x = t ∧ (Notify.notified t n).1 = false.
Proof. destruct n as [[] ws wk]; unfold present, Notify.notified; simpl; [by left|]. set_solver. Qed.
Lemma present_polled x t n n' : Notify.polled t n = Some n' → present x n' → present x n ∧ x ≠ t.
Proof.
  unfold Notify.polled, present. case_bool_decide as Ht; [done|]. intros [= <-]. simpl.
  rewrite !elem_of_app, list_elem_of_filter. naive_solver.
Qed.
Lemma present_dropped x t n :
  NoDup (Notify.waiters n ++ Notify.woken n) → present x (Notify.dropped t n) → present x n ∧ x ≠ t.
Proof.
  rewrite NoDup_app. intros (_ & Hd & _). unfold Notify.dropped. case_bool_decide as Ht.
  - rewrite present_notify_one. unfold present. simpl. rewrite !elem_of_app, list_elem_of_filter.
    intros [Hx|[? ?]]; [|by auto]. split; [by auto|]. intros ->. by eapply Hd.
  - unfold present. simpl. rewrite !elem_of_app, list_elem_of_filter. naive_solver.
Qed.
Lemma present_select x tick n : present x (notify (select tick n)) → present x n ∨ x = loop_task.
Proof.
  unfold select. destruct tick; [by left|]. pose proof (present_notified x loop_task n) as Hn.
  destruct (Notify.notified loop_task n) as [[] n']; simpl in *; naive_solver.
Qed.
Lemma present_loop_turn x ev r r' :
  refresher_ok r → loop_turn ev r = Some r' → x ≠ loop_task → present x (notify r') → present x (notify r).
Proof.
  intros Hr Ht Hx. unfold loop_turn in Ht. destruct (loop r), ev as [tick| | |reply now tick]; try done.
  - injection Ht as <-. by intros [?|?]%present_select.
  - injection Ht as <-. intros Hp. by apply present_dropped in Hp as [? _]; [|apply (ok_nodup _ Hr)].
  - apply bind_Some in Ht as (n & Hn & [= <-]). intros Hp. by eapply present_polled in Hp as [? _].
  - injection Ht as <-. intros [Hp|?]%present_select; [|done]. revert Hp. unfold present. simpl. set_solver.
Qed.
Lemma present_request x t r :
  present x (notify (request_refresh t r).2) →
  present x (notify r) ∨ x = S t ∧ (request_refresh t r).1 = false.
Proof.
  unfold request_refresh, wait_for_refresh, trigger_refresh.
  pose proof (present_notified x (S t) (Notify.notify_one (notify r))) as Hn. simpl.
  destruct (Notify.notified (S t) _) as [ready n]. simpl in *. intros [Hp|?]%Hn; [|by right].
  left. by apply present_notify_one.
Qed.

(** ** What a waiting request can rely on *)
Lemma queued_fetch r t :
  refresher_ok r → S t ∈ Notify.waiters (notify r) →
  loop r = LoopFetching ∨ loop r = LoopWaiting ∧ loop_task ∈ Notify.woken (notify r).
Proof.
  intros [_ Ha Hw _ Hq _] Hin. destruct Hq as [Hl|Hl]; [by intros Hn; rewrite Hn in Hin; apply not_elem_of_nil in Hin| |by left].
  right. split; [done|]. destruct (Hw Hl) as [Hx|?]; [|done]. destruct (Ha Hx) as [Hn _].
  rewrite Hn, list_elem_of_singleton in Hin. done.
Qed.

(** An idle loop is woken by a request, which then waits for its fetch. *)
Lemma idle_request r t :
  refresher_ok r → loop_task ∈ Notify.waiters (notify r) →
  request_refresh t r =
    (false, mk_refresher (Notify.mk false [S t] (Notify.woken (notify r) ++ [loop_task])) LoopWaiting).
Proof.
  intros [Hp Ha _ _ _ _] Hin. destruct (Ha Hin) as [Hw Hl]. destruct r as [[b ws wk] l]. simpl in *. subst.
  destruct b; [by specialize (Hp eq_refl)|done].
Qed.

(** While the loop is busy and nobody waits, a request consumes its own
    notification and goes on at once. *)
Lemma busy_request r t :
  Notify.waiters (notify r) = [] →
  request_refresh t r = (true, set_notify (Notify.mk false [] (Notify.woken (notify r))) r).
Proof. destruct r as [[b ws wk] l]. simpl. by intros ->. Qed.

(** A validated configuration starts every loop. *)
Lemma spawned_loop p : (AuthProvider.cache_ttl_seconds p ≠ 0)%Z → loop (spawn_refresh_loop p) = LoopStarting.
Proof. intros Hp. unfold spawn_refresh_loop. simpl. by destruct (Z.eqb_spec (AuthProvider.cache_ttl_seconds p) 0). Qed.
