(* ===== verification/Observability.v ===== *)
(** * Observability

    [controlplane/src/observability/]: the metrics registry ([metrics.rs]),
    access log entries and request identifiers ([logs.rs]).

    A metric family is known by its name; the registry's state maps a family
    and its label values to a counter, a gauge or the observations of a
    histogram.  The [prometheus] crate's construction and registration of
    families is a parameter of [MetricsRegistry_new]. *)
From S2P Require Import Prelude RustStr F64.

Definition status_class (status : Z) : string :=
  if ((100 <=? status) && (status <=? 199))%Z then "1xx"
  else if ((200 <=? status) && (status <=? 299))%Z then "2xx"
  else if ((300 <=? status) && (status <=? 399))%Z then "3xx"
  else if ((400 <=? status) && (status <=? 499))%Z then "4xx"
  else "5xx".

(** ** The registry *)
Record Metrics := mk_metrics {
  counters : gmap (string * list string) Z;
  gauges : gmap string Z;
  histograms : gmap (string * list string) (list f64)
}.

Definition http_requests_total : string := "gateway_http_requests_total".
Definition http_request_duration_ms : string := "gateway_http_request_duration_ms".
Definition auth_failures_total : string := "gateway_auth_failures_total".
Definition rate_limit_allowed_total : string := "gateway_rate_limit_allowed_total".
Definition rate_limit_denied_total : string := "gateway_rate_limit_denied_total".
Definition rate_limit_degraded_total : string := "gateway_rate_limit_degraded_total".
Definition upstream_failures_total : string := "gateway_upstream_failures_total".
Definition config_reload_total : string := "gateway_config_reload_total".
Definition inflight_requests : string := "gateway_inflight_requests".
Definition overload_total : string := "gateway_overload_total".
Definition plugin_duration_us : string := "gateway_plugin_duration_us".
Definition plugin_errors_total : string := "gateway_plugin_errors_total".
Definition plugin_chain_duration_us : string := "gateway_plugin_chain_duration_us".
Definition plugin_short_circuits_total : string := "gateway_plugin_short_circuits_total".
Definition xds_connected_envoys : string := "xds_connected_envoys".
Definition xds_acks_total : string := "xds_acks_total".
Definition xds_nacks_total : string := "xds_nacks_total".
Definition xds_snapshot_version : string := "xds_snapshot_version".
Definition xds_push_duration_seconds : string := "xds_push_duration_seconds".

(** The families with their label names, in the order of registration. *)
Definition families : list (string * list string) :=
  [(http_requests_total, ["route"; "method"; "status_class"]);
   (http_request_duration_ms, ["route"]);
   (auth_failures_total, ["route"; "reason"]);
   (rate_limit_allowed_total, ["route"]);
   (rate_limit_denied_total, ["route"]);
   (rate_limit_degraded_total, ["route"]);
   (upstream_failures_total, ["route"; "service"; "reason"]);
   (config_reload_total, ["result"]);
   (inflight_requests, []);
   (overload_total, []);
   (plugin_duration_us, ["plugin"; "route"; "phase"]);
   (plugin_errors_total, ["plugin"; "route"; "error_type"]);
   (plugin_chain_duration_us, ["route"]);
   (plugin_short_circuits_total, ["plugin"; "route"; "status"]);
   (xds_connected_envoys, []);
   (xds_acks_total, []);
   (xds_nacks_total, []);
   (xds_snapshot_version, []);
   (xds_push_duration_seconds, [])].

Definition DURATION_BUCKETS : list f64 :=
  f64_of_int <$> [1; 5; 10; 25; 50; 100; 250; 500; 1000; 5000]%Z.

Definition empty_metrics : Metrics := mk_metrics ∅ ∅ ∅.

(** [MetricsRegistry::new]: construct every family, then register them one by
    one; [construct] and [register] are the crate's. *)
Definition MetricsRegistry_new {E} (construct : string * list string → result E unit)
    (register : list string → string * list string → result E (list string))
    : result E Metrics :=
  _ ← mapM construct families;
  _ ← foldl (λ acc f, reg ← acc; register reg f) (Ok []) families;
  Ok empty_metrics.

Definition inc (family : string) (labels : list string) (m : Metrics) : Metrics :=
  mk_metrics (<[(family, labels) := (default 0 (counters m !! (family, labels)) + 1)%Z]> (counters m))
    (gauges m) (histograms m).
Definition observe (family : string) (labels : list string) (x : f64) (m : Metrics) : Metrics :=
  mk_metrics (counters m) (gauges m)
    (<[(family, labels) := default [] (histograms m !! (family, labels)) ++ [x]]> (histograms m)).
Definition set_gauge (family : string) (v : Z) (m : Metrics) : Metrics :=
  mk_metrics (counters m) (<[family := v]> (gauges m)) (histograms m).
Definition gauge (family : string) (m : Metrics) : Z := default 0%Z (gauges m !! family).
Definition counter (family : string) (labels : list string) (m : Metrics) : Z :=
  default 0%Z (counters m !! (family, labels)).

(** ** Recording *)
Definition record_request (route method : string) (status : Z) (duration_ms : f64) (m : Metrics)
    : Metrics :=
  let class := status_class status in
  observe http_request_duration_ms [route] duration_ms
    (inc http_requests_total [route; method; class] m).
Definition record_auth_failure (route reason : string) : Metrics → Metrics :=
  inc auth_failures_total [route; reason].
Definition record_rate_limit_allowed (route : string) : Metrics → Metrics :=
  inc rate_limit_allowed_total [route].
Definition record_rate_limit_denied (route : string) : Metrics → Metrics :=
  inc rate_limit_denied_total [route].
Definition record_rate_limit_degraded (route : string) : Metrics → Metrics :=
  inc rate_limit_degraded_total [route].
Definition record_upstream_failure (route service reason : string) : Metrics → Metrics :=
  inc upstream_failures_total [route; service; reason].
Definition record_config_reload (result : string) : Metrics → Metrics :=
  inc config_reload_total [result].
Definition inc_inflight (m : Metrics) : Metrics :=
  set_gauge inflight_requests (gauge inflight_requests m + 1)%Z m.
Definition dec_inflight (m : Metrics) : Metrics :=
  set_gauge inflight_requests (gauge inflight_requests m - 1)%Z m.
Definition record_overload : Metrics → Metrics := inc overload_total [].
Definition record_plugin_duration (plugin route phase : string) (duration_us : Z)
    : Metrics → Metrics :=
  observe plugin_duration_us [plugin; route; phase] (f64_of_int duration_us).
Definition record_plugin_error (plugin route error_type : string) : Metrics → Metrics :=
  inc plugin_errors_total [plugin; route; error_type].
Definition record_plugin_chain_duration (route : string) (duration_us : Z) : Metrics → Metrics :=
  observe plugin_chain_duration_us [route] (f64_of_int duration_us).
Definition record_plugin_short_circuit (plugin route : string) (status : Z) : Metrics → Metrics :=
  inc plugin_short_circuits_total [plugin; route; fmt_int status].
Definition set_xds_connected_envoys : Z → Metrics → Metrics := set_gauge xds_connected_envoys.
Definition record_xds_ack : Metrics → Metrics := inc xds_acks_total [].
Definition record_xds_nack : Metrics → Metrics := inc xds_nacks_total [].
Definition set_xds_snapshot_version : Z → Metrics → Metrics := set_gauge xds_snapshot_version.
Definition record_xds_push (duration_seconds : f64) : Metrics → Metrics :=
  observe xds_push_duration_seconds [] duration_seconds.

(** ** Access log *)
Module AccessLogEntry.
Record AccessLogEntry := mk {
  ts : string;
  request_id : string;
  remote_addr : string;
  host : string;
  method : string;
  path : string;
  route : string;
  status : Z;
  duration_ms : Z;
  bytes_in : Z;
  bytes_out : Z;
  auth_subject : option string;
  rate_limit_mode : string;
  upstream_service : string;
  upstream_addr : string
}.

(** The derived [Serialize]: the fields in the order of their declaration. *)
Inductive field_value := FStr (s : string) | FNum (n : Z) | FNull.
Definition serialize (e : AccessLogEntry) : list (string * field_value) :=
  [("ts", FStr (ts e)); ("request_id", FStr (request_id e)); ("remote_addr", FStr (remote_addr e));
   ("host", FStr (host e)); ("method", FStr (method e)); ("path", FStr (path e)); ("route", FStr (route e));
   ("status", FNum (status e)); ("duration_ms", FNum (duration_ms e)); ("bytes_in", FNum (bytes_in e));
   ("bytes_out", FNum (bytes_out e)); ("auth_subject", from_option FStr FNull (auth_subject e));
   ("rate_limit_mode", FStr (rate_limit_mode e)); ("upstream_service", FStr (upstream_service e));
   ("upstream_addr", FStr (upstream_addr e))].
(** [serde_json::to_string] is the library's. *)
Definition to_json {E} (to_string : list (string * field_value) → result E string) (e : AccessLogEntry)
    : result E string := to_string (serialize e).
(** What [emit] does: a line on the standard output, or an error event. *)
Inductive emitted (E : Type) := Printed (line : string) | Traced (message : string) (error : E).
Arguments Printed {E}.
Arguments Traced {E}.
Definition emit {E} (to_string : list (string * field_value) → result E string) (e : AccessLogEntry)
    : emitted E :=
  match to_json to_string e with
  | Ok json => Printed json
  | Err error => Traced "failed to serialize access log entry" error
  end.
End AccessLogEntry.
Export AccessLogEntry(AccessLogEntry).

(** [now_rfc3339]: [format] is [chrono]'s formatting of a moment in UTC. *)
Definition now_rfc3339 {T} (format : string → T → string) (now : T) : string :=
  format "%Y-%m-%dT%H:%M:%S%.3fZ" now.

(** ** Request identifiers

    [count] is the value [fetch_add] returns (a [u64]), [nanos] the
    sub-second nanoseconds of the clock. *)
Definition request_id_word (count nanos : Z) : Z :=
  as_u32 (Z.lxor (count *u64 2654435761)%mach nanos).
Definition request_id_of (count nanos : Z) : string := fmt_hex8 (request_id_word count nanos).

(** [generate_request_id] on the global counter. *)
Definition generate_request_id (nanos : Z) (counter : Z) : string * Z :=
  (request_id_of counter nanos, (counter +u64 1)%mach).

(** ** Reading a request count back: all classes of a route and method. *)
Definition requests_of (route method : string) (m : Metrics) : Z :=
  counter http_requests_total [route; method; "1xx"] m +
  counter http_requests_total [route; method; "2xx"] m +
  counter http_requests_total [route; method; "3xx"] m +
  counter http_requests_total [route; method; "4xx"] m +
  counter http_requests_total [route; method; "5xx"] m.

(** ** Lemmas *)
Lemma counter_inc_eq f l m : counter f l (inc f l m) = (counter f l m + 1)%Z.
Proof. unfold counter, inc. simpl. by rewrite lookup_insert_eq. Qed.

Lemma counter_inc_ne f l f' l' m : (f, l) ≠ (f', l') → counter f' l' (inc f l m) = counter f' l' m.
Proof. intros H. unfold counter, inc. simpl. by rewrite lookup_insert_ne. Qed.

Lemma counter_observe f l x f' l' m : counter f' l' (observe f l x m) = counter f' l' m.
Proof. done. Qed.

Lemma counter_set_gauge f v f' l' m : counter f' l' (set_gauge f v m) = counter f' l' m.
Proof. done. Qed.

Lemma gauge_inc f l g m : gauge g (inc f l m) = gauge g m.
Proof. done. Qed.

Lemma gauge_observe f l x g m : gauge g (observe f l x m) = gauge g m.
Proof. done. Qed.

Lemma gauge_set_eq g v m : gauge g (set_gauge g v m) = v.
Proof. unfold gauge, set_gauge. simpl. by rewrite lookup_insert_eq. Qed.

Lemma gauge_set_ne g g' v m : g ≠ g' → gauge g' (set_gauge g v m) = gauge g' m.
Proof. intros. unfold gauge, set_gauge. simpl. by rewrite lookup_insert_ne. Qed.

(** A line of the access log says everything the entry says. *)
Lemma serialize_inj e e' : AccessLogEntry.serialize e = AccessLogEntry.serialize e' → e = e'.
Proof.
  destruct e, e'. unfold AccessLogEntry.serialize. simpl. intros [=]. subst. f_equal.
  by repeat match goal with o : option string |- _ => destruct o end; simplify_eq/=.
Qed.

#[export] Hint Rewrite counter_observe counter_set_gauge gauge_inc gauge_observe gauge_set_eq : gw.

(** *** The hexadecimal form determines the word *)
Lemma hex_digit_inj a b :
  (0 ≤ a < 16)%Z → (0 ≤ b < 16)%Z → hex_digit a = hex_digit b → a = b.
Proof.
  intros Ha Hb Heq.
  assert (forallb (λ x, forallb (λ y, implb (bool_decide (hex_digit (Z.of_nat x) = hex_digit (Z.of_nat y)))
    (Nat.eqb x y)) (seq 0 16)) (seq 0 16) = true) as Hall by (vm_compute; reflexivity).
  rewrite forallb_forall in Hall. specialize (Hall (Z.to_nat a)).
  rewrite forallb_forall in Hall. specialize (Hall ltac:(apply in_seq; lia) (Z.to_nat b)).
  specialize (Hall ltac:(apply in_seq; lia)). rewrite !Z2Nat.id in Hall by lia.
  rewrite bool_decide_eq_true_2 in Hall by done. simpl in Hall. apply Nat.eqb_eq in Hall. lia.
Qed.

Lemma fmt_hex_go_inj k : ∀ n m s t,
  String.length s = String.length t → fmt_hex_go k n s = fmt_hex_go k m t →
  (n mod 2 ^ (4 * Z.of_nat k) = m mod 2 ^ (4 * Z.of_nat k))%Z ∧ s = t.
Proof.
  induction k as [|k IH]; intros n m s t Hlen Heq; cbn [fmt_hex_go] in Heq.
  { by rewrite Z.mul_0_r, Z.pow_0_r, !Z.mod_1_r. }
  apply IH in Heq as [Hmod Heq]; [|by simpl; rewrite Hlen]. injection Heq as Hd ->. split; [|done].
  change 15%Z with (Z.ones 4) in Hd. rewrite !Z.land_ones in Hd by lia.
  apply hex_digit_inj in Hd; [|apply Z.mod_pos_bound; lia..].
  rewrite !Z.shiftr_div_pow2 in Hmod by lia.
  replace (4 * Z.of_nat (S k))%Z with (4 + 4 * Z.of_nat k)%Z by lia.
  rewrite Z.pow_add_r, !Z.rem_mul_r by lia. by rewrite Hd, Hmod.
Qed.

Lemma fmt_hex8_inj n m :
  (0 ≤ n < 2 ^ 32)%Z → (0 ≤ m < 2 ^ 32)%Z → fmt_hex8 n = fmt_hex8 m → n = m.
Proof.
  intros Hn Hm Heq. apply fmt_hex_go_inj in Heq as [Hmod _]; [|done].
  change (4 * Z.of_nat 8)%Z with 32%Z in Hmod. by rewrite !Z.mod_small in Hmod by lia.
Qed.

(** Multiplication by the odd constant is injective modulo [2^32]. *)
Lemma mul_odd_inj a b :
  ((a * 2654435761) mod 2 ^ 32 = (b * 2654435761) mod 2 ^ 32 → a mod 2 ^ 32 = b mod 2 ^ 32)%Z.
Proof.
  intros H. (* 244002641 is the inverse of 2654435761 modulo 2^32 *)
  assert (∀ x, (x mod 2 ^ 32 = ((x * 2654435761) mod 2 ^ 32 * 244002641) mod 2 ^ 32)%Z) as Hinv.
  { intros x. rewrite Z.mul_mod_idemp_l by lia. rewrite <-Z.mul_assoc.
    change (2654435761 * 244002641)%Z with (1 + 150801925 * 2 ^ 32)%Z.
    rewrite Z.mul_add_distr_l, Z.mul_1_r, Z.mul_assoc, Z.mod_add by lia. done. }
  rewrite (Hinv a), (Hinv b). by rewrite H.
Qed.

Lemma request_id_word_range c n : (0 ≤ request_id_word c n < 2 ^ 32)%Z.
Proof. unfold request_id_word, as_u32. by apply Z.mod_pos_bound. Qed.

Lemma request_id_word_mod c n :
  request_id_word c n = Z.lxor ((c * 2654435761) mod 2 ^ 32) (n mod 2 ^ 32)%Z.
Proof.
  unfold request_id_word, as_u32, wrapping_mul, as_u64.
  change 4294967296%Z with (2 ^ 32)%Z. change 18446744073709551616%Z with (2 ^ 64)%Z.
  rewrite <-!Z.land_ones by lia. apply Z.bits_inj'. intros i Hi.
  rewrite !Z.land_spec, !Z.lxor_spec, !Z.land_spec. rewrite !Z.testbit_ones_nonneg by lia.
  destruct (Z.ltb_spec i 32), (Z.ltb_spec i 64); try lia;
    by destruct (Z.testbit (c * 2654435761) i), (Z.testbit n i).
Qed.

(** ** Properties *)

(** Request identifiers are eight lower-case hexadecimal digits, and for
    one clock reading two of them agree exactly when the counter values differ
    by a multiple of [2^32]: within any window of [2^32] requests the counter
    alone never repeats an identifier. *)
Theorem request_id_injective (c1 c2 nanos : Z) :
  String.length (request_id_of c1 nanos) = 8%nat ∧
  (request_id_of c1 nanos = request_id_of c2 nanos ↔ (c1 mod 2 ^ 32 = c2 mod 2 ^ 32)%Z).
Proof.
  split; [apply fmt_hex_go_length|]. split.
  - unfold request_id_of. intros Heq. apply fmt_hex8_inj in Heq; [|apply request_id_word_range..].
    rewrite !request_id_word_mod in Heq. apply (f_equal (λ z, Z.lxor z (nanos mod 2 ^ 32)%Z)) in Heq.
    rewrite !Z.lxor_assoc, Z.lxor_nilpotent, !Z.lxor_0_r in Heq. by apply mul_odd_inj.
  - intros Heq. unfold request_id_of. f_equal. rewrite !request_id_word_mod.
    by rewrite <-(Z.mul_mod_idemp_l c1), <-(Z.mul_mod_idemp_l c2), Heq by lia.
Qed.

(** Creating the registry succeeds: the nineteen families have pairwise
    distinct names, so with a library that constructs well-formed families and
    refuses only a name that is already registered, [MetricsRegistry::new]
    returns the empty registry. *)
Theorem metrics_new_succeeds {E} (construct : string * list string → result E unit)
    (register : list string → string * list string → result E (list string)) :
  (∀ f, f ∈ families → construct f = Ok tt) →
  (∀ reg f, f.1 ∉ reg → register reg f = Ok (reg ++ [f.1])) →
  MetricsRegistry_new construct register = Ok empty_metrics.
Proof.
  intros Hc Hr. unfold MetricsRegistry_new.
  destruct (mapM_Ok_all construct families) as [k ->]; [intros f Hf; exists tt; by apply Hc|].
  cbn [mbind result_bind].
  assert (NoDup (families.*1)) as Hnd by (apply (bool_decide_unpack _); vm_compute; exact I).
  assert (∀ fs reg, NoDup (reg ++ fs.*1) →
    foldl (λ acc f, r ← acc; register r f) (Ok reg) fs = Ok (reg ++ fs.*1)) as Hfold.
  { induction fs as [|f fs IH]; intros reg Hn; [by rewrite app_nil_r|].
    cbn [foldl mbind result_bind]. rewrite Hr.
    - rewrite IH; [by rewrite fmap_cons, <-(assoc_L (++))|]. by rewrite <-(assoc_L (++)).
    - rewrite fmap_cons in Hn. apply NoDup_app in Hn as (_ & Hd & _). intros Hin.
      by apply (Hd _ Hin), elem_of_cons; left. }
  by rewrite (Hfold families []).
Qed.

Lemma metrics_new_succeeds_witness :
  MetricsRegistry_new (λ _, Ok tt)
    (λ reg f, if bool_decide (f.1 ∈ reg) then Err "AlreadyReg" else Ok (reg ++ [f.1])) =
  Ok empty_metrics.
Proof.
  apply (metrics_new_succeeds (λ _, Ok tt)
    (λ reg f, if bool_decide (f.1 ∈ reg) then Err "AlreadyReg" else Ok (reg ++ [f.1]))).
  - reflexivity.
  - intros reg f Hf. by rewrite bool_decide_eq_false_2.
Defined.
