(* ===== verification/Plugins.v ===== *)
(** * Plugins

    [controlplane/src/plugins/]: discovery and binding of plugins
    ([registry.rs]), the engine and its generations ([types.rs], [mod.rs]), the
    thread-local virtual machine ([pool.rs]), the gateway API a plugin sees
    ([sdk.rs]) and the execution of a chain ([executor.rs]).

    Plugins are Lua code that is not part of the repository: a call of a plugin
    function is a [script], the tree of the gateway API calls it makes before it
    returns or raises (the instruction limit makes every call finite).  The
    virtual machine itself is the interface [LuaVm]. *)
From S2P Require Import Prelude RustStr F64 Yaml ConfigTypes.

(** ** Data *)

(** [mlua::Error]: a runtime error, an error raised by a Rust callback on its
    way through Lua, anything else. *)
Inductive LuaError :=
  | LRuntimeError (message : string)
  | LCallbackError (cause : LuaError)
  | LOtherError (message : string).

Inductive PluginErrorType := PRuntime | PMemory | PTimeout.

Definition PluginErrorType_as_str (t : PluginErrorType) : string :=
  match t with PRuntime => "runtime" | PMemory => "memory" | PTimeout => "timeout" end.

Inductive PluginError :=
  | MissingDirectory (d : string)
  | MissingPlugin (name : string)
  | SchemaValidation (name reason : string)
  | Load (name reason : string)
  | Runtime (name reason : string).

Definition PluginError_to_string (e : PluginError) : string :=
  match e with
  | MissingDirectory d => "plugin directory '" +:+ d +:+ "' does not exist"
  | MissingPlugin n => "plugin '" +:+ n +:+ "' is configured but no Lua file was found"
  | SchemaValidation n r => "plugin '" +:+ n +:+ "' failed schema validation: " +:+ r
  | Load n r => "plugin '" +:+ n +:+ "' failed to load: " +:+ r
  | Runtime n r => "plugin '" +:+ n +:+ "' runtime error: " +:+ r
  end.

Module PluginRequest.
Record PluginRequest := mk {
  route_name : string;
  host : string;
  method : string;
  path : string;
  headers : list (string * string)
}.
End PluginRequest.
Export PluginRequest(PluginRequest).

Module PluginExit.
Record PluginExit := mk { status : Z; body : option string; plugin_name : string }.
End PluginExit.
Export PluginExit(PluginExit).

Inductive PluginAccessResult :=
  | Continue (upstream_headers response_headers : gmap string string) (chain_duration_us : Z)
  | ShortCircuit (plugin_name : string) (status : Z) (body : option string)
      (headers : gmap string string) (chain_duration_us : Z)
  | PError (plugin_name message : string) (error_type : PluginErrorType) (chain_duration_us : Z).

(** What the headers set by plugins so far are, and the exit requested. *)
Module RuntimeState.
Record RuntimeState := mk {
  upstream_headers : gmap string string;
  response_headers : gmap string string;
  short_circuit : option PluginExit
}.
Definition new : RuntimeState := mk ∅ ∅ None.
End RuntimeState.
Export RuntimeState(RuntimeState).

Definition EXIT_SENTINEL : string := "__gateway_plugin_exit__".
Definition RESERVED_HEADER_PREFIXES : list string := ["x-auth-"; "x-ratelimit-"; "x-envoy-"].

Definition is_reserved (lower : string) : bool :=
  existsb (λ prefix, starts_with prefix lower) RESERVED_HEADER_PREFIXES.

Definition is_exit_error (e : LuaError) : bool :=
  match e with LRuntimeError message => bool_decide (message = EXIT_SENTINEL) | _ => false end.

(** ** Scripts *)

(** Questions a script can ask through [gateway]. *)
Inductive query :=
  | QHeader (name : string) | QMethod | QPath | QHost
  | QRouteName | QPluginName | QPluginVersion | QResponseStatus.
Inductive answer := AStr (s : string) | AInt (n : Z) | ANil.

Inductive script (Vm : Type) :=
  | Return (vm : Vm)
  | Raise (vm : Vm) (e : LuaError)
  | Query (q : query) (k : answer → script Vm)
  | SetResponseHeader (name value : string) (k : script Vm)
  | SetServiceHeader (name value : string) (k : result LuaError unit → script Vm)
  | Exit (status : Z) (body : option string) (k : LuaError → script Vm)
  | LogMessage (level message : string) (k : result LuaError unit → script Vm).
Arguments Return {Vm}.
Arguments Raise {Vm}.
Arguments Query {Vm}.
Arguments SetResponseHeader {Vm}.
Arguments SetServiceHeader {Vm}.
Arguments Exit {Vm}.
Arguments LogMessage {Vm}.

(** The virtual machine: its memory [Vm], tables, and the operations the code
    performs on it.  [surface e] is the error a call returns when a callback
    failed with [e] and the script did not catch it. *)
Class LuaVm := {
  Vm : Type;
  LuaTable : Type;
  JsonValue : Type;
  lua_error_to_string : LuaError → string;
  surface : LuaError → LuaError;
  (** [create_sandboxed_vm] *)
  vm_create : PluginLimits → result LuaError Vm;
  vm_reset_limits : Vm → PluginLimits → result LuaError Vm;
  vm_create_table : Vm → result LuaError Vm;
  vm_install : Vm → result LuaError Vm;
  vm_eval : Vm → string → string → result LuaError LuaTable * Vm;
  (** [plugin.get("new")] and the call of the constructor, [None] without one *)
  vm_construct : Vm → LuaTable → JsonValue → option (result LuaError LuaTable * Vm);
  vm_store : Vm → LuaTable → result LuaError Vm;
  (** [registry_value], which gives the stored table back unless it fails *)
  vm_registry_value : Vm → LuaTable → result LuaError unit;
  (** [instance.get::<Function>(phase)] *)
  vm_phase : Vm → LuaTable → string → option (script Vm)
}.

Section plugins.
Context `{V : LuaVm}.

Record PluginBinding := mk_binding {
  id : string;
  name : string;
  priority : Z;
  version : string;
  fail_open : bool;
  source : string;
  config : JsonValue
}.

Record PluginRuntime := mk_runtime {
  generation : Z;
  limits : PluginLimits;
  chains : gmap string (list PluginBinding)
}.

(** ** The gateway API *)
Definition answer_query (req : PluginRequest) (b : PluginBinding) (response_status : option Z)
    (q : query) : answer :=
  match q with
  | QHeader name =>
      match iter_find (λ kv, eq_ignore_ascii_case kv.1 name) (PluginRequest.headers req) with
      | Some (_, value) => AStr value
      | None => ANil
      end
  | QMethod => AStr (PluginRequest.method req)
  | QPath => AStr (PluginRequest.path req)
  | QHost => AStr (PluginRequest.host req)
  | QRouteName => AStr (PluginRequest.route_name req)
  | QPluginName => AStr (name b)
  | QPluginVersion => AStr (version b)
  | QResponseStatus => match response_status with Some s => AInt s | None => ANil end
  end.

(** [gateway.response.set_header] *)
Definition response_set_header (name value : string) (s : RuntimeState) : RuntimeState :=
  RuntimeState.mk (RuntimeState.upstream_headers s)
    (<[to_ascii_lowercase name := value]> (RuntimeState.response_headers s))
    (RuntimeState.short_circuit s).

(** [gateway.service.request.set_header] *)
Definition service_set_header (name value : string) (s : RuntimeState)
    : result LuaError unit * RuntimeState :=
  let lower := to_ascii_lowercase name in
  if is_reserved lower then
    (Err (LRuntimeError ("header '" +:+ name +:+ "' is reserved and cannot be set by plugins")), s)
  else
    (Ok tt, RuntimeState.mk (<[lower := value]> (RuntimeState.upstream_headers s))
              (RuntimeState.response_headers s) (RuntimeState.short_circuit s)).

(** [gateway.response.exit] *)
Definition response_exit (plugin_name : string) (status : Z) (body : option string)
    (s : RuntimeState) : LuaError * RuntimeState :=
  (LRuntimeError EXIT_SENTINEL,
   RuntimeState.mk (RuntimeState.upstream_headers s) (RuntimeState.response_headers s)
     (Some (PluginExit.mk status body plugin_name))).

(** [gateway.log.<level>(message)]: there are four such functions, and calling what
    is not there is an error of the script (whose text Lua extends). *)
Definition log_levels : list string := ["debug"; "info"; "warn"; "error"].
Definition nil_call : LuaError := LRuntimeError "attempt to call a nil value".
Definition log_call (level : string) : result LuaError unit :=
  if bool_decide (level ∈ log_levels) then Ok tt else Err nil_call.

(** Running a script against the API. *)
Fixpoint run_script (req : PluginRequest) (b : PluginBinding) (response_status : option Z)
    (sc : script Vm) (s : RuntimeState) : result LuaError unit * RuntimeState * Vm :=
  match sc with
  | Return vm => (Ok tt, s, vm)
  | Raise vm e => (Err e, s, vm)
  | Query q k => run_script req b response_status (k (answer_query req b response_status q)) s
  | SetResponseHeader name value k =>
      run_script req b response_status k (response_set_header name value s)
  | SetServiceHeader name value k =>
      let '(r, s) := service_set_header name value s in run_script req b response_status (k r) s
  | Exit status body k =>
      let '(e, s) := response_exit (name b) status body s in run_script req b response_status (k e) s
  | LogMessage level _ k => run_script req b response_status (k (log_call level)) s
  end.

(** ** The thread-local machine *)
Record ThreadLocalVm := mk_tl {
  lua : Vm;
  vm_generation : Z;
  instances : gmap string LuaTable
}.

Definition set_lua (vm : Vm) (t : ThreadLocalVm) : ThreadLocalVm :=
  mk_tl vm (vm_generation t) (instances t).

(** [ThreadLocalVm::new], the initial contents of a thread's slot. *)
Definition ThreadLocalVm_new : result PluginError ThreadLocalVm :=
  vm ← map_err (λ e, Load "sandbox" (lua_error_to_string e)) (vm_create PluginLimits.PluginLimits_default);
  Ok (mk_tl vm 0 ∅).

Definition registry_key (binding_id : string) (t : ThreadLocalVm) : option LuaTable :=
  instances t !! binding_id.
Definition insert_registry_key (binding_id : string) (key : LuaTable) (t : ThreadLocalVm)
    : ThreadLocalVm :=
  mk_tl (lua t) (vm_generation t) (<[binding_id := key]> (instances t)).

Definition prepare (gen : Z) (lim : PluginLimits) (t : ThreadLocalVm)
    : result PluginError unit * ThreadLocalVm :=
  let t := if bool_decide (vm_generation t ≠ gen) then mk_tl (lua t) gen ∅ else t in
  match vm_reset_limits (lua t) lim with
  | Ok vm => (Ok tt, set_lua vm t)
  | Err e => (Err (Load "sandbox" (lua_error_to_string e)), t)
  end.

(** [with_thread_local_vm]; the slot holds the error of a machine that could
    not be created. *)
Definition with_thread_local_vm {R} (gen : Z) (lim : PluginLimits)
    (f : ThreadLocalVm → result PluginError R * ThreadLocalVm)
    (slot : result PluginError ThreadLocalVm)
    : result PluginError R * result PluginError ThreadLocalVm :=
  match slot with
  | Err err => (Err (Load "sandbox" (PluginError_to_string err)), slot)
  | Ok t =>
      match prepare gen lim t with
      | (Err e, t) => (Err e, Ok t)
      | (Ok _, t) => let '(r, t) := f t in (r, Ok t)
      end
  end.

(** ** Execution *)
Definition classify_error (e : PluginError) : PluginErrorType :=
  match e with
  | Runtime _ reason => if str_contains "memory" (to_ascii_lowercase reason) then PMemory else PRuntime
  | _ => PRuntime
  end.

Definition plugin_instance (b : PluginBinding) (t : ThreadLocalVm)
    : result PluginError LuaTable * ThreadLocalVm :=
  let load_err e := Load (name b) (lua_error_to_string e) in
  match registry_key (id b) t with
  | Some inst => (map_err load_err ((λ _, inst) <$> vm_registry_value (lua t) inst), t)
  | None =>
      let '(plugin, vm) := vm_eval (lua t) (source b) (name b) in
      match plugin with
      | Err e => (Err (load_err e), set_lua vm t)
      | Ok plugin =>
          let '(inst, vm) := default (Ok plugin, vm) (vm_construct vm plugin (config b)) in
          match inst with
          | Err e => (Err (load_err e), set_lua vm t)
          | Ok inst =>
              match vm_store vm inst with
              | Err e => (Err (load_err e), set_lua vm t)
              | Ok vm => (Ok inst, insert_registry_key (id b) inst (set_lua vm t))
              end
          end
      end
  end.

(** [run_phase] returns the requested short-circuit, if any. *)
Definition run_phase (b : PluginBinding) (req : PluginRequest) (phase : string)
    (response_status : option Z) (t : ThreadLocalVm) (s : RuntimeState)
    : result PluginError (option PluginExit) * ThreadLocalVm * RuntimeState :=
  let runtime_err e := Runtime (name b) (lua_error_to_string e) in
  match plugin_instance b t with
  | (Err e, t) => (Err e, t, s)
  | (Ok instance, t) =>
      match vm_install (lua t) with
      | Err e => (Err (runtime_err e), t, s)
      | Ok vm =>
          let t := set_lua vm t in
          match vm_phase (lua t) instance phase with
          | None => (Ok None, t, s)
          | Some sc =>
              let '(call_result, s, vm) := run_script req b response_status sc s in
              let t := set_lua vm t in
              match call_result with
              | Ok _ => (Ok (RuntimeState.short_circuit s), t, s)
              | Err e =>
                  if is_exit_error e then (Ok (RuntimeState.short_circuit s), t, s)
                  else if fail_open b then (Ok None, t, s)
                  else (Err (runtime_err e), t, s)
              end
          end
      end
  end.

(** The loop over the bindings; [clock i] is the elapsed time in microseconds
    at the [i]-th reading of the clock. *)
Fixpoint access_loop (lim : PluginLimits) (req : PluginRequest) (clock : nat → Z) (i : nat)
    (bs : list PluginBinding) (t : ThreadLocalVm) (s : RuntimeState)
    : PluginAccessResult * ThreadLocalVm :=
  match bs with
  | [] => (Continue (RuntimeState.upstream_headers s) (RuntimeState.response_headers s) (clock i), t)
  | b :: bs =>
      if (PluginLimits.chain_timeout_ms lim <? clock i / 1000)%Z then
        (PError (name b) ("plugin chain exceeded " +:+ fmt_int (PluginLimits.chain_timeout_ms lim)
                          +:+ " ms") PTimeout (clock (S i)), t)
      else
        match run_phase b req "access" None t s with
        | (Err e, t, _) => (PError (name b) (PluginError_to_string e) (classify_error e) (clock (S i)), t)
        | (Ok (Some ex), t, s) =>
            (ShortCircuit (PluginExit.plugin_name ex) (PluginExit.status ex) (PluginExit.body ex)
               (RuntimeState.response_headers s) (clock (S i)), t)
        | (Ok None, t, s) => access_loop lim req clock (S i) bs t s
        end
  end.

Definition with_ctx {R} (f : ThreadLocalVm → result PluginError R * ThreadLocalVm)
    (t : ThreadLocalVm) : result PluginError R * ThreadLocalVm :=
  match vm_create_table (lua t) with
  | Err e => (Err (Runtime "ctx" (lua_error_to_string e)), t)
  | Ok vm => f (set_lua vm t)
  end.

Definition execute_access (clock : nat → Z) (rt : PluginRuntime) (req : PluginRequest)
    (slot : result PluginError ThreadLocalVm)
    : result PluginError PluginAccessResult * result PluginError ThreadLocalVm :=
  match chains rt !! PluginRequest.route_name req with
  | None => (Ok (Continue ∅ ∅ 0), slot)
  | Some bs =>
      with_thread_local_vm (generation rt) (limits rt)
        (with_ctx (λ t, let '(r, t) := access_loop (limits rt) req clock 0 bs t RuntimeState.new in
                        (Ok r, t))) slot
  end.

Fixpoint log_loop (req : PluginRequest) (response_status : Z) (bs : list PluginBinding)
    (t : ThreadLocalVm) (s : RuntimeState) : ThreadLocalVm :=
  match bs with
  | [] => t
  | b :: bs =>
      let '(_, t, s) := run_phase b req "log" (Some response_status) t s in
      log_loop req response_status bs t s
  end.

Definition execute_log (rt : PluginRuntime) (req : PluginRequest) (response_status : Z)
    (slot : result PluginError ThreadLocalVm)
    : result PluginError unit * result PluginError ThreadLocalVm :=
  match chains rt !! PluginRequest.route_name req with
  | None => (Ok tt, slot)
  | Some bs =>
      with_thread_local_vm (generation rt) (limits rt)
        (with_ctx (λ t, (Ok tt, log_loop req response_status (reverse bs) t RuntimeState.new))) slot
  end.

(** ** Discovery and binding *)
Record PluginMeta := mk_meta {
  meta_name : string;
  meta_priority : Z;
  meta_version : string;
  meta_source : string;
  meta_schema : option JsonValue
}.

(** A directory entry: its path, extension and stem when they are UTF-8, and
    the outcome of reading it. *)
Record DirEntry := mk_entry {
  path_display : string;
  extension : option string;
  file_stem : option string;
  contents : result string string
}.

(** What evaluating a plugin file in a fresh sandbox gives. *)
Record LoadedPlugin := mk_loaded {
  VERSION : result string string;
  PRIORITY : result string Z;
  SCHEMA : option JsonValue
}.

Definition extract_meta (load : string → string → result string LoadedPlugin)
    (plugin_name src : string) : result PluginError PluginMeta :=
  plugin ← map_err (Load plugin_name) (load plugin_name src);
  ver ← map_err (λ e, Load plugin_name ("missing VERSION: " +:+ e)) (VERSION plugin);
  prio ← map_err (λ e, Load plugin_name ("missing PRIORITY: " +:+ e)) (PRIORITY plugin);
  Ok (mk_meta plugin_name prio ver src (SCHEMA plugin)).

Definition discover_entry (load : string → string → result string LoadedPlugin) (dir : string)
    (entry : result string DirEntry) (plugins : gmap string PluginMeta)
    : result PluginError (gmap string PluginMeta) :=
  e ← map_err (Load dir) entry;
  if bool_decide (extension e ≠ Some "lua") then Ok plugins
  else
    src ← map_err (Load (path_display e)) (contents e);
    stem ← ok_or (Load (path_display e) "invalid UTF-8 file name") (file_stem e);
    meta ← extract_meta load stem src;
    Ok (<[stem := meta]> plugins).

Definition discover_plugins (load : string → string → result string LoadedPlugin) (dir : string)
    (read_dir : result string (list (result string DirEntry)))
    : result PluginError (gmap string PluginMeta) :=
  entries ← map_err (Load dir) read_dir;
  foldl (λ acc entry, plugins ← acc; discover_entry load dir entry plugins) (Ok ∅) entries.
End plugins.
Arguments PluginBinding {_}.
Arguments PluginRuntime {_}.
Arguments ThreadLocalVm {_}.
Arguments PluginMeta {_}.
Arguments LoadedPlugin {_}.

(** ** Building the runtime *)
Section build.
Context `{V : LuaVm} `{Y : YamlLib}.
(** [serde_json::to_value(&config)], with [Null] on failure, and the schema
    library's verdict. *)
Context (to_json : Value → JsonValue) (schema_check : JsonValue → JsonValue → result string unit).

Definition validate_schema (meta : PluginMeta) (inst : PluginInstance) : result PluginError unit :=
  match meta_schema meta with
  | None => Ok tt
  | Some schema =>
      map_err (SchemaValidation (meta_name meta)) (schema_check schema (to_json (PluginInstance.config inst)))
  end.

Definition make_binding (route_name : string) (meta : PluginMeta) (inst : PluginInstance)
    : PluginBinding :=
  mk_binding (route_name +:+ ":" +:+ PluginInstance.name inst) (meta_name meta) (meta_priority meta)
    (meta_version meta) (bool_decide (PluginInstance.fail_mode inst = "open")) (meta_source meta)
    (to_json (PluginInstance.config inst)).

Definition bind_instance (route_name : string) (registry : gmap string PluginMeta)
    (inst : PluginInstance) : result PluginError PluginBinding :=
  meta ← ok_or (MissingPlugin (PluginInstance.name inst)) (registry !! PluginInstance.name inst);
  _ ← validate_schema meta inst;
  Ok (make_binding route_name meta inst).

Definition push_bindings (bindings : list PluginBinding) (route_name : string)
    (configured : list PluginInstance) (registry : gmap string PluginMeta)
    : result PluginError (list PluginBinding) :=
  bs ← mapM (bind_instance route_name registry) (filter (λ p, PluginInstance.enabled p = true) configured);
  Ok (bindings ++ bs).

Definition binding_cmp (l r : PluginBinding) : comparison :=
  match (priority l ?= priority r)%Z with
  | Eq => str_cmp (name l) (name r)
  | c => c
  end.

Definition route_chain (cfg : GatewayConfig) (registry : gmap string PluginMeta) (route : RouteConfig)
    : result PluginError (list PluginBinding) :=
  bindings ← push_bindings [] (RouteConfig.name route) (PluginsConfig.global (GatewayConfig.plugins cfg))
               registry;
  bindings ← push_bindings bindings (RouteConfig.name route) (RouteConfig.plugins route) registry;
  Ok (stable_sort binding_cmp bindings).

(** [dir_exists] and [read_dir] are the file system's answers. *)
Definition build_runtime (dir_exists : bool) (load : string → string → result string LoadedPlugin)
    (read_dir : result string (list (result string DirEntry))) (cfg : GatewayConfig) (gen : Z)
    : result PluginError PluginRuntime :=
  let pc := GatewayConfig.plugins cfg in
  if negb (PluginsConfig.enabled pc) then Ok (mk_runtime gen (PluginsConfig.limits pc) ∅)
  else if negb dir_exists then Err (MissingDirectory (PluginsConfig.directory pc))
  else
    registry ← discover_plugins load (PluginsConfig.directory pc) read_dir;
    chains ← foldl (λ acc route,
      chains ← acc; bs ← route_chain cfg registry route;
      Ok (<[RouteConfig.name route := bs]> chains)) (Ok ∅) (GatewayConfig.routes cfg);
    Ok (mk_runtime gen (PluginsConfig.limits pc) chains).

(** ** The engine *)
Record PluginEngine := mk_engine {
  runtime : PluginRuntime;
  next_generation : Z
}.

Definition PluginEngine_new (rt : PluginRuntime) : PluginEngine :=
  mk_engine rt (generation rt +u64 1)%mach.

Definition engine_from_config dir_exists load read_dir (cfg : GatewayConfig)
    : result PluginError PluginEngine :=
  rt ← build_runtime dir_exists load read_dir cfg 1; Ok (PluginEngine_new rt).

(** [reload_from_config]: the generation is taken even when the build fails. *)
Definition reload_from_config dir_exists load read_dir (cfg : GatewayConfig) (e : PluginEngine)
    : result PluginError unit * PluginEngine :=
  let gen := next_generation e in
  let e := mk_engine (runtime e) (gen +u64 1)%mach in
  match build_runtime dir_exists load read_dir cfg gen with
  | Ok rt => (Ok tt, mk_engine rt (next_generation e))
  | Err err => (Err err, e)
  end.
End build.
Arguments PluginEngine {_}.
