(* ===== verification/PluginsSpec.v ===== *)
(** * Plugins: properties *)
From S2P Require Import Prelude RustStr F64 Yaml ConfigTypes Samples Plugins.

(** ** Order of a chain *)
Global Instance binding_cmp_order `{V : LuaVm} : CmpOrder binding_cmp.
Proof.
  split.
  - intros x y z. unfold binding_cmp.
    destruct (Z.compare_spec (priority x) (priority y)), (Z.compare_spec (priority y) (priority z)),
      (Z.compare_spec (priority x) (priority z)); try done; try lia. apply cmp_trans.
  - intros x y. unfold binding_cmp. rewrite (Z.compare_antisym (priority x) (priority y)).
    destruct (priority x ?= priority y)%Z; [|done..]. apply cmp_opp.
Qed.

(** The enabled instances of a route: the global ones, then its own. *)
Definition route_instances `{Y : YamlLib} (cfg : GatewayConfig) (route : RouteConfig)
    : list PluginInstance :=
  filter (λ p, PluginInstance.enabled p = true)
    (PluginsConfig.global (GatewayConfig.plugins cfg) ++ RouteConfig.plugins route).

(** ** Headers *)
Lemma ascii_lower_idemp a : ascii_lower (ascii_lower a) = ascii_lower a.
Proof. by destruct a as [[] [] [] [] [] [] [] []]. Qed.

Lemma to_ascii_lowercase_idemp s : to_ascii_lowercase (to_ascii_lowercase s) = to_ascii_lowercase s.
Proof. induction s as [|a s IH]; simpl; [done|]. by rewrite ascii_lower_idemp, IH. Qed.

(** Headers a plugin may hand to the upstream. *)
Definition headers_allowed (h : gmap string string) : Prop :=
  ∀ k, is_Some (h !! k) → is_reserved k = false ∧ to_ascii_lowercase k = k.

Section execution.
Context `{V : LuaVm}.

Lemma service_set_header_allowed n v s :
  headers_allowed (RuntimeState.upstream_headers s) →
  headers_allowed (RuntimeState.upstream_headers (service_set_header n v s).2).
Proof.
  intros Hs. unfold service_set_header. destruct (is_reserved (to_ascii_lowercase n)) eqn:Hr; [done|].
  simpl. intros k. destruct (decide (k = to_ascii_lowercase n)) as [->|Hne].
  - intros _. split; [done|]. apply to_ascii_lowercase_idemp.
  - rewrite lookup_insert_ne by done. apply Hs.
Qed.

Lemma run_script_allowed req b st sc s :
  headers_allowed (RuntimeState.upstream_headers s) →
  headers_allowed (RuntimeState.upstream_headers (run_script req b st sc s).1.2).
Proof.
  revert s. induction sc as [vm|vm e|q k IH|n v k IH|n v k IH|code body k IH|l m k IH]; intros s Hs;
    cbn [run_script]; auto.
  - pose proof (service_set_header_allowed n v s Hs). destruct (service_set_header n v s). auto.
  - destruct (response_exit (name b) code body s) as [e s'] eqn:E.
    apply IH. unfold response_exit in E. by simplify_eq.
Qed.

Lemma run_phase_allowed b req ph st t s :
  headers_allowed (RuntimeState.upstream_headers s) →
  headers_allowed (RuntimeState.upstream_headers (run_phase b req ph st t s).2).
Proof.
  intros Hs. unfold run_phase. destruct (plugin_instance b t) as [[inst|] t']; [|done].
  destruct (vm_install (lua t')); [|done]. destruct (vm_phase _ _ _) as [sc|]; [|done].
  pose proof (run_script_allowed req b st sc s Hs) as H.
  destruct (run_script req b st sc s) as [[[] s'] vm]; simpl in *; [done|].
  destruct (is_exit_error _); [done|]. by destruct (fail_open b).
Qed.

Lemma access_loop_allowed lim req clock bs : ∀ i t s up resp d,
  headers_allowed (RuntimeState.upstream_headers s) →
  (access_loop lim req clock i bs t s).1 = Continue up resp d → headers_allowed up.
Proof.
  induction bs as [|b bs IH]; intros i t s up resp d Hs; cbn [access_loop]; [by intros [= <- _ _]|].
  destruct (_ <? _)%Z; [done|]. pose proof (run_phase_allowed b req "access" None t s Hs) as H.
  destruct (run_phase b req "access" None t s) as [[[[ex|]|] t'] s']; try done. by apply IH.
Qed.

(** A chain without a recognised exit or an error runs every plugin, so the
    result of the last one is what the loop returns. *)
Lemma execute_access_continue clock rt req slot up resp d :
  (execute_access clock rt req slot).1 = Ok (Continue up resp d) → headers_allowed up.
Proof.
  unfold execute_access. destruct (chains rt !! _) as [bs|].
  - unfold with_thread_local_vm. destruct slot as [t|]; [|done].
    destruct (prepare _ _ t) as [[[]|] t']; [|done].
    unfold with_ctx. destruct (vm_create_table (lua t')); [|done].
    destruct (access_loop _ _ _ _ _ _ _) as [r t''] eqn:E. simpl. intros [= ->].
    eapply (access_loop_allowed (limits rt) req clock bs); [|by rewrite E]. intros k. simpl.
    rewrite lookup_empty. by intros [? ?].
  - intros [= <- _ _] k. rewrite lookup_empty. by intros [? ?].
Qed.

(** [C34] Plugins cannot forge the gateway's own headers towards the upstream:
    whatever the plugins of a chain do, the upstream headers of a chain that
    continues contain no reserved name (x-auth-, x-ratelimit-, x-envoy-), in
    any letter case, because names are stored in lower case. *)
Theorem upstream_headers_not_reserved (clock : nat → Z) (rt : PluginRuntime) (req : PluginRequest)
    (slot : result PluginError ThreadLocalVm) (up resp : gmap string string) (d : Z) (k prefix : string) :
  (execute_access clock rt req slot).1 = Ok (Continue up resp d) → is_Some (up !! k) →
  prefix ∈ ["x-auth-"; "x-ratelimit-"; "x-envoy-"] →
  starts_with prefix (to_ascii_lowercase k) = false.
Proof.
  intros H%execute_access_continue Hk Hp. destruct (H k Hk) as [Hr ->].
  unfold is_reserved in Hr. destruct (starts_with prefix k) eqn:Hs; [|done].
  rewrite <-Hr. symmetry. apply existsb_exists. exists prefix. split; [|done].
  by apply list_elem_of_In.
Qed.

(** One phase of a plugin whose function exits and does not catch the error. *)
Lemma run_phase_exit b req ph st t s inst t' vm code body vm' :
  plugin_instance b t = (Ok inst, t') → vm_install (lua t') = Ok vm →
  vm_phase vm inst ph = Some (Exit code body (λ e, Raise vm' (surface e))) →
  (run_phase b req ph st t s).1.1 =
    if is_exit_error (surface (LRuntimeError EXIT_SENTINEL))
    then Ok (Some (PluginExit.mk code body (name b)))
    else if fail_open b then Ok None
    else Err (Runtime (name b) (lua_error_to_string (surface (LRuntimeError EXIT_SENTINEL)))).
Proof.
  intros Hi Hv Hp. unfold run_phase. rewrite Hi, Hv. cbn [set_lua lua]. rewrite Hp.
  cbn [run_script response_exit]. destruct (is_exit_error _); [done|]. by destruct (fail_open b).
Qed.

(** A plugin's request to end the exchange is not recognised: the Lua
    binding returns the error of a Rust callback wrapped as a callback error,
    and [is_exit_error] only knows a plain runtime error.  A plugin that calls
    [gateway.response.exit] therefore does not short-circuit there: with fail
    mode "closed" it is reported as a runtime error, with "open" it is skipped. *)
Theorem exit_not_recognised (b : PluginBinding) (req : PluginRequest) (ph : string)
    (st : option Z) (t t' : ThreadLocalVm) (s : RuntimeState) (inst : LuaTable) (vm vm' : Vm)
    (code : Z) (body : option string) :
  (∀ e, surface e = LCallbackError e) →
  plugin_instance b t = (Ok inst, t') → vm_install (lua t') = Ok vm →
  vm_phase vm inst ph = Some (Exit code body (λ e, Raise vm' (surface e))) →
  (run_phase b req ph st t s).1.1 =
    if fail_open b then Ok None
    else Err (Runtime (name b)
           (lua_error_to_string (LCallbackError (LRuntimeError EXIT_SENTINEL)))).
Proof.
  intros Hsurf Hi Hv Hp. rewrite (run_phase_exit b req ph st t s inst t' vm code body vm') by done.
  by rewrite Hsurf.
Qed.

(** A phase whose function returns reports the exit the chain has on record. *)
Lemma run_phase_return b req ph st t s inst t' vm vm' :
  plugin_instance b t = (Ok inst, t') → vm_install (lua t') = Ok vm →
  vm_phase vm inst ph = Some (Return vm') →
  run_phase b req ph st t s = (Ok (RuntimeState.short_circuit s), set_lua vm' (set_lua vm t'), s).
Proof. intros Hi Hv Hp. unfold run_phase. rewrite Hi, Hv. cbn [set_lua lua]. by rewrite Hp. Qed.

(** The exit of a fail-open plugin takes effect one plugin late: the
    failure is swallowed, but the request to exit stays in the chain's runtime
    state, so the next plugin that returns normally ends the exchange with the
    status and body of the first, in the first one's name, and the plugins
    after it do not run. *)
Theorem exit_takes_effect_late (lim : PluginLimits) (req : PluginRequest) (clock : nat → Z) (i : nat)
    (b1 b2 : PluginBinding) (bs : list PluginBinding) (t t1 t2 : ThreadLocalVm) (s : RuntimeState)
    (inst1 inst2 : LuaTable) (vm1 vm1' vm2 vm2' : Vm) (code : Z) (body : option string) :
  (∀ e, surface e = LCallbackError e) → fail_open b1 = true →
  (clock i / 1000 ≤ PluginLimits.chain_timeout_ms lim)%Z →
  (clock (S i) / 1000 ≤ PluginLimits.chain_timeout_ms lim)%Z →
  plugin_instance b1 t = (Ok inst1, t1) → vm_install (lua t1) = Ok vm1 →
  vm_phase vm1 inst1 "access" = Some (Exit code body (λ e, Raise vm1' (surface e))) →
  plugin_instance b2 (set_lua vm1' (set_lua vm1 t1)) = (Ok inst2, t2) → vm_install (lua t2) = Ok vm2 →
  vm_phase vm2 inst2 "access" = Some (Return vm2') →
  (access_loop lim req clock i (b1 :: b2 :: bs) t s).1 =
    ShortCircuit (name b1) code body (RuntimeState.response_headers s) (clock (S (S i))).
Proof.
  intros Hs Hf Hc1 Hc2 Hi1 Hv1 Hp1 Hi2 Hv2 Hp2. cbn [access_loop].
  rewrite (proj2 (Z.ltb_ge _ _) Hc1), (proj2 (Z.ltb_ge _ _) Hc2).
  unfold run_phase at 1. rewrite Hi1, Hv1. cbn [set_lua lua]. rewrite Hp1.
  cbn [run_script response_exit]. rewrite Hs, Hf. cbn [is_exit_error].
  by erewrite run_phase_return; [|exact Hi2|exact Hv2|exact Hp2].
Qed.

(** The instance cache does not tell two bindings of one plugin apart:
    the identifier is the route and the plugin name, so a plugin configured
    both globally and on the route runs its second binding on the instance
    that was constructed with the first binding's configuration, as long as the
    registry gives it back. *)
Theorem same_id_shares_instance (b1 b2 : PluginBinding) (t t' : ThreadLocalVm) (inst : LuaTable) :
  id b1 = id b2 → plugin_instance b1 t = (Ok inst, t') → vm_registry_value (lua t') inst = Ok tt →
  plugin_instance b2 t' = (Ok inst, t').
Proof.
  intros Hid. unfold plugin_instance, registry_key. rewrite <-Hid.
  destruct (instances t !! id b1) as [i|] eqn:Hl.
  { destruct (vm_registry_value (lua t) i) as [[]|]; [|done]. intros [= -> ->] Hv. rewrite Hl. simpl. by rewrite Hv. }
  destruct (vm_eval _ _ _) as [[plugin|] vm]; [|done].
  destruct (default _ _) as [[i|] vm']; [|done].
  destruct (vm_store vm' i); [|done]. intros [= -> <-] Hv. simpl in *. rewrite lookup_insert_eq. simpl. by rewrite Hv.
Qed.
End execution.

(** ** Building chains *)
Section building.
Context `{V : LuaVm} `{Y : YamlLib}.
Context (to_json : Value → JsonValue) (schema_check : JsonValue → JsonValue → result string unit).

(** The bindings of a list of instances. *)
Definition bound (registry : gmap string PluginMeta) (route_name : string)
    (insts : list PluginInstance) (bs : list PluginBinding) : Prop :=
  Forall2 (λ i b, bind_instance to_json schema_check route_name registry i = Ok b) insts bs.

Lemma route_chain_spec cfg registry route bs :
  route_chain to_json schema_check cfg registry route = Ok bs →
  ∃ bs0, bound registry (RouteConfig.name route) (route_instances cfg route) bs0 ∧
    bs = stable_sort binding_cmp bs0.
Proof.
  unfold route_chain, push_bindings. rewrite result_bind_Ok. intros (b1 & H1 & H2).
  apply result_bind_Ok in H1 as (g & Hg & [= <-]). apply result_bind_Ok in H2 as (b2 & H2 & [= <-]).
  apply result_bind_Ok in H2 as (r & Hr & [= <-]). apply mapM_Ok in Hg, Hr.
  exists (g ++ r). split; [|done]. unfold route_instances, bound. rewrite filter_app.
  by apply Forall2_app.
Qed.

Lemma chains_fold cfg registry routes :
  ∀ (acc : result PluginError (gmap string (list PluginBinding))) chains,
  NoDup (RouteConfig.name <$> routes) →
  foldl (λ acc route, chains ← acc; bs ← route_chain to_json schema_check cfg registry route;
           Ok (<[RouteConfig.name route := bs]> chains)) acc routes = Ok chains →
  (∃ chains0, acc = Ok chains0 ∧
     ∀ n, n ∉ (RouteConfig.name <$> routes) → chains !! n = chains0 !! n) ∧
  ∀ r, r ∈ routes → ∃ bs, route_chain to_json schema_check cfg registry r = Ok bs ∧
    chains !! RouteConfig.name r = Some bs.
Proof.
  induction routes as [|r routes IH]; intros acc chains Hnd H; cbn [foldl] in H.
  { split; [by exists chains|set_solver]. }
  rewrite fmap_cons, NoDup_cons in Hnd. destruct Hnd as [Hr Hnd].
  destruct (IH _ _ Hnd H) as [(c0 & Hacc & Hout) Hin].
  apply result_bind_Ok in Hacc as (c1 & -> & Hacc). apply result_bind_Ok in Hacc as (bs & Hbs & [= <-]).
  split.
  - exists c1. split; [done|]. intros n Hn. rewrite fmap_cons, not_elem_of_cons in Hn.
    destruct Hn. rewrite Hout by done. by rewrite lookup_insert_ne.
  - intros r'. rewrite elem_of_cons. intros [->|Hr']; [|by apply Hin].
    exists bs. split; [done|]. rewrite Hout by done. by rewrite lookup_insert_eq.
Qed.


(** Reloading plugins is atomic and invalidates cached instances: a failed
    reload keeps the old runtime; a successful one installs a runtime with a
    generation above the old one (until the 64-bit counter is exhausted), and a
    machine that last ran the old generation drops every cached instance
    before it runs the new one. *)
Theorem reload_fresh_generation (dir_exists : bool)
    (load : string → string → result string LoadedPlugin)
    (read_dir : result string (list (result string DirEntry))) (cfg : GatewayConfig)
    (e e' : PluginEngine) (r : result PluginError unit) (t : ThreadLocalVm) :
  (0 ≤ generation (runtime e) < next_generation e)%Z → (next_generation e < u64_max)%Z →
  vm_generation t = generation (runtime e) →
  reload_from_config to_json schema_check dir_exists load read_dir cfg e = (r, e') →
  (generation (runtime e') < next_generation e')%Z ∧
  match r with
  | Ok _ => (generation (runtime e) < generation (runtime e'))%Z ∧
      instances (prepare (generation (runtime e')) (limits (runtime e')) t).2 = ∅
  | Err _ => runtime e' = runtime e
  end.
Proof.
  intros Hgen Hmax Ht. unfold reload_from_config.
  assert ((next_generation e +u64 1)%mach = next_generation e + 1)%Z as ->
    by (unfold wrapping_add, as_u64, u64_max in *; rewrite Z.mod_small; lia).
  destruct (build_runtime _ _ _ _ _ _ _) as [rt|err] eqn:Hb; intros [= <- <-]; simpl; [|split; [lia|done]].
  assert (generation rt = next_generation e) as Hg.
  { unfold build_runtime in Hb. destruct (negb _); [by simplify_eq|].
    destruct (negb dir_exists); [done|]. apply result_bind_Ok in Hb as (reg & _ & Hb).
    by apply result_bind_Ok in Hb as (cs & _ & [= <-]). }
  rewrite Hg. split; [lia|]. split; [lia|]. unfold prepare. rewrite bool_decide_eq_true_2 by lia.
  by destruct (vm_reset_limits _ _).
Qed.
End building.

(** ** A model of the virtual machine *)
Module LuaVmModel.
(** Tables are plugin sources; the sources below stand for plugins that do what
    their name says. *)
Definition phase_of (src phase : string) : option (script unit) :=
  if decide (phase = "access") then
    if decide (src = "exit-403") then
      Some (Exit 403 None (λ e, Raise tt (LCallbackError e)))
    else if decide (src = "noop") then Some (Return tt)
    else if decide (src = "forge") then Some (SetResponseHeader "X-Auth-Sub" "root" (Return tt))
    else if decide (src = "exit-42") then Some (Exit 42 None (λ _, Return tt))
    else if decide (src = "tag") then
      Some (SetServiceHeader "X-Tag" "1" (λ _, SetServiceHeader "X-Auth-Sub" "root" (λ _, Return tt)))
    else None
  else None.

#[export] Instance lua_vm_model : LuaVm := {|
  Vm := unit;
  LuaTable := string;
  JsonValue := nat;
  lua_error_to_string e := match e with LRuntimeError m | LOtherError m => m | LCallbackError _ => "callback" end;
  surface := LCallbackError;
  vm_create _ := Ok tt;
  vm_reset_limits vm _ := Ok vm;
  vm_create_table vm := Ok vm;
  vm_install vm := Ok vm;
  vm_eval vm src _ := (Ok src, vm);
  vm_construct _ _ _ := None;
  vm_store vm _ := Ok vm;
  vm_registry_value _ _ := Ok tt;
  vm_phase _ src phase := phase_of src phase
|}.

Definition binding (n src : string) : @PluginBinding lua_vm_model :=
  mk_binding (V := lua_vm_model) ("r:" +:+ n) n 10 "1.0" false src 0.
Definition fresh : @ThreadLocalVm lua_vm_model := mk_tl (V := lua_vm_model) tt 1 ∅.
Definition sample_runtime : @PluginRuntime lua_vm_model :=
  mk_runtime 1 PluginLimits.PluginLimits_default {[ "r" := [binding "tag" "tag"] ]}.
Definition sample_request : PluginRequest := PluginRequest.mk "r" "api.example.com" "GET" "/" [].

Definition plugin_config : @PluginInstance YamlModel.yaml_model :=
  PluginInstance.mk "tag" true "closed" (VBool true).
Definition sample_cfg : @GatewayConfig YamlModel.yaml_model :=
  GatewayConfig.mk 1 sample_server (AuthConfig.mk [sample_provider]) sample_rate_limits
    [sample_route] [sample_service] sample_observability
    (PluginsConfig.mk true "plugins" PluginLimits.PluginLimits_default [plugin_config])
    XdsConfig.XdsConfig_default ExtProcConfig.ExtProcConfig_default.
Definition sample_dir : result string (list (result string DirEntry)) :=
  Ok [Ok (mk_entry "plugins/tag.lua" (Some "lua") (Some "tag") (Ok "tag"))].
Definition sample_load (n src : string) : result string (@LoadedPlugin lua_vm_model) :=
  Ok (mk_loaded (V := lua_vm_model) (Ok "1.0") (Ok 10%Z) None).
End LuaVmModel.

Lemma upstream_headers_not_reserved_witness :
  starts_with "x-auth-" (to_ascii_lowercase "x-tag") = false.
Proof.
  apply (upstream_headers_not_reserved (V := LuaVmModel.lua_vm_model) (λ _, 0%Z)
    LuaVmModel.sample_runtime LuaVmModel.sample_request (Ok LuaVmModel.fresh)
    {[ "x-tag" := "1" ]} ∅ 0 "x-tag" "x-auth-").
  - vm_compute. reflexivity.
  - vm_compute. by eexists.
  - apply (bool_decide_unpack _). vm_compute. exact I.
Defined.

Lemma exit_not_recognised_witness :
  (run_phase (V := LuaVmModel.lua_vm_model) (LuaVmModel.binding "e" "exit-403")
     LuaVmModel.sample_request "access" None LuaVmModel.fresh RuntimeState.new).1.1 =
  Err (Runtime "e" "callback").
Proof.
  apply (exit_not_recognised (V := LuaVmModel.lua_vm_model) (LuaVmModel.binding "e" "exit-403")
    LuaVmModel.sample_request "access" None LuaVmModel.fresh
    (mk_tl (V := LuaVmModel.lua_vm_model) tt 1 {[ "r:e" := "exit-403" ]}) RuntimeState.new
    "exit-403" tt tt 403 None); vm_compute; reflexivity.
Defined.

Lemma exit_takes_effect_late_witness :
  (access_loop (V := LuaVmModel.lua_vm_model) PluginLimits.PluginLimits_default LuaVmModel.sample_request (λ _, 0%Z) 0
     [mk_binding (V := LuaVmModel.lua_vm_model) "r:e" "e" 10 "1.0" true "exit-403" 0;
      LuaVmModel.binding "n" "noop"; LuaVmModel.binding "tag" "tag"]
     LuaVmModel.fresh RuntimeState.new).1 =
  ShortCircuit "e" 403 None ∅ 0.
Proof.
  apply (exit_takes_effect_late (V := LuaVmModel.lua_vm_model) PluginLimits.PluginLimits_default
    LuaVmModel.sample_request (λ _, 0%Z) 0
    (mk_binding (V := LuaVmModel.lua_vm_model) "r:e" "e" 10 "1.0" true "exit-403" 0)
    (LuaVmModel.binding "n" "noop") [LuaVmModel.binding "tag" "tag"] LuaVmModel.fresh
    (mk_tl (V := LuaVmModel.lua_vm_model) tt 1 {[ "r:e" := "exit-403" ]})
    (mk_tl (V := LuaVmModel.lua_vm_model) tt 1 {[ "r:e" := "exit-403"; "r:n" := "noop" ]})
    RuntimeState.new "exit-403" "noop" tt tt tt tt 403 None); vm_compute; try reflexivity; discriminate.
Defined.

Lemma same_id_shares_instance_witness :
  plugin_instance (V := LuaVmModel.lua_vm_model) (LuaVmModel.binding "tag" "other")
    (mk_tl (V := LuaVmModel.lua_vm_model) tt 1 {[ "r:tag" := "tag" ]}) =
  (Ok "tag", mk_tl (V := LuaVmModel.lua_vm_model) tt 1 {[ "r:tag" := "tag" ]}).
Proof.
  apply (same_id_shares_instance (V := LuaVmModel.lua_vm_model) (LuaVmModel.binding "tag" "tag")
    (LuaVmModel.binding "tag" "other") LuaVmModel.fresh); vm_compute; reflexivity.
Defined.


Lemma reload_fresh_generation_witness :
  let e := mk_engine (V := LuaVmModel.lua_vm_model) LuaVmModel.sample_runtime 2 in
  let e' := (reload_from_config (V := LuaVmModel.lua_vm_model) (λ _, 0%nat) (λ _ _, Ok tt) true
               LuaVmModel.sample_load LuaVmModel.sample_dir LuaVmModel.sample_cfg e).2 in
  (generation (runtime e') < next_generation e')%Z.
Proof.
  intros e e'. apply (reload_fresh_generation (V := LuaVmModel.lua_vm_model) (λ _, 0%nat)
    (λ _ _, Ok tt) true LuaVmModel.sample_load LuaVmModel.sample_dir LuaVmModel.sample_cfg e e'
    (Ok tt) LuaVmModel.fresh); vm_compute; try done; split; done.
Defined.
