(* ===== verification/Sandbox.v ===== *)
(** * The Lua sandbox and the gateway API tables

    [controlplane/src/plugins/sandbox.rs] and the tables of [sdk.rs], on a
    model of the Lua state the code manipulates through the [mlua] crate:
    tables are a heap of maps (a table is shared by whoever holds its
    location), the functions of the Lua library are known by name, and the Rust
    closures the code installs are the constructors of [callback] with the
    values they capture.  The runtime state of a chain lives in a cell
    ([Rc<RefCell<..>>]) that several closures share.  Operations of [mlua] that
    can fail do so by the answers of the interface [MluaLib]; an operation that
    fails keeps what was done before it. *)
From S2P Require Import Prelude RustStr F64 Yaml ConfigTypes Plugins.

(** ** The Lua state *)

(** The closures created by [create_function]. *)
Inductive callback :=
  | CRequire | CEncode | CDecode | CSafeDecode
  | CGetHeader (headers : list (string * string))
  | CConst (s : string)
  | CResponseSetHeader (runtime : nat)
  | CExit (runtime : nat) (plugin_name : string)
  | CServiceSetHeader (runtime : nat)
  | CLog (level_name : string).

(** A function of the Lua library, by its library's table ([None]: a basic
    function) and its name there, or a closure. *)
Inductive lfunction := Native (library : option string) (name : string) | Rust (c : callback).

Inductive lvalue :=
  | LNil
  | LStr (s : string)
  | LInt (n : Z)
  | LTable (t : nat)
  | LFunction (f : lfunction).

Inductive level := Debug | Info | Warn | Error.

Record LuaState := mk_state {
  heap : gmap nat (gmap string lvalue);
  next_table : nat;
  globals : nat;
  named_registry : gmap string lvalue;
  memory_limit : option Z;
  (** [every_nth_instruction] of the hook, whose body raises [hook_error] *)
  hook : option Z;
  (** the [RuntimeState] cells, and what [tracing] was given *)
  cells : gmap nat RuntimeState;
  logged : list (level * string)
}.

Definition set_heap (f : gmap nat (gmap string lvalue) → gmap nat (gmap string lvalue))
    (st : LuaState) : LuaState :=
  mk_state (f (heap st)) (next_table st) (globals st) (named_registry st) (memory_limit st)
    (hook st) (cells st) (logged st).
Definition set_named_registry (f : gmap string lvalue → gmap string lvalue) (st : LuaState)
    : LuaState :=
  mk_state (heap st) (next_table st) (globals st) (f (named_registry st)) (memory_limit st)
    (hook st) (cells st) (logged st).
Definition set_limits (mem : option Z) (h : option Z) (st : LuaState) : LuaState :=
  mk_state (heap st) (next_table st) (globals st) (named_registry st) mem h (cells st) (logged st).
Definition set_cells (f : gmap nat RuntimeState → gmap nat RuntimeState) (st : LuaState)
    : LuaState :=
  mk_state (heap st) (next_table st) (globals st) (named_registry st) (memory_limit st)
    (hook st) (f (cells st)) (logged st).
Definition set_logged (f : list (level * string) → list (level * string)) (st : LuaState)
    : LuaState :=
  mk_state (heap st) (next_table st) (globals st) (named_registry st) (memory_limit st)
    (hook st) (cells st) (f (logged st)).

(** ** Operations that may fail *)
Definition lua (A : Type) : Type := LuaState → result LuaError A * LuaState.

Global Instance lua_ret : MRet lua := λ A a st, (Ok a, st).
Global Instance lua_bind : MBind lua := λ A B k m st,
  match m st with
  | (Ok a, st') => k a st'
  | (Err e, st') => (Err e, st')
  end.

Definition lift {A} (r : result LuaError A) : lua A := λ st, (r, st).
Definition get_state : lua LuaState := λ st, (Ok st, st).
Definition modify (f : LuaState → LuaState) : lua unit := λ st, (Ok tt, f st).

Fixpoint for_each_lua {A} (f : A → lua unit) (l : list A) : lua unit :=
  match l with
  | [] => mret tt
  | x :: l => _ ← f x; for_each_lua f l
  end.

(** What [mlua] and [serde_json] answer.  [JsonValue] is the type of JSON
    documents; [to_value] may allocate. *)
Class MluaLib (JsonValue : Type) := {
  (** the allocator's verdict on the next allocation *)
  mlua_alloc : LuaState → result LuaError unit;
  mlua_set_memory_limit : Z → result LuaError unit;
  (** running [if jit then jit.off() end] *)
  mlua_jit_off : LuaState → result LuaError unit;
  mlua_to_value : JsonValue → lua lvalue;
  json_to_string : LuaState → lvalue → result string string;
  json_from_str : string → result string JsonValue
}.

Section mlua.
Context {JsonValue : Type} `{M : !MluaLib JsonValue}.

Definition alloc : lua unit := λ st, (mlua_alloc st, st).

Definition fresh_table (st : LuaState) : LuaState :=
  mk_state (<[next_table st := ∅]> (heap st)) (S (next_table st)) (globals st) (named_registry st)
    (memory_limit st) (hook st) (cells st) (logged st).

Definition create_table : lua nat :=
  _ ← alloc;
  st ← get_state;
  _ ← modify fresh_table;
  mret (next_table st).

Definition create_function (c : callback) : lua lvalue := _ ← alloc; mret (LFunction (Rust c)).

(** Assigning [nil] removes the field. *)
Definition set_field (k : string) (v : lvalue) (fields : gmap string lvalue) : gmap string lvalue :=
  match v with LNil => delete k fields | _ => <[k := v]> fields end.
Definition table_set (t : nat) (k : string) (v : lvalue) : lua unit :=
  _ ← alloc; modify (set_heap (alter (set_field k v) t)).

Definition raw_get (st : LuaState) (t : nat) (k : string) : lvalue :=
  default LNil (heap st !! t ≫= lookup k).

Definition to_table (v : lvalue) : result LuaError nat :=
  match v with LTable t => Ok t | _ => Err (LOtherError "error converting Lua value to table") end.
Definition to_function (v : lvalue) : result LuaError lvalue :=
  match v with
  | LFunction _ => Ok v
  | _ => Err (LOtherError "error converting Lua value to function")
  end.
Definition get_table (t : nat) (k : string) : lua nat :=
  st ← get_state; lift (to_table (raw_get st t k)).
Definition get_function (t : nat) (k : string) : lua lvalue :=
  st ← get_state; lift (to_function (raw_get st t k)).

Definition globals_set (k : string) (v : lvalue) : lua unit :=
  st ← get_state; table_set (globals st) k v.
Definition globals_get_table (k : string) : lua nat := st ← get_state; get_table (globals st) k.

Definition set_named_registry_value (k : string) (v : lvalue) : lua unit :=
  _ ← alloc; modify (set_named_registry (insert k v)).
Definition named_registry_table (k : string) : lua lvalue :=
  st ← get_state;
  t ← lift (to_table (default LNil (named_registry st !! k)));
  mret (LTable t).

(** ** [sandbox.rs] *)
Definition REGISTRY_CJSON : string := "__gateway_cjson".
Definition REGISTRY_CJSON_SAFE : string := "__gateway_cjson_safe".

(** The closure bound to [require]. *)
Definition require_module (name : string) : lua (list lvalue) :=
  if bool_decide (name = "cjson") then
    v ← named_registry_table REGISTRY_CJSON; mret [v]
  else if bool_decide (name = "cjson.safe") then
    v ← named_registry_table REGISTRY_CJSON_SAFE; mret [v]
  else lift (Err (LRuntimeError ("module '" +:+ name +:+ "' is not available in sandbox"))).

Definition removed_functions : list string :=
  ["print"; "load"; "loadfile"; "loadstring"; "dofile"; "collectgarbage"; "newproxy"; "_G"].
Definition removed_libraries : list string := ["io"; "debug"; "package"; "ffi"; "jit"].
Definition safe_os_functions : list string := ["clock"; "time"; "date"; "difftime"].

Definition copy_function (source target : nat) (name : string) : lua unit :=
  f ← get_function source name; table_set target name f.

Definition sandbox_globals : lua unit :=
  st ← get_state;
  _ ← lift (mlua_jit_off st);
  _ ← for_each_lua (λ name, globals_set name LNil) removed_functions;
  _ ← for_each_lua (λ name, globals_set name LNil) removed_libraries;
  os_table ← globals_get_table "os";
  safe_os ← create_table;
  _ ← for_each_lua (copy_function os_table safe_os) safe_os_functions;
  _ ← globals_set "os" (LTable safe_os);
  string_table ← globals_get_table "string";
  _ ← table_set string_table "dump" LNil;
  require ← create_function CRequire;
  globals_set "require" require.

Definition preload_cjson : lua unit :=
  cjson ← create_table;
  encode ← create_function CEncode;
  decode ← create_function CDecode;
  _ ← table_set cjson "encode" encode;
  _ ← table_set cjson "decode" decode;
  safe ← create_table;
  safe_decode ← create_function CSafeDecode;
  cjson_encode ← get_function cjson "encode";
  _ ← table_set safe "encode" cjson_encode;
  _ ← table_set safe "decode" safe_decode;
  _ ← set_named_registry_value REGISTRY_CJSON (LTable cjson);
  set_named_registry_value REGISTRY_CJSON_SAFE (LTable safe).

Definition set_memory_limit (bytes : Z) : lua unit :=
  _ ← lift (mlua_set_memory_limit bytes);
  modify (λ st, set_limits (Some bytes) (hook st) st).

Definition install_instruction_hook (max_instructions : Z) : lua unit :=
  modify (λ st, set_limits (memory_limit st) (Some max_instructions) st).

(** What the installed hook raises. *)
Definition hook_error (max_instructions : Z) : LuaError :=
  LRuntimeError ("instruction limit exceeded (" +:+ fmt_int max_instructions +:+ ")").

(** [unsafe_new] is the state [Lua::unsafe_new] gives. *)
Definition create_sandboxed_vm (unsafe_new : LuaState) (lim : PluginLimits)
    : result LuaError LuaState :=
  match (_ ← set_memory_limit (PluginLimits.max_memory_bytes lim);
         _ ← sandbox_globals;
         _ ← preload_cjson;
         install_instruction_hook (PluginLimits.max_instructions lim)) unsafe_new with
  | (Ok _, st) => Ok st
  | (Err e, _) => Err e
  end.

Definition reset_limits (lim : PluginLimits) : lua unit :=
  _ ← set_memory_limit (PluginLimits.max_memory_bytes lim);
  install_instruction_hook (PluginLimits.max_instructions lim).
End mlua.

(** ** [sdk.rs] *)
Section sdk.
Context `{V : LuaVm} `{M : !MluaLib JsonValue}.

Definition set_function (t : nat) (k : string) (c : callback) : lua unit :=
  f ← create_function c; table_set t k f.

Definition build_request_api (request : PluginRequest) : lua nat :=
  table ← create_table;
  _ ← set_function table "get_header" (CGetHeader (PluginRequest.headers request));
  _ ← set_function table "get_method" (CConst (PluginRequest.method request));
  _ ← set_function table "get_path" (CConst (PluginRequest.path request));
  _ ← set_function table "get_host" (CConst (PluginRequest.host request));
  mret table.

Definition build_response_api (runtime : nat) (plugin_name : string) : lua nat :=
  table ← create_table;
  _ ← set_function table "set_header" (CResponseSetHeader runtime);
  _ ← set_function table "exit" (CExit runtime plugin_name);
  mret table.

Definition build_service_api (runtime : nat) : lua nat :=
  service ← create_table;
  request ← create_table;
  _ ← set_function request "set_header" (CServiceSetHeader runtime);
  _ ← table_set service "request" (LTable request);
  mret service.

Definition build_log_api : lua nat :=
  table ← create_table;
  _ ← for_each_lua (λ level, set_function table level (CLog level))
        ["debug"; "info"; "warn"; "error"];
  mret table.

Definition build_ctx_api (shared_ctx : nat) (response_status : option Z) : lua nat :=
  table ← create_table;
  _ ← table_set table "shared" (LTable shared_ctx);
  _ ← match response_status with
      | Some status => table_set table "response_status" (LInt status)
      | None => mret tt
      end;
  mret table.

Definition build_route_api (request : PluginRequest) : lua nat :=
  table ← create_table;
  _ ← set_function table "get_name" (CConst (PluginRequest.route_name request));
  mret table.

Definition build_plugin_api (binding : PluginBinding) : lua nat :=
  table ← create_table;
  _ ← set_function table "get_name" (CConst (name binding));
  _ ← set_function table "get_version" (CConst (version binding));
  cfg ← mlua_to_value (config binding);
  _ ← table_set table "get_config" cfg;
  mret table.

Definition install_gateway (request : PluginRequest) (binding : PluginBinding) (shared_ctx : nat)
    (runtime : nat) (response_status : option Z) : lua nat :=
  gateway ← create_table;
  t ← build_request_api request;
  _ ← table_set gateway "request" (LTable t);
  t ← build_response_api runtime (name binding);
  _ ← table_set gateway "response" (LTable t);
  t ← build_service_api runtime;
  _ ← table_set gateway "service" (LTable t);
  t ← build_log_api;
  _ ← table_set gateway "log" (LTable t);
  t ← build_ctx_api shared_ctx response_status;
  _ ← table_set gateway "ctx" (LTable t);
  t ← build_route_api request;
  _ ← table_set gateway "route" (LTable t);
  t ← build_plugin_api binding;
  _ ← table_set gateway "plugin" (LTable t);
  _ ← globals_set "gateway" (LTable gateway);
  mret gateway.

Definition clear_gateway : lua unit := globals_set "gateway" LNil.

(** ** The bodies of the closures

    Arguments are given after [mlua]'s conversion from Lua values. *)
Inductive cargs :=
  | ANoArgs
  | AString (s : string)
  | ATwoStrings (name value : string)
  | AStatus (status : Z) (body : option string)
  | AValue (v : lvalue).

Definition update_cell {A} (runtime : nat) (f : RuntimeState → result LuaError A * RuntimeState)
    : lua A :=
  st ← get_state;
  match cells st !! runtime with
  | None => lift (Err (LOtherError "no such cell"))
  | Some s => let '(r, s) := f s in _ ← modify (set_cells (insert runtime s)); lift r
  end.

Definition level_of (level_name : string) : level :=
  if bool_decide (level_name = "debug") then Debug
  else if bool_decide (level_name = "info") then Info
  else if bool_decide (level_name = "warn") then Warn
  else Error.

Definition decode (input : string) : lua (list lvalue) :=
  value ← lift (map_err LRuntimeError (json_from_str input));
  v ← mlua_to_value value;
  mret [v].

Definition safe_decode (input : string) : lua (list lvalue) :=
  match json_from_str input with
  | Ok value => v ← mlua_to_value value; mret [v; LNil]
  | Err e => mret [LNil; LStr e]
  end.

Definition call_callback (c : callback) (a : cargs) : lua (list lvalue) :=
  match c, a with
  | CRequire, AString name => require_module name
  | CEncode, AValue value =>
      st ← get_state;
      s ← lift (map_err LRuntimeError (json_to_string st value));
      mret [LStr s]
  | CDecode, AString input => decode input
  | CSafeDecode, AString input => safe_decode input
  | CGetHeader headers, AString name =>
      mret [match iter_find (λ kv, eq_ignore_ascii_case kv.1 name) headers with
            | Some (_, value) => LStr value
            | None => LNil
            end]
  | CConst s, ANoArgs => mret [LStr s]
  | CResponseSetHeader runtime, ATwoStrings name value =>
      _ ← update_cell runtime (λ s, (Ok tt, response_set_header name value s)); mret []
  | CServiceSetHeader runtime, ATwoStrings name value =>
      _ ← update_cell runtime (service_set_header name value); mret []
  | CExit runtime plugin_name, AStatus status body =>
      update_cell runtime (λ s,
        let '(e, s) := response_exit plugin_name status body s in (Err e, s))
  | CLog level_name, AString message =>
      _ ← modify (set_logged (λ l, l ++ [(level_of level_name, message)])); mret []
  | _, _ => lift (Err (LOtherError "bad argument"))
  end.

(** Following field names from the globals. *)
Fixpoint resolve (st : LuaState) (v : lvalue) (path : list string) : lvalue :=
  match path with
  | [] => v
  | k :: path =>
      match v with
      | LTable t => resolve st (raw_get st t k) path
      | _ => LNil
      end
  end.

Definition global (st : LuaState) (path : list string) : lvalue :=
  resolve st (LTable (globals st)) path.

(** Where a script finds what it asks for. *)
Definition path_of (q : query) : list string :=
  "gateway" ::
  match q with
  | QHeader _ => ["request"; "get_header"]
  | QMethod => ["request"; "get_method"]
  | QPath => ["request"; "get_path"]
  | QHost => ["request"; "get_host"]
  | QRouteName => ["route"; "get_name"]
  | QPluginName => ["plugin"; "get_name"]
  | QPluginVersion => ["plugin"; "get_version"]
  | QResponseStatus => ["ctx"; "response_status"]
  end.

(** A function is called, any other value is the answer itself. *)
Definition ask (q : query) : lua (list lvalue) :=
  st ← get_state;
  match global st (path_of q) with
  | LFunction (Rust c) =>
      call_callback c (match q with QHeader name => AString name | _ => ANoArgs end)
  | v => mret [v]
  end.

Definition answer_of (vs : list lvalue) : answer :=
  match vs with LStr s :: _ => AStr s | LInt n :: _ => AInt n | _ => ANil end.

(** [gateway.<path>(args)] for the closures. *)
Definition call_gateway (path : list string) (a : cargs) : lua (list lvalue) :=
  st ← get_state;
  match global st ("gateway" :: path) with
  | LFunction (Rust c) => call_callback c a
  | _ => lift (Err nil_call)
  end.

(** A script run against the tables; a failure of a call that the script tree
    has no branch for stops the run. *)
Fixpoint run_tables (sc : script Vm) (st : LuaState)
    : option (result LuaError unit * LuaState * Vm) :=
  match sc with
  | Return vm => Some (Ok tt, st, vm)
  | Raise vm e => Some (Err e, st, vm)
  | Query q k =>
      match ask q st with
      | (Ok vs, st) => run_tables (k (answer_of vs)) st
      | (Err _, _) => None
      end
  | SetResponseHeader name value k =>
      match call_gateway ["response"; "set_header"] (ATwoStrings name value) st with
      | (Ok _, st) => run_tables k st
      | (Err _, _) => None
      end
  | SetServiceHeader name value k =>
      let '(r, st) := call_gateway ["service"; "request"; "set_header"] (ATwoStrings name value) st in
      run_tables (k ((λ _, tt) <$> r)) st
  | Exit status body k =>
      match call_gateway ["response"; "exit"] (AStatus status body) st with
      | (Err e, st) => run_tables (k e) st
      | (Ok _, _) => None
      end
  | LogMessage level message k =>
      let '(r, st) := call_gateway ["log"; level] (AString message) st in
      run_tables (k ((λ _, tt) <$> r)) st
  end.
End sdk.
