(* ===== verification/SandboxSpec.v ===== *)
(** * The Lua sandbox: properties

    A small calculus of postconditions for the operations of the Lua state,
    what the sandbox leaves in the globals, and the way out through [module].
    [GatewayApiSpec] uses the calculus
    for the tables of the SDK. *)
From S2P Require Import Prelude RustStr F64 Yaml ConfigTypes Plugins PluginsSpec Sandbox.

(** ** Postconditions

    [post m Q st]: when [m] succeeds in [st], [Q] holds of its result and of
    the state it leaves. *)
Definition post {A} (m : lua A) (Q : A → LuaState → Prop) (st : LuaState) : Prop :=
  match m st with (Ok a, st') => Q a st' | (Err _, _) => True end.

Lemma post_use {A} (m : lua A) Q st a st' : post m Q st → m st = (Ok a, st') → Q a st'.
Proof. unfold post. intros H Heq. by rewrite Heq in H. Qed.
Lemma post_ret {A} (a : A) (Q : A → LuaState → Prop) st : Q a st → post (mret a) Q st.
Proof. done. Qed.
Lemma post_bind {A B} (m : lua A) (k : A → lua B) Q st :
  post m (λ a, post (k a) Q) st → post (m ≫= k) Q st.
Proof. unfold post, mbind, lua_bind. by destruct (m st) as [[a|e] st']. Qed.
Lemma post_mono {A} (m : lua A) (Q Q' : A → LuaState → Prop) st :
  post m Q st → (∀ a st', Q a st' → Q' a st') → post m Q' st.
Proof. unfold post. destruct (m st) as [[a|e] st']; auto. Qed.
Lemma post_get (Q : LuaState → LuaState → Prop) st : Q st st → post get_state Q st.
Proof. done. Qed.
Lemma post_modify f (Q : unit → LuaState → Prop) st : Q tt (f st) → post (modify f) Q st.
Proof. done. Qed.
Lemma post_lift {A} (r : result LuaError A) (Q : A → LuaState → Prop) st :
  (∀ a, r = Ok a → Q a st) → post (lift r) Q st.
Proof. unfold post, lift. destruct r; auto. Qed.

Lemma post_for_each {A} (f : A → lua unit) (I : list A → LuaState → Prop) l st :
  I [] st →
  (∀ done x st, (∃ rest, l = done ++ x :: rest) → I done st → post (f x) (λ _, I (done ++ [x])) st) →
  post (for_each_lua f l) (λ _, I l) st.
Proof.
  intros H0 Hstep.
  assert (G : ∀ rest done st, l = done ++ rest → I done st →
              post (for_each_lua f rest) (λ _, I l) st).
  { induction rest as [|x rest IH]; intros dn st' Hl Hd; simpl.
    - apply post_ret. by rewrite Hl, app_nil_r.
    - apply post_bind. eapply post_mono; [apply Hstep; eauto|]. simpl. intros _ st1 H1.
      apply (IH (dn ++ [x])); [|done]. by rewrite Hl, <- app_assoc. }
  by apply (G l []).
Qed.

Section operations.
Context {JsonValue : Type} `{M : !MluaLib JsonValue}.

Lemma post_alloc (Q : unit → LuaState → Prop) st : Q tt st → post alloc Q st.
Proof. unfold post, alloc. by destruct (mlua_alloc st) as [[]|]. Qed.
Lemma post_create_table (Q : nat → LuaState → Prop) st :
  Q (next_table st) (fresh_table st) → post create_table Q st.
Proof. intros H. apply post_bind, post_alloc, post_bind, post_get, post_bind, post_modify, H. Qed.
Lemma post_create_function c (Q : lvalue → LuaState → Prop) st :
  Q (LFunction (Rust c)) st → post (create_function c) Q st.
Proof. intros H. apply post_bind, post_alloc, post_ret, H. Qed.
Lemma post_table_set t k v (Q : unit → LuaState → Prop) st :
  Q tt (set_heap (alter (set_field k v) t) st) → post (table_set t k v) Q st.
Proof. intros H. apply post_bind, post_alloc, post_modify, H. Qed.
Lemma post_globals_set k v (Q : unit → LuaState → Prop) st :
  Q tt (set_heap (alter (set_field k v) (globals st)) st) → post (globals_set k v) Q st.
Proof. intros H. apply post_bind, post_get, post_table_set, H. Qed.
Lemma post_get_table t k (Q : nat → LuaState → Prop) st :
  (∀ t', raw_get st t k = LTable t' → Q t' st) → post (get_table t k) Q st.
Proof.
  intros H. apply post_bind, post_get, post_lift. intros t'.
  destruct (raw_get st t k) eqn:E; simpl; try done. intros [= <-]. auto.
Qed.
Lemma post_get_function t k (Q : lvalue → LuaState → Prop) st :
  (∀ f, raw_get st t k = LFunction f → Q (LFunction f) st) → post (get_function t k) Q st.
Proof.
  intros H. apply post_bind, post_get, post_lift. intros v.
  destruct (raw_get st t k) eqn:E; simpl; try done. intros [= <-]. auto.
Qed.
Lemma post_globals_get_table k (Q : nat → LuaState → Prop) st :
  (∀ t', raw_get st (globals st) k = LTable t' → Q t' st) → post (globals_get_table k) Q st.
Proof. intros H. apply post_bind, post_get, post_get_table, H. Qed.
Lemma post_set_named k v (Q : unit → LuaState → Prop) st :
  Q tt (set_named_registry (insert k v) st) → post (set_named_registry_value k v) Q st.
Proof. intros H. apply post_bind, post_alloc, post_modify, H. Qed.
End operations.

(** One operation at a time. *)
Ltac lua_step :=
  match goal with
  | |- post (mbind _ _) _ _ => apply post_bind
  | |- post (mret _) _ _ => apply post_ret
  | |- post get_state _ _ => apply post_get
  | |- post (modify _) _ _ => apply post_modify
  | |- post alloc _ _ => apply post_alloc
  | |- post create_table _ _ => apply post_create_table
  | |- post (create_function _) _ _ => apply post_create_function
  | |- post (set_function _ _ _) _ _ => apply post_bind, post_create_function
  | |- post (table_set _ _ _) _ _ => apply post_table_set
  | |- post (globals_set _ _) _ _ => apply post_globals_set
  | |- post (set_named_registry_value _ _) _ _ => apply post_set_named
  end.

(** ** Well-formed states and frames *)
Record wf (st : LuaState) : Prop := {
  wf_next t : is_Some (heap st !! t) → t < next_table st;
  wf_globals : is_Some (heap st !! globals st)
}.

(** [frame mut st st']: going from [st] to [st'] allocates, and changes no old
    table outside [mut] and nothing else. *)
Record frame (mut : nat → Prop) (st st' : LuaState) : Prop := {
  fr_next : next_table st ≤ next_table st';
  fr_heap t : t < next_table st → ¬ mut t → heap st' !! t = heap st !! t;
  fr_bound : (∀ t, is_Some (heap st !! t) → t < next_table st) →
             ∀ t, is_Some (heap st' !! t) → t < next_table st';
  fr_globals : globals st' = globals st;
  fr_registry : named_registry st' = named_registry st;
  fr_limits : memory_limit st' = memory_limit st ∧ hook st' = hook st;
  fr_cells : cells st' = cells st;
  fr_logged : logged st' = logged st
}.

Lemma heap_frame_refl mut st : frame mut st st.
Proof. by split. Qed.
Lemma frame_then (mut mut' : nat → Prop) st1 st2 st3 :
  frame mut st1 st2 → frame mut' st2 st3 → (∀ t, t < next_table st1 → mut' t → mut t) →
  frame mut st1 st3.
Proof.
  intros [? H1 B1 ? ? [? ?] ? ?] [? H2 B2 ? ? [? ?] ? ?] Hm. split; try congruence; [lia| |auto|].
  - intros t Ht Hn. rewrite H2 by (eauto || lia). auto.
  - split; congruence.
Qed.
Lemma heap_frame_trans mut st1 st2 st3 : frame mut st1 st2 → frame mut st2 st3 → frame mut st1 st3.
Proof. intros H1 H2. by eapply frame_then. Qed.
Lemma frame_weaken (mut mut' : nat → Prop) st st' :
  (∀ t, t < next_table st → mut t → mut' t) → frame mut st st' → frame mut' st st'.
Proof. intros Hm [? H ? ? ? ? ? ?]. split; try done. intros t Ht Hn. apply H; [done|]. eauto. Qed.
Lemma frame_fresh mut st : frame mut st (fresh_table st).
Proof.
  split; simpl; try done; [lia| |].
  - intros t Ht _. by rewrite lookup_insert_ne by lia.
  - intros Hb t. rewrite lookup_insert_is_Some'. intros [->|H%Hb]; lia.
Qed.
Lemma frame_set (mut : nat → Prop) t k v st :
  mut t → frame mut st (set_heap (alter (set_field k v) t) st).
Proof.
  intros Ht. split; simpl; try done.
  - intros t' _ Hn. apply lookup_alter_ne. by intros ->.
  - intros Hb t'. rewrite lookup_alter_is_Some. apply Hb.
Qed.
Lemma frame_set_then (mut : nat → Prop) t k v st0 st :
  frame mut st0 st → (t < next_table st0 → mut t) →
  frame mut st0 (set_heap (alter (set_field k v) t) st).
Proof.
  intros H Ht. eapply frame_then; [done|by apply (frame_set (λ t', t' = t))|].
  simpl. intros t' Hl ->. auto.
Qed.
Lemma frame_fresh_then mut st0 st : frame mut st0 st → frame mut st0 (fresh_table st).
Proof. intros H. eapply frame_then; [done|apply (frame_fresh (λ _, False))|done]. Qed.
Lemma frame_wf mut st st' : wf st → ¬ mut (globals st) → frame mut st st' → wf st'.
Proof.
  intros [Hn Hg] Hm [? H Hb Hgl ? ? ? ?]. split; [by apply Hb|].
  rewrite Hgl, H; [done| |done]. by apply Hn.
Qed.
Lemma wf_fresh st t : wf st → is_Some (heap st !! t) → t ≠ next_table st.
Proof. intros [Hn _] H%Hn. lia. Qed.

(** A sequence of allocations and assignments to new tables. *)
Ltac frame_tac :=
  repeat (apply frame_set_then; [|simpl; intros; lia] || apply frame_fresh_then); apply heap_frame_refl.

(** ** What the sandbox does to the globals *)

(** Inequalities and absences of concrete names. *)
Ltac not_listed := apply (bool_decide_unpack _); vm_compute; exact I.

(** The contents of a Lua state as its manual gives them: every function of a
    library is a field of the library's table, which holds no other tables;
    what is removed or replaced by the sandbox ([os]) is not constrained. *)
Definition removed : list string :=
  ["print"; "load"; "loadfile"; "loadstring"; "dofile"; "collectgarbage"; "newproxy"; "_G";
   "io"; "debug"; "package"; "ffi"; "jit"].
Definition clock_functions : list string := ["clock"; "time"; "date"; "difftime"].

Lemma removed_eq : removed_functions ++ removed_libraries = removed.
Proof. reflexivity. Qed.

Record lua_library (st : LuaState) (G : gmap string lvalue) : Prop := {
  ll_wf : wf st;
  ll_globals : heap st !! globals st = Some G;
  ll_basic k f : G !! k = Some (LFunction f) → f = Native None k;
  ll_library k t : G !! k = Some (LTable t) → k ∉ removed →
    t ≠ globals st ∧ ∃ F, heap st !! t = Some F ∧
    ∀ k' v, F !! k' = Some v → (∀ t', v ≠ LTable t') ∧ ∀ f, v = LFunction f → f = Native (Some k) k';
  ll_distinct k k' t : G !! k = Some (LTable t) → G !! k' = Some (LTable t) →
    k ∉ removed → k' ∉ removed → k = k'
}.

(** [G'] is [G] without the names; [D] is the part of [F] under the names. *)
Definition without (names : list string) (G G' : gmap string lvalue) : Prop :=
  ∀ k, G' !! k = if decide (k ∈ names) then None else G !! k.
Definition restricted (names : list string) (F D : gmap string lvalue) : Prop :=
  ∀ k, D !! k = if decide (k ∈ names) then F !! k else None.

Section sandbox.
Context {JsonValue : Type} `{M : !MluaLib JsonValue}.

Lemma post_remove_globals st0 G names :
  heap st0 !! globals st0 = Some G →
  post (for_each_lua (λ name, globals_set name LNil) names)
    (λ _ st, frame (λ t, t = globals st0) st0 st ∧
       ∃ G', heap st !! globals st0 = Some G' ∧ without names G G') st0.
Proof.
  intros HG. apply (post_for_each _ (λ (dn : list string) st, frame (λ t, t = globals st0) st0 st ∧
       ∃ G', heap st !! globals st0 = Some G' ∧ without dn G G')).
  { split; [apply heap_frame_refl|]. by exists G. }
  intros dn x st _ (Hf & G' & HG' & HK). apply post_globals_set.
  rewrite (fr_globals _ _ _ Hf). split; [eapply heap_frame_trans; [done|by apply frame_set]|].
  exists (delete x G'). simpl. rewrite lookup_alter_eq, HG'. split; [done|]. intros k.
  destruct (decide (k = x)) as [->|Hne].
  - rewrite lookup_delete_eq. by rewrite decide_True by set_solver.
  - rewrite lookup_delete_ne, HK by done. apply decide_ext. set_solver.
Qed.

(** The four functions copied out of the [os] table. *)
Lemma post_copy_functions st0 src dst F names :
  src ≠ dst → heap st0 !! src = Some F → heap st0 !! dst = Some ∅ →
  post (for_each_lua (copy_function src dst) names)
    (λ _ st, frame (λ t, t = dst) st0 st ∧
       ∃ D, heap st !! dst = Some D ∧ restricted names F D) st0.
Proof.
  intros Hne HF HD. eapply post_mono.
  - apply (post_for_each _ (λ (dn : list string) st, frame (λ t, t = dst) st0 st ∧ heap st !! src = Some F ∧
       ∃ D, heap st !! dst = Some D ∧ restricted dn F D)).
    { split; [apply heap_frame_refl|]. split; [done|]. by exists ∅. }
    intros dn x st _ (Hf & HF' & D & HD' & HK). apply post_bind, post_get_function. intros f Hget.
    apply post_table_set. split; [eapply heap_frame_trans; [done|by apply frame_set]|]. simpl.
    rewrite lookup_alter_ne by done. split; [done|].
    exists (<[x := LFunction f]> D). rewrite lookup_alter_eq, HD'. split; [done|]. intros k.
    unfold raw_get in Hget. rewrite HF' in Hget. simpl in Hget.
    destruct (decide (k = x)) as [->|Hk].
    + rewrite lookup_insert_eq, decide_True by set_solver. destruct (F !! x); simplify_eq/=; done.
    + rewrite lookup_insert_ne, HK by done. apply decide_ext. set_solver.
  - simpl. intros _ st (? & _ & ?). by split.
Qed.

(** The state the sandboxing of the globals leaves. *)
Record sandboxed (st0 : LuaState) (G : gmap string lvalue) (os_t str_t : nat) (st : LuaState)
    : Prop := {
  sb_frame : frame (λ t, t = globals st0 ∨ t = str_t) st0 st;
  sb_globals : ∃ G', heap st !! globals st0 = Some G' ∧
    ∀ k, G' !! k = if decide (k ∈ removed) then None
                   else if decide (k = "require") then Some (LFunction (Rust CRequire))
                   else if decide (k = "os") then Some (LTable os_t)
                   else G !! k;
  sb_os : next_table st0 ≤ os_t ∧ ∃ os0 F D, G !! "os" = Some (LTable os0) ∧
    heap st0 !! os0 = Some F ∧ heap st !! os_t = Some D ∧ restricted clock_functions F D;
  sb_string : G !! "string" = Some (LTable str_t) ∧
    ∃ S, heap st0 !! str_t = Some S ∧ heap st !! str_t = Some (delete "dump" S)
}.

Lemma raw_get_Some st t k v : raw_get st t k = v → v ≠ LNil →
  ∃ F, heap st !! t = Some F ∧ F !! k = Some v.
Proof.
  unfold raw_get. destruct (heap st !! t) as [F|]; simpl; [|congruence].
  destruct (F !! k) eqn:E; simpl; [|congruence]. intros -> _. eauto.
Qed.

Lemma without_app n1 n2 G G1 G2 : without n1 G G1 → without n2 G1 G2 → without (n1 ++ n2) G G2.
Proof.
  intros H1 H2 k. rewrite H2, H1. repeat case_decide; set_solver.
Qed.

(** Both removal loops. *)
Lemma post_removed st0 G (m : lua unit) Q :
  heap st0 !! globals st0 = Some G →
  (∀ st G', frame (λ t, t = globals st0) st0 st → heap st !! globals st0 = Some G' →
     without removed G G' → post m Q st) →
  post (_ ← for_each_lua (λ name, globals_set name LNil) removed_functions;
        _ ← for_each_lua (λ name, globals_set name LNil) removed_libraries; m) Q st0.
Proof.
  intros HG Hm. apply post_bind. eapply post_mono; [by apply post_remove_globals|].
  intros _ st1 (Hf1 & G1 & HG1 & HW1). apply post_bind.
  pose proof (fr_globals _ _ _ Hf1) as Hg1.
  eapply post_mono; [apply (post_remove_globals st1 G1); by rewrite Hg1|]. rewrite Hg1.
  intros _ st2 (Hf2 & G2 & HG2 & HW2).
  apply (Hm st2 G2); [by eapply heap_frame_trans|done|rewrite <-removed_eq; by eapply without_app].
Qed.

Lemma post_sandbox_globals st0 G :
  lua_library st0 G →
  post sandbox_globals (λ _ st, ∃ os_t str_t, sandboxed st0 G os_t str_t st) st0.
Proof.
  intros [Hwf HG Hb Hlib Hd]. unfold sandbox_globals. apply post_bind, post_get, post_bind, post_lift.
  intros _ _. eapply post_removed; [done|]. intros st2 G2 Hf2 HG2 HW2.
  pose proof (fr_globals _ _ _ Hf2) as Hg2.
  apply post_bind, post_globals_get_table. rewrite Hg2. intros os0 Hos.
  apply raw_get_Some in Hos as (G2' & HG2' & Hos); [|done]. rewrite HG2 in HG2'. injection HG2' as <-.
  rewrite HW2, decide_False in Hos by not_listed.
  destruct (Hlib _ _ Hos) as (Hos_g & F & HF & _); [not_listed|].
  assert (Hlt : os0 < next_table st0) by (apply (wf_next _ Hwf); eauto).
  set (n := next_table st2). assert (Hn : next_table st0 ≤ n) by apply (fr_next _ _ _ Hf2).
  apply post_bind, post_create_table, post_bind. fold n.
  eapply post_mono; [apply (post_copy_functions (fresh_table st2) os0 n F); [lia| |]; simpl|].
  { rewrite lookup_insert_ne by lia. by rewrite (fr_heap _ _ _ Hf2). }
  { by rewrite lookup_insert_eq. }
  intros _ st3 (Hf3 & D & HD & HR). simpl in *.
  assert (Hg3 : globals st3 = globals st0) by (by rewrite (fr_globals _ _ _ Hf3)).
  assert (Hgn : globals st0 < next_table st0) by (apply (wf_next _ Hwf); eauto).
  assert (HG3 : heap st3 !! globals st0 = Some G2).
  { rewrite (fr_heap _ _ _ Hf3); simpl; [|lia..]. by rewrite lookup_insert_ne by lia. }
  apply post_bind, post_globals_set, post_bind, post_globals_get_table. simpl. rewrite Hg3.
  intros str_t Hstr. apply raw_get_Some in Hstr as (G4 & HG4 & Hstr); [|done].
  simpl in HG4. rewrite lookup_alter_eq, HG3 in HG4. injection HG4 as <-. simpl in Hstr.
  rewrite lookup_insert_ne, HW2, decide_False in Hstr by not_listed.
  destruct (Hlib _ _ Hstr) as (Hs_g & S & HS & _); [not_listed|].
  assert (Hstlt : str_t < next_table st0) by (apply (wf_next _ Hwf); eauto).
  apply post_bind, post_table_set, post_bind, post_create_function, post_globals_set. simpl.
  rewrite Hg3. exists n, str_t. split; simpl.
  - do 3 (apply frame_set_then; [|by auto]). eapply frame_then; [|exact Hf3|simpl; lia].
    apply frame_fresh_then. eapply frame_weaken; [|exact Hf2]. by left.
  - rewrite lookup_alter_eq, lookup_alter_ne, lookup_alter_eq, HG3 by done. eexists. split; [done|].
    intros k. simpl. destruct (decide (k = "require")) as [->|Hk].
    { by rewrite lookup_insert_eq, decide_False by not_listed. }
    rewrite lookup_insert_ne by done. destruct (decide (k = "os")) as [->|Hk'].
    { by rewrite lookup_insert_eq, decide_False by not_listed. }
    rewrite lookup_insert_ne by done. apply HW2.
  - split; [done|]. exists os0, F, D. split; [done|]. split; [done|]. split; [|done].
    by rewrite !lookup_alter_ne by lia.
  - split; [done|]. exists S. split; [done|].
    rewrite lookup_alter_ne, lookup_alter_eq, lookup_alter_ne by done.
    rewrite (fr_heap _ _ _ Hf3); simpl; [|lia..]. rewrite lookup_insert_ne by lia.
    rewrite (fr_heap _ _ _ Hf2) by (done || lia). by rewrite HS.
Qed.

(** ** The JSON modules *)
Definition cjson_fields (decoder : callback) : gmap string lvalue :=
  <["decode" := LFunction (Rust decoder)]> {["encode" := LFunction (Rust CEncode)]}.

Lemma post_preload_cjson st0 :
  post preload_cjson (λ _ st, ∃ st1 c s,
    frame (λ _, False) st0 st1 ∧ next_table st0 ≤ c ∧ next_table st0 ≤ s ∧
    heap st1 !! c = Some (cjson_fields CDecode) ∧ heap st1 !! s = Some (cjson_fields CSafeDecode) ∧
    st = set_named_registry (insert REGISTRY_CJSON_SAFE (LTable s))
           (set_named_registry (insert REGISTRY_CJSON (LTable c)) st1)) st0.
Proof.
  unfold preload_cjson. repeat lua_step. apply post_get_function.
  intros f Hf. unfold raw_get in Hf. simpl in Hf.
  rewrite lookup_insert_ne, !lookup_alter_eq, lookup_insert_eq in Hf by lia. simpl in Hf.
  rewrite lookup_insert_ne, lookup_insert_eq in Hf by not_listed. injection Hf as <-.
  repeat lua_step. simpl. set (n := next_table st0).
  eexists _, n, (S n). split; [|split; [|split; [|split; [|split; [|reflexivity]]]]]; [|lia..| |].
  - frame_tac.
  - simpl. fold n. rewrite !lookup_alter_ne, lookup_insert_ne, !lookup_alter_eq by lia.
    rewrite lookup_insert_eq. done.
  - simpl. fold n. rewrite !lookup_alter_eq, lookup_insert_eq. done.
Qed.

Lemma sandboxed_frame st0 G os_t str_t st st' :
  wf st0 → sandboxed st0 G os_t str_t st → frame (λ _, False) st st' →
  sandboxed st0 G os_t str_t st'.
Proof.
  intros Hwf [Hf (G' & HG' & HK) (Hos & os0 & F & D & HGo & HF & HD & HR) (HGs & S & HS & HS')] Hfr.
  assert (Hb : ∀ t X, heap st !! t = Some X → heap st' !! t = Some X).
  { intros t X Ht. rewrite (fr_heap _ _ _ Hfr); [done| |tauto].
    apply (fr_bound _ _ _ Hf); [apply (wf_next _ Hwf)|eauto]. }
  split.
  - eapply frame_then; [done|done|by intros].
  - exists G'. auto.
  - split; [done|]. exists os0, F, D. auto.
  - split; [done|]. exists S. auto.
Qed.

Definition with_memory_limit (lim : PluginLimits) (st : LuaState) : LuaState :=
  set_limits (Some (PluginLimits.max_memory_bytes lim)) (hook st) st.

Lemma lua_library_limits lim st G : lua_library st G → lua_library (with_memory_limit lim st) G.
Proof. intros [[H1 H2] H3 H4 H5 H6]. by split. Qed.

(** The state a sandboxed machine starts with. *)
Record sandbox_vm (st0 : LuaState) (G : gmap string lvalue) (lim : PluginLimits)
    (os_t str_t c s : nat) (st st2 : LuaState) : Prop := {
  vm_sandboxed : sandboxed (with_memory_limit lim st0) G os_t str_t st2;
  vm_cjson : heap st2 !! c = Some (cjson_fields CDecode);
  vm_safe : heap st2 !! s = Some (cjson_fields CSafeDecode);
  vm_state : st = set_limits (Some (PluginLimits.max_memory_bytes lim))
    (Some (PluginLimits.max_instructions lim))
    (set_named_registry (insert REGISTRY_CJSON_SAFE (LTable s))
       (set_named_registry (insert REGISTRY_CJSON (LTable c)) st2))
}.

Lemma create_sandboxed_vm_spec st0 G lim st :
  lua_library st0 G → create_sandboxed_vm st0 lim = Ok st →
  ∃ os_t str_t c s st2, sandbox_vm st0 G lim os_t str_t c s st st2.
Proof.
  intros Hl Hc. apply (lua_library_limits lim) in Hl as Hl'. unfold create_sandboxed_vm in Hc.
  match type of Hc with (let (_, _) := ?m st0 in _) = _ => set (prog := m) in Hc end.
  assert (HP : post prog
    (λ _ st, ∃ os_t str_t c s st2, sandbox_vm st0 G lim os_t str_t c s st st2) st0).
  { unfold prog. apply post_bind, post_bind, post_lift. intros _ _. apply post_modify, post_bind.
    eapply post_mono; [by apply post_sandbox_globals|]. intros _ st1 (os_t & str_t & H1).
    apply post_bind. eapply post_mono; [apply post_preload_cjson|].
    intros _ st3 (st2 & c & s & Hf & _ & _ & Hc' & Hs & ->). apply post_modify.
    exists os_t, str_t, c, s, st2. split; try done.
    - eapply sandboxed_frame; [apply Hl'|done|done].
    - simpl. destruct (fr_limits _ _ _ Hf) as [-> _]. destruct H1 as [Hf1 _ _ _].
      by destruct (fr_limits _ _ _ Hf1) as [-> _]. }
  unfold post in HP. destruct (prog st0) as [[u|e] st']; simplify_eq. exact HP.
Qed.

(** ** What a script can reach *)

(** What a script gets hold of by field accesses from the globals and by calling
    [require].  Calls of Lua's own functions are not among these steps; of those
    that stay in the globals, [module] gives a script more than they do (below). *)
Inductive reachable (st : LuaState) : lvalue → Prop :=
  | reach_globals : reachable st (LTable (globals st))
  | reach_field t F k v :
      reachable st (LTable t) → heap st !! t = Some F → F !! k = Some v → reachable st v
  | reach_require name vs st' v :
      reachable st (LFunction (Rust CRequire)) →
      require_module name st = (Ok vs, st') → v ∈ vs → reachable st v.

Lemma resolve_reachable st path : ∀ v v',
  reachable st v → resolve st v path = v' → v' ≠ LNil → reachable st v'.
Proof.
  induction path as [|k path IH]; intros v v' Hr; simpl; [by intros <-|].
  destruct v as [| | |t|]; try congruence. intros Hv Hn.
  destruct (raw_get st t k) eqn:E; try (destruct path; simpl in Hv; congruence);
    (eapply IH; [|exact Hv|done]);
    (apply raw_get_Some in E as (F & HF & Hk); [|done]; by eapply reach_field).
Qed.

(** The functions a sandboxed script may call. *)
Definition permitted (f : lfunction) : bool :=
  match f with
  | Rust (CRequire | CEncode | CDecode | CSafeDecode) => true
  | Rust _ => false
  | Native None k => negb (bool_decide (k ∈ "require" :: removed))
  | Native (Some lib) k =>
      negb (bool_decide (lib ∈ removed)) &&
      (negb (bool_decide (lib = "os")) || bool_decide (k ∈ clock_functions)) &&
      negb (bool_decide (lib = "string") && bool_decide (k = "dump"))
  end.

(** The tables and functions of a sandboxed machine. *)
Definition inside (G : gmap string lvalue) (g os_t c s : nat) (v : lvalue) : Prop :=
  match v with
  | LTable t => t = g ∨ t = os_t ∨ t = c ∨ t = s ∨
      ∃ lib, lib ∉ removed ∧ lib ≠ "os" ∧ G !! lib = Some (LTable t)
  | LFunction f => permitted f = true
  | _ => True
  end.

Lemma permitted_library lib k :
  lib ∉ removed → (lib = "os" → k ∈ clock_functions) → (lib = "string" → k ≠ "dump") →
  permitted (Native (Some lib) k) = true.
Proof. intros. simpl. repeat case_bool_decide; naive_solver. Qed.

Lemma inside_flat G g os_t c s lib k v :
  (∀ t, v ≠ LTable t) ∧ (∀ f, v = LFunction f → f = Native (Some lib) k) →
  lib ∉ removed → (lib = "os" → k ∈ clock_functions) → (lib = "string" → k ≠ "dump") →
  inside G g os_t c s v.
Proof.
  intros [Ht Hf] Hl Ho Hs. destruct v as [| | |t|f]; try done; [by destruct (Ht t)|].
  simpl. rewrite (Hf f) by done. by apply permitted_library.
Qed.

Lemma inside_cjson G g os_t c s d k v :
  d = CDecode ∨ d = CSafeDecode → cjson_fields d !! k = Some v → inside G g os_t c s v.
Proof.
  intros Hd. unfold cjson_fields. rewrite lookup_insert_Some, lookup_singleton_Some.
  intros [[_ <-]|[_ [_ <-]]]; [|done]. by destruct Hd as [-> | ->].
Qed.

Lemma inside_field st0 G lim os_t str_t c s st st2 t F k v :
  lua_library st0 G → sandbox_vm st0 G lim os_t str_t c s st st2 →
  inside G (globals st0) os_t c s (LTable t) → heap st2 !! t = Some F → F !! k = Some v →
  inside G (globals st0) os_t c s v.
Proof.
  intros Hl [[Hf (G' & HG' & HK) (_ & os0 & Fo & D & HGo & HFo & HD & HR) (HGs & S & HS & HS')] Hc Hs _].
  simpl in *. intros [->|[->|[->|[->|(lib & Hlib & Hno & HGt)]]]] HF Hk.
  - rewrite HG' in HF. injection HF as <-. rewrite HK in Hk.
    case_decide; [done|]. case_decide; [by simplify_eq|]. case_decide; [simplify_eq; by right; left|].
    destruct v as [| | |t|f]; try done; [by do 4 right; eauto|].
    apply (ll_basic _ _ Hl) in Hk as ->. simpl. rewrite bool_decide_eq_false_2; [done|set_solver].
  - rewrite HD in HF. injection HF as <-. rewrite HR in Hk. case_decide as Hin; [|done].
    destruct (ll_library _ _ Hl _ _ HGo) as (_ & F' & HF' & Hflat); [not_listed|]. simplify_eq.
    eapply (inside_flat _ _ _ _ _ "os"); [by apply Hflat|not_listed|done|done].
  - rewrite Hc in HF. injection HF as <-. eapply inside_cjson; [by left|done].
  - rewrite Hs in HF. injection HF as <-. eapply inside_cjson; [by right|done].
  - destruct (ll_library _ _ Hl _ _ HGt Hlib) as (Hg & F' & HF' & Hflat).
    destruct (decide (lib = "string")) as [->|Hns].
    + rewrite HGt in HGs. injection HGs as ->. rewrite HS' in HF. injection HF as <-.
      apply lookup_delete_Some in Hk as [Hd Hk]. simplify_eq.
      eapply (inside_flat _ _ _ _ _ "string"); [by apply Hflat|done..|]. intros _. congruence.
    + assert (t ≠ str_t).
      { intros ->. apply Hns. eapply (ll_distinct _ _ Hl); [exact HGt|exact HGs|done|not_listed]. }
      rewrite (fr_heap _ _ _ Hf) in HF; simpl; [|apply (wf_next _ (ll_wf _ _ Hl)); eauto|naive_solver].
      simpl in HF. simplify_eq. eapply (inside_flat _ _ _ _ _ lib); [by apply Hflat|done..].
Qed.

Lemma named_registry_table_eq k st t :
  named_registry st !! k = Some (LTable t) → named_registry_table k st = (Ok (LTable t), st).
Proof. intros H. unfold named_registry_table, mbind, lua_bind, get_state. by rewrite H. Qed.

Lemma require_module_inside st0 G lim os_t str_t c s st st2 name vs st' v g :
  sandbox_vm st0 G lim os_t str_t c s st st2 →
  require_module name st = (Ok vs, st') → v ∈ vs → inside G g os_t c s v.
Proof.
  intros [_ _ _ ->]. unfold require_module. case_bool_decide; [|case_bool_decide; [|done]].
  all: unfold mbind, lua_bind; erewrite named_registry_table_eq.
  2: { simpl. rewrite lookup_insert_ne by not_listed. apply lookup_insert_eq. }
  3: apply lookup_insert_eq.
  all: intros [= <- <-]; rewrite list_elem_of_singleton; intros ->; simpl; auto.
Qed.

(** Field accesses and [require] alone lead to nothing that the sandbox takes
    away: every function a script can get hold of in these two ways is a permitted
    one.  No function of io, debug, package, ffi or jit, no loader of code, no
    [string.dump], and of [os] only the four clock functions; the closures
    among them are [require] and the JSON functions. *)
Theorem sandbox_confines (st0 st : LuaState) (G : gmap string lvalue) (lim : PluginLimits)
    (f : lfunction) :
  lua_library st0 G → create_sandboxed_vm st0 lim = Ok st →
  reachable st (LFunction f) → permitted f = true.
Proof.
  intros Hl Hc. destruct (create_sandboxed_vm_spec _ _ _ _ Hl Hc) as (os_t & str_t & c & s & st2 & Hvm).
  assert (Hg : globals st = globals st0).
  { destruct Hvm as [[Hf _ _ _] _ _ ->]. apply (fr_globals _ _ _ Hf). }
  assert (Hh : heap st = heap st2) by (by destruct Hvm as [_ _ _ ->]).
  assert (HI : ∀ v, reachable st v → inside G (globals st0) os_t c s v).
  { induction 1 as [|t F k v _ IH HF Hk|name vs st' v _ _ Hr Hv]; [simpl; auto| |].
    - rewrite Hh in HF. by eapply inside_field.
    - by eapply require_module_inside. }
  intros H%HI. exact H.
Qed.

(** [C13] The globals of a sandboxed machine are exactly these: the sandbox sets
    the limits, removes the listed globals, narrows [os] to its four clock
    functions and [string] by [dump], puts its own [require] in place, and leaves
    every other global and every other library as Lua provides them.  (What a
    script can do by calling the functions that are left is another question; see
    [module_escapes_sandbox].) *)
Theorem sandboxed_globals (st0 st : LuaState) (G : gmap string lvalue) (lim : PluginLimits) :
  lua_library st0 G → create_sandboxed_vm st0 lim = Ok st →
  memory_limit st = Some (PluginLimits.max_memory_bytes lim) ∧
  hook st = Some (PluginLimits.max_instructions lim) ∧
  (∀ k, k ∈ removed → global st [k] = LNil) ∧
  global st ["require"] = LFunction (Rust CRequire) ∧
  (∀ k, global st ["os"; k] =
     if decide (k ∈ clock_functions) then global st0 ["os"; k] else LNil) ∧
  (∀ k, global st ["string"; k] = if decide (k = "dump") then LNil else global st0 ["string"; k]) ∧
  (∀ k, k ∉ removed → k ∉ ["require"; "os"; "string"] →
     global st [k] = global st0 [k] ∧ ∀ k', global st [k; k'] = global st0 [k; k']).
Proof.
  intros Hl Hc. destruct (create_sandboxed_vm_spec _ _ _ _ Hl Hc) as (os_t & str_t & c & s & st2 & Hvm).
  destruct Hvm as [[Hf (G' & HG' & HK) (_ & os0 & Fo & D & HGo & HFo & HD & HR) (HGs & S & HS & HS')] _ _ ->].
  pose proof (fr_globals _ _ _ Hf) as Hg. simpl in *. unfold global, resolve, raw_get. simpl.
  rewrite Hg, HG', (ll_globals _ _ Hl). simpl. rewrite HGo, HGs.
  split; [done|]. split; [done|]. split; [|split; [|split; [|split]]].
  - intros k Hk. by rewrite HK, decide_True.
  - by rewrite HK, decide_False by not_listed.
  - intros k. rewrite HK, decide_False by not_listed. simpl. rewrite HD, HFo. simpl. rewrite HR.
    by case_decide.
  - intros k. rewrite HK, decide_False by not_listed. simpl. rewrite HGs. simpl. rewrite HS', HS.
    simpl. case_decide as Hk; [by rewrite Hk, lookup_delete_eq|by rewrite lookup_delete_ne].
  - intros k Hk Hno. rewrite HK, !decide_False by set_solver. split; [done|]. intros k'.
    destruct (G !! k) as [[| | |t|]|] eqn:HGk; try done. simpl.
    destruct (ll_library _ _ Hl _ _ HGk Hk) as (Hne & F & HF & _).
    rewrite (fr_heap _ _ _ Hf); [done|apply (wf_next _ (ll_wf _ _ Hl)); eauto|].
    intros [?|Hs]; [done|]. rewrite Hs in HGk. assert (k = "string"); [|set_solver].
    eapply (ll_distinct _ _ Hl); [exact HGk|exact HGs|done|not_listed].
Qed.

(** ** A way out

    LuaJIT's basic function [module] looks a name up in the table [_LOADED] of the
    registry (what [package.loaded] names too) and, when it finds a table there,
    makes it the environment of its caller: the caller's global names are then the
    fields of that table (to which it adds [_M], [_NAME] and [_PACKAGE]). *)
Definition module_environment (name : string) (st : LuaState) : lvalue :=
  match named_registry st !! "_LOADED" with
  | Some (LTable l) => raw_get st l name
  | _ => LNil
  end.
(** The registry lists the libraries, in a table of its own. *)
Definition lists_libraries (st : LuaState) (G : gmap string lvalue) : Prop :=
  ∃ l F, named_registry st !! "_LOADED" = Some (LTable l) ∧ heap st !! l = Some F ∧ l ≠ globals st ∧
    (∀ k, k ∉ removed → G !! k ≠ Some (LTable l)) ∧
    ∀ k t, G !! k = Some (LTable t) → k ≠ "_G" → F !! k = Some (LTable t).

(** [C22] The sandbox does not confine a plugin: [module] stays among the globals,
    and after the call [module(lib)], for any library Lua has, [os], [io] and [debug]
    included, the global names of the script are all the functions of that library
    ([string.dump] apart), as if nothing had been removed: after [module("os")] the
    name [execute] is [os.execute]. *)
Theorem module_escapes_sandbox (st0 st : LuaState) (G : gmap string lvalue) (lim : PluginLimits)
    (lib k : string) (t : nat) (f : lfunction) :
  lua_library st0 G → lists_libraries st0 G → create_sandboxed_vm st0 lim = Ok st →
  G !! lib = Some (LTable t) → lib ≠ "_G" → t ≠ globals st0 →
  global st0 [lib; k] = LFunction f → k ∉ ["dump"; "_M"; "_NAME"; "_PACKAGE"] →
  global st ["module"] = global st0 ["module"] ∧ resolve st (module_environment lib st) [k] = LFunction f.
Proof.
  intros Hl (l & F & Hreg & HF & Hlg & Hlib & Hlist) Hc HGl Hng Htg Hk0 Hd.
  destruct (create_sandboxed_vm_spec _ _ _ _ Hl Hc) as (os_t & str_t & c & s & st2 & Hvm).
  destruct Hvm as [[Hf (G' & HG' & HK) _ (HGs & S & HS & HS')] _ _ ->].
  pose proof (fr_globals _ _ _ Hf) as Hg. pose proof (fr_registry _ _ _ Hf) as Hrg. simpl in *.
  unfold global, resolve, raw_get in Hk0. rewrite (ll_globals _ _ Hl) in Hk0. simpl in Hk0. rewrite HGl in Hk0.
  simpl in Hk0. destruct (heap st0 !! t) as [T|] eqn:HT; [|done]. simpl in Hk0.
  assert (Hkeep : ∀ n X, heap st0 !! n = Some X → n ≠ globals st0 →
    heap st2 !! n = Some (if decide (n = str_t) then delete "dump" X else X)).
  { intros n X Hn Hne. case_decide as Hs; [subst n; by simplify_eq|].
    rewrite (fr_heap _ _ _ Hf); [done|apply (wf_next _ (ll_wf _ _ Hl)); eauto|naive_solver]. }
  split.
  - unfold global, resolve, raw_get. simpl. rewrite Hg, HG', (ll_globals _ _ Hl). simpl.
    by rewrite HK, !decide_False by not_listed.
  - unfold module_environment. simpl. rewrite !lookup_insert_ne by not_listed. rewrite Hrg. simpl. rewrite Hreg.
    unfold raw_get. simpl. rewrite (Hkeep _ _ HF Hlg), decide_False.
    + simpl. rewrite (Hlist _ _ HGl Hng). simpl. rewrite (Hkeep _ _ HT Htg). simpl.
      case_decide; [rewrite lookup_delete_ne by set_solver; done|done].
    + intros ->. eapply Hlib; [|exact HGs]. not_listed.
Qed.
End sandbox.

(** ** A Lua state *)
Module LuaStateModel.
(** A library whose operations succeed; a JSON document is a number. *)
#[export] Instance mlua_model : MluaLib nat := {|
  mlua_alloc _ := Ok tt;
  mlua_set_memory_limit _ := Ok tt;
  mlua_jit_off _ := Ok tt;
  mlua_to_value n st := (Ok (LInt (Z.of_nat n)), st);
  json_to_string _ v := match v with LInt n => Ok (fmt_int n) | _ => Err "not a number" end;
  json_from_str s := match parse_u16 s with Some n => Ok (Z.to_nat n) | None => Err "not a number" end
|}.

Definition basic : list string := ["assert"; "pcall"; "print"; "load"; "require"; "module"].
Definition libraries : list (string * list string) :=
  [("string", ["format"; "dump"]);
   ("os", ["clock"; "time"; "date"; "difftime"; "execute"]);
   ("io", ["open"]); ("math", ["floor"])].
Definition library_table (lib : string * list string) : gmap string lvalue :=
  list_to_map ((λ k, (k, LFunction (Native (Some lib.1) k))) <$> lib.2).
(** The globals are table 0, the libraries the tables after it, and table 5 is
    [_LOADED]. *)
Definition global_entries : list (string * lvalue) :=
  ((λ k, (k, LFunction (Native None k))) <$> basic) ++
  imap (λ i lib, (lib.1, LTable (S i))) libraries ++ [("_G", LTable 0); ("_VERSION", LStr "Lua 5.1")].
Definition fresh_globals : gmap string lvalue := list_to_map global_entries.
Definition loaded : gmap string lvalue := list_to_map (imap (λ i lib, (lib.1, LTable (S i))) libraries).
Definition fresh_lua : LuaState :=
  mk_state (<[0 := fresh_globals]> (<[5 := loaded]>
      (list_to_map (imap (λ i lib, (S i, library_table lib)) libraries))))
    6 0 {[ "_LOADED" := LTable 5 ]} None None ∅ [].

Lemma library_table_flat lib k v :
  library_table lib !! k = Some v →
  (∀ t, v ≠ LTable t) ∧ ∀ f, v = LFunction f → f = Native (Some lib.1) k.
Proof.
  intros H%elem_of_list_to_map_2. apply list_elem_of_fmap in H as (k' & [= -> ->] & _).
  split; [done|]. by intros f [= <-].
Qed.

Lemma fresh_globals_inv k v : fresh_globals !! k = Some v → (k, v) ∈ global_entries.
Proof. apply elem_of_list_to_map_2. Qed.

(** The library tables among the globals. *)
Lemma fresh_library k t : fresh_globals !! k = Some (LTable t) → k ∉ removed →
  ∃ i lib, t = S i ∧ libraries !! i = Some lib ∧ k = lib.1.
Proof.
  intros H%fresh_globals_inv Hk. unfold global_entries in H.
  rewrite !elem_of_app, list_elem_of_fmap in H. destruct H as [(k' & [=] & _)|[H|H]].
  - apply elem_of_lookup_imap in H as (i & lib & [= -> ->] & Hi). eauto.
  - apply elem_of_cons in H as [[= -> _]|H]; [destruct Hk; not_listed|].
    apply list_elem_of_singleton in H. done.
Qed.

Lemma fresh_lua_library : lua_library fresh_lua fresh_globals.
Proof.
  split.
  - split; [|by eexists]. intros t. cbn [heap fresh_lua next_table]. rewrite !lookup_insert_is_Some.
    intros [<-|[_ [<-|[_ [F HF%elem_of_list_to_map_2]]]]]; [lia..|].
    apply elem_of_lookup_imap in HF as (i & lib & [= -> _] & Hi). apply lookup_lt_Some in Hi.
    unfold libraries in Hi. simpl in Hi. lia.
  - reflexivity.
  - intros k f H%fresh_globals_inv. unfold global_entries in H.
    rewrite !elem_of_app, list_elem_of_fmap in H. destruct H as [(k' & [= -> ->] & _)|[H|H]]; [done|..].
    + by apply elem_of_lookup_imap in H as (i & lib & [=] & Hi).
    + by do 2 (apply elem_of_cons in H as [[=]|H]); apply elem_of_nil in H.
  - intros k t H Hk. destruct (fresh_library _ _ H Hk) as (i & lib & -> & Hi & ->). split; [done|].
    exists (library_table lib). split; [|by apply library_table_flat].
    do 4 (destruct i as [|i]; [by injection Hi as <-|]). done.
  - intros k k' t H H' Hk Hk'. destruct (fresh_library _ _ H Hk) as (i & lib & -> & Hi & ->).
    destruct (fresh_library _ _ H' Hk') as (i' & lib' & [= <-] & Hi' & ->). congruence.
Qed.

Lemma fresh_lua_lists : lists_libraries fresh_lua fresh_globals.
Proof.
  exists 5, loaded. split; [done|]. split; [done|]. split; [done|]. split.
  - intros k Hk H. destruct (fresh_library _ _ H Hk) as (i & lib & [= <-] & Hi & _). done.
  - intros k t H%fresh_globals_inv Hk. unfold global_entries in H.
    rewrite !elem_of_app, list_elem_of_fmap in H. destruct H as [(k' & [=] & _)|[H|H]].
    + apply elem_of_lookup_imap in H as (i & lib & [= -> ->] & Hi).
      do 4 (destruct i as [|i]; [by injection Hi as <-|]). done.
    + apply elem_of_cons in H as [[= -> _]|H]; [done|]. by apply list_elem_of_singleton in H.
Qed.

Definition sandboxed_lua : LuaState :=
  unwrap_or fresh_lua (create_sandboxed_vm fresh_lua PluginLimits.PluginLimits_default).
Lemma sandboxed_lua_created : create_sandboxed_vm fresh_lua PluginLimits.PluginLimits_default = Ok sandboxed_lua.
Proof. apply ok_unwrap_or. vm_compute. reflexivity. Qed.
End LuaStateModel.
Import LuaStateModel.

Lemma sandboxed_globals_witness :
  global fresh_lua ["io"; "open"] = LFunction (Native (Some "io") "open") ∧
  global sandboxed_lua ["io"] = LNil ∧
  global sandboxed_lua ["math"; "floor"] = LFunction (Native (Some "math") "floor").
Proof.
  destruct (sandboxed_globals fresh_lua sandboxed_lua fresh_globals PluginLimits.PluginLimits_default
              fresh_lua_library sandboxed_lua_created) as (_ & _ & Hr & _ & _ & _ & Hk).
  split; [reflexivity|]. split; [apply Hr; not_listed|].
  rewrite (proj2 (Hk "math" ltac:(not_listed) ltac:(not_listed))). reflexivity.
Defined.

Lemma module_escapes_sandbox_witness :
  global sandboxed_lua ["os"; "execute"] = LNil ∧
  global sandboxed_lua ["module"] = LFunction (Native None "module") ∧
  resolve sandboxed_lua (module_environment "os" sandboxed_lua) ["execute"] =
    LFunction (Native (Some "os") "execute").
Proof.
  split; [vm_compute; reflexivity|].
  exact (module_escapes_sandbox fresh_lua sandboxed_lua fresh_globals PluginLimits.PluginLimits_default
           "os" "execute" 2 (Native (Some "os") "execute") fresh_lua_library fresh_lua_lists
           sandboxed_lua_created eq_refl ltac:(discriminate) ltac:(discriminate) eq_refl ltac:(not_listed)).
Defined.
