(* ===== verification/GatewayApiSpec.v ===== *)
(** * The gateway API tables: properties

    [plugins/sdk.rs]: the tables [install_gateway] puts into a Lua state give a
    script the answers and effects that [Plugins] ascribes to the gateway
    API. *)
From S2P Require Import Prelude RustStr F64 Yaml ConfigTypes Plugins PluginsSpec Sandbox SandboxSpec.

(** ** The tables of the gateway API *)

(** A table with its fields, newer than [g]; such facts survive every change
    of other tables. *)
Definition table_above (g t : nat) (F : gmap string lvalue) (st : LuaState) : Prop :=
  heap st !! t = Some F ∧ g < t < next_table st.
Definition stable (g : nat) (P : LuaState → Prop) : Prop :=
  ∀ st st', P st → frame (λ t, t = g) st st' → P st'.

Lemma table_above_stable g t F : stable g (table_above g t F).
Proof.
  intros st st' [Ht Hlt] Hf. pose proof (fr_next _ _ _ Hf). split; [|lia].
  rewrite (fr_heap _ _ _ Hf); [done|lia|lia].
Qed.
Lemma stable_and g (P Q : LuaState → Prop) : stable g P → stable g Q → stable g (λ st, P st ∧ Q st).
Proof. intros HP HQ st st' [??] Hf. split; [by eapply HP|by eapply HQ]. Qed.
Lemma stable_exist {A} g (P : A → LuaState → Prop) : (∀ a, stable g (P a)) → stable g (λ st, ∃ a, P a st).
Proof. intros HP st st' [a ?] Hf. exists a. by eapply HP. Qed.
Ltac solve_stable :=
  intros ?; cbv beta;
  repeat first [apply table_above_stable | apply stable_exist; intros ? | apply stable_and].

(** The operations of [mlua] on values only allocate. *)
Class MluaLaws {JsonValue} (M : MluaLib JsonValue) : Prop := {
  to_value_frame v st : post (mlua_to_value v) (λ _ st', frame (λ _, False) st st') st;
  to_value_cells v st : cells (mlua_to_value v st).2 = cells st
}.

Definition closure (c : callback) : lvalue := LFunction (Rust c).
Definition fields (l : list (string * lvalue)) : gmap string lvalue :=
  foldl (λ F kv, set_field kv.1 kv.2 F) ∅ l.

Section api.
Context `{V : LuaVm} `{M : !MluaLib JsonValue}.

(** A builder leaves a new table with the given facts. *)
Definition builds (m : lua nat) (R : nat → nat → LuaState → Prop) : Prop :=
  ∀ g st, g < next_table st → post m (λ t st', frame (λ _, False) st st' ∧ R g t st') st.

(** Run a builder and read its tables off the heap. *)
Ltac read_table :=
  split; [|simpl; lia]; simpl;
  rewrite ?lookup_alter_eq, ?lookup_alter_ne, ?lookup_insert_eq, ?lookup_insert_ne by lia;
  rewrite ?lookup_alter_eq, ?lookup_insert_eq; reflexivity.
Ltac run_builder :=
  intros g st Hg; repeat lua_step; split; [frame_tac|].

Lemma build_request_api_builds req :
  builds (build_request_api req) (λ g t, table_above g t (fields
    [("get_header", closure (CGetHeader (PluginRequest.headers req)));
     ("get_method", closure (CConst (PluginRequest.method req)));
     ("get_path", closure (CConst (PluginRequest.path req)));
     ("get_host", closure (CConst (PluginRequest.host req)))])).
Proof. unfold build_request_api. run_builder. read_table. Qed.

Lemma build_response_api_builds r n :
  builds (build_response_api r n) (λ g t, table_above g t (fields
    [("set_header", closure (CResponseSetHeader r)); ("exit", closure (CExit r n))])).
Proof. unfold build_response_api. run_builder. read_table. Qed.

Lemma build_service_api_builds r :
  builds (build_service_api r) (λ g t st, ∃ q,
    table_above g t (fields [("request", LTable q)]) st ∧
    table_above g q (fields [("set_header", closure (CServiceSetHeader r))]) st).
Proof.
  unfold build_service_api. run_builder. exists (S (next_table st)). split; read_table.
Qed.

Lemma build_log_api_builds :
  builds build_log_api (λ g t, table_above g t (fields
    ((λ l, (l, closure (CLog l))) <$> ["debug"; "info"; "warn"; "error"]))).
Proof. unfold build_log_api. cbn [for_each_lua]. run_builder. read_table. Qed.

Lemma build_ctx_api_builds shared status :
  builds (build_ctx_api shared status) (λ g t, table_above g t (fields
    (("shared", LTable shared) ::
     match status with Some n => [("response_status", LInt n)] | None => [] end))).
Proof. unfold build_ctx_api. destruct status; run_builder; read_table. Qed.

Lemma build_route_api_builds req :
  builds (build_route_api req) (λ g t, table_above g t (fields
    [("get_name", closure (CConst (PluginRequest.route_name req)))])).
Proof. unfold build_route_api. run_builder. read_table. Qed.

Context `{L : !MluaLaws M}.

Lemma build_plugin_api_builds (b : PluginBinding) :
  builds (build_plugin_api b) (λ g t st, ∃ cfg, table_above g t (fields
    [("get_name", closure (CConst (name b))); ("get_version", closure (CConst (version b)));
     ("get_config", cfg)]) st).
Proof.
  unfold build_plugin_api. intros g st Hg. repeat lua_step.
  eapply post_mono; [apply to_value_frame|]. simpl. intros cfg st1 Hf. repeat lua_step.
  pose proof (fr_next _ _ _ Hf) as Hn. simpl in Hn. split.
  - apply frame_set_then; [|lia]. eapply frame_then; [|exact Hf|tauto]. frame_tac.
  - exists cfg. split; [|simpl; lia]. simpl. rewrite lookup_alter_eq, (fr_heap _ _ _ Hf); simpl; [|lia|tauto].
    by rewrite !lookup_alter_eq, lookup_insert_eq.
Qed.

(** One entry of the gateway table. *)
Lemma post_entry {B} g k (m : lua nat) (R : nat → nat → LuaState → Prop) gf (rest : lua B) Q st :
  builds m R → (∀ t, stable g (R g t)) →
  heap st !! g = Some gf → g < next_table st →
  (∀ t st', frame (λ x, x = g) st st' → R g t st' →
     heap st' !! g = Some (<[k := LTable t]> gf) → g < next_table st' → post rest Q st') →
  post (t ← m; _ ← table_set g k (LTable t); rest) Q st.
Proof.
  intros Hb Hst Hg Hlt Hrest. apply post_bind. eapply post_mono; [by apply (Hb g)|].
  intros t st1 [Hf HR]. apply post_bind, post_table_set.
  pose proof (fr_next _ _ _ Hf). apply (Hrest t); simpl; [| | |lia].
  - apply frame_set_then; [|done]. eapply frame_weaken; [|done]. by intros ? ? [].
  - eapply Hst; [done|]. by apply frame_set.
  - rewrite lookup_alter_eq, (fr_heap _ _ _ Hf), Hg; [done|done|tauto].
Qed.

(** What the paths of the API lead to. *)
Definition query_value (req : PluginRequest) (b : PluginBinding) (status : option Z) (q : query)
    : lvalue :=
  match q with
  | QHeader _ => closure (CGetHeader (PluginRequest.headers req))
  | QMethod => closure (CConst (PluginRequest.method req))
  | QPath => closure (CConst (PluginRequest.path req))
  | QHost => closure (CConst (PluginRequest.host req))
  | QRouteName => closure (CConst (PluginRequest.route_name req))
  | QPluginName => closure (CConst (name b))
  | QPluginVersion => closure (CConst (version b))
  | QResponseStatus => match status with Some n => LInt n | None => LNil end
  end.

Record api_installed (req : PluginRequest) (b : PluginBinding) (r : nat) (status : option Z)
    (st : LuaState) : Prop := {
  ai_query q : global st (path_of q) = query_value req b status q;
  ai_response : global st ["gateway"; "response"; "set_header"] = closure (CResponseSetHeader r);
  ai_exit : global st ["gateway"; "response"; "exit"] = closure (CExit r (name b));
  ai_service : global st ["gateway"; "service"; "request"; "set_header"] =
    closure (CServiceSetHeader r);
  ai_log l : global st ["gateway"; "log"; l] = if decide (l ∈ log_levels) then closure (CLog l) else LNil
}.

Lemma resolve_table st t F k path :
  heap st !! t = Some F → resolve st (LTable t) (k :: path) = resolve st (default LNil (F !! k)) path.
Proof. intros H. simpl. unfold raw_get. by rewrite H. Qed.

(** The tables [install_gateway] builds, by their locations. *)
Record gateway_tables (req : PluginRequest) (b : PluginBinding) (shared r : nat)
    (status : option Z) (g rq rs sv q lg cx rt pl : nat) (cfg : lvalue) (st : LuaState) : Prop := {
  gt_gateway : heap st !! g = Some (fields
    [("request", LTable rq); ("response", LTable rs); ("service", LTable sv); ("log", LTable lg);
     ("ctx", LTable cx); ("route", LTable rt); ("plugin", LTable pl)]);
  gt_request : heap st !! rq = Some (fields
    [("get_header", closure (CGetHeader (PluginRequest.headers req)));
     ("get_method", closure (CConst (PluginRequest.method req)));
     ("get_path", closure (CConst (PluginRequest.path req)));
     ("get_host", closure (CConst (PluginRequest.host req)))]);
  gt_response : heap st !! rs = Some (fields
    [("set_header", closure (CResponseSetHeader r)); ("exit", closure (CExit r (name b)))]);
  gt_service : heap st !! sv = Some (fields [("request", LTable q)]);
  gt_service_request : heap st !! q = Some (fields [("set_header", closure (CServiceSetHeader r))]);
  gt_log : heap st !! lg = Some (fields
    ((λ l, (l, closure (CLog l))) <$> ["debug"; "info"; "warn"; "error"]));
  gt_ctx : heap st !! cx = Some (fields (("shared", LTable shared) ::
    match status with Some n => [("response_status", LInt n)] | None => [] end));
  gt_route : heap st !! rt = Some (fields [("get_name", closure (CConst (PluginRequest.route_name req)))]);
  gt_plugin : heap st !! pl = Some (fields
    [("get_name", closure (CConst (name b))); ("get_version", closure (CConst (version b)));
     ("get_config", cfg)])
}.

(** The last assignment of a field counts. *)
Fixpoint last_assigned (k : string) (l : list (string * lvalue)) (v : lvalue) : lvalue :=
  match l with
  | [] => v
  | kv :: l => last_assigned k l (if decide (kv.1 = k) then kv.2 else v)
  end.

Lemma set_field_lookup k v F k' :
  default LNil (set_field k v F !! k') = if decide (k = k') then v else default LNil (F !! k').
Proof.
  case_decide as Hk; [subst k'|].
  - destruct v; simpl; by rewrite ?lookup_insert_eq, ?lookup_delete_eq.
  - destruct v; simpl; by rewrite ?lookup_insert_ne, ?lookup_delete_ne.
Qed.

Lemma fields_lookup l k : default LNil (fields l !! k) = last_assigned k l LNil.
Proof.
  unfold fields. assert (G : ∀ F v, default LNil (F !! k) = v →
    default LNil (foldl (λ F kv, set_field kv.1 kv.2 F) F l !! k) = last_assigned k l v).
  { induction l as [|[k' w] l IH]; intros F v Hv; simpl; [done|]. apply IH.
    rewrite set_field_lookup. by case_decide. }
  by apply G.
Qed.

Lemma follow st t l k path :
  heap st !! t = Some (fields l) →
  resolve st (LTable t) (k :: path) = resolve st (last_assigned k l LNil) path.
Proof. intros H. by rewrite (resolve_table _ _ _ _ _ H), fields_lookup. Qed.

Lemma gateway_tables_api req b shared r status g rq rs sv q lg cx rt pl cfg st :
  gateway_tables req b shared r status g rq rs sv q lg cx rt pl cfg st →
  global st ["gateway"] = LTable g → api_installed req b r status st.
Proof.
  intros [T1 T2 T3 T4 T5 T6 T7 T8 T9] Hg.
  assert (Hp : ∀ k path, global st ("gateway" :: k :: path) = resolve st (LTable g) (k :: path))
    by (intros k path; unfold global in *; simpl in Hg |- *; by rewrite Hg).
  split.
  - intros qq. unfold path_of. destruct qq; rewrite Hp, (follow _ _ _ _ _ T1);
      [rewrite (follow _ _ _ _ _ T2) ..|rewrite (follow _ _ _ _ _ T8)
      |rewrite (follow _ _ _ _ _ T9)|rewrite (follow _ _ _ _ _ T9)|rewrite (follow _ _ _ _ _ T7)];
      try reflexivity. by destruct status.
  - by rewrite Hp, (follow _ _ _ _ _ T1), (follow _ _ _ _ _ T3).
  - by rewrite Hp, (follow _ _ _ _ _ T1), (follow _ _ _ _ _ T3).
  - by rewrite Hp, (follow _ _ _ _ _ T1), (follow _ _ _ _ _ T4), (follow _ _ _ _ _ T5).
  - intros l. rewrite Hp, (follow _ _ _ _ _ T1), (resolve_table _ _ _ _ _ T6). case_decide as Hl.
    + repeat (apply elem_of_cons in Hl as [->|Hl]; [reflexivity|]). by apply elem_of_nil in Hl.
    + unfold fields, log_levels in *. cbn [fmap list_fmap foldl set_field closure fst snd].
      rewrite !lookup_insert_ne by set_solver. by rewrite lookup_empty.
Qed.

(** Facts about tables, moved along a frame. *)
Lemma table_above_heap g t F st : table_above g t F st → heap st !! t = Some F ∧ g < t.
Proof. by intros [? [? _]]. Qed.

Lemma post_gateway_tables {B} req (b : PluginBinding) shared r status (rest : nat → lua B) Q st0 :
  (∀ g rq rs sv q lg cx rt pl cfg st,
     gateway_tables req b shared r status g rq rs sv q lg cx rt pl cfg st →
     Forall (λ t, next_table st0 ≤ t) [g; rq; rs; sv; q; lg; cx; rt; pl] →
     frame (λ _, False) st0 st → post (rest g) Q st) →
  post (gateway ← create_table;
        t ← build_request_api req; _ ← table_set gateway "request" (LTable t);
        t ← build_response_api r (name b); _ ← table_set gateway "response" (LTable t);
        t ← build_service_api r; _ ← table_set gateway "service" (LTable t);
        t ← build_log_api; _ ← table_set gateway "log" (LTable t);
        t ← build_ctx_api shared status; _ ← table_set gateway "ctx" (LTable t);
        t ← build_route_api req; _ ← table_set gateway "route" (LTable t);
        t ← build_plugin_api b; _ ← table_set gateway "plugin" (LTable t); rest gateway) Q st0.
Proof.
  intros Hrest. apply post_bind, post_create_table. set (g := next_table st0).
  apply (post_entry g _ _ _ ∅ _ _ _ (build_request_api_builds req));
    [solve_stable|apply lookup_insert_eq|simpl; lia|]. intros rq st1 F1 R1 H1 L1.
  apply (post_entry g _ _ _ _ _ _ _ (build_response_api_builds r (name b)) ltac:(solve_stable) H1 L1).
  intros rs st2 F2 R2 H2 L2.
  apply (post_entry g _ _ _ _ _ _ _ (build_service_api_builds r) ltac:(solve_stable) H2 L2).
  intros sv st3 F3 (q & R3 & R3q) H3 L3.
  apply (post_entry g _ _ _ _ _ _ _ build_log_api_builds ltac:(solve_stable) H3 L3).
  intros lg st4 F4 R4 H4 L4.
  apply (post_entry g _ _ _ _ _ _ _ (build_ctx_api_builds shared status) ltac:(solve_stable) H4 L4).
  intros cx st5 F5 R5 H5 L5.
  apply (post_entry g _ _ _ _ _ _ _ (build_route_api_builds req) ltac:(solve_stable) H5 L5).
  intros rt st6 F6 R6 H6 L6.
  apply (post_entry g _ _ _ _ _ _ _ (build_plugin_api_builds b) ltac:(solve_stable) H6 L6).
  intros pl st7 F7 (cfg & R7) H7 L7.
  pose proof (λ t F R, table_above_stable g t F st6 st7 R F7) as S6.
  pose proof (λ t F R, S6 t F (table_above_stable g t F st5 st6 R F6)) as S5.
  pose proof (λ t F R, S5 t F (table_above_stable g t F st4 st5 R F5)) as S4.
  pose proof (λ t F R, S4 t F (table_above_stable g t F st3 st4 R F4)) as S3.
  pose proof (λ t F R, S3 t F (table_above_stable g t F st2 st3 R F3)) as S2.
  pose proof (λ t F R, S2 t F (table_above_stable g t F st1 st2 R F2)) as S1.
  apply S1, table_above_heap in R1 as []. apply S2, table_above_heap in R2 as [].
  apply S3, table_above_heap in R3 as []. apply S3, table_above_heap in R3q as [].
  apply S4, table_above_heap in R4 as []. apply S5, table_above_heap in R5 as [].
  apply S6, table_above_heap in R6 as []. apply table_above_heap in R7 as [].
  apply (Hrest g rq rs sv q lg cx rt pl cfg st7); [by split|repeat constructor; lia|].
  assert (F : frame (λ t, t = g) (fresh_table st0) st7)
    by (do 6 (eapply heap_frame_trans; [eassumption|]); eassumption).
  eapply frame_then; [apply frame_fresh|exact F|]. subst g. simpl. lia.
Qed.

Lemma post_install_gateway req (b : PluginBinding) shared r status st0 G :
  wf st0 → heap st0 !! globals st0 = Some G →
  post (install_gateway req b shared r status)
    (λ g st, api_installed req b r status st ∧ frame (λ t, t = globals st0) st0 st ∧
             heap st !! globals st0 = Some (<["gateway" := LTable g]> G)) st0.
Proof.
  intros Hwf HG.
  apply (post_gateway_tables req b shared r status
           (λ g, _ ← globals_set "gateway" (LTable g); mret g)).
  intros g rq rs sv q lg cx rt pl cfg st [T1 T2 T3 T4 T5 T6 T7 T8 T9] Hnew Hf.
  apply post_bind, post_globals_set, post_ret. pose proof (fr_globals _ _ _ Hf) as Hgl.
  assert (Hlt : globals st0 < next_table st0) by (apply (wf_next _ Hwf); eauto).
  assert (HG' : heap st !! globals st0 = Some G) by (by rewrite (fr_heap _ _ _ Hf); [|done|tauto]).
  repeat apply Forall_cons in Hnew as [? Hnew]. rewrite Hgl.
  split; [|split; [apply frame_set_then; [|done]; eapply frame_weaken; [|exact Hf]; by intros ? ? []|]].
  - eapply (gateway_tables_api _ _ shared _ _ g rq rs sv q lg cx rt pl cfg).
    + split; simpl; rewrite lookup_alter_ne by lia; done.
    + unfold global. simpl. unfold raw_get. simpl. rewrite Hgl, lookup_alter_eq, HG'. simpl.
      by rewrite lookup_insert_eq.
  - simpl. by rewrite lookup_alter_eq, HG'.
Qed.

(** ** Running a script through the tables *)
Lemma api_installed_heap req b r status st st' :
  api_installed req b r status st → heap st' = heap st → globals st' = globals st →
  api_installed req b r status st'.
Proof.
  intros [H1 H2 H3 H4 H5] Hh Hg.
  assert (Hr : ∀ path v, resolve st' v path = resolve st v path).
  { induction path as [|k path IH]; intros v; simpl; [done|]. destruct v; try done.
    rewrite IH. unfold raw_get. by rewrite Hh. }
  assert (Hgl : ∀ path, global st' path = global st path)
    by (intros path; unfold global; by rewrite Hg, Hr).
  split; intros; rewrite Hgl; auto.
Qed.

Lemma ask_answers req b r status st q :
  api_installed req b r status st →
  ∃ vs, ask q st = (Ok vs, st) ∧ answer_of vs = answer_query req b status q.
Proof.
  intros Ha. unfold ask, mbind, lua_bind, get_state. rewrite (ai_query _ _ _ _ _ Ha).
  destruct q; simpl; try (eexists; split; [reflexivity|reflexivity]).
  - eexists. split; [reflexivity|]. by destruct (iter_find _ _) as [[??]|].
  - destruct status; eexists; split; reflexivity.
Qed.

Lemma call_gateway_eq path a st c :
  global st ("gateway" :: path) = closure c → call_gateway path a st = call_callback c a st.
Proof. intros H. unfold call_gateway, mbind, lua_bind, get_state. by rewrite H. Qed.

Lemma update_cell_eq {A} r f st s :
  cells st !! r = Some s →
  update_cell (A := A) r f st = ((f s).1, set_cells (insert r (f s).2) st).
Proof.
  intros H. unfold update_cell, mbind, lua_bind, get_state. rewrite H. by destruct (f s).
Qed.

(** The gateway API through the tables and as [run_script] runs it agree. *)
Lemma run_tables_run_script req b r status sc : ∀ st s,
  api_installed req b r status st → cells st !! r = Some s →
  ∃ st', run_tables sc st = Some (((run_script req b status sc s).1.1, st'),
                                  (run_script req b status sc s).2) ∧
    cells st' !! r = Some (run_script req b status sc s).1.2 ∧
    heap st' = heap st ∧ globals st' = globals st.
Proof.
  induction sc as [vm|vm e|q k IH|n v k IH|n v k IH|code body k IH|l m k IH];
    intros st s Ha Hs; cbn [run_tables run_script]; try (by eexists).
  - destruct (ask_answers _ _ _ _ _ q Ha) as (vs & -> & ->). by apply IH.
  - rewrite (call_gateway_eq _ _ _ _ (ai_response _ _ _ _ _ Ha)). cbn [call_callback].
    unfold mbind, lua_bind. rewrite (update_cell_eq _ _ _ _ Hs). cbn [fst snd mret lua_ret].
    apply (IH (set_cells (insert r (response_set_header n v s)) st));
      [by eapply api_installed_heap|apply lookup_insert_eq].
  - rewrite (call_gateway_eq _ _ _ _ (ai_service _ _ _ _ _ Ha)). cbn [call_callback].
    unfold mbind, lua_bind. rewrite (update_cell_eq _ _ _ _ Hs).
    destruct (service_set_header n v s) as [[[]|e] s'] eqn:E; cbn [fst snd];
      (apply (IH _ (set_cells (insert r s') st));
        [by eapply api_installed_heap|apply lookup_insert_eq]).
  - rewrite (call_gateway_eq _ _ _ _ (ai_exit _ _ _ _ _ Ha)). cbn [call_callback].
    rewrite (update_cell_eq _ _ _ _ Hs). unfold response_exit. cbn [fst snd].
    apply (IH _ (set_cells (insert r _) st));
      [by eapply api_installed_heap|apply lookup_insert_eq].
  - pose proof (ai_log _ _ _ _ _ Ha l) as Hl. unfold log_call. case_decide as Hin.
    + rewrite (call_gateway_eq _ _ _ _ Hl), bool_decide_eq_true_2 by done.
      cbn [call_callback]. unfold mbind, lua_bind, modify. cbn [mret lua_ret].
      apply (IH _ (set_logged _ st)); [by eapply api_installed_heap|done].
    + rewrite bool_decide_eq_false_2 by done. unfold call_gateway, mbind, lua_bind, get_state. rewrite Hl.
      by apply IH.
Qed.

(** [C29] The tables a plugin sees implement the gateway API: after
    [install_gateway], a script whose calls go through the tables of [gateway]
    and their closures computes the same result and leaves the same runtime
    state as the API's own definition, whatever calls of the API the script makes,
    calls of a log level that does not exist included; and clearing [gateway]
    afterwards gives back the globals there were before. *)
Theorem install_gateway_refines (req : PluginRequest) (b : PluginBinding) (shared r : nat)
    (status : option Z) (sc : script Vm) (s : RuntimeState) (st0 st : LuaState) (g : nat) :
  wf st0 → cells st0 !! r = Some s →
  install_gateway req b shared r status st0 = (Ok g, st) →
  ∃ st', run_tables sc st = Some ((run_script req b status sc s).1.1, st',
                                  (run_script req b status sc s).2) ∧
    cells st' !! r = Some (run_script req b status sc s).1.2 ∧
    ∀ st'', clear_gateway st' = (Ok tt, st'') →
      ∀ k, global st'' [k] = if decide (k = "gateway") then LNil else global st0 [k].
Proof.
  intros Hwf Hs Hi. destruct (wf_globals _ Hwf) as [G HG].
  destruct (post_use _ _ _ _ _ (post_install_gateway req b shared r status st0 G Hwf HG) Hi)
    as (Ha & Hf & HG1).
  destruct (run_tables_run_script req b r status sc st s Ha) as (st' & Hr & Hc & Hh & Hg);
    [by rewrite (fr_cells _ _ _ Hf)|].
  exists st'. split; [done|]. split; [done|]. intros st'' Hcl k.
  rewrite (fr_globals _ _ _ Hf) in Hg.
  assert (HP : post clear_gateway (λ _ st2, st2 = set_heap (alter (delete "gateway") (globals st0)) st') st').
  { apply post_globals_set. by rewrite Hg. }
  rewrite (post_use _ _ _ _ _ HP Hcl). unfold global. simpl. unfold raw_get. simpl.
  rewrite Hg, lookup_alter_eq, Hh, HG1, HG. simpl.
  case_decide as Hk; [by rewrite Hk, lookup_delete_eq|].
  by rewrite lookup_delete_ne, lookup_insert_ne.
Qed.

(** Closures kept from an earlier chain stay harmless: a call changes no
    runtime state but the one its closure captured. *)
Definition captured (c : callback) : option nat :=
  match c with
  | CResponseSetHeader r | CExit r _ | CServiceSetHeader r => Some r
  | _ => None
  end.

Lemma update_cell_others {A} r (f : RuntimeState → result LuaError A * RuntimeState) st r' :
  r ≠ r' → cells (update_cell r f st).2 !! r' = cells st !! r'.
Proof.
  intros Hr. unfold update_cell, mbind, lua_bind, get_state. destruct (cells st !! r) as [s|]; [|done].
  destruct (f s) as [x s']. by apply lookup_insert_ne.
Qed.

Lemma bind_ret_cells {A B} (m : lua A) (h : A → B) st : (a ← m; mret (h a)) st =
  ((λ a, h a) <$> (m st).1, (m st).2).
Proof. unfold mbind, lua_bind. by destruct (m st) as [[a|e] st']. Qed.

Theorem closures_keep_to_their_cell (c : callback) (a : cargs) (st : LuaState) (r' : nat) :
  captured c ≠ Some r' → cells (call_callback c a st).2 !! r' = cells st !! r'.
Proof.
  intros Hc. destruct c, a; cbn [call_callback captured] in *; try done.
  - unfold require_module, named_registry_table.
    repeat case_bool_decide; rewrite ?bind_ret_cells; try done;
      unfold mbind, lua_bind, get_state, lift; by destruct (to_table _).
  - unfold mbind, lua_bind, get_state, lift. by destruct (json_to_string st v).
  - unfold decode, mbind at 1, lua_bind at 1, lift. destruct (json_from_str s); [|done]. simpl.
    rewrite bind_ret_cells. simpl. by rewrite to_value_cells.
  - unfold safe_decode. destruct (json_from_str s); [|done].
    rewrite bind_ret_cells. simpl. by rewrite to_value_cells.
  - rewrite bind_ret_cells. apply update_cell_others. congruence.
  - apply update_cell_others. congruence.
  - rewrite bind_ret_cells. apply update_cell_others. congruence.
Qed.
End api.

Import LuaStateModel.

(** A chain with one runtime state, and the plugin of the engine's samples. *)
#[export] Instance mlua_model_laws : MluaLaws mlua_model.
Proof. split; [|done]. intros v st. apply heap_frame_refl. Qed.

Import LuaVmModel.
Definition lua_with_cell : LuaState := set_cells (λ _, {[ 0 := RuntimeState.new ]}) fresh_lua.
Definition sample_binding : @PluginBinding lua_vm_model := binding "tag" "tag".
Definition sample_script : script unit :=
  SetServiceHeader "X-Tag" "1" (λ _, LogMessage "trace" "not a level" (λ _,
    SetServiceHeader "X-Auth-Sub" "root" (λ _, Return tt))).
Definition installed : result LuaError nat * LuaState :=
  install_gateway (V := lua_vm_model) sample_request sample_binding 1 0 None lua_with_cell.

Lemma install_gateway_refines_witness :
  ∃ st', run_tables (V := lua_vm_model) sample_script installed.2 = Some (Ok tt, st', tt) ∧
    (RuntimeState.upstream_headers <$> cells st' !! 0) = Some {[ "x-tag" := "1" ]}.
Proof.
  assert (Hwf : wf lua_with_cell) by (destruct (ll_wf _ _ fresh_lua_library); split; assumption).
  assert (Hi : install_gateway (V := lua_vm_model) sample_request sample_binding 1 0 None
                 lua_with_cell = (Ok 6, installed.2)).
  { apply injective_projections; [vm_compute; reflexivity|reflexivity]. }
  destruct (install_gateway_refines (V := lua_vm_model) sample_request sample_binding 1 0 None
              sample_script RuntimeState.new lua_with_cell installed.2 6 Hwf eq_refl Hi)
    as (st' & Hr & Hc & _).
  exists st'. split; [exact Hr|]. rewrite Hc. vm_compute. reflexivity.
Defined.
