(* ===== verification/Http.v ===== *)
(** * HTTP vocabulary

    The [http] crate's header map is the interface [HeaderLib], with the laws
    the proofs use in [HeaderLaws] and an implementation by finite maps in
    [HeaderModel]; responses are a status, headers and a body.  (The framework
    adds the content type of a JSON body.) *)
From S2P Require Import Prelude RustStr.
From Stdlib Require Import Ascii.

Class HeaderLib := {
  HeaderMap : Type;
  HeaderValue : Type;
  (** [HeaderMap::new()], [headers.get(name)], [headers.insert(name, value)],
      [headers.iter()] *)
  hm_new : HeaderMap;
  hm_get : HeaderMap → string → option HeaderValue;
  hm_insert : HeaderMap → string → HeaderValue → HeaderMap;
  hm_iter : HeaderMap → list (string * HeaderValue);
  (** [value.to_str()], [s.parse::<HeaderValue>()], [s.parse::<HeaderName>()]
      (the name in its canonical lower-case form) *)
  hv_to_str : HeaderValue → option string;
  hv_parse : string → option HeaderValue;
  hn_parse : string → option string
}.

Class HeaderLaws (H : HeaderLib) : Prop := {
  hm_get_new n : hm_get hm_new n = None;
  hm_get_insert_eq m n v : hm_get (hm_insert m n v) n = Some v;
  hm_get_insert_ne m n n' v : n ≠ n' → hm_get (hm_insert m n v) n' = hm_get m n';
  hv_to_str_parse s v s' : hv_parse s = Some v → hv_to_str v = Some s' → s' = s;
  hn_parse_lower n n' : hn_parse n = Some n' → n' = to_ascii_lowercase n
}.

Inductive Body :=
  | EmptyBody
  | TextBody (s : string)
  | JsonBody (fields : list (string * string)).

Section response.
Context `{H : HeaderLib}.

Record Response := mk_response { status : Z; headers : HeaderMap; body : Body }.

Definition header_str (headers : HeaderMap) (name : string) : option string :=
  v ← hm_get headers name; hv_to_str v.

(** [if let Ok(v) = s.parse() { headers.insert(name, v) }] *)
Definition insert_parsed (name s : string) (headers : HeaderMap) : HeaderMap :=
  match hv_parse s with Some v => hm_insert headers name v | None => headers end.
End response.
Arguments Response {_}.

(** ** A model: a finite map from names to values, which are strings of
    visible bytes. *)
Module HeaderModel.
Definition visible (s : string) : bool :=
  forallb (λ a, (32 <=? N_of_ascii a)%N && (N_of_ascii a <=? 126)%N) (bytes s).

#[export] Instance header_model : HeaderLib := {|
  HeaderMap := gmap string string;
  HeaderValue := string;
  hm_new := ∅;
  hm_get m n := m !! n;
  hm_insert m n v := <[n := v]> m;
  hm_iter m := map_to_list m;
  hv_to_str v := Some v;
  hv_parse s := if visible s then Some s else None;
  hn_parse n := if str_is_empty n then None else Some (to_ascii_lowercase n)
|}.

#[export] Instance header_model_laws : HeaderLaws header_model.
Proof.
  split; cbn [HeaderMap HeaderValue hm_new hm_get hm_insert hv_to_str hv_parse hn_parse header_model].
  - intros n. apply lookup_empty.
  - intros m n v. apply lookup_insert_eq.
  - intros m n n' v Hn. by apply lookup_insert_ne.
  - intros s v s'. destruct (visible s); naive_solver.
  - intros n n'. destruct (str_is_empty n); naive_solver.
Qed.
End HeaderModel.
