(* ===== verification/ExtAuthz.v ===== *)
(** * The authorisation service

    [controlplane/src/extauthz/]: Envoy asks this service about every request.
    [handler.rs] is the check itself, [helpers.rs] route matching, headers,
    responses and logging, [auth_step.rs] authentication and [plugin_step.rs]
    the plugin phases.

    [App] is the part of [AppState] the service works on, together with the
    Redis database behind the limiter and the access log; a handler is a state
    transformer.  The plugin engine is reached through the interface
    [PluginHost].  A request's environment [req_env] holds what it reads from
    clocks and from the network. *)
From S2P Require Import Prelude RustStr F64 Yaml ConfigTypes Auth RateLimit Plugins Observability Http.
From Stdlib Require Import Ascii.

(** ** The plugin engine as the handlers see it *)
Class PluginHost := {
  PState : Type;
  host_access : PluginRequest → PState → result PluginError PluginAccessResult * PState;
  host_log : PluginRequest → Z → PState → result PluginError unit * PState
}.

(** What the engine promises: no reserved header reaches the upstream. *)
Class PluginHostLaws (P : PluginHost) : Prop :=
  host_upstream_allowed req s up resp d k :
    (host_access req s).1 = Ok (Continue up resp d) → is_Some (up !! k) →
    is_reserved (to_ascii_lowercase k) = false.

(** The engine of [Plugins] behind the interface: the current runtime and the
    machine of the thread that runs the request. *)
Definition engine_host `{V : LuaVm} (clock : nat → Z) : PluginHost := {|
  PState := PluginRuntime * result PluginError ThreadLocalVm;
  host_access req s := let '(r, slot) := execute_access clock s.1 req s.2 in (r, (s.1, slot));
  host_log req code s := let '(r, slot) := execute_log s.1 req code s.2 in (r, (s.1, slot))
|}.

(** ** Route matching and request headers ([helpers.rs]) *)
Definition match_route `{Y : YamlLib} (routes : list RouteConfig) (host path : string)
    : option RouteConfig :=
  max_by_key (λ r, String.length (RouteConfig.path_prefix r))
    (filter (λ r, starts_with (RouteConfig.path_prefix r) path = true)
       (filter (λ r, existsb (λ h, bool_decide (h = "*") || bool_decide (h = host))
                       (RouteConfig.hostnames r) = true) routes)).

Inductive BearerResult :=
  | Valid (token : string)
  | Malformed.

Section helpers.
Context `{H : HeaderLib}.

Definition extract_bearer (headers : HeaderMap) : option BearerResult :=
  value ← header_str headers "authorization";
  token ← strip_prefix "Bearer " value;
  if str_is_empty token then Some Malformed else Some (Valid token).

Definition client_ip (headers : HeaderMap) (trust_forwarded : bool) : string :=
  let external := default "0.0.0.0" (header_str headers "x-envoy-external-address") in
  if trust_forwarded then
    match header_str headers "x-forwarded-for" with
    | Some xff =>
        let ip := trim (split_first "," xff) in
        if str_is_empty ip then external else ip
    | None => external
    end
  else external.

Definition insert_rate_limit_headers (now_secs : Z) (decision : RateDecision) (headers : HeaderMap)
    : HeaderMap :=
  let headers := insert_parsed "x-rate-limit-remaining" (fmt_int (RateDecision.remaining decision)) headers in
  let headers := insert_parsed "x-rate-limit-limit" (fmt_int (RateDecision.limit decision)) headers in
  let headers := insert_parsed "x-rate-limit-mode" (as_header_value (RateDecision.mode decision)) headers in
  let reset := (now_secs +u64 Z.max (RateDecision.retry_after_ms decision / 1000) 1)%mach in
  insert_parsed "x-rate-limit-reset" (fmt_int reset) headers.

(** The map is iterated in some order; names that canonicalise to the same
    header overwrite each other. *)
Definition insert_string_headers (values : gmap string string) (headers : HeaderMap) : HeaderMap :=
  foldl (λ headers '(name, value),
    match hn_parse name, hv_parse value with
    | Some header_name, Some header_value => hm_insert headers header_name header_value
    | _, _ => headers
    end) headers (map_to_list values).

(** *** Trace context: the [HeaderExtractor] and [HeaderInjector] that the
    OpenTelemetry propagator reads and writes through; [fields] are the pairs
    it sets. *)
Definition extractor_get (headers : HeaderMap) (key : string) : option string := header_str headers key.
Definition extractor_keys (headers : HeaderMap) : list string := fst <$> hm_iter headers.

Definition injector_set (headers : HeaderMap) (field : string * string) : HeaderMap :=
  match hn_parse field.1, hv_parse field.2 with
  | Some name, Some val => hm_insert headers name val
  | _, _ => headers
  end.
Definition inject_otel_context (fields : list (string * string)) (headers : HeaderMap) : HeaderMap :=
  foldl injector_set headers fields.

(** [IntoResponse for AuthError] ([auth/error.rs]) *)
Definition AuthError_into_response (e : AuthError) : Response :=
  mk_response (http_status e) hm_new (JsonBody [("error", error_code e)]).

Definition overload_response (request_id : string) : Response :=
  mk_response 503
    (insert_parsed "x-request-id" request_id
       (insert_parsed "retry-after" "1" (insert_parsed "x-gateway-overloaded" "true" hm_new)))
    (JsonBody [("error", "gateway_overloaded")]).

Definition allow_response (headers : HeaderMap) (request_id : string) : Response :=
  mk_response 200 (insert_parsed "x-request-id" request_id headers) EmptyBody.

Definition deny_response (status : Z) (error_code request_id : string) : Response :=
  mk_response status (insert_parsed "x-request-id" request_id hm_new) (JsonBody [("error", error_code)]).
End helpers.

(** ** State *)
Section extauthz.
Context `{Y : YamlLib} `{J : JwtLib} `{L : LuaLib} `{H : HeaderLib} `{P : PluginHost}.

Record App := mk_app {
  config : GatewayConfig;
  jwks_registry : gmap string JwksCache;
  rate_limiter : RateLimiter;
  redis : redis_db;
  metrics : Metrics;
  permits : Z;
  tracing_enabled : bool;
  plugin_engine : option PState;
  access_log : list AccessLogEntry;
  request_counter : Z    (* the global REQUEST_COUNTER *)
}.

Definition modify_metrics (f : Metrics → Metrics) : st App unit := st_modify (λ s,
  mk_app (config s) (jwks_registry s) (rate_limiter s) (redis s) (f (metrics s)) (permits s)
    (tracing_enabled s) (plugin_engine s) (access_log s) (request_counter s)).
Definition set_permits (n : Z) (s : App) : App :=
  mk_app (config s) (jwks_registry s) (rate_limiter s) (redis s) (metrics s) n
    (tracing_enabled s) (plugin_engine s) (access_log s) (request_counter s).
Definition set_plugin_engine (p : option PState) (s : App) : App :=
  mk_app (config s) (jwks_registry s) (rate_limiter s) (redis s) (metrics s) (permits s)
    (tracing_enabled s) p (access_log s) (request_counter s).
Definition set_limiter (l : RateLimiter) (db : redis_db) (s : App) : App :=
  mk_app (config s) (jwks_registry s) l db (metrics s) (permits s)
    (tracing_enabled s) (plugin_engine s) (access_log s) (request_counter s).
Definition push_log (entry : AccessLogEntry) (s : App) : App :=
  mk_app (config s) (jwks_registry s) (rate_limiter s) (redis s) (metrics s) (permits s)
    (tracing_enabled s) (plugin_engine s) (access_log s ++ [entry]) (request_counter s).
Definition set_request_counter (n : Z) (s : App) : App :=
  mk_app (config s) (jwks_registry s) (rate_limiter s) (redis s) (metrics s) (permits s)
    (tracing_enabled s) (plugin_engine s) (access_log s) n.

(** The identifier of a request and what it reads from outside: the time stamps
    and elapsed times of its log entry and metric, the wall clock, and the wall
    clock after the wait for a key refresh, the limiter's environment, the
    fetches of the provider's refresh loop that end while the request waits, with
    their replies and times, and the fields the propagator injects for a span
    whose parent it extracted through the given reader. *)
Record req_env := mk_req_env {
  e_request_id : string;
  e_ts : string;
  e_log_ms : Z;
  e_metric_ms : Z;
  e_now_secs : Z;
  e_now_again : Z;
  e_instant : Z;
  e_rate : RateLimit.env;
  e_fetches : list (result string JwksDocument * Z);
  e_propagate : (string → option string) → list string → list (string * string)
}.

(** The parts of a request that are passed around together. *)
Record meta := mk_meta_ {
  m_headers : HeaderMap;
  m_host : string;
  m_method : string;
  m_path : string;
  m_remote_addr : string
}.

(** ** Logging and denial *)
Definition emit_log (e : req_env) (m : meta) (route : string) (status : Z)
    (auth_subject : option string) (rate_limit_mode upstream_service : string) : st App unit :=
  st_modify (push_log (AccessLogEntry.mk (e_ts e) (e_request_id e) (m_remote_addr m) (m_host m)
    (m_method m) (m_path m) route status (e_log_ms e) 0 0 auth_subject rate_limit_mode
    upstream_service EmptyString)).

Definition record (e : req_env) (m : meta) (route : string) (status : Z) : st App unit :=
  modify_metrics (record_request route (m_method m) status (f64_of_int (e_metric_ms e))).

Definition early_deny (e : req_env) (m : meta) (route : RouteConfig) (status : Z)
    (error_code : string) : st App Response :=
  emit_log e m (RouteConfig.name route) status None "none"
    (UpstreamConfig.service (RouteConfig.upstream route)) ;;;
  record e m (RouteConfig.name route) status ;;;
  st_ret (deny_response status error_code (e_request_id e)).

Definition method_denied (e : req_env) (m : meta) (route : RouteConfig) : st App Response :=
  early_deny e m route 405 "method_not_allowed".

(** ** Authentication ([auth_step.rs]) *)
Record AuthDeny := mk_deny { deny_status : Z; deny_code : string }.

Definition deny_auth {A} (route : RouteConfig) (reason : string) (d : AuthDeny)
    : st App (result AuthDeny A) :=
  modify_metrics (record_auth_failure (RouteConfig.name route) reason) ;;; st_ret (Err d).

(** The token, the provider and its key cache. *)
Definition auth_credentials (cfg : GatewayConfig) (route : RouteConfig) (headers : HeaderMap)
    : st App (result AuthDeny (string * AuthProvider * JwksCache)) :=
  match extract_bearer headers with
  | Some Malformed => deny_auth route "invalid_token_format" (mk_deny 401 "invalid_token_format")
  | None => deny_auth route "missing_token" (mk_deny 401 "missing_token")
  | Some (Valid token) =>
      let provider_name := default "main" (RouteConfig.auth_provider route) in
      match iter_find (λ p, bool_decide (AuthProvider.name p = provider_name))
              (AuthConfig.providers (GatewayConfig.auth cfg)) with
      | None => deny_auth route "unknown_provider" (mk_deny 503 "auth_provider_unavailable")
      | Some p =>
          registry <-- st_gets jwks_registry ;;
          match registry_get registry provider_name with
          | None => deny_auth route "unknown_provider" (mk_deny 503 "auth_provider_unavailable")
          | Some c => st_ret (Ok (token, p, c))
          end
      end
  end.

(** The outcome of the validation: the response headers and the subject, or a
    denial. *)
Definition auth_verdict (route : RouteConfig) (response_headers : HeaderMap)
    (r : result AuthError ValidatedIdentity) : st App (result AuthDeny (HeaderMap * option string)) :=
  match r with
  | Ok identity =>
      let sub := ValidatedIdentity.sub identity in
      let h := insert_parsed "x-auth-sub" sub response_headers in
      let h := insert_parsed "x-auth-iss" (ValidatedIdentity.iss identity) h in
      let h := insert_parsed "x-auth-scopes" (join "," (ValidatedIdentity.scopes identity)) h in
      st_ret (Ok (h, Some sub))
  | Err err => deny_auth route (error_code err) (mk_deny (http_status err) (error_code err))
  end.

(** The cache after the wait for a refresh. *)
Definition refreshed (e : req_env) (c : JwksCache) : JwksCache :=
  foldl (λ c '(reply, now), (fetch_and_store reply now c).2) c (e_fetches e).

Definition required_scopes_of (route : RouteConfig) : list string :=
  default [] (RouteConfig.required_scopes route).

Definition apply_auth (e : req_env) (cfg : GatewayConfig) (route : RouteConfig)
    (headers response_headers : HeaderMap) : st App (result AuthDeny (HeaderMap * option string)) :=
  if negb (RouteConfig.auth_required route) then st_ret (Ok (response_headers, None))
  else
    subject <-- auth_credentials cfg route headers ;;
    match subject with
    | Err deny => st_ret (Err deny)
    | Ok (token, p, c) =>
        auth_verdict route response_headers
          (validate_with_refresh (e_now_secs e) (e_now_again e) (e_instant e) token p c
             (refreshed e c) (required_scopes_of route)).1
    end.

(** ** Plugin phases ([plugin_step.rs]) *)
Definition run_plugin_log (req : PluginRequest) (response_status : Z) : st App unit :=
  engine <-- st_gets plugin_engine ;;
  match engine with
  | None => st_ret tt
  | Some p => st_modify (set_plugin_engine (Some (host_log req response_status p).2))
  end.

Definition call_access (req : PluginRequest) (p : PState)
    : st App (result PluginError PluginAccessResult) :=
  let '(r, p') := host_access req p in
  st_modify (set_plugin_engine (Some p')) ;;; st_ret r.

Definition record_chain (route : RouteConfig) (us : Z) : st App unit :=
  modify_metrics (record_plugin_chain_duration (RouteConfig.name route) us) ;;;
  modify_metrics (record_plugin_duration "__chain__" (RouteConfig.name route) "access" us).

(** [StatusCode::from_u16(status).unwrap_or(StatusCode::OK)]: a status code is
    between 100 and 999. *)
Definition status_or_ok (status : Z) : Z :=
  if ((100 <=? status) && (status <=? 999))%Z then status else 200.

Definition plugin_request (route : RouteConfig) (m : meta) : PluginRequest :=
  PluginRequest.mk (RouteConfig.name route) (m_host m) (m_method m) (m_path m)
    (omap (λ '(n, v), s ← hv_to_str v; Some (n, s)) (hm_iter (m_headers m))).

(** What the step makes of the engine's result: continue with the request view,
    the upstream headers and the response headers, or answer at once. *)
Definition plugin_answer (e : req_env) (route : RouteConfig) (m : meta) (request : PluginRequest)
    (response_headers : HeaderMap) (r : result PluginError PluginAccessResult)
    : st App (result Response (PluginRequest * gmap string string * HeaderMap)) :=
  let service := UpstreamConfig.service (RouteConfig.upstream route) in
  match r with
  | Ok (Continue upstream_headers plugin_response_headers us) =>
      record_chain route us ;;;
      st_ret (Ok (request, upstream_headers,
                  insert_string_headers plugin_response_headers response_headers))
  | Ok (ShortCircuit plugin_name status body plugin_headers us) =>
      record_chain route us ;;;
      modify_metrics (record_plugin_short_circuit plugin_name (RouteConfig.name route) status) ;;;
      let headers := insert_parsed "x-request-id" (e_request_id e)
                       (insert_string_headers plugin_headers hm_new) in
      emit_log e m (RouteConfig.name route) status None "plugin-short-circuit" service ;;;
      record e m (RouteConfig.name route) status ;;;
      let response := mk_response (status_or_ok status) headers
                        (match body with Some b => TextBody b | None => EmptyBody end) in
      run_plugin_log request status ;;;
      st_ret (Err response)
  | Ok (PError plugin_name message error_type us) =>
      record_chain route us ;;;
      modify_metrics (record_plugin_error plugin_name (RouteConfig.name route)
                        (PluginErrorType_as_str error_type)) ;;;
      let headers := insert_parsed "x-request-id" (e_request_id e)
                       (insert_parsed "x-plugin-error" plugin_name hm_new) in
      emit_log e m (RouteConfig.name route) 500 None "plugin-error" service ;;;
      record e m (RouteConfig.name route) 500 ;;;
      let response := mk_response 500 headers
        (JsonBody [("error", "plugin_error"); ("plugin", plugin_name); ("message", message)]) in
      run_plugin_log request 500 ;;;
      st_ret (Err response)
  | Err _ =>
      modify_metrics (record_plugin_error "engine" (RouteConfig.name route) "runtime") ;;;
      st_ret (Err (mk_response 200 hm_new (JsonBody [("error", "plugin_engine_error")])))
  end.

Definition execute_access_plugins (e : req_env) (route : RouteConfig) (m : meta)
    (response_headers : HeaderMap)
    : st App (result Response (PluginRequest * gmap string string * HeaderMap)) :=
  let request := plugin_request route m in
  engine <-- st_gets plugin_engine ;;
  match engine with
  | None => st_ret (Ok (request, ∅, response_headers))
  | Some p => r <-- call_access request p ;; plugin_answer e route m request response_headers r
  end.

(** ** The check ([handler.rs]) *)
Definition call_limiter (e : req_env) (key : string) (capacity : Z) (rate : f64)
    : st App (result RateLimitError RateDecision) := λ s,
  let '(r, l, db) := RateLimit.check (e_rate e) key capacity rate (rate_limiter s) (redis s) in
  (r, set_limiter l db s).

(** The value the limit is keyed by. *)
Definition key_value (route : RouteConfig) (trust_forwarded : bool) (headers response_headers : HeaderMap)
    : string :=
  if bool_decide (RouteRateLimit.key_by (RouteConfig.rate_limit route) = "sub")
  then default "anonymous" (header_str response_headers "x-auth-sub")
  else client_ip headers trust_forwarded.

(** Step 5: rate limiting, and the answer when it allows. *)
Definition limit_and_finish (e : req_env) (cfg : GatewayConfig) (route : RouteConfig) (m : meta)
    (request : PluginRequest) (upstream_headers : gmap string string) (response_headers : HeaderMap)
    (auth_subject : option string) : st App Response :=
  let rl := RouteConfig.rate_limit route in
  let name := RouteConfig.name route in
  let service := UpstreamConfig.service (RouteConfig.upstream route) in
  let kv := key_value route (GatewayServer.trust_forwarded_headers (GatewayConfig.gateway cfg))
              (m_headers m) response_headers in
  let bucket_key := build_key (RateLimitsConfig.redis_key_prefix (GatewayConfig.rate_limits cfg))
                      name (RouteRateLimit.key_by rl) kv in
  r <-- call_limiter e bucket_key (RouteRateLimit.bucket_capacity rl) (RouteRateLimit.refill_rate_per_sec rl) ;;
  match r with
  | Ok decision =>
      let rl_mode := as_header_value (RateDecision.mode decision) in
      let response_headers := insert_rate_limit_headers (e_now_secs e) decision response_headers in
      if negb (RateDecision.allowed decision) then
        modify_metrics (record_rate_limit_denied name) ;;;
        let retry_after := fmt_int (Z.max (RateDecision.retry_after_ms decision / 1000) 1) in
        let response_headers := insert_parsed "retry-after" retry_after response_headers in
        emit_log e m name 429 auth_subject rl_mode service ;;;
        record e m name 429 ;;;
        run_plugin_log request 429 ;;;
        st_ret (mk_response 429 response_headers EmptyBody)
      else
        modify_metrics (match RateDecision.mode decision with
                        | DegradedLocal => record_rate_limit_degraded name
                        | _ => record_rate_limit_allowed name
                        end) ;;;
        let response_headers := insert_string_headers upstream_headers response_headers in
        emit_log e m name 200 auth_subject rl_mode service ;;;
        record e m name 200 ;;;
        run_plugin_log request 200 ;;;
        st_ret (allow_response response_headers (e_request_id e))
  | Err _ =>
      modify_metrics (record_rate_limit_denied name) ;;;
      run_plugin_log request 503 ;;;
      early_deny e m route 503 "rate_limiter_unavailable"
  end.

Definition check_inner (e : req_env) (headers : HeaderMap) (method path : string) : st App Response :=
  let host := default "*" (header_str headers "host") in
  let m := mk_meta_ headers host method path (client_ip headers false) in
  cfg <-- st_gets config ;;
  match match_route (GatewayConfig.routes cfg) host path with
  | None =>
      emit_log e m EmptyString 200 None "none" EmptyString ;;;
      record e m EmptyString 200 ;;;
      st_ret (allow_response hm_new (e_request_id e))
  | Some route =>
      if negb (existsb (λ x, eq_ignore_ascii_case x method) (RouteConfig.methods route))
      then method_denied e m route
      else
        plugin <-- execute_access_plugins e route m hm_new ;;
        match plugin with
        | Err response => st_ret response
        | Ok (request, upstream_headers, response_headers) =>
            auth <-- apply_auth e cfg route headers response_headers ;;
            match auth with
            | Err deny =>
                run_plugin_log request (deny_status deny) ;;;
                early_deny e m route (deny_status deny) (deny_code deny)
            | Ok (response_headers, auth_subject) =>
                limit_and_finish e cfg route m request upstream_headers response_headers auth_subject
            end
        end
  end.

(** [try_acquire] with [inc_inflight], and the release at the end. *)
Definition begin_request (s : App) : option App :=
  if (0 <? permits s)%Z then Some ((modify_metrics inc_inflight (set_permits (permits s - 1)%Z s)).2)
  else None.
Definition end_request (s : App) : App :=
  set_permits (permits s + 1)%Z ((modify_metrics dec_inflight s).2).

Definition with_request_id (id : string) (e : req_env) : req_env :=
  mk_req_env id (e_ts e) (e_log_ms e) (e_metric_ms e) (e_now_secs e) (e_now_again e)
    (e_instant e) (e_rate e) (e_fetches e) (e_propagate e).

(** No fetch ends while the request waits. *)
Definition without_fetches (e : req_env) : req_env :=
  mk_req_env (e_request_id e) (e_ts e) (e_log_ms e) (e_metric_ms e) (e_now_secs e) (e_now_again e)
    (e_instant e) (e_rate e) [] (e_propagate e).

(** [nanos] is the clock reading that goes into the identifier. *)
Definition check (nanos : Z) (e : req_env) (headers : HeaderMap) (method path : string)
    : st App Response := λ s,
  let '(request_id, n) := generate_request_id nanos (request_counter s) in
  let s := set_request_counter n s in
  let e := with_request_id request_id e in
  match begin_request s with
  | None => (overload_response request_id, (modify_metrics record_overload s).2)
  | Some s1 =>
      let '(result, s2) := check_inner e headers method path s1 in
      let result :=
        if tracing_enabled s2
        then mk_response (status result)
               (inject_otel_context (e_propagate e (extractor_get headers) (extractor_keys headers))
                  (Http.headers result)) (body result)
        else result in
      (result, end_request s2)
  end.
End extauthz.
Arguments App {_ _ _}.
