(* ===== verification/ExtAuthzSpec.v ===== *)
(** * The authorisation service: properties *)
From S2P Require Import Prelude RustStr F64 Yaml ConfigTypes Validation Samples ValidationSpec.
From S2P Require Import Auth AuthSpec RateLimit RateLimitSpec Plugins PluginsSpec Observability Http ExtAuthz.
From S2P Require Import EnvoyGen EnvoyGenSpec.
From Stdlib Require Import Ascii.

(** ** Route matching *)

(** A route applies to a host and path. *)
Definition route_applies `{Y : YamlLib} (host path : string) (r : RouteConfig) : Prop :=
  (∃ h, h ∈ RouteConfig.hostnames r ∧ (h = "*" ∨ h = host)) ∧
  starts_with (RouteConfig.path_prefix r) path = true.

Lemma max_by_key_go {A} (f : A → nat) l : ∀ b,
  ∃ x l1 l2, foldl (λ best x, match best with
      | None => Some x | Some b => if (f b <=? f x)%nat then Some x else Some b end) (Some b) l = Some x ∧
    b :: l = l1 ++ x :: l2 ∧ Forall (λ y, f y ≤ f x)%nat l1 ∧ Forall (λ y, f y < f x)%nat l2.
Proof.
  induction l as [|a l IH]; intros b; cbn [foldl].
  { exists b, [], []. split_and!; constructor. }
  destruct (Nat.leb_spec (f b) (f a)) as [Hle|Hgt].
  - destruct (IH a) as (x & l1 & l2 & Hx & Heq & H1 & H2). exists x, (b :: l1), l2.
    split_and!; [done|by rewrite Heq|constructor; [|done]|done].
    destruct l1 as [|c l1]; simplify_eq/=; [done|]. apply Forall_cons in H1 as [? _]. lia.
  - destruct (IH b) as (x & l1 & l2 & Hx & Heq & H1 & H2).
    destruct l1 as [|c l1]; simplify_eq/=.
    + exists x, [], (a :: l2). split_and!; [done|done|constructor|by constructor].
    + exists x, (c :: a :: l1), l2. split_and!; [done|done| |done].
      apply Forall_cons in H1 as [? H1]. constructor; [done|]. constructor; [lia|done].
Qed.

(** [max_by_key] returns the last of the maximal elements. *)
Lemma max_by_key_spec {A} (f : A → nat) l :
  match max_by_key f l with
  | None => l = []
  | Some x => ∃ l1 l2, l = l1 ++ x :: l2 ∧ Forall (λ y, f y ≤ f x)%nat l1 ∧
                Forall (λ y, f y < f x)%nat l2
  end.
Proof.
  unfold max_by_key. destruct l as [|b l]; [done|]. cbn [foldl].
  destruct (max_by_key_go f l b) as (x & l1 & l2 & -> & Heq & H1 & H2). by exists l1, l2.
Qed.

Lemma host_match_iff `{Y : YamlLib} host (r : RouteConfig) :
  existsb (λ h, bool_decide (h = "*") || bool_decide (h = host)) (RouteConfig.hostnames r) = true ↔
  ∃ h, h ∈ RouteConfig.hostnames r ∧ (h = "*" ∨ h = host).
Proof.
  rewrite existsb_exists. setoid_rewrite orb_true_iff. setoid_rewrite bool_decide_eq_true.
  by setoid_rewrite <-list_elem_of_In.
Qed.

Definition applicable `{Y : YamlLib} (routes : list RouteConfig) (host path : string) : list RouteConfig :=
  filter (λ r, starts_with (RouteConfig.path_prefix r) path = true)
    (filter (λ r, existsb (λ h, bool_decide (h = "*") || bool_decide (h = host))
                    (RouteConfig.hostnames r) = true) routes).

Lemma elem_applicable `{Y : YamlLib} routes host path r :
  r ∈ applicable routes host path ↔ r ∈ routes ∧ route_applies host path r.
Proof.
  unfold applicable, route_applies. rewrite !list_elem_of_filter, host_match_iff. naive_solver.
Qed.

(** [C36] Route matching: the route returned applies to the host and path and
    no applicable route has a longer prefix; among applicable routes with the
    longest prefix it is the one configured last; and no route is returned only
    when none applies. *)
Theorem match_route_spec `{Y : YamlLib} (routes : list RouteConfig) (host path : string) :
  match match_route routes host path with
  | None => ∀ r, r ∈ routes → ¬ route_applies host path r
  | Some r => r ∈ routes ∧ route_applies host path r ∧
      (∀ r', r' ∈ routes → route_applies host path r' →
         String.length (RouteConfig.path_prefix r') ≤ String.length (RouteConfig.path_prefix r))%nat ∧
      ∃ l1 l2, applicable routes host path = l1 ++ r :: l2 ∧
        Forall (λ r', String.length (RouteConfig.path_prefix r') <
                      String.length (RouteConfig.path_prefix r))%nat l2
  end.
Proof.
  unfold match_route. fold (applicable routes host path).
  pose proof (max_by_key_spec (λ r, String.length (RouteConfig.path_prefix r)) (applicable routes host path)) as Hm.
  destruct (max_by_key _ _) as [r|].
  - destruct Hm as (l1 & l2 & Heq & H1 & H2).
    assert (r ∈ applicable routes host path) as [Hr Ha]%elem_applicable by (rewrite Heq; set_solver).
    split_and!; [done|done| |by exists l1, l2].
    intros r' Hr' Ha'. assert (r' ∈ applicable routes host path) as Hin by by apply elem_applicable.
    rewrite Heq in Hin. rewrite !Forall_forall in *.
    apply elem_of_app in Hin as [Hin|Hin]; [by apply H1|].
    apply elem_of_cons in Hin as [->|Hin]; [done|]. specialize (H2 r' Hin). lia.
  - intros r Hr Ha. assert (r ∈ applicable routes host path) as Hin by by apply elem_applicable.
    rewrite Hm in Hin. set_solver.
Qed.

(** ** What a request changes

    [quiet s s']: the configuration, key registry, permits, tracing flag, the
    in-flight gauge, the log and the request counters are as before (other
    metrics, the limiter and the plugin machine may have changed).  [answered
    en s s']: the same, except that exactly the log entry [en] was written and
    exactly its request counter was incremented. *)
Section effects.
Context `{Y : YamlLib} `{J : JwtLib} `{L : LuaLib} `{H : HeaderLib} `{P : PluginHost}.

Record frame (s s' : App) : Prop := {
  frame_config : config s' = config s;
  frame_jwks : jwks_registry s' = jwks_registry s;
  frame_permits : permits s' = permits s;
  frame_tracing : tracing_enabled s' = tracing_enabled s;
  frame_inflight : gauge inflight_requests (metrics s') = gauge inflight_requests (metrics s)
}.

Definition requests_added (k : list string) (n : Z) (s s' : App) : Prop :=
  ∀ l, counter http_requests_total l (metrics s') =
    (counter http_requests_total l (metrics s) + (if decide (l = k) then n else 0))%Z.

Definition quiet (s s' : App) : Prop :=
  frame s s' ∧ access_log s' = access_log s ∧ requests_added [] 0 s s'.

Definition entry_labels (en : AccessLogEntry) : list string :=
  [AccessLogEntry.route en; AccessLogEntry.method en; status_class (AccessLogEntry.status en)].

Definition answered (en : AccessLogEntry) (s s' : App) : Prop :=
  frame s s' ∧ access_log s' = access_log s ++ [en] ∧ requests_added (entry_labels en) 1 s s'.

Lemma frame_refl s : frame s s.
Proof. done. Qed.

Lemma frame_trans s1 s2 s3 : frame s1 s2 → frame s2 s3 → frame s1 s3.
Proof. intros [] []. split; congruence. Qed.

Lemma quiet_refl s : quiet s s.
Proof. split_and!; [done..|]. intros l. case_decide; lia. Qed.

Lemma quiet_trans s1 s2 s3 : quiet s1 s2 → quiet s2 s3 → quiet s1 s3.
Proof.
  intros (F1 & L1 & R1) (F2 & L2 & R2). split_and!; [by eapply frame_trans|congruence|].
  intros l. rewrite R2, R1. case_decide; lia.
Qed.

Lemma quiet_answered en s1 s2 s3 : quiet s1 s2 → answered en s2 s3 → answered en s1 s3.
Proof.
  intros (F1 & L1 & R1) (F2 & L2 & R2). split_and!; [by eapply frame_trans|congruence|].
  intros l. rewrite R2, R1. repeat case_decide; lia.
Qed.

Lemma answered_quiet en s1 s2 s3 : answered en s1 s2 → quiet s2 s3 → answered en s1 s3.
Proof.
  intros (F1 & L1 & R1) (F2 & L2 & R2). split_and!; [by eapply frame_trans|congruence|].
  intros l. rewrite R2, R1. repeat case_decide; lia.
Qed.

(** Instance search goes by the head of a computation and does not unfold it. *)
#[global] Typeclasses Opaque st_bind st_ret st_gets st_modify modify_metrics inc observe
  record_auth_failure record_rate_limit_denied record_rate_limit_allowed record_rate_limit_degraded
  record_plugin_error record_plugin_short_circuit record_plugin_chain_duration record_plugin_duration
  record_chain set_plugin_engine run_plugin_log call_access call_limiter deny_auth
  auth_credentials auth_verdict apply_auth.

(** A computation that is quiet from every state. *)
Class Quiet {A} (m : st App A) : Prop := is_quiet : ∀ s, quiet s (m s).2.

Global Instance Quiet_ret {A} (a : A) : Quiet (st_ret a).
Proof. intros s. apply quiet_refl. Qed.
Global Instance Quiet_gets {A} (f : App → A) : Quiet (st_gets f).
Proof. intros s. apply quiet_refl. Qed.
Global Instance Quiet_bind {A B} (m : st App A) (k : A → st App B) :
  Quiet m → (∀ a, Quiet (k a)) → Quiet (st_bind m k).
Proof.
  intros Hm Hk s. unfold st_bind. specialize (Hm s). destruct (m s) as [a s']. simpl in Hm.
  eapply quiet_trans; [done|]. apply Hk.
Qed.

(** Metrics other than the request counter. *)
Lemma Quiet_inc f l : f ≠ http_requests_total → Quiet (modify_metrics (inc f l)).
Proof.
  intros Hf s. split_and!; [done..|]. intros l'. simpl. rewrite counter_inc_ne by congruence.
  case_decide; lia.
Qed.
Lemma Quiet_observe f l x : Quiet (modify_metrics (observe f l x)).
Proof. intros s. split_and!; [done..|]. intros l'. simpl. rewrite counter_observe. case_decide; lia. Qed.

Global Instance Quiet_auth_failure r x : Quiet (modify_metrics (record_auth_failure r x)).
Proof. by apply Quiet_inc. Qed.
Global Instance Quiet_denied r : Quiet (modify_metrics (record_rate_limit_denied r)).
Proof. by apply Quiet_inc. Qed.
Global Instance Quiet_allowed r : Quiet (modify_metrics (record_rate_limit_allowed r)).
Proof. by apply Quiet_inc. Qed.
Global Instance Quiet_degraded r : Quiet (modify_metrics (record_rate_limit_degraded r)).
Proof. by apply Quiet_inc. Qed.
Global Instance Quiet_plugin_error p r x : Quiet (modify_metrics (record_plugin_error p r x)).
Proof. by apply Quiet_inc. Qed.
Global Instance Quiet_short_circuit p r x : Quiet (modify_metrics (record_plugin_short_circuit p r x)).
Proof. by apply Quiet_inc. Qed.
Global Instance Quiet_chain r us : Quiet (record_chain r us).
Proof. apply Quiet_bind; [apply Quiet_observe|intros _; apply Quiet_observe]. Qed.

Global Instance Quiet_set_engine p : Quiet (st_modify (set_plugin_engine p)).
Proof. intros s. split_and!; [done..|]. intros l. simpl. case_decide; lia. Qed.
Global Instance Quiet_run_log req code : Quiet (run_plugin_log req code).
Proof. apply Quiet_bind; [apply _|]. intros [p|]; apply _. Qed.
Global Instance Quiet_access req p : Quiet (call_access req p).
Proof. unfold call_access. destruct (host_access req p). apply _. Qed.
Global Instance Quiet_limiter e k c r : Quiet (call_limiter e k c r).
Proof.
  intros s. unfold call_limiter. destruct (RateLimit.check _ _ _ _ _ _) as [[? ?] ?].
  split_and!; [done..|]. intros l. simpl. case_decide; lia.
Qed.
Global Instance Quiet_deny_auth {A} r x d : Quiet (deny_auth (A := A) r x d).
Proof. apply Quiet_bind; [apply Quiet_auth_failure|intros _; apply Quiet_ret]. Qed.
Global Instance Quiet_credentials cfg r h : Quiet (auth_credentials cfg r h).
Proof.
  unfold auth_credentials. destruct (extract_bearer h) as [[]|]; try apply _.
  destruct (iter_find _ _); [|apply _]. apply Quiet_bind; [apply _|]. intros reg.
  destruct (registry_get reg _); apply _.
Qed.
Global Instance Quiet_verdict r rh v : Quiet (auth_verdict r rh v).
Proof. destruct v; unfold auth_verdict; apply _. Qed.
Global Instance Quiet_apply_auth e cfg r h rh : Quiet (apply_auth e cfg r h rh).
Proof.
  unfold apply_auth. destruct (negb _); [apply _|]. apply Quiet_bind; [apply _|].
  intros [[[token p] c]|deny]; apply _.
Qed.

(** Writing the entry and counting the request. *)
Definition entry_of (e : req_env) (m : meta) (route : string) (code : Z) (sub : option string)
    (mode service : string) : AccessLogEntry :=
  AccessLogEntry.mk (e_ts e) (e_request_id e) (m_remote_addr m) (m_host m) (m_method m) (m_path m)
    route code (e_log_ms e) 0 0 sub mode service EmptyString.

Lemma log_and_record e m route code sub mode service s :
  answered (entry_of e m route code sub mode service) s
    ((emit_log e m route code sub mode service ;;; record e m route code) s).2.
Proof.
  split_and!; [done..|]. intros l. unfold st_bind, emit_log, record. simpl.
  unfold record_request. autorewrite with gw.
  destruct (decide (l = entry_labels _)) as [->|Hne]; [apply counter_inc_eq|].
  rewrite counter_inc_ne; [simpl; lia|]. intros [= Heq]. apply Hne. by rewrite <-Heq.
Qed.

Lemma bind_assoc {A B C} (m : st App A) (f : A → st App B) (g : B → st App C) s :
  st_bind m (λ a, st_bind (f a) g) s = st_bind (st_bind m f) g s.
Proof. unfold st_bind. destruct (m s) as [a s']. by destruct (f a s'). Qed.

(** The common ending: log, count, then something quiet. *)
Lemma answered_then {A} e m route code sub mode service (k : st App A) s :
  Quiet k →
  answered (entry_of e m route code sub mode service) s
    ((emit_log e m route code sub mode service ;;; record e m route code ;;; k) s).2.
Proof.
  intros Hk. rewrite bind_assoc. pose proof (log_and_record e m route code sub mode service s) as Ha.
  unfold st_bind at 1. destruct (st_bind _ _ s) as [u s']. simpl in Ha.
  eapply answered_quiet; [exact Ha|apply Hk].
Qed.

Lemma bind_quiet_answered {A B} en (m : st App A) (k : A → st App B) s :
  Quiet m → (∀ s', answered en s' (k (m s).1 s').2) → answered en s (st_bind m k s).2.
Proof.
  intros Hm Hk. unfold st_bind. specialize (Hm s). destruct (m s) as [a s']. simpl in *.
  eapply quiet_answered; [exact Hm|apply Hk].
Qed.
End effects.

Section answers.
Context `{Y : YamlLib} `{J : JwtLib} `{L : LuaLib} `{H : HeaderLib} `{P : PluginHost}.

(** The plugin engine answers every request with a result, and a short-circuit
    with a status a response can carry. *)
Definition engine_ok (s : App) : Prop :=
  ∀ p req, plugin_engine s = Some p →
    match (host_access req p).1 with
    | Err _ => False
    | Ok (ShortCircuit _ code _ _ _) => (100 ≤ code ≤ 999)%Z
    | Ok _ => True
    end.

(** The entry is that of the request [m], on the route of this name, with the
    status [code]. *)
Record entry_for (e : req_env) (m : meta) (name : string) (code : Z) (en : AccessLogEntry) : Prop := {
  ef_id : AccessLogEntry.request_id en = e_request_id e;
  ef_addr : AccessLogEntry.remote_addr en = m_remote_addr m;
  ef_host : AccessLogEntry.host en = m_host m;
  ef_method : AccessLogEntry.method en = m_method m;
  ef_path : AccessLogEntry.path en = m_path m;
  ef_route : AccessLogEntry.route en = name;
  ef_status : AccessLogEntry.status en = code
}.

Section request.
Context (e : req_env) (mt : meta) (name : string).

(** A computation answers with the status it logs; with [Ok] it is quiet. *)
Definition answers (m : st App Response) (s : App) : Prop :=
  ∃ en, answered en s (m s).2 ∧ entry_for e mt name (status (m s).1) en.
Definition finishes {A} (m : st App (result Response A)) (s : App) : Prop :=
  match (m s).1 with
  | Ok _ => quiet s (m s).2
  | Err resp => ∃ en, answered en s (m s).2 ∧ entry_for e mt name (status resp) en
  end.

Lemma answers_bind {A} (m : st App A) (k : A → st App Response) s :
  Quiet m → answers (k (m s).1) (m s).2 → answers (st_bind m k) s.
Proof.
  intros Hm. specialize (Hm s). unfold answers, st_bind in *. destruct (m s) as [a s']. simpl in *.
  intros (en & Ha & Hs). exists en. split; [|done]. by eapply quiet_answered.
Qed.

Lemma finishes_bind {A B} (m : st App A) (k : A → st App (result Response B)) s :
  Quiet m → finishes (k (m s).1) (m s).2 → finishes (st_bind m k) s.
Proof.
  intros Hm. specialize (Hm s). unfold finishes, st_bind in *. destruct (m s) as [a s']. simpl in *.
  destruct (k a s') as [[x|resp] s'']; simpl; [by intros; eapply quiet_trans|].
  intros (en & Ha & Hs). exists en. split; [|done]. by eapply quiet_answered.
Qed.

Lemma answers_finish {A} (m : st App (result Response A)) (k : A → st App Response) s :
  finishes m s → (∀ a, (m s).1 = Ok a → answers (k a) (m s).2) →
  answers (st_bind m (λ r, match r with Err resp => st_ret resp | Ok a => k a end)) s.
Proof.
  unfold finishes, answers, st_bind. destruct (m s) as [[a|resp] s']; simpl; [|done].
  intros Hq Hk. destruct (Hk a eq_refl) as (en & Ha & Hs). exists en. split; [|done].
  by eapply quiet_answered.
Qed.

Lemma finishes_quiet {A} (m : st App (result Response A)) s :
  Quiet m → (∀ resp, (m s).1 ≠ Err resp) → finishes m s.
Proof.
  intros Hm Hne. specialize (Hm s). unfold finishes. destruct (m s) as [[a|resp] s']; [done|].
  by destruct (Hne resp).
Qed.

Lemma answers_log code sub mode service (k : st App Response) s :
  Quiet k → (∀ s', status (k s').1 = code) →
  answers (emit_log e mt name code sub mode service ;;; record e mt name code ;;; k) s.
Proof.
  intros Hk Hst. exists (entry_of e mt name code sub mode service).
  split; [by apply answered_then|]. unfold st_bind, emit_log, record, modify_metrics, st_modify.
  by rewrite Hst.
Qed.

Lemma finishes_log {A} code sub mode service (k : st App (result Response A)) s :
  Quiet k → (∀ s', ∃ resp, (k s').1 = Err resp ∧ status resp = code) →
  finishes (emit_log e mt name code sub mode service ;;; record e mt name code ;;; k) s.
Proof.
  intros Hk Hst. unfold finishes. pose proof (answered_then e mt name code sub mode service k s Hk) as Ha.
  unfold st_bind, emit_log, record, modify_metrics, st_modify in *.
  match type of Ha with answered _ _ (k ?s1).2 => destruct (Hst s1) as (resp & Hr & Hs) end.
  rewrite Hr. exists (entry_of e mt name code sub mode service). by rewrite Hs.
Qed.
End request.

Lemma early_deny_answers e m route code err s : answers e m (RouteConfig.name route) (early_deny e m route code err) s.
Proof. unfold early_deny. apply answers_log; [apply _|done]. Qed.

Lemma run_log_ret {A} req code (a : A) s : ((run_plugin_log req code ;;; st_ret a) s).1 = a.
Proof. unfold st_bind. by destruct (run_plugin_log req code s). Qed.

Lemma limit_and_finish_answers e cfg route m req up rh sub s :
  answers e m (RouteConfig.name route) (limit_and_finish e cfg route m req up rh sub) s.
Proof.
  unfold limit_and_finish. apply answers_bind; [apply _|].
  destruct (call_limiter _ _ _ _ s).1 as [d|err].
  - destruct (negb _).
    + apply answers_bind; [apply _|]. apply answers_log; [apply _|]. intros s'. by rewrite run_log_ret.
    + apply answers_bind; [destruct (RateDecision.mode d); apply _|].
      apply answers_log; [apply _|]. intros s'. by rewrite run_log_ret.
  - apply answers_bind; [apply _|]. apply answers_bind; [apply _|]. apply early_deny_answers.
Qed.

Lemma status_or_ok_valid code : (100 ≤ code ≤ 999)%Z → status_or_ok code = code.
Proof.
  intros Hc. unfold status_or_ok. destruct (Z.leb_spec 100 code), (Z.leb_spec code 999); simpl; lia.
Qed.

(** The plugin step either continues quietly or has answered. *)
Lemma plugin_step_finishes e route m rh s :
  engine_ok s → finishes e m (RouteConfig.name route) (execute_access_plugins e route m rh) s.
Proof.
  intros Hok. unfold execute_access_plugins. apply finishes_bind; [apply _|]. simpl.
  destruct (plugin_engine s) as [p|] eqn:Hp; [|by apply finishes_quiet; [apply _|]].
  specialize (Hok p (plugin_request route m) Hp). apply finishes_bind; [apply _|].
  assert ((call_access (plugin_request route m) p s).1 = (host_access (plugin_request route m) p).1) as ->
    by (unfold call_access; by destruct (host_access _ _)).
  unfold plugin_answer.
  destruct (host_access _ _).1 as [[up rh' us|pn code b hs us|pn msg ty us]|err]; [| | |done].
  - apply finishes_quiet; [apply _|]. intros resp. unfold st_bind, record_chain.
    by destruct (st_bind _ _ _).
  - apply finishes_bind; [apply _|]. apply finishes_bind; [apply _|]. apply finishes_log; [apply _|].
    intros s'. eexists. split; [apply run_log_ret|]. by apply status_or_ok_valid.
  - apply finishes_bind; [apply _|]. apply finishes_bind; [apply _|]. apply finishes_log; [apply _|].
    intros s'. eexists. split; [apply run_log_ret|done].
Qed.

(** The request as the handler sees it, and the name of its route. *)
Definition request_host (hdrs : HeaderMap) : string := default "*" (header_str hdrs "host").
Definition request_meta (hdrs : HeaderMap) (method path : string) : meta :=
  mk_meta_ hdrs (request_host hdrs) method path (client_ip hdrs false).
Definition matched_name (cfg : GatewayConfig) (hdrs : HeaderMap) (path : string) : string :=
  match match_route (GatewayConfig.routes cfg) (request_host hdrs) path with
  | Some route => RouteConfig.name route
  | None => EmptyString
  end.

Lemma one_log (e : req_env) (hdrs : HeaderMap) (method path : string) (s : App) :
  engine_ok s →
  answers e (request_meta hdrs method path) (matched_name (config s) hdrs path) (check_inner e hdrs method path) s.
Proof.
  intros Hok. unfold check_inner. apply answers_bind; [apply _|]. unfold matched_name, request_host. simpl.
  destruct (match_route _ _ _) as [route|]; [|by apply answers_log; [apply _|]].
  destruct (negb _); [apply early_deny_answers|].
  set (m := mk_meta_ _ _ _ _ _).
  apply (answers_finish _ _ _ (execute_access_plugins e route m hm_new) (λ '(req, up, rh), _));
    [by apply plugin_step_finishes|].
  intros [[req up] rh] _. apply answers_bind; [apply _|].
  destruct (apply_auth _ _ _ _ _ _).1 as [[rh' sub]|deny].
  - apply limit_and_finish_answers.
  - apply answers_bind; [apply _|]. apply early_deny_answers.
Qed.

(** [C35] Every request that is checked leaves exactly one access log entry and
    increments exactly one request counter, whatever branch it takes (no route,
    method not allowed, plugin answer, denied, limited, unavailable, allowed):
    the entry has the request's identifier, address, host, method and path, the
    name of the route that matched (empty if none did) and the status of the
    response, and the counter is that of the same route, method and status
    class; the in-flight gauge, the permits, the key caches and the
    configuration are not touched.  The plugin engine is assumed to give a
    result, and a short-circuit to have a status that a response can carry. *)
Theorem one_log_entry_per_request (e : req_env) (hdrs : HeaderMap) (method path : string) (s : App) :
  engine_ok s →
  ∃ en, entry_for e (request_meta hdrs method path) (matched_name (config s) hdrs path)
          (status (check_inner e hdrs method path s).1) en ∧
    access_log (check_inner e hdrs method path s).2 = access_log s ++ [en] ∧
    requests_added (entry_labels en) 1 s (check_inner e hdrs method path s).2 ∧
    frame s (check_inner e hdrs method path s).2.
Proof.
  intros Hok. destruct (one_log e hdrs method path s Hok) as (en & (Hf & Hl & Hr) & He). by exists en.
Qed.
End answers.

(** ** Safety *)
Section safety.
Context `{Y : YamlLib} `{J : JwtLib} `{L : LuaLib} `{H : HeaderLib} `{P : PluginHost}.

(** The plugins let the request pass to the authentication step. *)
Definition plugins_continue (s : App) (route : RouteConfig) (m : meta) : Prop :=
  ∀ p, plugin_engine s = Some p →
    ∃ up rh d, (host_access (plugin_request route m) p).1 = Ok (Continue up rh d).

Definition provider_of (cfg : GatewayConfig) (route : RouteConfig) : option AuthProvider :=
  iter_find (λ p, bool_decide (AuthProvider.name p = default "main" (RouteConfig.auth_provider route)))
    (AuthConfig.providers (GatewayConfig.auth cfg)).

Lemma provider_of_name cfg route p :
  provider_of cfg route = Some p → AuthProvider.name p = default "main" (RouteConfig.auth_provider route).
Proof. by intros [_ ?%bool_decide_eq_true]%iter_find_Some. Qed.

(** The moment and the keys of a validation: at first those of the cache, after
    the wait those of the refreshed cache. *)
Definition tried (e : req_env) (c : JwksCache) (now : Z) (keys : list JwksKey) : Prop :=
  (now = e_now_secs e ∧ keys = cached_keys c) ∨
  (now = e_now_again e ∧ keys = cached_keys (refreshed e c)).
Lemma tried_ok e token p c required id :
  (validate_with_refresh (e_now_secs e) (e_now_again e) (e_instant e) token p c (refreshed e c)
     required).1 = Ok id →
  ∃ now keys, is_stale (e_instant e) c = false ∧ tried e c now keys ∧
    validate_token now token p keys required = Ok id.
Proof.
  intros [Hs [Hv|Hv]]%validate_with_refresh_ok; [exists (e_now_secs e)|exists (e_now_again e)];
    eexists; (split_and!; [done| |exact Hv]); [by left|by right].
Qed.

(** The route's authentication step accepted the request as [id]. *)
Definition authenticated (e : req_env) (s : App) (route : RouteConfig) (hdrs : HeaderMap)
    (token : string) (p : AuthProvider) (id : ValidatedIdentity) : Prop :=
  extract_bearer hdrs = Some (Valid token) ∧ provider_of (config s) route = Some p ∧
  ∃ c, jwks_registry s !! default "main" (RouteConfig.auth_provider route) = Some c ∧
    (validate_with_refresh (e_now_secs e) (e_now_again e) (e_instant e) token p c (refreshed e c)
       (default [] (RouteConfig.required_scopes route))).1 = Ok id.

(** The headers the authentication step adds for an identity. *)
Definition auth_headers (id : ValidatedIdentity) (rh : HeaderMap) : HeaderMap :=
  insert_parsed "x-auth-scopes" (join "," (ValidatedIdentity.scopes id))
    (insert_parsed "x-auth-iss" (ValidatedIdentity.iss id)
       (insert_parsed "x-auth-sub" (ValidatedIdentity.sub id) rh)).

(** Credentials are found without a trace, or the request is denied. *)
Lemma credentials_spec cfg route hdrs s :
  let '(r, s') := auth_credentials cfg route hdrs s in
  match r with
  | Ok (token, p, c) =>
      s' = s ∧ extract_bearer hdrs = Some (Valid token) ∧ provider_of cfg route = Some p ∧
      jwks_registry s !! default "main" (RouteConfig.auth_provider route) = Some c
  | Err deny =>
      rate_limiter s' = rate_limiter s ∧ redis s' = redis s ∧ deny_status deny ∈ [401; 503]%Z
  end.
Proof.
  unfold auth_credentials, provider_of, registry_get, st_bind, st_gets.
  destruct (extract_bearer hdrs) as [[token|]|]; [|split_and!; simpl; [done..|set_solver]..].
  destruct (iter_find _ _) as [p|]; [|split_and!; simpl; [done..|set_solver]].
  destruct (jwks_registry s !! _) as [c|] eqn:Hc; [done|split_and!; simpl; [done..|set_solver]].
Qed.

Lemma verdict_denies route rh v s :
  let '(r, s') := auth_verdict route rh v s in
  rate_limiter s' = rate_limiter s ∧ redis s' = redis s ∧
  ∀ deny, r = Err deny → deny_status deny ∈ [401; 403; 503]%Z.
Proof.
  destruct v as [id|err]; [done|]. split_and!; [done..|]. intros ? [= <-]. simpl.
  destruct err; simpl; set_solver.
Qed.

Lemma apply_auth_ok e s route hdrs rh rh' sub :
  (apply_auth e (config s) route hdrs rh s).1 = Ok (rh', sub) →
  RouteConfig.auth_required route = true →
  ∃ token p id, authenticated e s route hdrs token p id ∧ rh' = auth_headers id rh ∧
    sub = Some (ValidatedIdentity.sub id).
Proof.
  unfold apply_auth, authenticated. intros Hr Hreq. rewrite Hreq in Hr. simpl in Hr.
  pose proof (credentials_spec (config s) route hdrs s) as Hc. unfold st_bind in Hr.
  destruct (auth_credentials _ _ _ s) as [[[[token p] c]|deny] s']; [|done].
  destruct Hc as (-> & Hb & Hp & Hc).
  destruct (validate_with_refresh _ _ _ _ _ _ _ _).1 as [id|err] eqn:Hv; [|done]. simpl in Hr. simplify_eq.
  exists token, p, id. split_and!; eauto.
Qed.

(** The authentication step leaves the limiter alone and denies with a status
    other than 200. *)
Lemma apply_auth_denies e cfg route hdrs rh s :
  let '(r, s') := apply_auth e cfg route hdrs rh s in
  rate_limiter s' = rate_limiter s ∧ redis s' = redis s ∧
  ∀ deny, r = Err deny → deny_status deny ∈ [401; 403; 503]%Z.
Proof.
  unfold apply_auth. destruct (negb _); [done|]. pose proof (credentials_spec cfg route hdrs s) as Hc.
  unfold st_bind. destruct (auth_credentials _ _ _ s) as [[[[token p] c]|deny] s'].
  - destruct Hc as (-> & _). apply verdict_denies.
  - destruct Hc as (? & ? & Hd). split_and!; [done..|]. intros ? [= <-]. set_solver.
Qed.

Lemma bind_status {A} (m : st App A) (k : A → st App Response) s :
  (st_bind m k s).1 = (k (m s).1 (m s).2).1.
Proof. unfold st_bind. by destruct (m s). Qed.

Lemma early_deny_status e m route code err s : status (early_deny e m route code err s).1 = code.
Proof. done. Qed.

(** The answer of the limiting step, and its headers when it allows. *)
Lemma limit_and_finish_result e cfg route m req up rh sub s :
  let rl := RouteConfig.rate_limit route in
  let key := build_key (RateLimitsConfig.redis_key_prefix (GatewayConfig.rate_limits cfg))
               (RouteConfig.name route) (RouteRateLimit.key_by rl)
               (key_value route (GatewayServer.trust_forwarded_headers (GatewayConfig.gateway cfg))
                  (m_headers m) rh) in
  let resp := (limit_and_finish e cfg route m req up rh sub s).1 in
  match (call_limiter e key (RouteRateLimit.bucket_capacity rl)
           (RouteRateLimit.refill_rate_per_sec rl) s).1 with
  | Err _ => status resp = 503%Z
  | Ok d =>
      if RateDecision.allowed d then
        resp = allow_response (insert_string_headers up
          (insert_rate_limit_headers (e_now_secs e) d rh)) (e_request_id e)
      else status resp = 429%Z ∧ Http.headers resp =
        insert_parsed "retry-after" (fmt_int (Z.max (RateDecision.retry_after_ms d / 1000) 1))
          (insert_rate_limit_headers (e_now_secs e) d rh)
  end.
Proof.
  intros rl key. cbv zeta. unfold limit_and_finish. rewrite bind_status. fold rl. fold key.
  destruct (call_limiter _ _ _ _ s).1 as [d|err].
  - by destruct (RateDecision.allowed d); cbn [negb]; rewrite !bind_status.
  - rewrite !bind_status. apply early_deny_status.
Qed.

(** The path of a request whose plugins continue. *)
Lemma check_inner_continues e hdrs method path s route :
  match_route (GatewayConfig.routes (config s)) (request_host hdrs) path = Some route →
  existsb (λ x, eq_ignore_ascii_case x method) (RouteConfig.methods route) = true →
  plugins_continue s route (request_meta hdrs method path) →
  ∃ up rh s1, quiet s s1 ∧
    (∀ p, plugin_engine s = Some p → ∃ rh0 d, rh = insert_string_headers rh0 hm_new ∧
       (host_access (plugin_request route (request_meta hdrs method path)) p).1 = Ok (Continue up rh0 d)) ∧
    (plugin_engine s = None → up = ∅ ∧ rh = hm_new) ∧
    rate_limiter s1 = rate_limiter s ∧ redis s1 = redis s ∧
    check_inner e hdrs method path s =
      (auth <-- apply_auth e (config s) route hdrs rh ;;
       match auth with
       | Err deny =>
           run_plugin_log (plugin_request route (request_meta hdrs method path)) (deny_status deny) ;;;
           early_deny e (request_meta hdrs method path) route (deny_status deny) (deny_code deny)
       | Ok (rh', sub) =>
           limit_and_finish e (config s) route (request_meta hdrs method path)
             (plugin_request route (request_meta hdrs method path)) up rh' sub
       end) s1.
Proof.
  intros Hm Hmeth Hp. unfold check_inner. unfold st_bind at 1, st_gets. fold (request_host hdrs).
  fold (request_meta hdrs method path). rewrite Hm, Hmeth. cbn [negb].
  unfold st_bind at 1, execute_access_plugins. unfold st_bind at 1, st_gets.
  set (m := request_meta hdrs method path) in *.
  destruct (plugin_engine s) as [p|] eqn:He; [|by exists ∅, hm_new, s; split_and!; [apply quiet_refl|..]].
  destruct (Hp p He) as (up & rh0 & d & Ha).
  unfold st_bind at 1, call_access. destruct (host_access (plugin_request route m) p) as [r p'] eqn:Hha.
  simpl in Ha. subst r.
  exists up, (insert_string_headers rh0 hm_new), (record_chain route d (set_plugin_engine (Some p') s)).2.
  split_and!; try done.
  - eapply quiet_trans; [apply (Quiet_set_engine (Some p') s)|apply Quiet_chain].
  - intros ? [= <-]. exists rh0, d. by rewrite Hha.
Qed.

(** The bucket of a request whose response headers are [rh] so far. *)
Definition bucket_key (cfg : GatewayConfig) (route : RouteConfig) (hdrs rh : HeaderMap) : string :=
  build_key (RateLimitsConfig.redis_key_prefix (GatewayConfig.rate_limits cfg)) (RouteConfig.name route)
    (RouteRateLimit.key_by (RouteConfig.rate_limit route))
    (key_value route (GatewayServer.trust_forwarded_headers (GatewayConfig.gateway cfg)) hdrs rh).

(** The common part of the two theorems on protected routes: the identity and
    the decision behind an allowed request, and the response. *)
Lemma allowed_response e hdrs method path s route :
  match_route (GatewayConfig.routes (config s)) (request_host hdrs) path = Some route →
  RouteConfig.auth_required route = true →
  plugins_continue s route (request_meta hdrs method path) →
  status (check_inner e hdrs method path s).1 = 200%Z →
  ∃ token p id up rh d,
    authenticated e s route hdrs token p id ∧
    (∀ q, plugin_engine s = Some q → ∃ rh0 us,
       (host_access (plugin_request route (request_meta hdrs method path)) q).1 = Ok (Continue up rh0 us)) ∧
    (plugin_engine s = None → up = ∅) ∧
    (RateLimit.check (e_rate e) (bucket_key (config s) route hdrs (auth_headers id rh))
       (RouteRateLimit.bucket_capacity (RouteConfig.rate_limit route))
       (RouteRateLimit.refill_rate_per_sec (RouteConfig.rate_limit route))
       (rate_limiter s) (redis s)).1.1 = Ok d ∧ RateDecision.allowed d = true ∧
    (check_inner e hdrs method path s).1 = allow_response (insert_string_headers up
      (insert_rate_limit_headers (e_now_secs e) d (auth_headers id rh))) (e_request_id e).
Proof.
  intros Hm Hreq Hp Hst.
  destruct (existsb (λ x, eq_ignore_ascii_case x method) (RouteConfig.methods route)) eqn:Hmeth; cycle 1.
  { unfold check_inner, st_bind at 1, st_gets in Hst. fold (request_host hdrs) in Hst.
    rewrite Hm, Hmeth in Hst. done. }
  destruct (check_inner_continues e hdrs method path s route Hm Hmeth Hp)
    as (up & rh & s1 & [Hf _] & Hsome & Hnone & Hrl & Hdb & Heq).
  rewrite Heq, bind_status in *. rewrite <-(frame_config _ _ Hf) in *.
  pose proof (apply_auth_ok e s1 route hdrs rh) as Hauth.
  pose proof (apply_auth_denies e (config s1) route hdrs rh s1) as Hden.
  destruct (apply_auth e (config s1) route hdrs rh s1) as [[[rh' sub]|deny] s2]; simpl in *;
    destruct Hden as (Hk1 & Hk2 & Hden); cycle 1.
  { exfalso. rewrite bind_status, early_deny_status in Hst. specialize (Hden deny eq_refl).
    rewrite Hst in Hden. set_solver. }
  destruct (Hauth rh' sub eq_refl Hreq) as (token & p & id & (Hb & Hpr & c & Hc & Hv) & -> & _).
  pose proof (limit_and_finish_result e (config s1) route (request_meta hdrs method path)
    (plugin_request route (request_meta hdrs method path)) up (auth_headers id rh) sub s2) as Hl.
  cbv zeta in Hl. set (key := build_key _ _ _ _) in Hl. unfold call_limiter in Hl.
  rewrite Hk1, Hk2, Hrl, Hdb in Hl.
  destruct (RateLimit.check (e_rate e) key _ _ (rate_limiter s) (redis s)) as [[[d|] l'] db'] eqn:Hck;
    simpl in Hl; [|rewrite Hl in Hst; done].
  destruct (RateDecision.allowed d) eqn:Hal; [|destruct Hl as [Hl _]; rewrite Hl in Hst; done].
  exists token, p, id, up, rh, d. split_and!; [|naive_solver|naive_solver| |done|done].
  { split_and!; [done|by rewrite <-(frame_config _ _ Hf)|]. exists c. by rewrite <-(frame_jwks _ _ Hf). }
  change (bucket_key (config s1) route hdrs (auth_headers id rh)) with key. by rewrite Hck.
Qed.
End safety.

(** ** The identity headers *)
Section identity.
Context `{Y : YamlLib} `{J : JwtLib} `{L : LuaLib} `{H : HeaderLib} `{!HeaderLaws H}.

Lemma get_insert_parsed_ne n s h k : n ≠ k → hm_get (insert_parsed n s h) k = hm_get h k.
Proof. intros Hn. unfold insert_parsed. destruct (hv_parse s); [by apply hm_get_insert_ne|done]. Qed.

Lemma get_insert_parsed_eq n s v h : hv_parse s = Some v → hm_get (insert_parsed n s h) n = Some v.
Proof. intros Hs. unfold insert_parsed. rewrite Hs. apply hm_get_insert_eq. Qed.

Lemma get_insert_strings (up : gmap string string) h k :
  (∀ n, is_Some (up !! n) → to_ascii_lowercase n ≠ k) →
  hm_get (insert_string_headers up h) k = hm_get h k.
Proof.
  intros Hup. unfold insert_string_headers.
  assert (∀ n v, (n, v) ∈ map_to_list up → to_ascii_lowercase n ≠ k) as Hl.
  { intros n v Hin%elem_of_map_to_list. apply Hup. by eexists. }
  revert h Hl. induction (map_to_list up) as [|[n v] l IH]; intros h Hl; [done|]. cbn [foldl].
  rewrite IH by (intros; eapply Hl; right; done).
  destruct (hn_parse n) as [n'|] eqn:Hn; [|done]. destruct (hv_parse v) as [v'|]; [|done].
  apply hm_get_insert_ne. rewrite (hn_parse_lower n n' Hn). apply (Hl n v). left.
Qed.

Lemma get_rate_limit_headers now d h k :
  k ∉ ["x-rate-limit-remaining"; "x-rate-limit-limit"; "x-rate-limit-mode"; "x-rate-limit-reset"] →
  hm_get (insert_rate_limit_headers now d h) k = hm_get h k.
Proof.
  intros Hk. unfold insert_rate_limit_headers. rewrite !get_insert_parsed_ne by set_solver. done.
Qed.

Context `{P : PluginHost} `{!PluginHostLaws P}.

(** [C33] The subject header is authentic: whatever headers the client or the
    plugins set, an allowed request to a protected route carries in [x-auth-sub]
    the subject of the token that was validated (when the subject is a legal
    header value). *)
Theorem subject_header_authentic (e : req_env) (hdrs : HeaderMap) (method path : string) (s : App)
    (route : RouteConfig) :
  match_route (GatewayConfig.routes (config s)) (request_host hdrs) path = Some route →
  RouteConfig.auth_required route = true →
  plugins_continue s route (request_meta hdrs method path) →
  status (check_inner e hdrs method path s).1 = 200%Z →
  ∃ token p id, authenticated e s route hdrs token p id ∧
    ∀ v, hv_parse (ValidatedIdentity.sub id) = Some v →
      hm_get (Http.headers (check_inner e hdrs method path s).1) "x-auth-sub" = Some v.
Proof.
  intros Hm Hreq Hp Hst.
  destruct (allowed_response e hdrs method path s route Hm Hreq Hp Hst)
    as (token & p & id & up & rh & d & Ha & Hsome & Hnone & _ & _ & ->).
  exists token, p, id. split; [done|]. intros v Hv. unfold allow_response. cbn [Http.headers].
  rewrite get_insert_parsed_ne by done. rewrite get_insert_strings.
  - rewrite get_rate_limit_headers by (apply (bool_decide_unpack _); vm_compute; exact I).
    unfold auth_headers. rewrite !get_insert_parsed_ne by done. by apply get_insert_parsed_eq.
  - intros n Hn Heq. destruct (plugin_engine s) as [q|] eqn:Hq.
    + destruct (Hsome q eq_refl) as (rh0 & us & Hacc).
      pose proof (host_upstream_allowed _ _ _ _ _ n Hacc Hn) as Hres.
      rewrite Heq in Hres. by vm_compute in Hres.
    + rewrite (Hnone eq_refl), lookup_empty in Hn. by destruct Hn.
Qed.

(** The value that the bucket of an authenticated request is keyed by. *)
Definition limit_value (cfg : GatewayConfig) (route : RouteConfig) (hdrs : HeaderMap) (sub value : string) : Prop :=
  if bool_decide (RouteRateLimit.key_by (RouteConfig.rate_limit route) = "sub")
  then ∀ v, hv_parse sub = Some v → value = default "anonymous" (hv_to_str v)
  else value = client_ip hdrs (GatewayServer.trust_forwarded_headers (GatewayConfig.gateway cfg)).
Lemma bucket_key_value cfg route hdrs id rh :
  ∃ value, limit_value cfg route hdrs (ValidatedIdentity.sub id) value ∧
    bucket_key cfg route hdrs (auth_headers id rh) =
      build_key (RateLimitsConfig.redis_key_prefix (GatewayConfig.rate_limits cfg)) (RouteConfig.name route)
        (RouteRateLimit.key_by (RouteConfig.rate_limit route)) value.
Proof.
  eexists. split; [|reflexivity]. unfold limit_value, key_value. case_bool_decide; [|done].
  intros v Hv. unfold header_str, auth_headers. rewrite !get_insert_parsed_ne by done.
  by rewrite (get_insert_parsed_eq _ _ v _ Hv).
Qed.

(** [C1] No request to a protected route is allowed without a valid token and a
    token of its bucket: if the check answers 200 for a route that requires
    authentication, and the plugins did not answer themselves, then the request
    carried a bearer token that is issued by the route's provider for its
    audience, not expired, carrying all scopes the route requires, and signed by
    a key of the provider's cache, which is not stale, or of what the fetches
    that ended while the request waited stored in it; and the limiter allowed
    the request on the bucket of its route and its key: the client's address, or
    the token's subject (when it is a legal header value). *)
Theorem allowed_only_if_authorised (signed : string → DecodingKey → Prop) `{!JwtLaws J signed}
    (e : req_env) (hdrs : HeaderMap) (method path : string) (s : App) (route : RouteConfig) :
  match_route (GatewayConfig.routes (config s)) (request_host hdrs) path = Some route →
  RouteConfig.auth_required route = true →
  plugins_continue s route (request_meta hdrs method path) →
  status (check_inner e hdrs method path s).1 = 200%Z →
  ∃ token p c now keys id value d,
    extract_bearer hdrs = Some (Valid token) ∧ provider_of (config s) route = Some p ∧
    jwks_registry s !! AuthProvider.name p = Some c ∧ is_stale (e_instant e) c = false ∧
    tried e c now keys ∧
    accepted_token signed now token p keys (default [] (RouteConfig.required_scopes route)) id ∧
    limit_value (config s) route hdrs (ValidatedIdentity.sub id) value ∧
    (RateLimit.check (e_rate e)
       (build_key (RateLimitsConfig.redis_key_prefix (GatewayConfig.rate_limits (config s))) (RouteConfig.name route)
          (RouteRateLimit.key_by (RouteConfig.rate_limit route)) value)
       (RouteRateLimit.bucket_capacity (RouteConfig.rate_limit route))
       (RouteRateLimit.refill_rate_per_sec (RouteConfig.rate_limit route))
       (rate_limiter s) (redis s)).1.1 = Ok d ∧ RateDecision.allowed d = true.
Proof.
  intros Hm Hreq Hp Hst.
  destruct (allowed_response e hdrs method path s route Hm Hreq Hp Hst)
    as (token & p & id & up & rh & d & (Hb & Hpr & c & Hc & Hv) & _ & _ & Hck & Hal & _).
  rewrite <-(provider_of_name _ _ _ Hpr) in Hc. apply tried_ok in Hv as (now & keys & Hfresh & Ht & Hval).
  destruct (bucket_key_value (config s) route hdrs id rh) as (value & Hlv & Hkey). rewrite Hkey in Hck.
  exists token, p, c, now, keys, id, value, d. split_and!; try done. by apply validate_token_accepted.
Qed.
End identity.

(** ** Decisions, errors, overload *)
Section decisions.
Context `{Y : YamlLib} `{J : JwtLib} `{L : LuaLib} `{H : HeaderLib} `{P : PluginHost}.

(** The verdict of the check as a table over the route, the method, the
    authentication step and the limiter, for a gateway without plugins. *)
Definition verdict (e : req_env) (s : App) (hdrs : HeaderMap) (method path : string) : Z :=
  match match_route (GatewayConfig.routes (config s)) (request_host hdrs) path with
  | None => 200
  | Some route =>
      if negb (existsb (λ x, eq_ignore_ascii_case x method) (RouteConfig.methods route)) then 405
      else match (apply_auth e (config s) route hdrs hm_new s).1 with
           | Err deny => deny_status deny
           | Ok (rh, _) =>
               let rl := RouteConfig.rate_limit route in
               let key := build_key (RateLimitsConfig.redis_key_prefix (GatewayConfig.rate_limits (config s)))
                 (RouteConfig.name route) (RouteRateLimit.key_by rl)
                 (key_value route (GatewayServer.trust_forwarded_headers (GatewayConfig.gateway (config s)))
                    hdrs rh) in
               match (RateLimit.check (e_rate e) key (RouteRateLimit.bucket_capacity rl)
                        (RouteRateLimit.refill_rate_per_sec rl) (rate_limiter s) (redis s)).1.1 with
               | Err _ => 503
               | Ok d => if RateDecision.allowed d then 200 else 429
               end
           end
  end.

(** [C4] Without plugins the check implements its decision table: the answer's
    status is 200 for an unmatched route, 405 for a method the route does not
    list, the status of the authentication failure, 503 when the limiter is
    unavailable, 429 when it denies, and 200 otherwise; and a request that is
    denied with 401, 403 or 405 leaves the limiter and its database untouched. *)
Theorem check_inner_verdict (e : req_env) (s : App) (hdrs : HeaderMap) (method path : string) :
  plugin_engine s = None →
  let '(resp, s') := check_inner e hdrs method path s in
  status resp = verdict e s hdrs method path ∧
  (verdict e s hdrs method path ∈ [401; 403; 405]%Z →
     rate_limiter s' = rate_limiter s ∧ redis s' = redis s).
Proof.
  intros Hn. unfold verdict.
  destruct (match_route _ _ _) as [route|] eqn:Hm; cycle 1.
  { unfold check_inner, st_bind at 1, st_gets. fold (request_host hdrs). rewrite Hm. by split. }
  destruct (existsb (λ x, eq_ignore_ascii_case x method) (RouteConfig.methods route)) eqn:Hmeth; cycle 1.
  { unfold check_inner, st_bind at 1, st_gets. fold (request_host hdrs). rewrite Hm, Hmeth. by split. }
  destruct (check_inner_continues e hdrs method path s route Hm Hmeth) as (up & rh & s1 & _ & _ & Hnone & _ & _ & Heq).
  { intros p Hp. congruence. }
  destruct (Hnone Hn) as [-> ->].
  assert (check_inner e hdrs method path s =
    (auth <-- apply_auth e (config s) route hdrs hm_new ;;
       match auth with
       | Err deny =>
           run_plugin_log (plugin_request route (request_meta hdrs method path)) (deny_status deny) ;;;
           early_deny e (request_meta hdrs method path) route (deny_status deny) (deny_code deny)
       | Ok (rh', sub) =>
           limit_and_finish e (config s) route (request_meta hdrs method path)
             (plugin_request route (request_meta hdrs method path)) ∅ rh' sub
       end) s) as ->.
  { unfold check_inner. unfold st_bind at 1, st_gets. fold (request_host hdrs).
    fold (request_meta hdrs method path). rewrite Hm, Hmeth. cbn [negb].
    unfold st_bind at 1, execute_access_plugins. unfold st_bind at 1, st_gets. by rewrite Hn. }
  cbn [negb]. unfold st_bind at 1.
  pose proof (apply_auth_denies e (config s) route hdrs hm_new s) as Hden.
  destruct (apply_auth e (config s) route hdrs hm_new s) as [[[rh' sub]|deny] s2];
    destruct Hden as (Hk1 & Hk2 & _); cbn [fst snd].
  - pose proof (limit_and_finish_result e (config s) route (request_meta hdrs method path)
      (plugin_request route (request_meta hdrs method path)) ∅ rh' sub s2) as Hl. cbv zeta in Hl.
    destruct (limit_and_finish _ _ _ _ _ _ _ _ s2) as [resp s3]. cbn [fst] in Hl.
    cbv zeta. set (key := build_key _ _ _ _) in *.
    unfold call_limiter in Hl. rewrite Hk1, Hk2 in Hl.
    destruct (RateLimit.check (e_rate e) key _ _ (rate_limiter s) (redis s)) as [[[d|] l'] db'];
      simpl in *; [|split; [done|set_solver]].
    destruct (RateDecision.allowed d); [by subst resp; split; [|set_solver]|].
    destruct Hl. split; [done|set_solver].
  - rewrite <-Hk1, <-Hk2. unfold run_plugin_log, st_bind, st_gets. by destruct (plugin_engine s2).
Qed.

(** An engine failure lets the request through: when the plugin engine
    itself fails (for example because its virtual machine cannot be prepared),
    the answer has status 200, which the proxy takes as permission, whatever
    the route requires; nothing is logged and neither authentication nor the
    limiter is consulted. *)
Theorem engine_failure_allows (e : req_env) (s : App) (hdrs : HeaderMap) (method path : string)
    (route : RouteConfig) (p : PState) (err : PluginError) :
  match_route (GatewayConfig.routes (config s)) (request_host hdrs) path = Some route →
  existsb (λ x, eq_ignore_ascii_case x method) (RouteConfig.methods route) = true →
  plugin_engine s = Some p →
  (host_access (plugin_request route (request_meta hdrs method path)) p).1 = Err err →
  let '(resp, s') := check_inner e hdrs method path s in
  status resp = 200%Z ∧ access_log s' = access_log s ∧ rate_limiter s' = rate_limiter s.
Proof.
  intros Hm Hmeth He Ha. unfold check_inner. unfold st_bind at 1, st_gets. fold (request_host hdrs).
  fold (request_meta hdrs method path). rewrite Hm, Hmeth. cbn [negb].
  unfold st_bind at 1, execute_access_plugins. unfold st_bind at 1, st_gets. rewrite He.
  unfold st_bind at 1, call_access. destruct (host_access _ p) as [r p']. simpl in Ha. by subst r.
Qed.

(** Overload protection: without a free permit the request is answered 503
    at once, only the overload counter and the request counter of identifiers
    move; otherwise the permit and the in-flight gauge are back at their old
    values when the check is done, whatever happened inside. *)
Theorem check_restores_permits (nanos : Z) (e : req_env) (hdrs : HeaderMap) (method path : string)
    (s : App) :
  engine_ok s →
  let '(resp, s') := check nanos e hdrs method path s in
  permits s' = permits s ∧
  gauge inflight_requests (metrics s') = gauge inflight_requests (metrics s) ∧
  ((permits s ≤ 0)%Z → status resp = 503%Z ∧ access_log s' = access_log s ∧
     counter overload_total [] (metrics s') = (counter overload_total [] (metrics s) + 1)%Z) ∧
  ((0 < permits s)%Z → length (access_log s') = S (length (access_log s))).
Proof.
  intros Hok. unfold check. unfold generate_request_id.
  set (s0 := set_request_counter _ s). set (e0 := with_request_id _ e).
  unfold begin_request. change (permits s0) with (permits s).
  destruct (Z.ltb_spec 0 (permits s)); cycle 1.
  { split_and!; try done; [|lia]. intros _. split_and!; [done..|]. apply counter_inc_eq. }
  set (s1 := (modify_metrics inc_inflight (set_permits (permits s - 1) s0)).2).
  assert (engine_ok s1) as Hok1 by exact Hok.
  destruct (one_log e0 hdrs method path s1 Hok1) as (en & (Hf & Hlog & _) & _).
  destruct (check_inner e0 hdrs method path s1) as [resp s2]. cbn [fst snd] in *.
  destruct Hf as [_ _ Hperm _ Hinf].
  split_and!.
  - change (permits (end_request s2)) with (permits s2 + 1)%Z. rewrite Hperm. simpl. lia.
  - unfold end_request. cbn [metrics set_permits modify_metrics st_modify snd]. unfold dec_inflight.
    rewrite gauge_set_eq, Hinf. unfold s1. cbn [metrics modify_metrics st_modify snd].
    unfold inc_inflight. rewrite gauge_set_eq. simpl. lia.
  - lia.
  - intros _. change (access_log (end_request s2)) with (access_log s2). rewrite Hlog, length_app.
    simpl. lia.
Qed.
End decisions.

(** ** The engine keeps its promise *)
Global Instance engine_host_laws `{V : LuaVm} (clock : nat → Z) : PluginHostLaws (engine_host clock).
Proof.
  intros req [rt slot] up resp d k. cbn [host_access engine_host fst snd].
  destruct (execute_access clock rt req slot) as [r slot'] eqn:E. intros Hr Hk. simpl in Hr. subst r.
  destruct (execute_access_continue clock rt req slot up resp d) with (k := k) as [Hres Hlow];
    [by rewrite E|done|]. by rewrite Hlow.
Qed.

(** ** Sample requests *)
Module AuthzModel.
#[local] Existing Instances JwtModel.jwt_model LuaModel.lua_model HeaderModel.header_model.
#[export] Instance plugin_model : PluginHost := engine_host (V := LuaVmModel.lua_vm_model) (λ _, 0%Z).

Definition sample_cache : @JwksCache JwtModel.jwt_model :=
  mk_cache (J := JwtModel.jwt_model) sample_provider JwtModel.sample_keys 0.

(** The gateway of the sample configuration, with Redis down and one permit;
    [engine] is its plugin engine. *)
Definition app (engine : option (PState (PluginHost := plugin_model)))
    : @App YamlModel.yaml_model JwtModel.jwt_model plugin_model :=
  mk_app sample_config {[ "main" := sample_cache ]} (from_config sample_rate_limits ConnectTimeout) ∅
    empty_metrics 1 false engine [] 0.

Definition env : req_env :=
  mk_req_env "00000000" "2026-03-29T23:59:59.000Z" 3 3 1990 1995 0
    (mk_env 1990000 0 Delivered 0 0) []
    (λ _ _, [("traceparent", "00-0-0-01")]).

Definition headers : @HeaderMap HeaderModel.header_model :=
  {[ "host" := "api.example.com"; "authorization" := "Bearer tok-1" ]}.

Definition no_token : @HeaderMap HeaderModel.header_model := {[ "host" := "api.example.com" ]}.

(** A plugin engine whose machine could not be created, on a route of the
    sample configuration. *)
Definition broken : PState (PluginHost := plugin_model) :=
  (mk_runtime (V := LuaVmModel.lua_vm_model) 1 PluginLimits.PluginLimits_default {[ "private-api" := [] ]},
   Err (Load "sandbox" "out of memory")).
End AuthzModel.

Section witnesses.
#[local] Existing Instances YamlModel.yaml_model JwtModel.jwt_model LuaModel.lua_model
  HeaderModel.header_model HeaderModel.header_model_laws AuthzModel.plugin_model.

Lemma sample_plugins_continue route m : plugins_continue (AuthzModel.app None) route m.
Proof. intros p Hp. vm_compute in Hp. done. Qed.

Lemma sample_engine_ok : engine_ok (AuthzModel.app None).
Proof. intros p req Hp. vm_compute in Hp. done. Qed.

Lemma one_log_entry_per_request_witness :
  ∃ en, AccessLogEntry.route en = "private-api" ∧ AccessLogEntry.method en = "GET" ∧ AccessLogEntry.status en = 200%Z ∧
    access_log (check_inner AuthzModel.env AuthzModel.headers "GET" "/private/data" (AuthzModel.app None)).2 = [en].
Proof.
  destruct (one_log_entry_per_request AuthzModel.env AuthzModel.headers "GET" "/private/data"
    (AuthzModel.app None) sample_engine_ok) as (en & [_ _ _ Hm _ Hr Hs] & Hl & _).
  exists en. split; [rewrite Hr; vm_compute; reflexivity|]. split; [exact Hm|].
  split; [rewrite Hs; vm_compute; reflexivity|exact Hl].
Defined.

Lemma allowed_only_if_authorised_witness :
  ∃ token p now keys id value,
    extract_bearer AuthzModel.headers = Some (Valid token) ∧ (1990 ≤ now ≤ 1995)%Z ∧
    accepted_token (J := JwtModel.jwt_model) JwtModel.signed now token p keys ["api.read"] id ∧
    limit_value sample_config sample_private_route AuthzModel.headers (ValidatedIdentity.sub id) value.
Proof.
  destruct (allowed_only_if_authorised (J := JwtModel.jwt_model) JwtModel.signed (JwtLaws0 := JwtModel.jwt_model_laws)
    AuthzModel.env AuthzModel.headers "GET" "/private/data" (AuthzModel.app None) sample_private_route)
    as (token & p & c & now & keys & id & value & _ & ? & _ & _ & _ & Ht & ? & ? & _).
  - vm_compute. reflexivity.
  - reflexivity.
  - apply sample_plugins_continue.
  - vm_compute. reflexivity.
  - exists token, p, now, keys, id, value. split; [assumption|]. split; [|split; assumption].
    destruct Ht as [[-> _]|[-> _]]; simpl; lia.
Defined.

Lemma subject_header_authentic_witness :
  ∃ token p id, authenticated AuthzModel.env (AuthzModel.app None) sample_private_route
    AuthzModel.headers token p id.
Proof.
  destruct (subject_header_authentic (PluginHostLaws0 := engine_host_laws _)
    AuthzModel.env AuthzModel.headers "GET" "/private/data" (AuthzModel.app None) sample_private_route)
    as (token & p & id & ? & _).
  - vm_compute. reflexivity.
  - reflexivity.
  - apply sample_plugins_continue.
  - vm_compute. reflexivity.
  - exists token, p, id. assumption.
Defined.

Lemma check_inner_verdict_witness :
  let '(resp, s') := check_inner AuthzModel.env AuthzModel.headers "DELETE" "/private/data" (AuthzModel.app None) in
  status resp = verdict AuthzModel.env (AuthzModel.app None) AuthzModel.headers "DELETE" "/private/data" ∧
  (verdict AuthzModel.env (AuthzModel.app None) AuthzModel.headers "DELETE" "/private/data" ∈ [401; 403; 405]%Z →
     rate_limiter s' = rate_limiter (AuthzModel.app None) ∧ redis s' = redis (AuthzModel.app None)).
Proof.
  apply (check_inner_verdict AuthzModel.env (AuthzModel.app None) AuthzModel.headers "DELETE" "/private/data").
  reflexivity.
Defined.

Lemma engine_failure_allows_witness :
  let '(resp, s') := check_inner AuthzModel.env AuthzModel.no_token "GET" "/private/data"
                       (AuthzModel.app (Some AuthzModel.broken)) in
  status resp = 200%Z ∧ access_log s' = access_log (AuthzModel.app (Some AuthzModel.broken)) ∧
  rate_limiter s' = rate_limiter (AuthzModel.app (Some AuthzModel.broken)).
Proof.
  apply (engine_failure_allows AuthzModel.env (AuthzModel.app (Some AuthzModel.broken))
    AuthzModel.no_token "GET" "/private/data" sample_private_route AuthzModel.broken
    (Load "sandbox" (PluginError_to_string (Load "sandbox" "out of memory"))));
    vm_compute; reflexivity.
Defined.

Lemma check_restores_permits_witness :
  permits (check 0 AuthzModel.env AuthzModel.headers "GET" "/private/data" (AuthzModel.app None)).2 = 1%Z.
Proof.
  pose proof (check_restores_permits 0 AuthzModel.env AuthzModel.headers "GET" "/private/data"
    (AuthzModel.app None) sample_engine_ok) as Hx.
  destruct (check 0 AuthzModel.env AuthzModel.headers "GET" "/private/data" (AuthzModel.app None)) as [resp s'].
  destruct Hx as [Hp _]. exact Hp.
Defined.
End witnesses.

(** ** Agreement with the proxy's routing

    Envoy takes the first entry of the virtual host whose prefix matches. *)
Definition envoy_cluster `{Y : YamlLib} (entries : list Value) (path : string) : option string :=
  entry ← iter_find (λ v, match entry_prefix v with
                          | Some p => starts_with p path
                          | None => false
                          end) entries;
  entry_cluster entry.

(** The authorisation service and the proxy can disagree on the route:
    with a protected route "/api" configured before an open route
    "/api/public" (a valid configuration), a request under "/api/public" is
    authorised as the open route, the longest prefix, while the generated
    proxy configuration sends it to the protected route's service, the first
    match. *)
Theorem route_order_mismatch :
  let private := RouteConfig.mk "private" ["x.com"] "/api" ["GET"] true (Some "main") None
    (RouteRateLimit.mk 100 (f64_of_int 10) "ip") (UpstreamConfig.mk "backend" 5000 0) [] in
  let public := RouteConfig.mk "public" ["x.com"] "/api/public" ["GET"] false None None
    (RouteRateLimit.mk 100 (f64_of_int 10) "ip") (UpstreamConfig.mk "front" 5000 0) [] in
  let routes := [private; public] in
  let services := [sample_service;
    ServiceConfig.mk "front" ["front:80"] (HealthCheckConfig.mk "/healthz" 2000 500)] in
  validate (λ _, true) (config_with routes services) = Ok tt ∧
  match_route routes "x.com" "/api/public/a" = Some public ∧
  (vs ← build_virtual_hosts routes; v ← head vs; es ← vhost_routes v;
   envoy_cluster es "/api/public/a") = Some "backend".
Proof. vm_compute. split_and!; reflexivity. Qed.
