(* ===== verification/ExtAuthzResponses.v ===== *)
(** * ext_authz: the shape of responses, and what plugins can put into them

    Every response of the check has a legal status code; and two ways in which
    the answer of a plugin reaches the proxy unchecked. *)
From S2P Require Import Prelude RustStr F64 Yaml ConfigTypes Samples RateLimit RateLimitSpec Auth AuthSpec.
From S2P Require Import Observability Plugins PluginsSpec Http ExtAuthz ExtAuthzSpec.

(** ** A check keeps the frame, whatever its plugins do *)
Section frames.
Context `{Y : YamlLib} `{J : JwtLib} `{L : LuaLib} `{H : HeaderLib} `{Hp : PluginHost}.

Class Framed {A} (m : st App A) : Prop := is_framed : ∀ s, frame s (m s).2.

Global Instance Framed_quiet {A} (m : st App A) : Quiet m → Framed m | 5.
Proof. intros Hm s. apply Hm. Qed.
Global Instance Framed_bind {A B} (m : st App A) (k : A → st App B) :
  Framed m → (∀ a, Framed (k a)) → Framed (st_bind m k) | 1.
Proof.
  intros Hm Hk s. unfold st_bind. specialize (Hm s). destruct (m s) as [a s']. simpl in Hm.
  eapply frame_trans; [done|]. apply Hk.
Qed.
Global Instance Framed_log e m route code sub mode service :
  Framed (emit_log e m route code sub mode service).
Proof. done. Qed.
Global Instance Framed_record e m route code : Framed (record e m route code).
Proof. done. Qed.

Global Instance Framed_early_deny e m route code err : Framed (early_deny e m route code err).
Proof. unfold early_deny. apply _. Qed.
Global Instance Framed_limit e cfg route m req up rh sub :
  Framed (limit_and_finish e cfg route m req up rh sub).
Proof.
  unfold limit_and_finish. apply Framed_bind; [apply _|]. intros [d|err]; [|apply _].
  destruct (negb _); [apply _|]. apply Framed_bind; [destruct (RateDecision.mode d); apply _|apply _].
Qed.
Global Instance Framed_plugins e route m rh : Framed (execute_access_plugins e route m rh).
Proof.
  unfold execute_access_plugins. apply Framed_bind; [apply _|]. intros [p|]; [|apply _].
  apply Framed_bind; [apply _|]. intros [[| |]|err]; unfold plugin_answer; apply _.
Qed.

Lemma check_inner_framed e hdrs method path : Framed (check_inner e hdrs method path).
Proof.
  unfold check_inner. apply Framed_bind; [apply _|]. intros cfg.
  destruct (match_route _ _ _) as [route|]; [|apply _]. destruct (negb _); [apply _|].
  apply Framed_bind; [apply _|]. intros [[[req up] rh]|resp]; [|apply _].
  apply Framed_bind; [apply _|]. intros [[rh' sub]|deny]; apply _.
Qed.

(** The permit comes back. *)
Lemma check_permits nanos e hdrs method path s :
  permits (check nanos e hdrs method path s).2 = permits s.
Proof.
  unfold check, generate_request_id. unfold begin_request.
  destruct (_ <? _)%Z; [|done].
  match goal with |- context [check_inner ?e ?h ?m ?p ?s1] =>
    pose proof (frame_permits _ _ (check_inner_framed e h m p s1)) as Hf;
    destruct (check_inner e h m p s1) as [resp s2] end.
  simpl in *. lia.
Qed.

(** What a request is answered: overload, or the verdict of the inner check on
    the same configuration, keys and plugins. *)
Lemma check_answer nanos e hdrs method path s :
  (permits s ≤ 0)%Z ∧ Http.status (check nanos e hdrs method path s).1 = 503%Z ∨
  ∃ e' s1,
    Http.status (check nanos e hdrs method path s).1 =
      Http.status (check_inner e' hdrs method path s1).1 ∧
    e_now_secs e' = e_now_secs e ∧ e_now_again e' = e_now_again e ∧ e_instant e' = e_instant e ∧ e_fetches e' = e_fetches e ∧
    config s1 = config s ∧ jwks_registry s1 = jwks_registry s ∧
    plugin_engine s1 = plugin_engine s.
Proof.
  unfold check, generate_request_id, begin_request.
  match goal with |- context [(0 <? ?p)%Z] => destruct (Z.ltb_spec 0 p) as [Hp'|Hp'] end; [right|by left].
  match goal with |- context [check_inner ?e1 _ _ _ ?s1] => exists e1, s1 end.
  split_and!; try reflexivity.
  destruct (check_inner _ _ _ _ _) as [resp s2]. by destruct (tracing_enabled s2).
Qed.

(** [plugins_continue], as a test. *)
Definition plugins_continueb (s : App) (route : RouteConfig) (m : meta) : bool :=
  match plugin_engine s with
  | None => true
  | Some p =>
      match (host_access (plugin_request route m) p).1 with Ok (Continue _ _ _) => true | _ => false end
  end.
Lemma plugins_continueb_ok s route m : plugins_continueb s route m = true → plugins_continue s route m.
Proof.
  unfold plugins_continueb. intros Hc p Hp'. rewrite Hp' in Hc.
  destruct (host_access (plugin_request route m) p).1 as [[up rh d| |]|]; naive_solver.
Qed.

(** Without a key cache the provider is unavailable. *)
Lemma check_inner_no_cache e hdrs method path s route token :
  match_route (GatewayConfig.routes (config s)) (request_host hdrs) path = Some route →
  existsb (λ x, eq_ignore_ascii_case x method) (RouteConfig.methods route) = true →
  RouteConfig.auth_required route = true →
  plugins_continue s route (request_meta hdrs method path) →
  extract_bearer hdrs = Some (Valid token) →
  jwks_registry s !! default "main" (RouteConfig.auth_provider route) = None →
  Http.status (check_inner e hdrs method path s).1 = 503%Z.
Proof.
  intros Hm Hmeth Hreq Hpl Hb Hj.
  destruct (check_inner_continues e hdrs method path s route Hm Hmeth Hpl)
    as (up & rh & s1 & [Hf _] & _ & _ & _ & _ & ->).
  assert ((apply_auth e (config s) route hdrs rh s1).1 =
            Err (mk_deny 503 "auth_provider_unavailable")) as Ha.
  { unfold apply_auth, auth_credentials. rewrite Hreq, Hb. cbn [negb]. destruct (iter_find _ _) as [p|]; [|done].
    unfold st_bind, st_gets, registry_get. by rewrite (frame_jwks _ _ Hf), Hj. }
  by rewrite bind_status, Ha, bind_status.
Qed.
End frames.

Section responses.
Context `{Y : YamlLib} `{J : JwtLib} `{L : LuaLib} `{H : HeaderLib} `{P : PluginHost}.

(** ** Status codes *)
Definition valid_status (r : Response) : Prop := (100 ≤ status r ≤ 999)%Z.

Lemma status_or_ok_range n : (100 ≤ status_or_ok n ≤ 999)%Z.
Proof.
  unfold status_or_ok. destruct ((100 <=? n)%Z && (n <=? 999)%Z) eqn:E; [|lia].
  apply andb_true_iff in E as [?%Z.leb_le ?%Z.leb_le]. lia.
Qed.

Lemma plugin_answer_valid e route m req rh r s resp :
  (plugin_answer e route m req rh r s).1 = Err resp → valid_status resp.
Proof.
  unfold plugin_answer. destruct r as [[up prh us|n code body ph us|n msg t us]|err]; rewrite ?bind_fst; simpl.
  - done.
  - rewrite ?bind_fst. simpl. intros [= <-]. apply status_or_ok_range.
  - rewrite ?bind_fst. simpl. intros [= <-]. unfold valid_status. simpl. lia.
  - intros [= <-]. unfold valid_status. simpl. lia.
Qed.

Lemma limit_and_finish_valid e cfg route m req up rh sub s :
  valid_status (limit_and_finish e cfg route m req up rh sub s).1.
Proof.
  pose proof (limit_and_finish_result e cfg route m req up rh sub s) as Hl. cbv zeta in Hl.
  unfold valid_status. destruct (call_limiter _ _ _ _ s).1 as [d|]; [|rewrite Hl; lia].
  destruct (RateDecision.allowed d); [rewrite Hl; simpl; lia|]. destruct Hl as [-> _]. lia.
Qed.

Lemma auth_step_valid e cfg route m req up hdrs rh s :
  valid_status ((auth <-- apply_auth e cfg route hdrs rh ;;
    match auth with
    | Err deny =>
        run_plugin_log req (deny_status deny) ;;;
        early_deny e m route (deny_status deny) (deny_code deny)
    | Ok (rh', sub) => limit_and_finish e cfg route m req up rh' sub
    end) s).1.
Proof.
  rewrite bind_fst. pose proof (apply_auth_denies e cfg route hdrs rh s) as Hd.
  destruct (apply_auth e cfg route hdrs rh s) as [[[rh' sub]|deny] s']; simpl;
    [apply limit_and_finish_valid|].
  destruct Hd as (_ & _ & Hd). specialize (Hd deny eq_refl).
  rewrite bind_fst. unfold valid_status. rewrite early_deny_status. set_unfold. lia.
Qed.

Lemma check_inner_valid e hdrs method path s : valid_status (check_inner e hdrs method path s).1.
Proof.
  unfold check_inner. rewrite bind_fst. simpl.
  destruct (match_route _ _ _) as [route|]; [|unfold valid_status; simpl; lia].
  destruct (negb _); [unfold valid_status; simpl; lia|]. rewrite bind_fst.
  destruct (execute_access_plugins _ _ _ _ s).1 as [[[req up] rh]|resp] eqn:Hp; [apply auth_step_valid|].
  unfold execute_access_plugins in Hp. rewrite bind_fst in Hp. simpl in Hp.
  destruct (plugin_engine s) as [p|]; [|done]. rewrite bind_fst in Hp. simpl.
  by apply plugin_answer_valid in Hp.
Qed.

(** Every answer of the check is a legal HTTP response: whatever the
    request, the plugins and the state of the limiter and of the key caches,
    its status code is between 100 and 999. *)
Theorem check_status_valid (nanos : Z) (e : req_env) (hdrs : HeaderMap) (method path : string)
    (s : App) :
  valid_status (check nanos e hdrs method path s).1.
Proof.
  unfold check. destruct (generate_request_id _ _) as [id n].
  destruct (begin_request _) as [s1|]; [|unfold valid_status; simpl; lia].
  pose proof (check_inner_valid (with_request_id id e) hdrs method path s1) as Hv.
  destruct (check_inner _ _ _ _ s1) as [r s2]. simpl in *. by destruct (tracing_enabled s2).
Qed.

(** ** Plugins and the gateway's own headers *)
Context `{!HeaderLaws H}.

(** ** Tracing *)
Lemma get_injected fields h k :
  Forall (λ f, to_ascii_lowercase f.1 ≠ k) fields →
  hm_get (inject_otel_context fields h) k = hm_get h k.
Proof.
  unfold inject_otel_context. intros Hk. revert h.
  induction Hk as [|f fields Hf Hk IH]; intros h; [done|]. simpl. rewrite IH. unfold injector_set.
  destruct (hn_parse f.1) as [n|] eqn:Hn; [|done]. destruct (hv_parse f.2); [|done].
  apply hn_parse_lower in Hn as ->. by rewrite hm_get_insert_ne.
Qed.

(** Tracing only adds its own headers: with a permit, the answer of the check
    has the status and the body that the inner check decided, and every header
    whose name the propagator does not set has the value the inner check gave
    it; with tracing off that is every header. *)
Theorem tracing_adds_only_its_fields (nanos : Z) (e : req_env) (hdrs : HeaderMap)
    (method path : string) (s : App) :
  (0 < permits s)%Z →
  ∃ e' s1,
    let inner := (check_inner e' hdrs method path s1).1 in
    let resp := (check nanos e hdrs method path s).1 in
    config s1 = config s ∧ status resp = status inner ∧ body resp = body inner ∧
    ∀ k, (tracing_enabled s = true →
          Forall (λ f : string * string, to_ascii_lowercase f.1 ≠ k)
            (e_propagate e (extractor_get hdrs) (extractor_keys hdrs))) →
      hm_get (Http.headers resp) k = hm_get (Http.headers inner) k.
Proof.
  intros Hperm. unfold check, generate_request_id, begin_request. simpl.
  destruct (Z.ltb_spec 0 (permits s)); [|lia].
  match goal with |- context [check_inner ?e1 _ _ _ ?s1] => exists e1, s1;
    pose proof (frame_tracing _ _ (check_inner_framed e1 hdrs method path s1)) as Ht;
    destruct (check_inner e1 hdrs method path s1) as [r s2] end.
  simpl in *. rewrite Ht. split_and!; [done|by destruct (tracing_enabled s)..|].
  intros k Hk. destruct (tracing_enabled s); [|done]. simpl. by apply get_injected, Hk.
Qed.

(** The path of a request to a route without authentication. *)
Lemma open_route_response e hdrs method path s route p up rh us :
  match_route (GatewayConfig.routes (config s)) (request_host hdrs) path = Some route →
  existsb (λ x, eq_ignore_ascii_case x method) (RouteConfig.methods route) = true →
  RouteConfig.auth_required route = false →
  plugin_engine s = Some p →
  (host_access (plugin_request route (request_meta hdrs method path)) p).1 = Ok (Continue up rh us) →
  status (check_inner e hdrs method path s).1 = 200%Z →
  ∃ d, (check_inner e hdrs method path s).1 = allow_response (insert_string_headers up
      (insert_rate_limit_headers (e_now_secs e) d (insert_string_headers rh hm_new))) (e_request_id e).
Proof.
  intros Hm Hmeth Hreq Hp Ha Hst.
  destruct (check_inner_continues e hdrs method path s route Hm Hmeth) as
    (up' & rh' & s1 & _ & Hsome & _ & _ & _ & Heq).
  { intros p' Hp'. simplify_eq. eauto. }
  destruct (Hsome p Hp) as (rh0 & d0 & -> & Ha'). rewrite Ha in Ha'. injection Ha' as <- <- <-.
  rewrite Heq, bind_fst in *. unfold apply_auth in *. rewrite Hreq in *. cbn [negb] in *.
  pose proof (limit_and_finish_result e (config s) route (request_meta hdrs method path)
    (plugin_request route (request_meta hdrs method path)) up (insert_string_headers rh hm_new) None s1)
    as Hl. cbv zeta in Hl. simpl in *.
  destruct (call_limiter _ _ _ _ s1).1 as [d|]; [|rewrite Hl in Hst; done].
  destruct (RateDecision.allowed d); [by exists d|]. destruct Hl as [Hl _]. rewrite Hl in Hst. done.
Qed.

(** The single header a plugin sets. *)
Lemma get_insert_single n v n' v' h :
  hn_parse n = Some n' → hv_parse v = Some v' →
  hm_get (insert_string_headers {[ n := v ]} h) n' = Some v'.
Proof.
  intros Hn Hv. unfold insert_string_headers. rewrite map_to_list_singleton. simpl.
  rewrite Hn, Hv. apply hm_get_insert_eq.
Qed.

(** The reserved prefixes do not protect the identity headers on open
    routes: a plugin may not set [x-auth-sub] towards the upstream, but the
    response headers it sets are not checked, and the response of the check is
    where the proxy takes the identity headers from.  On a route without
    authentication a plugin that sets the response header gets it into the
    answer that allows the request. *)
Theorem plugin_sets_identity_header (e : req_env) (hdrs : HeaderMap) (method path : string) (s : App)
    (route : RouteConfig) (p : PState) (us : Z) (sub : string) (v : HeaderValue) :
  match_route (GatewayConfig.routes (config s)) (request_host hdrs) path = Some route →
  existsb (λ x, eq_ignore_ascii_case x method) (RouteConfig.methods route) = true →
  RouteConfig.auth_required route = false →
  plugin_engine s = Some p →
  (host_access (plugin_request route (request_meta hdrs method path)) p).1 =
    Ok (Continue ∅ {[ "x-auth-sub" := sub ]} us) →
  hn_parse "x-auth-sub" = Some "x-auth-sub" → hv_parse sub = Some v →
  status (check_inner e hdrs method path s).1 = 200%Z →
  hm_get (Http.headers (check_inner e hdrs method path s).1) "x-auth-sub" = Some v ∧
  is_reserved "x-auth-sub" = true.
Proof.
  intros Hm Hmeth Hreq Hp Ha Hn Hv Hst. split; [|reflexivity].
  destruct (open_route_response _ _ _ _ _ _ _ _ _ _ Hm Hmeth Hreq Hp Ha Hst) as [d ->].
  unfold allow_response. cbn [Http.headers]. rewrite get_insert_parsed_ne by done.
  rewrite get_insert_strings by (intros n; rewrite lookup_empty; by intros [? ?]).
  rewrite get_rate_limit_headers by (apply (bool_decide_unpack _); vm_compute; exact I).
  by apply get_insert_single.
Qed.

(** A plugin that ends the exchange with a number that is no HTTP status
    lets the request through: the status falls back to 200, which the proxy
    takes as permission, while the log says what the plugin asked for; neither
    authentication nor the limiter is consulted. *)
Theorem invalid_exit_status_allows (e : req_env) (hdrs : HeaderMap) (method path : string) (s : App)
    (route : RouteConfig) (p : PState) (n : string) (code : Z) (b : option string)
    (ph : gmap string string) (us : Z) :
  match_route (GatewayConfig.routes (config s)) (request_host hdrs) path = Some route →
  existsb (λ x, eq_ignore_ascii_case x method) (RouteConfig.methods route) = true →
  plugin_engine s = Some p →
  (host_access (plugin_request route (request_meta hdrs method path)) p).1 =
    Ok (ShortCircuit n code b ph us) →
  (code < 100 ∨ 999 < code)%Z →
  let '(resp, s') := check_inner e hdrs method path s in
  status resp = 200%Z ∧ rate_limiter s' = rate_limiter s ∧
  AccessLogEntry.status <$> last (access_log s') = Some code.
Proof.
  intros Hm Hmeth Hp Ha Hc. unfold check_inner. unfold st_bind at 1, st_gets. fold (request_host hdrs).
  fold (request_meta hdrs method path). rewrite Hm, Hmeth. cbn [negb].
  unfold st_bind at 1, execute_access_plugins. unfold st_bind at 1, st_gets. rewrite Hp.
  unfold st_bind at 1, call_access. destruct (host_access _ p) as [r p']. simpl in Ha. subst r. simpl.
  rewrite last_snoc. split; [|done]. unfold status_or_ok.
  destruct ((100 <=? code)%Z && (code <=? 999)%Z) eqn:E; [|done].
  apply andb_true_iff in E as [?%Z.leb_le ?%Z.leb_le]. lia.
Qed.
End responses.

(** ** Witnesses *)
Section witnesses.
#[local] Existing Instances YamlModel.yaml_model JwtModel.jwt_model LuaModel.lua_model
  HeaderModel.header_model HeaderModel.header_model_laws AuthzModel.plugin_model.

(** The sample gateway with one plugin on its open route. *)
Definition one_plugin (src : string) : PState (PluginHost := AuthzModel.plugin_model) :=
  (mk_runtime (V := LuaVmModel.lua_vm_model) 1 PluginLimits.PluginLimits_default
     {[ "public-api" := [LuaVmModel.binding src src] ]}, Ok LuaVmModel.fresh).

Lemma plugin_sets_identity_header_witness :
  hm_get (Http.headers (check_inner AuthzModel.env AuthzModel.no_token "GET" "/public/x"
            (AuthzModel.app (Some (one_plugin "forge")))).1) "x-auth-sub" = Some "root".
Proof.
  apply (plugin_sets_identity_header AuthzModel.env AuthzModel.no_token "GET" "/public/x"
    (AuthzModel.app (Some (one_plugin "forge"))) sample_route (one_plugin "forge") 0 "root" "root");
    vm_compute; reflexivity.
Defined.

Lemma invalid_exit_status_allows_witness :
  status (check_inner AuthzModel.env AuthzModel.no_token "GET" "/public/x"
            (AuthzModel.app (Some (one_plugin "exit-42")))).1 = 200%Z.
Proof.
  pose proof (invalid_exit_status_allows AuthzModel.env AuthzModel.no_token "GET" "/public/x"
    (AuthzModel.app (Some (one_plugin "exit-42"))) sample_route (one_plugin "exit-42") "exit-42" 42 None
    ∅ 0 ltac:(vm_compute; reflexivity) ltac:(vm_compute; reflexivity) ltac:(reflexivity)
    ltac:(vm_compute; reflexivity) ltac:(lia)) as Hx.
  destruct (check_inner _ _ _ _ _) as [resp s']. exact (proj1 Hx).
Defined.
End witnesses.
