(* ===== verification/ExtProc.v ===== *)
(** * The ext_proc service

    [controlplane/src/extproc]: the stateless request processor
    ([processor.rs]) and the bidirectional stream that serves it
    ([server.rs]).  The messages are those of
    [proto/envoy/service/ext_proc/v3/external_processor.proto].

    The stream is a step system: the spawned task, the client that receives
    and the client that goes away interleave freely around the bounded
    channel between them. *)
From S2P Require Import Prelude RustStr.
From Stdlib Require Import Ascii.

(** ** Messages *)
Module HeaderValue.
Record HeaderValue := mk { key : string; value : string }.
End HeaderValue.
Notation HeaderValue := HeaderValue.HeaderValue.

Record HeaderMutation := mk_mutation {
  set_headers : list (option HeaderValue);
  remove_headers : list string
}.

Record ImmediateResponse := mk_immediate {
  imm_status : Z;
  imm_body : string;
  imm_header_mutation : option HeaderMutation
}.

Record CommonResponse := mk_common {
  header_mutation : option HeaderMutation;
  immediate_response : option ImmediateResponse;
  clear_route_cache : bool
}.

Inductive ProcessingRequest :=
  | ReqRequestHeaders (headers : list HeaderValue) (method path : string)
  | ReqRequestBody (body : list ascii) (end_of_stream : bool)
  | ReqResponseHeaders (headers : list HeaderValue) (status : Z)
  | ReqResponseBody (body : list ascii) (end_of_stream : bool).

Inductive ProcessingResponse :=
  | RespRequestHeaders (response : option CommonResponse)
  | RespRequestBody (response : option CommonResponse)
  | RespResponseHeaders (response : option CommonResponse)
  | RespResponseBody (response : option CommonResponse)
  | RespImmediate (reply : ImmediateResponse).

(** ** [ExtProcProcessor::process]

    [None] is the message whose [oneof] field is not set. *)
Definition find_header (name : string) (headers : list HeaderValue) : option HeaderValue :=
  iter_find (λ h, eq_ignore_ascii_case (HeaderValue.key h) name) headers.

Definition no_change : CommonResponse := mk_common None None false.

Definition empty_body_response (is_request : bool) : option ProcessingResponse :=
  let body := Some no_change in
  Some (if is_request then RespRequestBody body else RespResponseBody body).

Definition header_mutation_of (headers : list HeaderValue) : option HeaderMutation :=
  h ← find_header "x-ext-proc-set-header" headers;
  kv ← split_once "=" (HeaderValue.value h);
  Some (mk_mutation [Some (HeaderValue.mk (trim kv.1) (trim kv.2))] []).

Definition process_request_headers (headers : list HeaderValue) : ProcessingResponse :=
  match find_header "x-ext-proc-immediate-status" headers with
  | Some status_header =>
      let status := default 403%Z (parse_u32 (HeaderValue.value status_header)) in
      let body := default "blocked by ext_proc"
        (HeaderValue.value <$> find_header "x-ext-proc-immediate-body" headers) in
      RespImmediate (mk_immediate status body None)
  | None => RespRequestHeaders (Some (mk_common (header_mutation_of headers) None false))
  end.

Definition process (request : option ProcessingRequest) : option ProcessingResponse :=
  match request with
  | Some (ReqRequestHeaders headers _ _) => Some (process_request_headers headers)
  | Some (ReqRequestBody _ _) => empty_body_response true
  | Some (ReqResponseHeaders _ _) => Some (RespResponseHeaders (Some no_change))
  | Some (ReqResponseBody _ _) => empty_body_response false
  | None => None
  end.

(** ** The stream

    [Status] is tonic's error type, which the service only forwards. *)
Section stream.
Context {Status : Type}.

Definition inbound_item : Type := result Status (option ProcessingRequest).
Definition outbound_item : Type := result Status (option ProcessingResponse).

(** [mpsc::channel(16)] *)
Definition channel_capacity : nat := 16.

(** [arrived] are the items that wait in the inbound stream, [inbound_open] says
    that the client may send more. *)
Record stream_state := mk_stream {
  arrived : list inbound_item;
  inbound_open : bool;
  running : bool;
  queue : list outbound_item;
  delivered : list outbound_item;
  receiver_open : bool
}.

Definition open_stream : stream_state := mk_stream [] true true [] [] true.

(** What [tx.send(item).await] does next: wait for room, hand the item over,
    or fail because the receiver is gone. *)
Inductive send_outcome := SendBlocked | SendOk | SendClosed.
Definition send_now (s : stream_state) : send_outcome :=
  if negb (receiver_open s) then SendClosed
  else if (length (queue s) <? channel_capacity)%nat then SendOk else SendBlocked.

(** One turn of the spawned task's loop; [None] while it waits, in
    [inbound.next()] for the client or in [send] for room. *)
Definition task_turn (s : stream_state) : option stream_state :=
  let goes_on rest run q :=
    mk_stream rest (inbound_open s) run q (delivered s) (receiver_open s) in
  if negb (running s) then None
  else match arrived s with
  | [] => if inbound_open s then None else Some (goes_on [] false (queue s))
  | Ok message :: rest =>
      match send_now s with
      | SendBlocked => None
      | SendOk => Some (goes_on rest true (queue s ++ [Ok (process message)]))
      | SendClosed => Some (goes_on rest false (queue s))
      end
  | Err status :: rest =>
      match send_now s with
      | SendBlocked => None
      | SendOk => Some (goes_on rest false (queue s ++ [Err status]))
      | SendClosed => Some (goes_on rest false (queue s))
      end
  end.

Inductive stream_action :=
  | Arrive (item : inbound_item)     (* the client sends, or its connection breaks *)
  | CloseInbound                     (* the client sends no more *)
  | Turn
  | Receive
  | Disconnect.                      (* the client reads no more *)

Definition stream_step (a : stream_action) (s : stream_state) : option stream_state :=
  match a with
  | Arrive item =>
      if inbound_open s
      then Some (mk_stream (arrived s ++ [item]) true (running s) (queue s) (delivered s) (receiver_open s))
      else None
  | CloseInbound =>
      if inbound_open s
      then Some (mk_stream (arrived s) false (running s) (queue s) (delivered s) (receiver_open s))
      else None
  | Turn => task_turn s
  | Receive =>
      match receiver_open s, queue s with
      | true, x :: q => Some (mk_stream (arrived s) (inbound_open s) (running s) q (delivered s ++ [x]) true)
      | _, _ => None
      end
  | Disconnect =>
      if receiver_open s
      then Some (mk_stream (arrived s) (inbound_open s) (running s) [] (delivered s) false)
      else None
  end.

Fixpoint stream_run (acts : list stream_action) (s : stream_state) : option stream_state :=
  match acts with
  | [] => Some s
  | a :: acts => s' ← stream_step a s; stream_run acts s'
  end.

(** The answers the service owes: one per message in order, and the first
    transport error, after which it stops. *)
Fixpoint answers (items : list inbound_item) : list outbound_item :=
  match items with
  | [] => []
  | Ok message :: rest => Ok (process message) :: answers rest
  | Err status :: _ => [Err status]
  end.
End stream.
Arguments stream_state : clear implicits.
Arguments inbound_item : clear implicits.
Arguments outbound_item : clear implicits.

(** ** Theorems on the processor *)

(** The kinds of the [oneof] fields. *)
Inductive kind := KRequestHeaders | KRequestBody | KResponseHeaders | KResponseBody.
Definition request_kind (r : ProcessingRequest) : kind :=
  match r with
  | ReqRequestHeaders _ _ _ => KRequestHeaders
  | ReqRequestBody _ _ => KRequestBody
  | ReqResponseHeaders _ _ => KResponseHeaders
  | ReqResponseBody _ _ => KResponseBody
  end.
Definition response_kind (r : ProcessingResponse) : option kind :=
  match r with
  | RespRequestHeaders _ => Some KRequestHeaders
  | RespRequestBody _ => Some KRequestBody
  | RespResponseHeaders _ => Some KResponseHeaders
  | RespResponseBody _ => Some KResponseBody
  | RespImmediate _ => None
  end.
Definition has_header (name : string) (r : ProcessingRequest) : Prop :=
  ∃ hs m p h, r = ReqRequestHeaders hs m p ∧ h ∈ hs ∧
    eq_ignore_ascii_case (HeaderValue.key h) name = true.

Lemma find_header_None name hs :
  find_header name hs = None ↔
  ∀ h, h ∈ hs → eq_ignore_ascii_case (HeaderValue.key h) name = false.
Proof. apply iter_find_None. Qed.

Lemma find_header_Some name hs h :
  find_header name hs = Some h →
  h ∈ hs ∧ eq_ignore_ascii_case (HeaderValue.key h) name = true.
Proof. apply (iter_find_Some (λ h, eq_ignore_ascii_case (HeaderValue.key h) name)). Qed.

Lemma has_header_iff name hs m p :
  has_header name (ReqRequestHeaders hs m p) ↔ is_Some (find_header name hs).
Proof.
  split.
  - intros (hs' & m' & p' & h & [= <- <- <-] & Hin & Heq).
    destruct (iter_find_exists (λ h, eq_ignore_ascii_case (HeaderValue.key h) name) hs h)
      as [y Hy]; [done..|]. by exists y.
  - intros [h Hh]. destruct (find_header_Some _ _ _ Hh) as [Hin Heq].
    exists hs, m, p, h. done.
Qed.

Definition mutation_of (r : ProcessingResponse) : option HeaderMutation :=
  match r with
  | RespRequestHeaders c | RespRequestBody c | RespResponseHeaders c | RespResponseBody c =>
      c ≫= header_mutation
  | RespImmediate reply => imm_header_mutation reply
  end.

Lemma header_mutation_of_Some hs mu :
  header_mutation_of hs = Some mu → ∃ h k v,
    find_header "x-ext-proc-set-header" hs = Some h ∧
    HeaderValue.value h = k +:+ "=" +:+ v ∧
    mu = mk_mutation [Some (HeaderValue.mk (trim k) (trim v))] [].
Proof.
  unfold header_mutation_of. intros H.
  apply bind_Some in H as (h & Hh & H). apply bind_Some in H as ([k v] & Hs & [= <-]).
  apply split_once_Some in Hs as [Hv _]. by exists h, k, v.
Qed.

(** Every message whose kind is set is answered, and the answer is
    either of the message's own kind, or it is an immediate response: the
    latter exactly for request headers that carry
    [x-ext-proc-immediate-status] (in any letter case), with a 32-bit status,
    403 when the value is not a number.  A header mutation is only ever
    answered to request headers, and sets the one header that
    [x-ext-proc-set-header: key=value] names. *)
Theorem process_answers_in_kind (r : ProcessingRequest) :
  ∃ resp, process (Some r) = Some resp ∧
    (response_kind resp = Some (request_kind r) ∧ ¬ has_header "x-ext-proc-immediate-status" r
     ∨ ∃ hs m p h status body,
         r = ReqRequestHeaders hs m p ∧
         find_header "x-ext-proc-immediate-status" hs = Some h ∧
         resp = RespImmediate (mk_immediate status body None) ∧
         is_u32 status ∧
         (parse_u32 (HeaderValue.value h) = None → status = 403%Z)) ∧
    (∀ mu, mutation_of resp = Some mu →
       ∃ hs m p h k v, r = ReqRequestHeaders hs m p ∧
         find_header "x-ext-proc-set-header" hs = Some h ∧
         HeaderValue.value h = k +:+ "=" +:+ v ∧
         mu = mk_mutation [Some (HeaderValue.mk (trim k) (trim v))] []).
Proof.
  assert (Hother : request_kind r ≠ KRequestHeaders →
                   ¬ has_header "x-ext-proc-immediate-status" r).
  { intros Hk (hs & m & p & h & -> & _). by apply Hk. }
  destruct r as [hs m p|b e|hs st|b e]; simpl in *;
    [|eexists; (split; [done|]); split; [left; split; [done|by apply Hother]|done]..].
  eexists; split; [done|].
  unfold process_request_headers.
  destruct (find_header "x-ext-proc-immediate-status" hs) as [h|] eqn:Eh.
  - split; [right|done]. exists hs, m, p, h. eexists _, _. repeat (split; [done|]). split.
    + destruct (parse_u32 (HeaderValue.value h)) as [n|] eqn:En; simpl; [|by vm_compute].
      by apply parse_uint_range in En.
    + by intros ->.
  - split; [left; split; [done|]; rewrite has_header_iff, Eh; by intros [? [=]]|].
    intros mu Hmu. destruct (header_mutation_of_Some _ _ Hmu) as (h & k & v & ? & ? & ->).
    by exists hs, m, p, h, k, v.
Qed.

(** ** Theorems on the stream *)
Section stream_theorems.
Context {Status : Type}.
Implicit Types s : stream_state Status.
Implicit Types acts : list (@stream_action Status).

(** What the client has sent, and the turns the task has taken. *)
Definition arrivals acts : list (inbound_item Status) :=
  omap (λ a, match a with Arrive item => Some item | _ => None end) acts.
Definition turns acts : nat :=
  length (filter (λ a, match a with Turn => true | _ => false end = true) acts).

Definition stops (items : list (inbound_item Status)) : bool := existsb (λ i, negb (is_ok i)) items.
Lemma stops_app items items' : stops (items ++ items') = stops items || stops items'.
Proof. apply existsb_app. Qed.
Lemma answers_app items items' :
  answers (items ++ items') = answers items ++ (if stops items then [] else answers items').
Proof. induction items as [|[m|e] items IH]; simpl; [done|by rewrite IH|done]. Qed.

(** What the task still owes from state [s]: nothing once it has stopped. *)
Definition owed s : list (outbound_item Status) :=
  if running s then answers (arrived s) else [].

(** [items] is all that has arrived; [taken] the part the task has taken. *)
Record stream_inv (items : list (inbound_item Status)) s : Prop := {
  inv_capacity : length (queue s) ≤ channel_capacity;
  inv_open : receiver_open s = true → delivered s ++ queue s ++ owed s = answers items;
  inv_prefix : delivered s ++ queue s `prefix_of` answers items;
  inv_stopped : receiver_open s = true → running s = false → stops items = true ∨ inbound_open s = false;
  inv_taken : running s = true → ∃ taken, items = taken ++ arrived s ∧ stops taken = false
}.

Lemma stream_inv_init : stream_inv [] (open_stream (Status := Status)).
Proof. split; simpl; [lia|done|apply prefix_nil|done|by exists []]. Qed.

Lemma stream_inv_arrive items item s s' :
  stream_inv items s → stream_step (Arrive item) s = Some s' → stream_inv (items ++ [item]) s'.
Proof.
  intros [Hc Ho Hp Hst Ht]. destruct s as [inb io run q dl op]. simpl. destruct io; [|done]. intros [= <-].
  unfold owed in *; simpl in *. split; simpl.
  - done.
  - intros ->. rewrite answers_app, <-Ho by done. unfold owed. simpl. destruct run.
    + destruct (Ht eq_refl) as (taken & -> & Hn).
      rewrite stops_app, Hn. simpl. by rewrite answers_app, <-!app_assoc.
    + destruct (Hst eq_refl eq_refl) as [->|]; [|done]. by rewrite !app_nil_r.
  - rewrite answers_app. by apply prefix_app_r.
  - intros -> ->. left. destruct (Hst eq_refl eq_refl) as [Hs|]; [|done]. by rewrite stops_app, Hs.
  - intros Hr. destruct (Ht Hr) as (taken & -> & Hn). exists taken. by rewrite <-app_assoc.
Qed.

Lemma stream_inv_turn items s s' : stream_inv items s → task_turn s = Some s' → stream_inv items s'.
Proof.
  intros [Hc Ho Hp Hst Ht] Hs. destruct s as [inb io run q dl op].
  unfold task_turn, send_now, owed in *; simpl in *. destruct run; simpl in *; [|done].
  destruct (Ht eq_refl) as (taken & Hit & Hn). destruct inb as [|[m|e] rest]; simpl in *.
  - destruct io; [done|]. injection Hs as <-. by split; simpl; auto.
  - destruct op; simpl in *; [|injection Hs as <-; by split].
    destruct (Nat.ltb_spec (length q) channel_capacity); [|done]. injection Hs as <-.
    specialize (Ho eq_refl). split; simpl; [rewrite length_app; simpl; lia|..|done|].
    + intros _. unfold owed; simpl. by rewrite <-app_assoc.
    + exists (answers rest). by rewrite <-Ho, <-!app_assoc.
    + intros _. exists (taken ++ [Ok m]). by rewrite <-app_assoc, stops_app, Hn.
  - destruct op; simpl in *; [|injection Hs as <-; by split].
    destruct (Nat.ltb_spec (length q) channel_capacity); [|done]. injection Hs as <-.
    specialize (Ho eq_refl). split; simpl; [rewrite length_app; simpl; lia|..|done].
    + intros _. unfold owed; simpl. by rewrite app_nil_r.
    + exists []. by rewrite <-Ho, app_nil_r.
    + intros _ _. left. by rewrite Hit, stops_app, orb_true_r.
Qed.

Lemma stream_inv_step items a s s' :
  stream_inv items s → stream_step a s = Some s' → stream_inv (items ++ arrivals [a]) s'.
Proof.
  intros Hi Hs. destruct a as [item| | | |]; cbn [arrivals omap list_omap]; rewrite ?app_nil_r.
  - by eapply stream_inv_arrive.
  - destruct Hi as [Hc Ho Hp Hst Ht]. destruct s as [inb io run q dl op]. simpl in *.
    destruct io; [|done]. injection Hs as <-. by split; simpl; auto.
  - by eapply stream_inv_turn.
  - destruct Hi as [Hc Ho Hp Hst Ht]. destruct s as [inb io run q dl op]. simpl in *.
    destruct op, q as [|x q]; simplify_eq/=. split; simpl in *; [lia|..|done|done].
    + intros _. unfold owed in *; simpl in *. rewrite <-app_assoc. by apply Ho.
    + by rewrite <-app_assoc.
  - destruct Hi as [Hc Ho Hp Hst Ht]. destruct s as [inb io run q dl op]. simpl in *.
    destruct op; simplify_eq/=. split; simpl; [lia|done| |done|done].
    rewrite app_nil_r. etrans; [apply prefix_app_r; reflexivity|exact Hp].
Qed.

Lemma stream_run_inv acts : ∀ items s s',
  stream_inv items s → stream_run acts s = Some s' → stream_inv (items ++ arrivals acts) s'.
Proof.
  induction acts as [|a acts IH]; intros items s s' Hi Hr; simpl in Hr.
  { injection Hr as <-. by rewrite app_nil_r. }
  apply bind_Some in Hr as (s1 & Hs & Hr).
  assert (arrivals (a :: acts) = arrivals [a] ++ arrivals acts) as -> by (by destruct a).
  rewrite app_assoc. eapply IH; [|exact Hr]. by eapply stream_inv_step.
Qed.

(** Work left to the task and the receiver: two steps (enqueue, receive) per
    item, one to stop. *)
Definition stream_work s : nat :=
  (if running s then S (2 * length (arrived s)) else 0) + length (queue s).
Definition serves (a : @stream_action Status) : bool :=
  match a with Turn | Receive => true | _ => false end.

Lemma stream_work_step a s s' :
  stream_step a s = Some s' → serves a = true → stream_work s' < stream_work s.
Proof.
  destruct s as [inb io run q dl op]; destruct a; intros H ?; try done; simpl in H.
  - unfold task_turn, send_now, stream_work in *; simpl in *.
    destruct run, inb as [|[m|e] rest], op, io; simpl in *; simplify_eq/=; try lia;
      destruct (length q <? channel_capacity)%nat; simplify_eq/=; rewrite ?length_app; simpl; lia.
  - destruct op, q; simplify_eq/=. unfold stream_work; simpl. lia.
Qed.

Lemma serves_keeps_open a s s' :
  stream_step a s = Some s' → serves a = true →
  receiver_open s' = receiver_open s ∧ inbound_open s' = inbound_open s.
Proof.
  destruct a; simpl; intros H ?; try done; unfold task_turn, send_now in H; repeat case_match; simplify_eq/=; auto.
Qed.

(** While the client is there, the task or the receiver can move unless there is
    nothing to do. *)
Lemma stream_progress s :
  receiver_open s = true → (running s = true ∧ arrived s ≠ []) ∨ queue s ≠ [] →
  ∃ a s', serves a = true ∧ stream_step a s = Some s'.
Proof.
  intros Ho Hw. destruct (queue s) as [|x q] eqn:Eq.
  - destruct Hw as [[Hr Ha]|]; [|done]. exists Turn. simpl. unfold task_turn, send_now. rewrite Hr, Ho, Eq. simpl.
    destruct (arrived s) as [|[m|e] rest]; [done|..]; eexists; done.
  - exists Receive. simpl. rewrite Ho, Eq. eexists; done.
Qed.

Lemma stream_completes items s :
  stream_inv items s → receiver_open s = true →
  ∃ acts s', stream_run acts s = Some s' ∧ forallb serves acts = true ∧ delivered s' = answers items.
Proof.
  remember (stream_work s) as n eqn:Hn. revert s Hn.
  induction n as [n IH] using lt_wf_ind; intros s -> Hi Ho.
  destruct (decide ((running s = true ∧ arrived s ≠ []) ∨ queue s ≠ [])) as [Hw|Hw].
  - destruct (stream_progress s Ho Hw) as (a & s1 & Ha & Hs).
    destruct (serves_keeps_open _ _ _ Hs Ha) as [Ho1 _].
    pose proof (stream_inv_step _ _ _ _ Hi Hs) as Hi1.
    assert (arrivals [a] = []) as Hna by (by destruct a). rewrite Hna, app_nil_r in Hi1.
    destruct (IH (stream_work s1)) with (s := s1) as (acts & s' & Hr & Hd & Hdl);
      [by eapply stream_work_step|done|done|by rewrite Ho1|].
    exists (a :: acts), s'. simpl. rewrite Hs, Ha. done.
  - exists [], s. simpl. split; [done|]. split; [done|].
    pose proof (inv_open _ _ Hi Ho) as H. unfold owed in H.
    assert (queue s = []) as Hq by (destruct (queue s); [done|naive_solver]).
    assert ((if running s then answers (arrived s) else []) = []) as Hw'.
    { destruct (running s); [|done]. destruct (arrived s); [done|naive_solver]. }
    by rewrite Hq, Hw', !app_nil_r in H.
Qed.

(** [C38] The ext_proc stream, under every interleaving of the task, a client that
    sends, reads, stops sending or goes away, and whatever it sends: the channel
    never holds more than 16 answers; what the client has received is at every
    moment a prefix of the answers to what has arrived (one per message, in
    order, up to and including the first transport error); and as long as the
    client reads the stream cannot stall: turns of the task and reads of the
    client lead to exactly those answers having been received. *)
Theorem stream_delivers_in_order acts s :
  stream_run acts open_stream = Some s →
  length (queue s) ≤ channel_capacity ∧
  delivered s `prefix_of` answers (arrivals acts) ∧
  (receiver_open s = true →
     ∃ more s', stream_run more s = Some s' ∧ forallb serves more = true ∧
                delivered s' = answers (arrivals acts)).
Proof.
  intros Hr. pose proof (stream_run_inv _ _ _ _ stream_inv_init Hr) as Hi. simpl in Hi.
  split; [by apply (inv_capacity _ _ Hi)|]. split.
  - etrans; [|apply (inv_prefix _ _ Hi)]. by apply prefix_app_r.
  - intros Ho. by apply stream_completes.
Qed.

(** ** The end of the task *)
Lemma turns_app acts acts' : turns (acts ++ acts') = turns acts + turns acts'.
Proof. unfold turns. by rewrite filter_app, length_app. Qed.

(** Turns left: one per item that waits and one to stop; when nobody reads, the
    next one is the last. *)
Definition turns_left s : nat := if running s then S (length (arrived s)) else 0.
Definition last_turns s : nat := if running s then 1 else 0.

Lemma turns_left_step a s s' :
  stream_step a s = Some s' → turns [a] + turns_left s' ≤ turns_left s + length (arrivals [a]).
Proof.
  destruct s as [inb io run q dl op]. unfold turns, turns_left. destruct a; simpl; intros H.
  - destruct io; simplify_eq/=. destruct run; rewrite ?length_app; simpl; lia.
  - destruct io; simplify_eq/=. lia.
  - unfold task_turn, send_now in H; simpl in H.
    destruct run, inb as [|[m|e] rest], op, io; simpl in *; simplify_eq/=; try lia;
      destruct (length q <? channel_capacity)%nat; simplify_eq/=; lia.
  - destruct op, q; simplify_eq/=. lia.
  - destruct op; simplify_eq/=. lia.
Qed.

Lemma turns_bounded acts : ∀ s s',
  stream_run acts s = Some s' → turns acts + turns_left s' ≤ turns_left s + length (arrivals acts).
Proof.
  induction acts as [|a acts IH]; intros s s' Hr; simpl in Hr; [injection Hr as <-; unfold turns; simpl; lia|].
  apply bind_Some in Hr as (s1 & Hs & Hr). apply IH in Hr. apply turns_left_step in Hs.
  assert (arrivals (a :: acts) = arrivals [a] ++ arrivals acts) as -> by (by destruct a).
  change (a :: acts) with ([a] ++ acts). rewrite turns_app, length_app. lia.
Qed.

Lemma gone_step a s s' :
  stream_step a s = Some s' → receiver_open s = false →
  receiver_open s' = false ∧ turns [a] + last_turns s' = last_turns s.
Proof.
  destruct s as [inb io run q dl op]. unfold turns, last_turns. intros H Ho. simpl in Ho. subst op.
  destruct a; simpl in H.
  1-2: by destruct io; simplify_eq/=.
  - unfold task_turn, send_now in H; simpl in H.
    by destruct run, inb as [|[m|e] rest], io; simplify_eq/=.
  - done.
  - done.
Qed.
Lemma gone_run acts : ∀ s s',
  stream_run acts s = Some s' → receiver_open s = false → turns acts + last_turns s' = last_turns s.
Proof.
  induction acts as [|a acts IH]; intros s s' Hr Ho; simpl in Hr; [by injection Hr as <-|].
  apply bind_Some in Hr as (s1 & Hs & Hr). destruct (gone_step _ _ _ Hs Ho) as [Ho1 Hb].
  apply IH in Hr; [|done]. change (a :: acts) with ([a] ++ acts). rewrite turns_app. lia.
Qed.

(** [C39] The task of an ext_proc stream ends as it should.  It takes at most one turn
    per item that arrives and one to stop.  While it runs it waits only for the
    client: for an item, with the client still sending, or for room, with the
    channel full and the client still there.  Once the client reads no more, it
    takes at most one more turn, whatever arrives and waits, and that turn ends
    it. *)
Theorem stream_terminates acts s :
  stream_run acts open_stream = Some s →
  turns acts ≤ length (arrivals acts) + 1 ∧
  (running s = true → stream_step Turn s = None →
     arrived s = [] ∧ inbound_open s = true ∨
     arrived s ≠ [] ∧ length (queue s) = channel_capacity ∧ receiver_open s = true) ∧
  (receiver_open s = false → ∀ more s', stream_run more s = Some s' →
     turns more ≤ 1 ∧ (turns more = 1 → running s' = false)).
Proof.
  intros Hr. split_and!.
  - apply turns_bounded in Hr. unfold turns_left in Hr. simpl in Hr. lia.
  - pose proof (inv_capacity _ _ (stream_run_inv _ _ _ _ stream_inv_init Hr)) as Hc.
    intros Hrun. simpl. unfold task_turn, send_now. rewrite Hrun. simpl.
    destruct (arrived s) as [|item rest]; [destruct (inbound_open s); [by left|done]|]. right.
    destruct (receiver_open s); simpl in *; [|by destruct item].
    destruct (Nat.ltb_spec (length (queue s)) channel_capacity); [by destruct item|]. split_and!; [done|lia|done].
  - intros Ho more s' Hm. apply gone_run in Hm; [|done]. unfold last_turns in Hm.
    destruct (running s), (running s'); split; try done; lia.
Qed.
End stream_theorems.

(** A client that sends a blocked request, then body bytes, then breaks. *)
Definition sample_headers : inbound_item string :=
  Ok (Some (ReqRequestHeaders [HeaderValue.mk "X-Ext-Proc-Immediate-Status" "401"] "GET" "/private")).
Definition sample_body : inbound_item string := Ok (Some (ReqRequestBody [] true)).
Definition sample_actions : list (@stream_action string) :=
  [Arrive sample_headers; Turn; Arrive sample_body; Receive; Turn; Arrive (Err "cancelled"); Turn].

Lemma stream_delivers_in_order_witness :
  ∃ s, stream_run sample_actions open_stream = Some s ∧
       delivered s = [Ok (Some (RespImmediate (mk_immediate 401 "blocked by ext_proc" None)))] ∧
       length (queue s) ≤ channel_capacity.
Proof.
  eexists. split; [vm_compute; reflexivity|]. split; [reflexivity|].
  apply (stream_delivers_in_order sample_actions). vm_compute. reflexivity.
Defined.

(** The client goes away with two messages unanswered. *)
Definition gone_actions : list (@stream_action string) :=
  [Arrive sample_headers; Arrive sample_body; Disconnect].
Lemma stream_terminates_witness :
  ∃ s, stream_run gone_actions open_stream = Some s ∧ length (arrived s) = 2 ∧
    ∀ s', stream_run [Turn] s = Some s' → running s' = false.
Proof.
  eexists. split; [vm_compute; reflexivity|]. split; [reflexivity|]. intros s' Hs.
  destruct (stream_terminates gone_actions _ ltac:(vm_compute; reflexivity)) as (_ & _ & Hg).
  destruct (Hg ltac:(reflexivity) [Turn] s' Hs) as [_ Hend]. apply Hend. reflexivity.
Defined.
