(* ===== verification/SocketAddr.v ===== *)
(** * Socket addresses

    [str::parse::<SocketAddr>()] of the Rust standard library, which
    [startup.rs] applies to the listen addresses of the gRPC servers: a
    back-tracking parser over the text (here a function from the remaining
    text to a value and what is left), for IPv4 and bracketed IPv6 addresses
    with a port. *)
From S2P Require Import Prelude RustStr.
From Stdlib Require Import Ascii.

Inductive SocketAddr :=
  | V4 (a b c d : Z) (port : Z)
  | V6 (groups : list Z) (scope_id : Z) (port : Z).

Definition parser (A : Type) : Type := string → option (A * string).

(** [char::to_digit] *)
Definition to_digit (radix : Z) (a : ascii) : option Z :=
  let n := Z.of_N (N_of_ascii a) in
  let d := if (48 <=? n)%Z && (n <=? 57)%Z then Some (n - 48)%Z
           else if (97 <=? n)%Z && (n <=? 122)%Z then Some (n - 87)%Z
           else if (65 <=? n)%Z && (n <=? 90)%Z then Some (n - 55)%Z
           else None in
  match d with Some v => if (v <? radix)%Z then Some v else None | None => None end.

(** The digits at the front, and the text after them. *)
Fixpoint read_digits (radix : Z) (s : string) : list Z * string :=
  match s with
  | EmptyString => ([], s)
  | String a s' =>
      match to_digit radix a with
      | Some d => let '(ds, rest) := read_digits radix s' in (d :: ds, rest)
      | None => ([], s)
      end
  end.

Definition digits_value (radix : Z) (ds : list Z) : Z :=
  foldl (λ acc d, acc * radix + d)%Z 0%Z ds.

Definition has_leading_zero (s : string) : bool :=
  match s with String a _ => bool_decide (a = "0"%char) | EmptyString => false end.

(** A number with at most [max_digits] digits that fits into [max]. *)
Definition read_number (radix : Z) (max_digits : option nat) (allow_zero_prefix : bool) (max : Z)
    : parser Z := λ s,
  let '(ds, rest) := read_digits radix s in
  let v := digits_value radix ds in
  if match max_digits with Some m => (m <? length ds)%nat | None => false end then None
  else if (max <? v)%Z then None
  else if (length ds =? 0)%nat then None
  else if negb allow_zero_prefix && has_leading_zero s && (1 <? length ds)%nat then None
  else Some (v, rest).

Definition read_given_char (c : ascii) : parser unit := λ s,
  match s with
  | String a s' => if bool_decide (a = c) then Some (tt, s') else None
  | EmptyString => None
  end.

Definition read_separator {A} (sep : ascii) (index : nat) (inner : parser A) : parser A := λ s,
  match index with
  | O => inner s
  | S _ => match read_given_char sep s with Some (_, s) => inner s | None => None end
  end.

Definition read_octet (index : nat) : parser Z :=
  read_separator "." index (read_number 10 (Some 3) false 255).

Definition read_ipv4_addr : parser (Z * Z * Z * Z) := λ s,
  '(a, s) ← read_octet 0 s;
  '(b, s) ← read_octet 1 s;
  '(c, s) ← read_octet 2 s;
  '(d, s) ← read_octet 3 s;
  Some ((a, b, c, d), s).

(** Up to [remaining] groups, the last two possibly written as an IPv4
    address; [index] counts the groups read. *)
Fixpoint read_groups (remaining index : nat) (s : string) : list Z * bool * string :=
  match remaining with
  | O => ([], false, s)
  | S remaining =>
      match (if (0 <? remaining)%nat then read_separator ":" index read_ipv4_addr s else None) with
      | Some ((a, b, c, d), s) => ([a * 256 + b; c * 256 + d]%Z, true, s)
      | None =>
          match read_separator ":" index (read_number 16 (Some 4) true u16_max) s with
          | Some (g, s) =>
              let '(gs, v4, s) := read_groups remaining (S index) s in (g :: gs, v4, s)
          | None => ([], false, s)
          end
      end
  end.

Definition read_ipv6_addr : parser (list Z) := λ s,
  let '(head, head_ipv4, s) := read_groups 8 0 s in
  if (length head =? 8)%nat then Some (head, s)
  else if head_ipv4 then None
  else
    '(_, s) ← read_given_char ":" s;
    '(_, s) ← read_given_char ":" s;
    let '(tail, _, s) := read_groups (8 - (length head + 1)) 0 s in
    Some (head ++ replicate (8 - length head - length tail) 0%Z ++ tail, s).

Definition read_port : parser Z := λ s,
  '(_, s) ← read_given_char ":" s; read_number 10 None true u16_max s.

Definition read_scope_id : parser Z := λ s,
  '(_, s) ← read_given_char "%" s; read_number 10 None true u32_max s.

Definition read_socket_addr_v4 : parser SocketAddr := λ s,
  '(a, b, c, d, s) ← read_ipv4_addr s;
  '(port, s) ← read_port s;
  Some (V4 a b c d port, s).

Definition read_socket_addr_v6 : parser SocketAddr := λ s,
  '(_, s) ← read_given_char "[" s;
  '(ip, s) ← read_ipv6_addr s;
  let '(scope_id, s) := default (0%Z, s) (read_scope_id s) in
  '(_, s) ← read_given_char "]" s;
  '(port, s) ← read_port s;
  Some (V6 ip scope_id port, s).

Definition read_socket_addr : parser SocketAddr := λ s,
  match read_socket_addr_v4 s with Some r => Some r | None => read_socket_addr_v6 s end.

(** The whole text has to be consumed. *)
Definition socket_addr_from_str (s : string) : result string SocketAddr :=
  match read_socket_addr s with
  | Some (addr, EmptyString) => Ok addr
  | _ => Err "invalid socket address syntax"
  end.

Definition fmt_v4 (a b c d port : Z) : string :=
  fmt_int a +:+ "." +:+ fmt_int b +:+ "." +:+ fmt_int c +:+ "." +:+ fmt_int d +:+ ":" +:+ fmt_int port.

(** ** Samples *)
Example v4_sample : socket_addr_from_str "0.0.0.0:18000" = Ok (V4 0 0 0 0 18000).
Proof. reflexivity. Qed.
Example v6_samples :
  socket_addr_from_str "[::1]:80" = Ok (V6 [0; 0; 0; 0; 0; 0; 0; 1]%Z 0 80) ∧
  socket_addr_from_str "[fe80::1.2.3.4%7]:080" = Ok (V6 [65152; 0; 0; 0; 0; 0; 258; 772]%Z 7 80) ∧
  is_err (socket_addr_from_str "[1:2:3:4:5:6:7:8:9]:80") = true.
Proof. by vm_compute. Qed.
Example rejected_samples :
  forallb (λ s, is_err (socket_addr_from_str s))
    ["localhost:80"; "1.2.3:80"; "01.2.3.4:80"; "1.2.3.256:80"; "1.2.3.4:65536"; "1.2.3.4"; ":80"] = true.
Proof. by vm_compute. Qed.

(** ** Properties *)
Lemma to_digit_digit_val a : to_digit 10 a = digit_val a.
Proof. by destruct a as [[] [] [] [] [] [] [] []]. Qed.

(** A run of digits, followed by something that is not one. *)
Definition no_digit (s : string) : Prop :=
  match s with String a _ => digit_val a = None | EmptyString => True end.

Lemma read_digits_app s rest : (∀ a, a ∈ bytes s → is_Some (digit_val a)) → no_digit rest →
  ∃ ds, read_digits 10 (s +:+ rest) = (ds, rest) ∧ length ds = String.length s ∧
    ∀ max acc n, parse_digits max acc s = Some n → foldl (λ acc d, acc * 10 + d)%Z acc ds = n.
Proof.
  intros Hs Hr. induction s as [|a s IH].
  - exists []. split; [|split; [done|by intros ??? [= <-]]].
    destruct rest as [|a rest]; [done|]. simpl in *. by rewrite to_digit_digit_val, Hr.
  - destruct IH as (ds & Hd & Hl & Hv); [intros; apply Hs; simpl; set_solver|].
    destruct (Hs a) as [d Ha]; [simpl; set_solver|]. exists (d :: ds). rewrite str_app_cons. simpl.
    rewrite to_digit_digit_val, Ha, Hd. split; [done|]. split; [by rewrite Hl|].
    intros max acc n. cbn [parse_digits]. rewrite ?Ha. cbn [mbind option_bind foldl].
    destruct (_ <? _)%Z; [done|]. destruct (_ <? _)%Z; [done|]. apply Hv.
Qed.

Lemma parse_uint_digits max s n : parse_uint max s = Some n →
  (∀ a, a ∈ bytes s → is_Some (digit_val a)) → parse_digits max 0 s = Some n.
Proof.
  intros H Hs. destruct s as [|a s]; [done|]. destruct (Hs a) as [d Hd]; [simpl; set_solver|].
  assert (Hp : byte_is 43 a = false).
  { destruct (byte_is 43 a) eqn:E; [|done]. unfold byte_is in E. apply N.eqb_eq in E.
    unfold digit_val, byte_in in Hd. rewrite E in Hd. done. }
  simpl in H |- *. rewrite Hp in H. by destruct s.
Qed.

Lemma read_number_fmt m allow max n rest : (0 ≤ n ≤ max)%Z → no_digit rest →
  match m with Some m => String.length (fmt_int n) ≤ m | None => True end →
  allow = true ∨ has_leading_zero (fmt_int n +:+ rest) = false ∨ String.length (fmt_int n) ≤ 1 →
  read_number 10 m allow max (fmt_int n +:+ rest) = Some (n, rest).
Proof.
  intros Hn Hr Hm Hz. assert (Hdig : ∀ a, a ∈ bytes (fmt_int n) → is_Some (digit_val a))
    by (intros a; apply fmt_int_digits; lia).
  destruct (read_digits_app (fmt_int n) rest Hdig Hr) as (ds & Hd & Hl & Hv).
  unfold read_number. rewrite Hd. unfold digits_value.
  rewrite (Hv max 0 n)%Z by (apply parse_uint_digits; [by apply parse_fmt_int|done]). rewrite Hl.
  assert (match m with Some m => (m <? String.length (fmt_int n))%nat | None => false end = false) as ->.
  { destruct m; [|done]. apply Nat.ltb_ge. lia. }
  rewrite (proj2 (Z.ltb_ge max n)) by lia.
  assert (String.length (fmt_int n) ≠ 0).
  { pose proof (fmt_int_nonempty n ltac:(lia)). by destruct (fmt_int n). }
  rewrite (proj2 (Nat.eqb_neq _ _)) by lia.
  destruct Hz as [->|[->|Hle]]; simpl; [done|by rewrite andb_false_r|].
  rewrite (proj2 (Nat.ltb_ge 1 _)) by lia. by rewrite andb_false_r.
Qed.

Lemma read_given_app c s : read_given_char c (String c EmptyString +:+ s) = Some (tt, s).
Proof. unfold read_given_char. simpl. by rewrite bool_decide_eq_true_2. Qed.

(** The octets, one by one. *)
Definition octet_ok (n : Z) : bool :=
  (String.length (fmt_int n) <=? 3)%nat &&
  (negb (has_leading_zero (fmt_int n)) || (String.length (fmt_int n) <=? 1)%nat).
Lemma octets_ok : forallb octet_ok (Z.of_nat <$> seq 0 256) = true.
Proof. vm_compute. reflexivity. Qed.

Lemma read_octet_fmt n rest : (0 ≤ n ≤ 255)%Z → no_digit rest →
  read_number 10 (Some 3) false 255 (fmt_int n +:+ rest) = Some (n, rest).
Proof.
  intros Hn Hr. assert (H : octet_ok n = true).
  { pose proof octets_ok as H. rewrite forallb_forall in H. apply H, list_elem_of_In.
    apply list_elem_of_fmap. exists (Z.to_nat n). split; [lia|]. apply elem_of_seq. lia. }
  unfold octet_ok in H. apply andb_true_iff in H as [H1 H2]. apply Nat.leb_le in H1.
  apply read_number_fmt; [done|done|done|]. right.
  apply orb_true_iff in H2 as [H2|H2]; [left|right; by apply Nat.leb_le].
  apply negb_true_iff in H2. pose proof (fmt_int_nonempty n ltac:(lia)). by destruct (fmt_int n).
Qed.

(** The parser of listen addresses reads back every IPv4 socket address in
    its usual notation: octets up to 255 without leading zeros and a port of 16
    bits. *)
Theorem socket_addr_v4_roundtrip (a b c d port : Z) :
  (0 ≤ a ≤ 255)%Z → (0 ≤ b ≤ 255)%Z → (0 ≤ c ≤ 255)%Z → (0 ≤ d ≤ 255)%Z → is_u16 port →
  socket_addr_from_str (fmt_v4 a b c d port) = Ok (V4 a b c d port).
Proof.
  intros Ha Hb Hc Hd Hp. unfold socket_addr_from_str, read_socket_addr, read_socket_addr_v4.
  unfold read_ipv4_addr, read_octet, read_separator, fmt_v4.
  do 3 (rewrite read_octet_fmt by done; cbn [mbind option_bind]; rewrite read_given_app).
  rewrite read_octet_fmt by done. cbn [mbind option_bind]. unfold read_port. rewrite read_given_app.
  cbn [mbind option_bind]. rewrite <- (str_app_nil_r (fmt_int port)).
  rewrite read_number_fmt; [done|done|done|done|by left].
Qed.

Lemma socket_addr_v4_roundtrip_witness :
  socket_addr_from_str (fmt_v4 127 0 0 1 18000) = Ok (V4 127 0 0 1 18000).
Proof. apply socket_addr_v4_roundtrip; unfold is_u16, u16_max; lia. Defined.

(** An address starts with a digit or a bracket: host names are no socket
    addresses. *)
Lemma socket_addr_first a s : digit_val a = None → a ≠ "["%char →
  socket_addr_from_str (String a s) = Err "invalid socket address syntax".
Proof.
  intros Hd Hb. unfold socket_addr_from_str, read_socket_addr, read_socket_addr_v4, read_ipv4_addr.
  unfold read_octet, read_separator, read_number. cbn [read_digits]. rewrite to_digit_digit_val, Hd.
  simpl. unfold read_socket_addr_v6, read_given_char. by rewrite bool_decide_eq_false_2.
Qed.
