(* ===== verification/XdsResources.v ===== *)
(** * xDS resources and snapshots

    [controlplane/src/xds/protocol.rs], [resources.rs] and [snapshot.rs]: the
    Envoy messages built from a configuration, packed as [Any], and the
    immutable snapshot that serves them.  The messages have the fields of the
    [.proto] files under [proto/envoy]; a message-typed field is an [option],
    as in the generated structs.  The wire encoder (the [prost] crate) is the
    interface [ProstLib]. *)
From S2P Require Import Prelude RustStr F64 Yaml ConfigTypes.
From Stdlib Require Import Ascii.

(** ** Messages *)
Record Any := mk_any { any_type_url : string; any_value : list ascii }.
Record Duration := mk_duration { seconds : Z; nanos : Z }.

Module SocketAddress.
Record SocketAddress := mk { address : string; port_value : Z }.
End SocketAddress.

Record Address := mk_address { socket_address_of : option SocketAddress.SocketAddress }.

Module HealthCheck.
Record HealthCheck := mk {
  timeout : option Duration;
  interval : option Duration;
  path : string;
  unhealthy_threshold : Z;
  healthy_threshold : Z
}.
End HealthCheck.

Record Endpoint := mk_endpoint { endpoint_address : option Address }.
Record LbEndpoint := mk_lb_endpoint { lb_endpoint : option Endpoint }.
Record LocalityLbEndpoints := mk_locality { lb_endpoints : list LbEndpoint }.

Module ClusterLoadAssignment.
Record ClusterLoadAssignment := mk {
  cluster_name : string;
  endpoints : list LocalityLbEndpoints
}.
End ClusterLoadAssignment.
Export ClusterLoadAssignment(ClusterLoadAssignment).

Module Cluster.
Record Cluster := mk {
  name : string;
  type : string;
  lb_policy : string;
  connect_timeout : option Duration;
  load_assignment : option ClusterLoadAssignment;
  health_checks : list HealthCheck.HealthCheck
}.
End Cluster.
Export Cluster(Cluster).

Module RetryPolicy.
Record RetryPolicy := mk { retry_on : string; num_retries : Z }.
End RetryPolicy.

Module RouteAction.
Record RouteAction := mk {
  cluster : string;
  timeout : option Duration;
  retry_policy : option RetryPolicy.RetryPolicy
}.
End RouteAction.

Record RouteMatch := mk_match { match_prefix : string }.
Record Route := mk_route { route_match : option RouteMatch; route_action : option RouteAction.RouteAction }.

Module VirtualHost.
Record VirtualHost := mk { name : string; domains : list string; routes : list Route }.
End VirtualHost.
Export VirtualHost(VirtualHost).

Module RouteConfiguration.
Record RouteConfiguration := mk { name : string; virtual_hosts : list VirtualHost }.
End RouteConfiguration.

Record HttpFilter := mk_http_filter { filter_name : string; filter_config : option Any }.
Record Rds := mk_rds { route_config_name : string; config_source : string }.

Module HttpConnectionManager.
Record HttpConnectionManager := mk {
  stat_prefix : string;
  generate_request_id : bool;
  (** [HttpProtocolOptions { idle_timeout }] *)
  common_http_protocol_options : option (option Duration);
  rds : option Rds;
  http_filters : list HttpFilter
}.
End HttpConnectionManager.

(** [Filter] has the fields of [HttpFilter]; a [FilterChain] is its filters. *)
Module Listener.
Record Listener := mk {
  name : string;
  address : option Address;
  filter_chains : list (list HttpFilter)
}.
End Listener.

(** The messages the gateway encodes. *)
Inductive Message :=
  | MCluster (m : Cluster)
  | MClusterLoadAssignment (m : ClusterLoadAssignment)
  | MListener (m : Listener.Listener)
  | MRouteConfiguration (m : RouteConfiguration.RouteConfiguration)
  | MHttpConnectionManager (m : HttpConnectionManager.HttpConnectionManager)
  | MExtAuthz (grpc_service : string)
  | MExtProc (grpc_service : string)
  | MRouter.

(** [message.encode(&mut value)] into a fresh, growable buffer. *)
Class ProstLib := { encode : Message → result string (list ascii) }.

(** "An error will be returned if the buffer does not have sufficient
    capacity": a growable buffer has. *)
Class ProstLaws (P : ProstLib) : Prop := {
  encode_total m : ∃ bs, encode m = Ok bs
}.

(** ** [protocol.rs] *)
Definition CLUSTER_TYPE_URL : string := "type.googleapis.com/envoy.config.cluster.v3.Cluster".
Definition ENDPOINT_TYPE_URL : string :=
  "type.googleapis.com/envoy.config.endpoint.v3.ClusterLoadAssignment".
Definition LISTENER_TYPE_URL : string := "type.googleapis.com/envoy.config.listener.v3.Listener".
Definition ROUTE_TYPE_URL : string :=
  "type.googleapis.com/envoy.config.route.v3.RouteConfiguration".
Definition TYPE_URLS_IN_ORDER : list string :=
  [CLUSTER_TYPE_URL; ENDPOINT_TYPE_URL; LISTENER_TYPE_URL; ROUTE_TYPE_URL].

Module DiscoveryRequest.
Record DiscoveryRequest := mk {
  version_info : string;
  (** [node.map(|n| n.id)]; the other fields of [Node] are not read *)
  node : option string;
  resource_names : list string;
  type_url : string;
  response_nonce : string;
  (** [error_detail.map(|d| d.message)] *)
  error_detail : option string
}.
End DiscoveryRequest.
Export DiscoveryRequest(DiscoveryRequest).

Module DiscoveryResponse.
Record DiscoveryResponse := mk {
  version_info : string;
  resources : list Any;
  type_url : string;
  nonce : string
}.
End DiscoveryResponse.
Export DiscoveryResponse(DiscoveryResponse).

Definition is_nack (request : DiscoveryRequest) : bool :=
  match DiscoveryRequest.error_detail request with
  | Some message => negb (str_is_empty message)
  | None => false
  end.

(** ** [BTreeMap]

    An association list sorted by key, with the entry operations the code
    uses. *)
Fixpoint btree_entry {K V} (cmp : K → K → comparison) (k : K) (f : option V → V)
    (m : list (K * V)) : list (K * V) :=
  match m with
  | [] => [(k, f None)]
  | (k', v) :: m' =>
      match cmp k k' with
      | Lt => (k, f None) :: m
      | Eq => (k', f (Some v)) :: m'
      | Gt => (k', v) :: btree_entry cmp k f m'
      end
  end.

Definition btree_get {K V} (cmp : K → K → comparison) (k : K) (m : list (K * V)) : option V :=
  snd <$> iter_find (λ kv, match cmp k kv.1 with Eq => true | _ => false end) m.

(** ** [resources.rs] *)
Module Resources.
Inductive ResourceError :=
  | InvalidEndpoint (endpoint : string)
  | Encode (message : string).

Definition ResourceError_to_string (e : ResourceError) : string :=
  match e with
  | InvalidEndpoint s => "invalid endpoint format '" +:+ s +:+ "'"
  | Encode s => "failed to encode xDS resource: " +:+ s
  end.

Definition duration (ms : Z) : Duration :=
  mk_duration (as_i64 (ms / 1000)) (as_i32 ((ms `mod` 1000) * 1000000)).

Definition parse_endpoint (endpoint : string) : result ResourceError (string * Z) :=
  match rfind ":" endpoint with
  | None => Err (InvalidEndpoint endpoint)
  | Some idx =>
      let host := str_take idx endpoint in
      port ← ok_or (InvalidEndpoint endpoint) (parse_u16 (str_drop (S idx) endpoint));
      if str_is_empty host then Err (InvalidEndpoint endpoint) else Ok (host, port)
  end.

Definition socket_address (host : string) (port : Z) : Address :=
  mk_address (Some (SocketAddress.mk host port)).

Definition build_lb_endpoint (endpoint : string) : result ResourceError LbEndpoint :=
  hp ← parse_endpoint endpoint;
  Ok (mk_lb_endpoint (Some (mk_endpoint (Some (socket_address hp.1 hp.2))))).

Definition build_cluster_assignment (service : ServiceConfig)
    : result ResourceError ClusterLoadAssignment :=
  endpoints ← mapM build_lb_endpoint (ServiceConfig.endpoints service);
  Ok (ClusterLoadAssignment.mk (ServiceConfig.name service) [mk_locality endpoints]).

Section resources.
Context `{Y : YamlLib} `{P : ProstLib}.

Definition pack_any (type_url : string) (message : Message) : result ResourceError Any :=
  value ← map_err Encode (encode message);
  Ok (mk_any type_url value).

(** The [Route] a route of the configuration is translated to. *)
Definition build_route (route : RouteConfig) : Route :=
  let up := RouteConfig.upstream route in
  mk_route (Some (mk_match (RouteConfig.path_prefix route)))
    (Some (RouteAction.mk (UpstreamConfig.service up)
             (Some (duration (UpstreamConfig.request_timeout_ms up)))
             (if (0 <? UpstreamConfig.retries up)%Z
              then Some (RetryPolicy.mk "5xx,connect-failure" (UpstreamConfig.retries up))
              else None))).

(** The loop of [build_virtual_hosts]: the two maps it fills. *)
Definition group_step (maps : list (list string * list Route) * list (list string * string))
    (route : RouteConfig) : list (list string * list Route) * list (list string * string) :=
  let key := sort_strings (RouteConfig.hostnames route) in
  (btree_entry strs_cmp key (λ v, default [] v ++ [build_route route]) maps.1,
   btree_entry strs_cmp key (λ v, default (RouteConfig.name route) v) maps.2).

Definition build_virtual_hosts (routes : list RouteConfig) : list VirtualHost :=
  let '(groups, names) := foldl group_step ([], []) routes in
  (λ '(domains, rs),
     VirtualHost.mk (default "vhost" (btree_get strs_cmp domains names)) domains rs) <$> groups.

Definition build_http_filter (name type_url : string) (message : Message)
    : result ResourceError HttpFilter :=
  any ← pack_any type_url message;
  Ok (mk_http_filter name (Some any)).

Definition build_http_filters (config : GatewayConfig) : result ResourceError (list HttpFilter) :=
  filters ←
    match GatewayServer.extauthz_address (GatewayConfig.gateway config) with
    | Some ext_authz =>
        f ← build_http_filter "envoy.filters.http.ext_authz"
              "type.googleapis.com/envoy.extensions.filters.http.ext_authz.v3.ExtAuthz"
              (MExtAuthz ext_authz);
        Ok [f]
    | None => Ok []
    end;
  filters ←
    (if ExtProcConfig.enabled (GatewayConfig.ext_proc config) then
       f ← build_http_filter "envoy.filters.http.ext_proc"
             "type.googleapis.com/envoy.extensions.filters.http.ext_proc.v3.ExtProc"
             (MExtProc (ExtProcConfig.listen_address (GatewayConfig.ext_proc config)));
       Ok (filters ++ [f])
     else Ok filters);
  f ← build_http_filter "envoy.filters.http.router"
        "type.googleapis.com/envoy.extensions.filters.http.router.v3.Router" MRouter;
  Ok (filters ++ [f]).

Definition build_listener (config : GatewayConfig) : result ResourceError Any :=
  let gateway := GatewayConfig.gateway config in
  http_filters ← build_http_filters config;
  let hcm := HttpConnectionManager.mk "ingress_http" true
    (Some (Some (duration (GatewayServer.idle_timeout_ms gateway))))
    (Some (mk_rds "gateway-routes" "ads")) http_filters in
  hp ← parse_endpoint (GatewayServer.listen_address gateway);
  typed_config ← pack_any
    "type.googleapis.com/envoy.extensions.filters.network.http_connection_manager.v3.HttpConnectionManager"
    (MHttpConnectionManager hcm);
  let listener := Listener.mk "main_listener" (Some (socket_address hp.1 hp.2))
    [[mk_http_filter "envoy.filters.network.http_connection_manager" (Some typed_config)]] in
  pack_any LISTENER_TYPE_URL (MListener listener).

Definition build_route_config (config : GatewayConfig) : result ResourceError Any :=
  pack_any ROUTE_TYPE_URL
    (MRouteConfiguration (RouteConfiguration.mk "gateway-routes"
       (build_virtual_hosts (GatewayConfig.routes config)))).

Definition cluster_of (service : ServiceConfig) (assignment : ClusterLoadAssignment) : Cluster :=
  let hc := ServiceConfig.health_check service in
  Cluster.mk (ServiceConfig.name service) "STRICT_DNS" "ROUND_ROBIN"
    (Some (duration (HealthCheckConfig.timeout_ms hc))) (Some assignment)
    [HealthCheck.mk (Some (duration (HealthCheckConfig.timeout_ms hc)))
       (Some (duration (HealthCheckConfig.interval_ms hc))) (HealthCheckConfig.path hc) 3 1].

Definition build_clusters (config : GatewayConfig) : result ResourceError (list Any) :=
  mapM (λ service,
    assignment ← build_cluster_assignment service;
    pack_any CLUSTER_TYPE_URL (MCluster (cluster_of service assignment)))
    (GatewayConfig.services config).

Definition build_endpoints (config : GatewayConfig) : result ResourceError (list Any) :=
  mapM (λ service,
    assignment ← build_cluster_assignment service;
    pack_any ENDPOINT_TYPE_URL (MClusterLoadAssignment assignment))
    (GatewayConfig.services config).
End resources.
End Resources.

(** ** [snapshot.rs] *)
Module XdsSnapshot.
Record XdsSnapshot := mk {
  version : Z;
  nonce : string;
  resources : gmap string (list Any)
}.

Definition build `{YamlLib} `{ProstLib} (config : GatewayConfig) (version : Z)
    : result Resources.ResourceError XdsSnapshot :=
  let m : gmap string (list Any) := ∅ in
  clusters ← Resources.build_clusters config;
  let m := <[CLUSTER_TYPE_URL := clusters]> m in
  endpoints ← Resources.build_endpoints config;
  let m := <[ENDPOINT_TYPE_URL := endpoints]> m in
  listener ← Resources.build_listener config;
  let m := <[LISTENER_TYPE_URL := [listener]]> m in
  route_config ← Resources.build_route_config config;
  let m := <[ROUTE_TYPE_URL := [route_config]]> m in
  Ok (mk version ("snapshot-" +:+ fmt_int version) m).

Definition response_for (self : XdsSnapshot) (type_url : string) : option DiscoveryResponse :=
  (λ rs, DiscoveryResponse.mk (fmt_int (version self)) rs type_url (nonce self))
    <$> resources self !! type_url.

Definition ordered_responses (self : XdsSnapshot) : list DiscoveryResponse :=
  omap (response_for self) TYPE_URLS_IN_ORDER.
End XdsSnapshot.
Export XdsSnapshot(XdsSnapshot).
