(* ===== verification/Xds.v ===== *)
(** * The xDS control plane

    [controlplane/src/xds/version.rs], [registry.rs] and [server.rs]: the
    shared snapshot, the registry of connected Envoys and the ADS stream task.

    Streams are numbered; a stream's number stands for its channel (the
    [mpsc] sender) and for its status cell (the [Arc<RwLock<..>>]), which the
    registry and the stream's task share.  The stream task is cut at its
    awaits into [begin_request], [responses_to] and [send_next], so that a
    trace may put a reload or another stream between any two of them.

    The channels are bounded: a send waits while sixteen responses have not been
    received.  A broadcast waits at every send; [push_turn] is one of its turns,
    between which anything may happen, and [broadcast] is a broadcast whose turns
    follow each other. *)
From S2P Require Import Prelude RustStr F64 Yaml ConfigTypes Observability XdsResources.

(** ** [version.rs] *)
Module VersionCounter.
Record VersionCounter := mk { next : Z }.
Definition new (initial : Z) : VersionCounter := mk initial.
(** [self.next.fetch_add(1, Relaxed) + 1] *)
Definition increment (self : VersionCounter) : Z * VersionCounter :=
  (wrapping_add (next self) 1, mk (wrapping_add (next self) 1)).
End VersionCounter.
Export VersionCounter(VersionCounter).

(** ** Channels ([mpsc::channel(16)])

    What has been handed to the channel, how much of it the client has received,
    and whether the receiver is still there. *)
Definition ads_capacity : nat := 16.
Record Channel := mk_channel { sent : list DiscoveryResponse; received : nat; listening : bool }.
Definition new_channel : Channel := mk_channel [] 0 true.

(** What [send(response).await] does next: hand the response over, fail because
    the receiver is gone, or wait for room. *)
Inductive sending := Taken (c : Channel) | Refused | MustWait.
Definition send (response : DiscoveryResponse) (c : Channel) : sending :=
  if negb (listening c) then Refused
  else if (length (sent c) - received c <? ads_capacity)%nat
  then Taken (mk_channel (sent c ++ [response]) (received c) true)
  else MustWait.

(** The client receives the next response. *)
Definition receive (c : Channel) : option Channel :=
  if listening c && (received c <? length (sent c))%nat
  then Some (mk_channel (sent c) (S (received c)) true)
  else None.

(** Send in order up to the first failure; [true] when all were taken.  [reads]
    says that the client receives when a send has to wait for it; if it does not,
    there is no result. *)
Fixpoint send_all (reads : bool) (responses : list DiscoveryResponse) (c : Channel)
    : option (Channel * bool) :=
  match responses with
  | [] => Some (c, true)
  | r :: rs =>
      match send r c with
      | Taken c' => send_all reads rs c'
      | Refused => Some (c, false)
      | MustWait =>
          if reads then send_all reads rs (mk_channel (sent c ++ [r]) (S (received c)) true) else None
      end
  end.

(** ** [registry.rs] *)
Module EnvoyConnectionStatus.
Record EnvoyConnectionStatus := mk {
  node_id : string;
  last_type_url : option string;
  last_acked_version : option string;
  last_nonce : option string;
  last_nack : option string
}.
Definition fresh (node_id : string) : EnvoyConnectionStatus := mk node_id None None None None.
End EnvoyConnectionStatus.
Export EnvoyConnectionStatus(EnvoyConnectionStatus).

Record ConnectionHandle := mk_handle { sender : nat; status : nat }.

Record XdsControlPlane := mk_cp {
  snapshot : XdsSnapshot;
  versions : VersionCounter;
  connections : gmap string ConnectionHandle;
  status_cells : gmap nat EnvoyConnectionStatus;
  channels : gmap nat Channel;
  metrics : Metrics
}.

Definition set_connections (f : gmap string ConnectionHandle → gmap string ConnectionHandle)
    (cp : XdsControlPlane) : XdsControlPlane :=
  mk_cp (snapshot cp) (versions cp) (f (connections cp)) (status_cells cp) (channels cp) (metrics cp).
Definition set_channels (f : gmap nat Channel → gmap nat Channel) (cp : XdsControlPlane)
    : XdsControlPlane :=
  mk_cp (snapshot cp) (versions cp) (connections cp) (status_cells cp) (f (channels cp)) (metrics cp).
Definition set_status_cells
    (f : gmap nat EnvoyConnectionStatus → gmap nat EnvoyConnectionStatus) (cp : XdsControlPlane)
    : XdsControlPlane :=
  mk_cp (snapshot cp) (versions cp) (connections cp) (f (status_cells cp)) (channels cp) (metrics cp).
Definition set_metrics (f : Metrics → Metrics) (cp : XdsControlPlane) : XdsControlPlane :=
  mk_cp (snapshot cp) (versions cp) (connections cp) (status_cells cp) (channels cp) (f (metrics cp)).

(** The status cell and the sender of stream [sid] under its node id. *)
Definition register (node_id : string) (sid : nat) (cp : XdsControlPlane) : XdsControlPlane :=
  set_connections (insert node_id (mk_handle sid sid))
    (set_status_cells (insert sid (EnvoyConnectionStatus.fresh node_id)) cp).

Definition remove (node_id : string) : XdsControlPlane → XdsControlPlane :=
  set_connections (delete node_id).

Definition push_to (reads : nat → bool) (responses : list DiscoveryResponse)
    (acc : gmap nat Channel * list string) (item : string * ConnectionHandle)
    : option (gmap nat Channel * list string) :=
  let '(chans, disconnected) := acc in
  let '(key, handle) := item in
  match chans !! sender handle with
  | None => Some (chans, disconnected ++ [key])
  | Some c =>
      r ← send_all (reads (sender handle)) responses c;
      let '(c', all_taken) := r in
      Some (<[sender handle := c']> chans,
            if all_taken : bool then disconnected else disconnected ++ [key])
  end.
Fixpoint push_all (reads : nat → bool) (responses : list DiscoveryResponse)
    (items : list (string * ConnectionHandle)) (acc : gmap nat Channel * list string)
    : option (gmap nat Channel * list string) :=
  match items with
  | [] => Some acc
  | item :: items => acc ← push_to reads responses acc item; push_all reads responses items acc
  end.

(** A broadcast that nothing interrupts but the clients that receive, as [reads]
    says; [None] when it waits for one that does not.  The iteration order of the
    [DashMap] is not specified; channels of different connections are different,
    so it does not matter. *)
Definition broadcast (reads : nat → bool) (responses : list DiscoveryResponse) (cp : XdsControlPlane)
    : option XdsControlPlane :=
  r ← push_all reads responses (map_to_list (connections cp)) (channels cp, []);
  let '(chans, disconnected) := r in
  Some (set_connections (λ m, foldr delete m disconnected) (set_channels (λ _, chans) cp)).

(** ** A broadcast in turns

    The [DashMap] keeps its entries in shards, by a hash of the key, and its
    iterator goes from shard to shard.  It holds the read guard of the current
    shard, so a stream whose node id falls into it can neither register nor be
    removed before the iterator has left it; here it can, and the iterator keeps
    the entries it found. *)
Class DashMapLib := {
  shard_of : string → nat;
  shard_count : nat
}.

(** The next shard, the entries of the current one that are left, what is left to
    send to the first of them, and the entries that refused. *)
Record Push := mk_push {
  p_shard : nat;
  p_items : list (string * ConnectionHandle);
  p_left : list DiscoveryResponse;
  p_gone : list string
}.
Definition push_start : Push := mk_push 0 [] [] [].

(** A turn goes to the next shard, to the next entry, or sends one response;
    [None] while that send waits.  At the end the entries that refused are
    removed, and no broadcast is left. *)
Definition push_turn `{D : DashMapLib} (responses : list DiscoveryResponse) (p : Push)
    (cp : XdsControlPlane) : option (option Push * XdsControlPlane) :=
  match p_items p with
  | [] =>
      if (p_shard p <? shard_count)%nat then
        let entries := filter (λ item, shard_of item.1 = p_shard p) (map_to_list (connections cp)) in
        Some (Some (mk_push (S (p_shard p)) entries responses (p_gone p)), cp)
      else Some (None, set_connections (λ m, foldr delete m (p_gone p)) cp)
  | (key, handle) :: items =>
      let next gone := Some (mk_push (p_shard p) items responses gone) in
      match p_left p with
      | [] => Some (next (p_gone p), cp)
      | r :: rest =>
          match send r <$> channels cp !! sender handle with
          | Some (Taken c) =>
              Some (Some (mk_push (p_shard p) (p_items p) rest (p_gone p)),
                    set_channels (insert (sender handle) c) cp)
          | Some MustWait => None
          | Some Refused | None => Some (next (p_gone p ++ [key]), cp)
          end
      end
  end.

Definition status_cmp (left right : EnvoyConnectionStatus) : comparison :=
  str_cmp (EnvoyConnectionStatus.node_id left) (EnvoyConnectionStatus.node_id right).

Definition statuses (cp : XdsControlPlane) : list EnvoyConnectionStatus :=
  stable_sort status_cmp
    (omap (λ item, status_cells cp !! status item.2) (map_to_list (connections cp))).

Definition connected_envoys (cp : XdsControlPlane) : Z := as_i64 (Z.of_nat (size (connections cp))).

(** ** [XdsControlPlane] *)
Section control_plane.
Context `{Y : YamlLib} `{P : ProstLib}.

Definition XdsControlPlane_new (config : GatewayConfig) (m : Metrics)
    : result Resources.ResourceError XdsControlPlane :=
  s ← XdsSnapshot.build config 1;
  Ok (mk_cp s (VersionCounter.new 1) ∅ ∅ ∅ (set_xds_snapshot_version 1 m)).

Definition publish (s : XdsSnapshot) (version : Z) (cp : XdsControlPlane) : XdsControlPlane :=
  mk_cp s (versions cp) (connections cp) (status_cells cp) (channels cp)
    (set_xds_snapshot_version (as_i64 version) (metrics cp)).

(** A rebuild that nothing interrupts; [elapsed] is the time [started.elapsed()]
    reports. *)
Definition rebuild_from_config (config : GatewayConfig) (elapsed : f64) (reads : nat → bool)
    (cp : XdsControlPlane) : option (result Resources.ResourceError () * XdsControlPlane) :=
  let '(version, vs) := VersionCounter.increment (versions cp) in
  let cp := mk_cp (snapshot cp) vs (connections cp) (status_cells cp) (channels cp) (metrics cp) in
  match XdsSnapshot.build config version with
  | Err e => Some (Err e, cp)
  | Ok s =>
      let cp := publish s version cp in
      cp ← broadcast reads (XdsSnapshot.ordered_responses s) cp;
      Some (Ok (), set_metrics (record_xds_push elapsed) cp)
  end.
End control_plane.

(** ** The ADS stream task *)
Inductive phase :=
  | Waiting
  | Answering (message : DiscoveryRequest)
  | Sending (responses : list DiscoveryResponse).

Record Stream := mk_stream {
  node_id : string;
  status_handle : option nat;
  stream_phase : phase
}.

Definition new_stream : Stream := mk_stream EmptyString None Waiting.

Definition then_some (s : string) : option string :=
  if str_is_empty s then None else Some s.

Definition node_id_of (message : DiscoveryRequest) : string :=
  default "unknown" (DiscoveryRequest.node message ≫= then_some).

(** The update of the status cell, and the counter it bumps. *)
Definition update_status (message : DiscoveryRequest) (s : EnvoyConnectionStatus)
    : EnvoyConnectionStatus * (Metrics → Metrics) :=
  let tu := then_some (DiscoveryRequest.type_url message) in
  let nonce := then_some (DiscoveryRequest.response_nonce message) in
  let nid := EnvoyConnectionStatus.node_id s in
  if is_nack message then
    (EnvoyConnectionStatus.mk nid tu (EnvoyConnectionStatus.last_acked_version s) nonce
       (DiscoveryRequest.error_detail message),
     record_xds_nack)
  else if negb (str_is_empty (DiscoveryRequest.version_info message)) then
    (EnvoyConnectionStatus.mk nid tu (Some (DiscoveryRequest.version_info message)) nonce None,
     record_xds_ack)
  else
    (EnvoyConnectionStatus.mk nid tu (EnvoyConnectionStatus.last_acked_version s) nonce
       (EnvoyConnectionStatus.last_nack s),
     id).

Definition touch_status (handle : nat) (message : DiscoveryRequest) (cp : XdsControlPlane)
    : XdsControlPlane :=
  match status_cells cp !! handle with
  | None => cp
  | Some s =>
      let '(s', count) := update_status message s in
      set_metrics count (set_status_cells (insert handle s') cp)
  end.

(** From the arrival of a message to the end of the status update. *)
Definition begin_request (sid : nat) (message : DiscoveryRequest) (t : Stream)
    (cp : XdsControlPlane) : Stream * XdsControlPlane :=
  let '(t, cp) :=
    if str_is_empty (node_id t) then
      let id := node_id_of message in
      let cp := register id sid cp in
      (mk_stream id (Some sid) (stream_phase t),
       set_metrics (set_xds_connected_envoys (connected_envoys cp)) cp)
    else (t, cp) in
  let cp := match status_handle t with Some h => touch_status h message cp | None => cp end in
  (mk_stream (node_id t) (status_handle t) (Answering message), cp).

(** The responses chosen from the snapshot. *)
Definition responses_to (message : DiscoveryRequest) (s : XdsSnapshot) : list DiscoveryResponse :=
  let tu := DiscoveryRequest.type_url message in
  let responses :=
    if str_is_empty tu then XdsSnapshot.ordered_responses s
    else match XdsSnapshot.response_for s tu with Some r => [r] | None => [] end in
  match responses with
  | [] => omap (XdsSnapshot.response_for s) TYPE_URLS_IN_ORDER
  | _ => responses
  end.

(** The end of the stream: the registry entry of the node id goes. *)
Definition end_stream (t : Stream) (cp : XdsControlPlane) : XdsControlPlane :=
  if str_is_empty (node_id t) then cp
  else
    let cp := remove (node_id t) cp in
    set_metrics (set_xds_connected_envoys (connected_envoys cp)) cp.

(** ** Interleavings

    The streams in progress beside the shared control plane, and one step of
    one of them, of its client, or a configuration reload. *)
Record System := mk_sys { control_plane : XdsControlPlane; streams : gmap nat Stream }.

Inductive event `{YamlLib} :=
  | Open (sid : nat)
  | Request (sid : nat) (message : DiscoveryRequest)
  | Answer (sid : nat)
  | SendNext (sid : nat)
  | End (sid : nat)
  | Received (sid : nat)                 (* the client receives a response *)
  | HungUp (sid : nat)                   (* the receiver is dropped *)
  | Rebuild (config : GatewayConfig) (elapsed : f64) (reads : nat → bool).

Section system.
Context `{Y : YamlLib} `{P : ProstLib}.

Definition send_next (sid : nat) (t : Stream) (rs : list DiscoveryResponse) (cp : XdsControlPlane)
    : option (Stream * XdsControlPlane) :=
  let park := mk_stream (node_id t) (status_handle t) in
  match rs with
  | [] => Some (park Waiting, cp)
  | r :: rs' =>
      c ← channels cp !! sid;
      match send r c with
      | Refused => Some (park Waiting, cp)
      | Taken c' => Some (park (Sending rs'), set_channels (insert sid c') cp)
      | MustWait => None
      end
  end.

Definition stream_event (sid : nat) (f : Stream → XdsControlPlane → option (Stream * XdsControlPlane))
    (sys : System) : option System :=
  t ← streams sys !! sid;
  tc ← f t (control_plane sys);
  Some (mk_sys tc.2 (<[sid := tc.1]> (streams sys))).

(** The client's end of a channel. *)
Definition channel_event (sid : nat) (f : Channel → option Channel) (sys : System) : option System :=
  c ← channels (control_plane sys) !! sid;
  c' ← f c;
  Some (mk_sys (set_channels (insert sid c') (control_plane sys)) (streams sys)).
Definition hang_up (c : Channel) : option Channel :=
  if listening c then Some (mk_channel (sent c) (received c) false) else None.

Definition xds_step (e : event) (sys : System) : option System :=
  match e with
  | Open sid =>
      match channels (control_plane sys) !! sid with
      | Some _ => None
      | None => Some (mk_sys (set_channels (insert sid new_channel) (control_plane sys))
                        (<[sid := new_stream]> (streams sys)))
      end
  | Request sid message =>
      stream_event sid (λ t cp, match stream_phase t with
        | Waiting => Some (begin_request sid message t cp)
        | _ => None
        end) sys
  | Answer sid =>
      stream_event sid (λ t cp, match stream_phase t with
        | Answering message =>
            Some (mk_stream (node_id t) (status_handle t)
                    (Sending (responses_to message (snapshot cp))), cp)
        | _ => None
        end) sys
  | SendNext sid =>
      stream_event sid (λ t cp, match stream_phase t with
        | Sending rs => send_next sid t rs cp
        | _ => None
        end) sys
  | End sid =>
      t ← streams sys !! sid;
      match stream_phase t with
      | Waiting => Some (mk_sys (end_stream t (control_plane sys)) (delete sid (streams sys)))
      | _ => None
      end
  | Received sid => channel_event sid receive sys
  | HungUp sid => channel_event sid hang_up sys
  | Rebuild config elapsed reads =>
      r ← rebuild_from_config config elapsed reads (control_plane sys);
      Some (mk_sys r.2 (streams sys))
  end.

Fixpoint xds_run (es : list event) (sys : System) : option System :=
  match es with
  | [] => Some sys
  | e :: es => sys' ← xds_step e sys; xds_run es sys'
  end.
End system.
