(* ===== verification/XdsResourcesSpec.v ===== *)
(** * Theorems on the xDS resources

    The resources agree with the static bootstrap generator on endpoints,
    durations and virtual hosts, and a validated configuration always yields
    a complete snapshot. *)
From S2P Require Import Prelude RustStr F64 Yaml ConfigTypes Validation Samples ValidationSpec.
From S2P Require Import EnvoyGen EnvoyGenSpec XdsResources.
From Stdlib Require Import Ascii.

(** ** [BTreeMap] *)
Section btree.
Context {K V : Type} (cmp : K → K → comparison) `{!CmpOrder cmp}.
Hypothesis cmp_eq : ∀ x y, cmp x y = Eq ↔ x = y.
Context `{EqDecision K}.
Implicit Types m : list (K * V).

Definition key_lt (a b : K * V) : Prop := cmp a.1 b.1 = Lt.
Definition btree_ok m : Prop := StronglySorted key_lt m.

Lemma cmp_self x : cmp x x = Eq.
Proof. by apply cmp_eq. Qed.

Lemma btree_get_cons k k' v m :
  btree_get cmp k ((k', v) :: m) = if decide (k = k') then Some v else btree_get cmp k m.
Proof.
  unfold btree_get. simpl. case_decide as Hk.
  - subst. by rewrite cmp_self.
  - destruct (cmp k k') eqn:E; [|done..]. by apply cmp_eq in E.
Qed.

Lemma btree_get_below k k' m v :
  cmp k k' = Lt → Forall (key_lt (k', v)) m → btree_get cmp k m = None.
Proof.
  intros Hk. induction 1 as [|[k1 v1] m Hlt _ IH]; [done|]. rewrite btree_get_cons.
  rewrite decide_False; [done|]. intros ->.
  unfold key_lt in Hlt; simpl in Hlt. rewrite (cmp_opp k' k1), Hlt in Hk. done.
Qed.

Lemma btree_entry_ok k f m : btree_ok m → btree_ok (btree_entry cmp k f m).
Proof.
  induction 1 as [|[k1 v1] m Hm IH Hlt]; simpl; [repeat constructor|].
  destruct (cmp k k1) eqn:E.
  - by constructor.
  - constructor; [by constructor|]. constructor; [done|].
    eapply Forall_impl; [exact Hlt|]. intros [k2 v2] H2. unfold key_lt in *; simpl in *.
    eapply cmp_lt_le_trans; [apply _|done|]. by rewrite H2.
  - constructor; [done|]. clear IH.
    assert (Hk : key_lt (k1, v1) (k, f None)).
    { unfold key_lt; simpl. by rewrite cmp_opp, E. }
    assert (Hk' : ∀ v, key_lt (k1, v1) (k, v)) by done. clear Hk Hm.
    induction Hlt as [|[k2 v2] m H2 Hlt IH]; simpl; [by repeat constructor|].
    destruct (cmp k k2); repeat constructor; auto.
Qed.

Lemma btree_get_entry k f m k' :
  btree_ok m →
  btree_get cmp k' (btree_entry cmp k f m) =
  if decide (k' = k) then Some (f (btree_get cmp k m)) else btree_get cmp k' m.
Proof.
  induction 1 as [|[k1 v1] m Hm IH Hlt]; simpl.
  - rewrite btree_get_cons. by case_decide.
  - destruct (cmp k k1) eqn:E.
    + apply cmp_eq in E as ->. rewrite !btree_get_cons. rewrite (decide_True (P := k1 = k1)) by done.
      by case_decide.
    + rewrite !btree_get_cons. rewrite (decide_False (P := k = k1)) by
        (intros ->; by rewrite cmp_self in E).
      erewrite (btree_get_below k) by done. done.
    + rewrite !btree_get_cons, IH. rewrite (decide_False (P := k = k1)) by
        (intros ->; by rewrite cmp_self in E).
      repeat case_decide; subst; try done. by rewrite cmp_self in E.
Qed.

Lemma btree_elem k v m : btree_ok m → (k, v) ∈ m → btree_get cmp k m = Some v.
Proof.
  induction 1 as [|[k1 v1] m Hm IH Hlt]; [set_solver|].
  rewrite elem_of_cons, btree_get_cons. intros [[= -> ->]|Hin]; [by rewrite decide_True|].
  rewrite decide_False; [auto|]. intros ->.
  rewrite Forall_forall in Hlt. specialize (Hlt _ Hin). unfold key_lt in Hlt; simpl in Hlt.
  by rewrite cmp_self in Hlt.
Qed.

Lemma btree_get_elem k v m : btree_get cmp k m = Some v → (k, v) ∈ m.
Proof.
  unfold btree_get. intros H. apply fmap_Some in H as ([k1 v1] & Hf & ->).
  apply iter_find_Some in Hf as [Hin Hk]. simpl in *.
  destruct (cmp k k1) eqn:E; [|done..]. by apply cmp_eq in E as ->.
Qed.

Lemma btree_nodup m : btree_ok m → NoDup (m.*1).
Proof.
  induction 1 as [|[k1 v1] m Hm IH Hlt]; simpl; constructor; [|done].
  intros (kv & -> & Hin)%list_elem_of_fmap. rewrite Forall_forall in Hlt.
  specialize (Hlt _ Hin). unfold key_lt in Hlt; simpl in Hlt. by rewrite cmp_self in Hlt.
Qed.
End btree.

(** ** Virtual hosts *)
Section virtual_hosts.
Context `{Y : YamlLib}.

Definition routes_of_key (k : list string) (routes : list RouteConfig) : list RouteConfig :=
  filter (λ r, route_key r = k) routes.

Definition nonempty {A} (l : list A) : option (list A) :=
  match l with [] => None | _ => Some l end.

(** The maps after the loop. *)
Record maps_ok (routes : list RouteConfig)
    (maps : list (list string * list Route) * list (list string * string)) : Prop := {
  maps_groups_ok : btree_ok strs_cmp maps.1;
  maps_names_ok : btree_ok strs_cmp maps.2;
  maps_groups k : btree_get strs_cmp k maps.1 =
    nonempty (Resources.build_route <$> routes_of_key k routes);
  maps_names k : btree_get strs_cmp k maps.2 = RouteConfig.name <$> head (routes_of_key k routes)
}.

Lemma maps_ok_foldl routes : maps_ok routes (foldl Resources.group_step ([], []) routes).
Proof.
  induction routes as [|r rs IH] using rev_ind; [split; try done; constructor|].
  rewrite foldl_app. simpl. destruct IH as [Hg Hn Hgk Hnk].
  assert (Hf : ∀ k, routes_of_key k (rs ++ [r]) =
                    routes_of_key k rs ++ if decide (k = route_key r) then [r] else []).
  { intros k. unfold routes_of_key. rewrite filter_app, filter_cons, filter_nil.
    repeat case_decide; congruence. }
  split; unfold Resources.group_step; cbn [fst snd].
  1,2: by apply (btree_entry_ok strs_cmp).
  - intros k. rewrite Hf, (btree_get_entry _ strs_cmp_eq) by done.
    fold (route_key r). case_decide as Hk; [|by rewrite app_nil_r].
    subst k. rewrite Hgk, fmap_app. simpl.
    by destruct (Resources.build_route <$> routes_of_key (route_key r) rs).
  - intros k. rewrite Hf, (btree_get_entry _ strs_cmp_eq) by done.
    fold (route_key r). case_decide as Hk; [|by rewrite app_nil_r].
    subst k. rewrite Hnk. by destruct (routes_of_key (route_key r) rs).
Qed.

(** Two groupings of the same routes have the same groups. *)
Lemma groups_ok_perm {V} (entry : RouteConfig → V) routes gs1 gs2 :
  groups_ok entry routes gs1 → groups_ok entry routes gs2 → gs1 ≡ₚ gs2.
Proof.
  assert (Hsub : ∀ gs gs', groups_ok entry routes gs → groups_ok entry routes gs' →
                 ∀ g, g ∈ gs → g ∈ gs').
  { intros gs gs' [_ He _] [_ He' Hc'] [[k n] es] Hin. destruct (He _ _ _ Hin) as [-> Hn].
    destruct (filter (λ r, route_key r = k) routes) as [|r l] eqn:Ef; [done|].
    assert (Hr : r ∈ filter (λ r, route_key r = k) routes) by (rewrite Ef; left).
    apply list_elem_of_filter in Hr as [<- Hr].
    apply Hc' in Hr. apply list_elem_of_fmap in Hr as ([[k' n'] es'] & Hk & Hin').
    simpl in Hk. subst k'. destruct (He' _ _ _ Hin') as [-> Hn']. rewrite Ef in *.
    simplify_eq/=. done. }
  intros H1 H2. apply NoDup_Permutation.
  - eapply NoDup_fmap_1, groups_nodup, H1.
  - eapply NoDup_fmap_1, groups_nodup, H2.
  - intros g. split; by apply Hsub.
Qed.

(** The virtual hosts as groups. *)
Definition host_group (v : VirtualHost) : list string * string * list Route :=
  (VirtualHost.domains v, VirtualHost.name v, VirtualHost.routes v).

Lemma xds_groups_ok routes :
  groups_ok Resources.build_route routes (host_group <$> Resources.build_virtual_hosts routes).
Proof.
  unfold Resources.build_virtual_hosts.
  destruct (maps_ok_foldl routes) as [Hg Hn Hgk Hnk].
  destruct (foldl Resources.group_step ([], []) routes) as [groups names]. simpl in *.
  rewrite <- list_fmap_compose. split.
  - rewrite <- list_fmap_compose.
    replace (_ <$> groups) with (groups.*1); [by apply (btree_nodup _ strs_cmp_eq)|].
    apply list_fmap_ext. by intros _ [k rs] _.
  - intros k n es ([k' rs] & Heq & Hin)%list_elem_of_fmap. unfold host_group in Heq.
    simpl in Heq. simplify_eq.
    apply (btree_elem _ strs_cmp_eq) in Hin; [|done]. rewrite Hgk in Hin. rewrite Hnk.
    fold (routes_of_key k' routes).
    destruct (routes_of_key k' routes) as [|r l]; by simplify_eq/=.
  - intros r Hr. rewrite <- list_fmap_compose. apply list_elem_of_fmap.
    assert (Hin : r ∈ routes_of_key (route_key r) routes) by by apply list_elem_of_filter.
    destruct (btree_get strs_cmp (route_key r) groups) as [rs|] eqn:E.
    + exists (route_key r, rs). split; [done|]. by apply (btree_get_elem _ strs_cmp_eq).
    + rewrite Hgk in E. by destruct (routes_of_key (route_key r) routes); [set_solver|].
Qed.

Lemma xds_domains_sorted routes :
  StronglySorted (λ v w, strs_cmp (VirtualHost.domains v) (VirtualHost.domains w) = Lt)
    (Resources.build_virtual_hosts routes).
Proof.
  unfold Resources.build_virtual_hosts. destruct (maps_ok_foldl routes) as [Hg _ _ _].
  destruct (foldl Resources.group_step ([], []) routes) as [groups names]. simpl in *.
  induction Hg as [|[k rs] m _ IH Hlt]; simpl; constructor; [done|].
  apply Forall_fmap. eapply Forall_impl; [exact Hlt|]. by intros [k' rs'] ?.
Qed.

(** [C37] The xDS server and the static bootstrap group the routes into the
    same virtual hosts: the same sets of hosts, each with the same name and
    with the routes in configuration order; the xDS server lists them in the
    order of their domains, each once, so equal configurations give equal
    resources. *)
Theorem xds_hosts_match_bootstrap (routes : list RouteConfig) :
  host_group <$> Resources.build_virtual_hosts routes
    ≡ₚ group_routes Resources.build_route routes ∧
  StronglySorted (λ v w, strs_cmp (VirtualHost.domains v) (VirtualHost.domains w) = Lt)
    (Resources.build_virtual_hosts routes).
Proof.
  split; [|apply xds_domains_sorted].
  eapply groups_ok_perm; [apply xds_groups_ok|apply group_routes_ok].
Qed.
End virtual_hosts.

(** ** Endpoints and durations *)
Lemma xds_endpoint_agrees `{YamlLib} s hp :
  Resources.parse_endpoint s = Ok hp ↔ parse_endpoint s = Ok hp.
Proof.
  unfold Resources.parse_endpoint, parse_endpoint, mbind, result_bind, ok_or.
  destruct (rfind ":" s) as [i|];
    [|split; discriminate].
  destruct (parse_u16 (str_drop (S i) s)), (str_is_empty (str_take i s));
    split; first [discriminate | by intros [= <-]].
Qed.

Lemma xds_endpoint_error s e :
  Resources.parse_endpoint s = Err e → e = Resources.InvalidEndpoint s.
Proof.
  unfold Resources.parse_endpoint, mbind, result_bind, ok_or. destruct (rfind ":" s) as [i|];
    [|by intros [= <-]].
  destruct (parse_u16 (str_drop (S i) s)), (str_is_empty (str_take i s));
    by intros [= <-].
Qed.

(** The xDS durations are exact for every 64-bit number of milliseconds:
    neither cast overflows, the nanoseconds are in the range the protobuf
    [Duration] requires, and seconds and nanoseconds add up to the
    milliseconds configured. *)
Theorem xds_duration_exact (ms : Z) :
  is_u64 ms →
  let d := Resources.duration ms in
  (0 ≤ seconds d < 2 ^ 63)%Z ∧ (0 ≤ nanos d < 1000000000)%Z ∧
  (seconds d * 1000000000 + nanos d = ms * 1000000)%Z.
Proof.
  unfold is_u64, u64_max, Resources.duration, as_i64, as_i32. simpl. intros Hms.
  pose proof (Z.mod_pos_bound ms 1000). pose proof (Z.div_mod ms 1000).
  rewrite (Z.mod_small (ms / 1000)) by lia.
  rewrite (Z.mod_small (_ * 1000000)) by lia.
  rewrite (proj2 (Z.ltb_lt _ _)) by lia. rewrite (proj2 (Z.ltb_lt _ _)) by lia. lia.
Qed.

Lemma xds_duration_exact_witness :
  Resources.duration 18446744073709551615 = mk_duration 18446744073709551 615000000 ∧
  (18446744073709551 * 1000000000 + 615000000 = 18446744073709551615 * 1000000)%Z.
Proof.
  split; [vm_compute; reflexivity|].
  apply (xds_duration_exact 18446744073709551615). unfold is_u64, u64_max. lia.
Defined.

(** ** Snapshots *)
Section snapshot.
Context `{Y : YamlLib} `{P : ProstLib}.

(** [any] is the encoding of [m] under [type_url]. *)
Definition packs (type_url : string) (m : Message) (any : Any) : Prop :=
  any_type_url any = type_url ∧ encode m = Ok (any_value any).

(** The addresses of a service, as parsed. *)
Definition assignment_of (service : ServiceConfig) (a : ClusterLoadAssignment) : Prop :=
  ClusterLoadAssignment.cluster_name a = ServiceConfig.name service ∧
  ∃ lbs, ClusterLoadAssignment.endpoints a = [mk_locality lbs] ∧
    Forall2 (λ ep lb, ∃ host port, parse_endpoint ep = Ok (host, port) ∧
               lb = mk_lb_endpoint (Some (mk_endpoint (Some (Resources.socket_address host port)))))
      (ServiceConfig.endpoints service) lbs.

Definition packs_service (service : ServiceConfig) (cluster endpoints : Any) : Prop :=
  ∃ a, assignment_of service a ∧
    packs CLUSTER_TYPE_URL (MCluster (Resources.cluster_of service a)) cluster ∧
    packs ENDPOINT_TYPE_URL (MClusterLoadAssignment a) endpoints.

(** The filters a configuration asks for, in order. *)
Definition expected_filters (config : GatewayConfig) : list string :=
  match GatewayServer.extauthz_address (GatewayConfig.gateway config) with
  | Some _ => ["envoy.filters.http.ext_authz"]
  | None => []
  end ++
  (if ExtProcConfig.enabled (GatewayConfig.ext_proc config)
   then ["envoy.filters.http.ext_proc"] else []) ++
  ["envoy.filters.http.router"].

(** The listener resource: it listens where the configuration says, runs the
    expected filters and takes its routes from [gateway-routes] over ADS. *)
Definition packs_listener (config : GatewayConfig) (any : Any) : Prop :=
  ∃ host port hcm hcm_any listener,
    parse_endpoint (GatewayServer.listen_address (GatewayConfig.gateway config)) = Ok (host, port) ∧
    filter_name <$> HttpConnectionManager.http_filters hcm = expected_filters config ∧
    HttpConnectionManager.rds hcm = Some (mk_rds "gateway-routes" "ads") ∧
    encode (MHttpConnectionManager hcm) = Ok (any_value hcm_any) ∧
    Listener.address listener = Some (Resources.socket_address host port) ∧
    Listener.filter_chains listener =
      [[mk_http_filter "envoy.filters.network.http_connection_manager" (Some hcm_any)]] ∧
    packs LISTENER_TYPE_URL (MListener listener) any.

Definition packs_routes (config : GatewayConfig) (any : Any) : Prop :=
  packs ROUTE_TYPE_URL
    (MRouteConfiguration (RouteConfiguration.mk "gateway-routes"
       (Resources.build_virtual_hosts (GatewayConfig.routes config)))) any.

Lemma assignment_built service :
  Forall host_port (ServiceConfig.endpoints service) →
  ∃ a, Resources.build_cluster_assignment service = Ok a ∧ assignment_of service a.
Proof.
  intros Hall. unfold Resources.build_cluster_assignment.
  destruct (mapM_Ok_all Resources.build_lb_endpoint (ServiceConfig.endpoints service))
    as [lbs Hlbs].
  { intros ep Hep. rewrite Forall_forall in Hall.
    destruct (proj1 (parse_endpoint_host_port ep)) as [hp Hhp]; [by apply Hall|].
    unfold Resources.build_lb_endpoint. rewrite (proj2 (xds_endpoint_agrees ep hp) Hhp).
    by eexists. }
  rewrite Hlbs. simpl. eexists; split; [done|]. split; [done|].
  exists lbs. split; [done|]. apply mapM_Ok in Hlbs.
  eapply Forall2_impl; [exact Hlbs|]. unfold Resources.build_lb_endpoint.
  intros ep lb (hp & Hhp & [= <-])%result_bind_Ok. exists hp.1, hp.2.
  rewrite <- surjective_pairing. by rewrite <- xds_endpoint_agrees.
Qed.

Context `{!ProstLaws P}.

Lemma pack_any_ok type_url m : ∃ any, Resources.pack_any type_url m = Ok any ∧ packs type_url m any.
Proof.
  unfold Resources.pack_any. destruct (encode_total m) as [bs Hbs]. rewrite Hbs. simpl.
  by eexists.
Qed.

Lemma services_built services :
  Forall (λ s, Forall host_port (ServiceConfig.endpoints s)) services →
  ∃ cs es,
    mapM (λ service, a ← Resources.build_cluster_assignment service;
            Resources.pack_any CLUSTER_TYPE_URL (MCluster (Resources.cluster_of service a)))
      services = Ok cs ∧
    mapM (λ service, a ← Resources.build_cluster_assignment service;
            Resources.pack_any ENDPOINT_TYPE_URL (MClusterLoadAssignment a)) services = Ok es ∧
    Forall2 (λ s ce, packs_service s ce.1 ce.2) services (zip cs es) ∧ length cs = length es.
Proof.
  induction 1 as [|s ss Hs _ (cs & es & Hcs & Hes & Hall & Hlen)]; simpl.
  { exists [], []. repeat split; constructor. }
  destruct (assignment_built s Hs) as (a & -> & Ha). simpl.
  destruct (pack_any_ok CLUSTER_TYPE_URL (MCluster (Resources.cluster_of s a)))
    as (c & -> & Hc).
  destruct (pack_any_ok ENDPOINT_TYPE_URL (MClusterLoadAssignment a)) as (e & -> & He).
  simpl. rewrite Hcs, Hes. simpl. exists (c :: cs), (e :: es). simpl.
  split_and!; [done|done| |congruence]. constructor; [|done]. by exists a.
Qed.

Lemma filters_built config :
  ∃ fs, Resources.build_http_filters config = Ok fs ∧ filter_name <$> fs = expected_filters config.
Proof.
  unfold Resources.build_http_filters, expected_filters, Resources.build_http_filter.
  destruct (pack_any_ok "type.googleapis.com/envoy.extensions.filters.http.router.v3.Router" MRouter)
    as (r & -> & _).
  destruct (pack_any_ok "type.googleapis.com/envoy.extensions.filters.http.ext_proc.v3.ExtProc"
    (MExtProc (ExtProcConfig.listen_address (GatewayConfig.ext_proc config)))) as (x & -> & _).
  destruct (GatewayServer.extauthz_address _) as [addr|],
    (ExtProcConfig.enabled (GatewayConfig.ext_proc config)); simpl.
  1,2: destruct (pack_any_ok "type.googleapis.com/envoy.extensions.filters.http.ext_authz.v3.ExtAuthz"
    (MExtAuthz addr)) as (z & -> & _); simpl.
  all: by eexists.
Qed.

Lemma listener_built config :
  host_port (GatewayServer.listen_address (GatewayConfig.gateway config)) →
  ∃ any, Resources.build_listener config = Ok any ∧ packs_listener config any.
Proof.
  intros ([host port] & Hhp)%parse_endpoint_host_port. unfold Resources.build_listener.
  destruct (filters_built config) as (fs & -> & Hfs). simpl.
  rewrite (proj2 (xds_endpoint_agrees _ _) Hhp). simpl.
  match goal with |- context [Resources.pack_any ?u (MHttpConnectionManager ?h)] =>
    destruct (pack_any_ok u (MHttpConnectionManager h)) as (ha & -> & _ & Hha) end. simpl.
  match goal with |- context [Resources.pack_any ?u (MListener ?l)] =>
    destruct (pack_any_ok u (MListener l)) as (la & -> & Hla) end.
  exists la. split; [done|]. exists host, port. eexists _, ha, _. 
  split_and!; [exact Hhp| | |exact Hha| | |exact Hla]; done.
Qed.

Lemma snapshot_built (url_parse_ok : string → bool) (config : GatewayConfig)
    (version : Z) :
  valid_config url_parse_ok config →
  ∃ s cs es l r,
    XdsSnapshot.build config version = Ok s ∧
    XdsSnapshot.ordered_responses s =
      (λ '(url, rs), DiscoveryResponse.mk (fmt_int version) rs url
                       ("snapshot-" +:+ fmt_int version)) <$>
      [(CLUSTER_TYPE_URL, cs); (ENDPOINT_TYPE_URL, es);
       (LISTENER_TYPE_URL, [l]); (ROUTE_TYPE_URL, [r])] ∧
    length cs = length es ∧
    Forall2 (λ service ce, packs_service service ce.1 ce.2)
      (GatewayConfig.services config) (zip cs es) ∧
    packs_listener config l ∧
    packs_routes config r.
Proof.
  intros Hv. destruct Hv.
  destruct valid_addrs as (Hl & _).
  destruct (services_built (GatewayConfig.services config)) as (cs & es & Hcs & Hes & Hall & Hlen).
  { eapply Forall_impl; [done|]. by intros s (_ & _ & ? & _). }
  destruct (listener_built config Hl) as (l & Hl' & Hlp).
  destruct (pack_any_ok ROUTE_TYPE_URL
    (MRouteConfiguration (RouteConfiguration.mk "gateway-routes"
       (Resources.build_virtual_hosts (GatewayConfig.routes config))))) as (r & Hr & Hrp).
  unfold XdsSnapshot.build, Resources.build_clusters, Resources.build_endpoints,
    Resources.build_route_config.
  rewrite Hcs. simpl. rewrite Hes. simpl. rewrite Hl'. simpl. rewrite Hr. simpl.
  eexists _, cs, es, l, r. split; [done|]. split; [|done].
  unfold XdsSnapshot.ordered_responses, XdsSnapshot.response_for, TYPE_URLS_IN_ORDER. simpl.
  repeat first [rewrite lookup_insert_eq; simpl | rewrite lookup_insert_ne by (vm_compute; by intros [=])].
  done.
Qed.

(** [C31] A configuration that passes validation always yields an xDS
    snapshot, and the snapshot pushes exactly four responses, clusters,
    endpoints, listener, routes in that order, all with the snapshot's version and nonce.  The
    clusters and endpoints are those of the services, one each in order, with
    the parsed addresses; the listener binds the configured address and runs
    the filters the configuration enables; the routes are the virtual hosts. *)
Theorem valid_config_builds_snapshot (url_parse_ok : string → bool) (config : GatewayConfig)
    (version : Z) :
  validate url_parse_ok config = Ok tt →
  ∃ s cs es l r,
    XdsSnapshot.build config version = Ok s ∧
    XdsSnapshot.ordered_responses s =
      (λ '(url, rs), DiscoveryResponse.mk (fmt_int version) rs url
                       ("snapshot-" +:+ fmt_int version)) <$>
      [(CLUSTER_TYPE_URL, cs); (ENDPOINT_TYPE_URL, es);
       (LISTENER_TYPE_URL, [l]); (ROUTE_TYPE_URL, [r])] ∧
    length cs = length es ∧
    Forall2 (λ service ce, packs_service service ce.1 ce.2)
      (GatewayConfig.services config) (zip cs es) ∧
    packs_listener config l ∧
    packs_routes config r.
Proof. intros Hv. apply validate_valid in Hv. by apply (snapshot_built url_parse_ok). Qed.
End snapshot.

(** A model of the encoder: it records the kind of the message. *)
Module ProstModel.
#[export] Instance prost_model : ProstLib := {|
  encode := λ m, Ok (match m with
    | MCluster c => String.list_ascii_of_string (Cluster.name c)
    | MClusterLoadAssignment a =>
        String.list_ascii_of_string (ClusterLoadAssignment.cluster_name a)
    | MListener l => String.list_ascii_of_string (Listener.name l)
    | MRouteConfiguration r => String.list_ascii_of_string (RouteConfiguration.name r)
    | _ => []
    end) |}.
#[export] Instance prost_model_laws : ProstLaws prost_model.
Proof. split. intros m. by eexists. Qed.
End ProstModel.
Export ProstModel.

Lemma valid_config_builds_snapshot_witness :
  ∃ s, validate (λ _, true) sample_config = Ok tt ∧
    XdsSnapshot.build sample_config 7 = Ok s ∧
    DiscoveryResponse.type_url <$> XdsSnapshot.ordered_responses s = TYPE_URLS_IN_ORDER.
Proof.
  assert (H : validate (λ _, true) sample_config = Ok tt) by (vm_compute; reflexivity).
  destruct (valid_config_builds_snapshot (λ _, true) sample_config 7 H)
    as (s & cs & es & l & r & Hb & Ho & _).
  exists s. split; [exact H|]. split; [exact Hb|]. rewrite Ho. reflexivity.
Defined.
