(* ===== verification/XdsSpec.v ===== *)
(** * Theorems on the xDS control plane

    Properties of every trace of streams and reloads: where each response
    that was sent came from, which streams a reload reaches, and how the
    server answers an acknowledgement. *)
From S2P Require Import Prelude RustStr F64 Yaml ConfigTypes Samples Observability.
From S2P Require Import XdsResources XdsResourcesSpec Xds.

(** ** Channels and broadcasts *)
Definition stays (chans : gmap nat Channel) (sid : nat) : Prop :=
  ∃ c, chans !! sid = Some c ∧ listening c = true.

Lemma send_taken r c c' :
  send r c = Taken c' → listening c = true ∧ c' = mk_channel (sent c ++ [r]) (received c) true.
Proof. unfold send. destruct (listening c); [|done]. simpl. by destruct (_ <? _)%nat; intros [= <-]. Qed.
Lemma send_refused r c : send r c = Refused ↔ listening c = false.
Proof. unfold send. destruct (listening c); simpl; [by destruct (_ <? _)%nat|done]. Qed.

(** The responses go out in order; nobody is sent half of them but a client that
    is gone already. *)
Lemma send_all_cases reads rs c c' b :
  send_all reads rs c = Some (c', b) →
  listening c' = listening c ∧
  (listening c = true → b = true ∧ sent c' = sent c ++ rs) ∧
  (listening c = false → c' = c ∧ (rs ≠ [] → b = false)).
Proof.
  revert c. induction rs as [|r rs IH]; intros c; simpl.
  - intros [= <- <-]. by rewrite app_nil_r.
  - destruct (send r c) as [c1| |] eqn:E.
    + apply send_taken in E as [Ho ->]. intros (H1 & H2 & _)%IH. simpl in *. rewrite Ho.
      destruct (H2 eq_refl) as [-> ->]. by rewrite <-app_assoc.
    + apply send_refused in E. intros [= <- <-]. by rewrite E.
    + assert (listening c = true) as Ho.
      { destruct (listening c) eqn:Ho; [done|]. apply (send_refused r) in Ho. congruence. }
      destruct reads; [|done]. intros (H1 & H2 & _)%IH. simpl in *. rewrite Ho.
      destruct (H2 eq_refl) as [-> ->]. by rewrite <-app_assoc.
Qed.

(** When a send has to wait and the client does not read. *)
Definition room (c : Channel) : nat := ads_capacity - (length (sent c) - received c).
Lemma send_all_waits reads rs c :
  send_all reads rs c = None → reads = false ∧ listening c = true ∧ room c < length rs.
Proof.
  revert c. induction rs as [|r rs IH]; intros c; simpl; [done|].
  unfold send, room. destruct (listening c) eqn:Ho; [|done]. simpl.
  destruct (Nat.ltb_spec (length (sent c) - received c) ads_capacity).
  - intros (-> & _ & Hr)%IH. unfold room in Hr. simpl in Hr. rewrite length_app in Hr. simpl in Hr.
    split_and!; [done..|]. lia.
  - destruct reads; [intros (? & _)%IH; done|]. intros _. split_and!; [done..|lia].
Qed.

Lemma send_all_elem reads rs c c' b r :
  send_all reads rs c = Some (c', b) → r ∈ sent c' → r ∈ sent c ∨ r ∈ rs.
Proof.
  intros (_ & H1 & H2)%send_all_cases. destruct (listening c).
  - destruct (H1 eq_refl) as [_ ->]. set_solver.
  - destruct (H2 eq_refl) as [-> _]. auto.
Qed.

Section push.
Context (reads : nat → bool) (rs : list DiscoveryResponse).

Lemma push_to_cases acc acc' k h :
  push_to reads rs acc (k, h) = Some acc' →
  (acc.1 !! sender h = None ∧ acc' = (acc.1, acc.2 ++ [k])) ∨
  ∃ c c' b, acc.1 !! sender h = Some c ∧ send_all (reads (sender h)) rs c = Some (c', b) ∧
    acc' = (<[sender h := c']> acc.1, if b : bool then acc.2 else acc.2 ++ [k]).
Proof.
  destruct acc as [chans d]. simpl. destruct (chans !! sender h) as [c|] eqn:E; [|intros [= <-]; by left].
  intros ([c' b] & Hs & [= <-])%bind_Some. right. eauto 10.
Qed.

Lemma push_to_stays acc acc' item sid :
  push_to reads rs acc item = Some acc' → stays acc'.1 sid ↔ stays acc.1 sid.
Proof.
  destruct item as [k h]. intros [[_ ->]|(c & c' & b & Hc & Hs & ->)]%push_to_cases; [done|]. simpl.
  apply send_all_cases in Hs as [Ho _]. unfold stays. destruct (decide (sender h = sid)) as [<-|Hne].
  - rewrite lookup_insert_eq. split; intros (c0 & H0 & H1); simplify_eq; [exists c|exists c']; by rewrite ?Ho, <-?Ho in *.
  - by rewrite lookup_insert_ne.
Qed.

Lemma push_all_stays items acc acc' sid :
  push_all reads rs items acc = Some acc' → stays acc'.1 sid ↔ stays acc.1 sid.
Proof.
  revert acc. induction items as [|item items IH]; intros acc; simpl; [by intros [= <-]|].
  intros (acc1 & H1 & H2)%bind_Some. rewrite (IH _ H2). by eapply push_to_stays.
Qed.

Lemma push_all_ne items acc acc' sid :
  push_all reads rs items acc = Some acc' → (∀ item, item ∈ items → sender item.2 ≠ sid) →
  acc'.1 !! sid = acc.1 !! sid.
Proof.
  revert acc. induction items as [|[k h] items IH]; intros acc; simpl; [by intros [= <-]|].
  intros (acc1 & H1 & H2)%bind_Some Hne. rewrite (IH _ H2) by set_solver.
  assert (sender h ≠ sid) by (apply (Hne (k, h)); set_solver).
  apply push_to_cases in H1 as [[_ ->]|(c & c' & b & _ & _ & ->)]; [done|]. simpl. by rewrite lookup_insert_ne.
Qed.

(** Only entries whose receiver is gone are dropped. *)
Lemma push_all_disconnected items acc acc' key :
  push_all reads rs items acc = Some acc' → key ∈ acc'.2 →
  key ∈ acc.2 ∨ ∃ h, (key, h) ∈ items ∧ ¬ stays acc.1 (sender h).
Proof.
  revert acc. induction items as [|[k h] items IH]; intros acc; simpl; [intros [= <-]; auto|].
  intros (acc1 & H1 & H2)%bind_Some Hin. destruct (IH _ H2 Hin) as [Hin1|(h' & Hin' & Hns)].
  - apply push_to_cases in H1 as [[Hno ->]|(c & c' & b & Hc & Hs & ->)]; simpl in Hin1.
    + apply elem_of_app in Hin1 as [|Hk]; [by left|]. apply list_elem_of_singleton in Hk as ->. right.
      exists h. split; [left|]. intros (c0 & Hc0 & _). congruence.
    + apply send_all_cases in Hs as (_ & Hb & _). destruct b; [by left|].
      apply elem_of_app in Hin1 as [|Hk]; [by left|]. apply list_elem_of_singleton in Hk as ->. right.
      exists h. split; [left|]. intros (c0 & Hc0 & Ho). simplify_eq. by destruct (Hb Ho).
  - right. exists h'. split; [by right|]. by rewrite <-(push_to_stays _ _ _ _ H1).
Qed.

Lemma push_all_once items acc acc' k h c :
  push_all reads rs items acc = Some acc' →
  NoDup ((λ item, sender item.2) <$> items) → (k, h) ∈ items →
  acc.1 !! sender h = Some c → listening c = true →
  ∃ c', acc'.1 !! sender h = Some c' ∧ sent c' = sent c ++ rs ∧ listening c' = true.
Proof.
  revert acc. induction items as [|[k' h'] items IH]; intros acc; simpl; [set_solver|].
  intros (acc1 & H1 & H2)%bind_Some Hnd Hin Hc Ho. apply NoDup_cons in Hnd as [Hno Hnd]. simpl in Hno.
  destruct (decide (sender h = sender h')) as [Heq|Hne].
  - rewrite (push_all_ne _ _ _ _ H2).
    + apply push_to_cases in H1 as [[Hnone _]|(c0 & c' & b & Hc0 & Hs & ->)]; [congruence|].
      rewrite Heq in Hc. simplify_eq. apply send_all_cases in Hs as (Ho' & Hs & _).
      destruct (Hs Ho) as [_ Hsent]. exists c'. simpl. rewrite Heq, lookup_insert_eq. by rewrite Ho'.
    + intros item Hitem Hs. apply Hno. rewrite <-Heq, <-Hs. apply list_elem_of_fmap. eauto.
  - eapply (IH acc1); [done|done| | |done].
    + apply elem_of_cons in Hin as [[= -> ->]|]; [done|done].
    + apply push_to_cases in H1 as [[_ ->]|(c0 & c' & b & _ & _ & ->)]; [done|]. simpl. by rewrite lookup_insert_ne.
Qed.

Lemma push_all_elem items acc acc' sid c r :
  push_all reads rs items acc = Some acc' → acc'.1 !! sid = Some c → r ∈ sent c →
  r ∈ rs ∨ ∃ c0, acc.1 !! sid = Some c0 ∧ r ∈ sent c0.
Proof.
  revert acc. induction items as [|[k h] items IH]; intros acc; simpl; [intros [= <-]; eauto|].
  intros (acc1 & H1 & H2)%bind_Some Hc Hr. destruct (IH _ H2 Hc Hr) as [|(c0 & Hc0 & Hr0)]; [by left|].
  apply push_to_cases in H1 as [[_ ->]|(c1 & c' & b & Hc1 & Hs & ->)]; simpl in Hc0; [by right; exists c0|].
  destruct (decide (sender h = sid)) as [<-|Hne].
  - rewrite lookup_insert_eq in Hc0. simplify_eq.
    destruct (send_all_elem _ _ _ _ _ _ Hs Hr0); [right; by exists c1|by left].
  - rewrite lookup_insert_ne in Hc0 by done. right. by exists c0.
Qed.

Lemma push_all_dom items acc acc' sid :
  push_all reads rs items acc = Some acc' → is_Some (acc.1 !! sid) → is_Some (acc'.1 !! sid).
Proof.
  revert acc. induction items as [|[k h] items IH]; intros acc; simpl; [by intros [= <-]|].
  intros (acc1 & H1 & H2)%bind_Some Hs. apply (IH _ H2).
  apply push_to_cases in H1 as [[_ ->]|(c1 & c' & b & _ & _ & ->)]; [done|]. simpl.
  rewrite lookup_insert_is_Some'. by right.
Qed.

(** A broadcast waits only for a client that listens, does not read and has no
    room for the responses. *)
Lemma push_all_waits items acc :
  NoDup ((λ item, sender item.2) <$> items) → push_all reads rs items acc = None →
  ∃ k h c, (k, h) ∈ items ∧ acc.1 !! sender h = Some c ∧ reads (sender h) = false ∧
    listening c = true ∧ room c < length rs.
Proof.
  revert acc. induction items as [|[k h] items IH]; intros acc; simpl; [done|].
  intros [Hno Hnd]%NoDup_cons. destruct (push_to reads rs acc (k, h)) as [acc1|] eqn:H1; simpl.
  - intros Hn. destruct (IH _ Hnd Hn) as (k' & h' & c & Hin & Hc & Hrest). exists k', h', c.
    split; [by right|]. split; [|done].
    assert (sender h ≠ sender h').
    { intros Heq. apply Hno. simpl. rewrite Heq. apply list_elem_of_fmap. by exists (k', h'). }
    apply push_to_cases in H1 as [[_ ->]|(c1 & c' & b & _ & _ & ->)]; [done|]. simpl in Hc.
    by rewrite lookup_insert_ne in Hc.
  - intros _. destruct acc as [chans d]. simpl in H1. destruct (chans !! sender h) as [c|] eqn:E; [|done].
    destruct (send_all (reads (sender h)) rs c) as [[c' b]|] eqn:Es; [done|].
    apply send_all_waits in Es as (? & ? & ?). exists k, h, c. split; [left|done].
Qed.

Lemma push_all_blocked items acc :
  push_all reads rs items acc = None →
  ∃ k h, (k, h) ∈ items ∧ stays acc.1 (sender h) ∧ reads (sender h) = false.
Proof.
  revert acc. induction items as [|[k h] items IH]; intros acc; simpl; [done|].
  destruct (push_to reads rs acc (k, h)) as [acc1|] eqn:H1; simpl.
  - intros Hn. destruct (IH _ Hn) as (k' & h' & Hin & Hst & Hrd). exists k', h'.
    split; [by right|]. by rewrite <-(push_to_stays _ _ _ _ H1).
  - intros _. destruct acc as [chans d]. simpl in H1. destruct (chans !! sender h) as [c|] eqn:E; [|done].
    destruct (send_all (reads (sender h)) rs c) as [[c' b]|] eqn:Es; [done|].
    apply send_all_waits in Es as (? & ? & ?). exists k, h. split; [left|]. split; [by exists c|done].
Qed.
End push.

Lemma broadcast_proj reads rs cp cp' :
  broadcast reads rs cp = Some cp' →
  ∃ acc, push_all reads rs (map_to_list (connections cp)) (channels cp, []) = Some acc ∧
    channels cp' = acc.1 ∧ connections cp' = foldr delete (connections cp) acc.2 ∧
    snapshot cp' = snapshot cp ∧ versions cp' = versions cp ∧
    status_cells cp' = status_cells cp ∧ metrics cp' = metrics cp.
Proof. unfold broadcast. intros ([chans d] & H & [= <-])%bind_Some. by exists (chans, d). Qed.

(** A broadcast waits only for a registered Envoy that listens and does not
    receive. *)
Definition stalled (reads : nat → bool) (cp : XdsControlPlane) : Prop :=
  ∃ key h, connections cp !! key = Some h ∧ stays (channels cp) (sender h) ∧
    reads (sender h) = false.
Lemma broadcast_stalled reads rs cp : broadcast reads rs cp = None → stalled reads cp.
Proof.
  unfold broadcast. destruct (push_all _ _ _ _) as [[? ?]|] eqn:E; [done|].
  apply push_all_blocked in E as (k & h & Hin & Hst). exists k, h.
  by rewrite elem_of_map_to_list in Hin.
Qed.

Lemma foldr_delete_lookup {A} (m : gmap string A) ks k :
  foldr delete m ks !! k = if decide (k ∈ ks) then None else m !! k.
Proof.
  induction ks as [|k' ks IH]; simpl; [done|].
  destruct (decide (k' = k)) as [->|Hne].
  - rewrite lookup_delete_eq. rewrite decide_True; [done|set_solver].
  - rewrite lookup_delete_ne, IH by done. repeat case_decide; set_solver.
Qed.

(** ** The turns of a broadcast *)
Section push_turns.
Context `{D : DashMapLib}.

(** What the clients have not received. *)
Definition unread_of (c : Channel) : nat := length (sent c) - received c.
Definition unread (chans : gmap nat Channel) : nat := map_fold (λ _ c n, unread_of c + n) 0 chans.

Lemma unread_delete chans sid c :
  chans !! sid = Some c → unread chans = unread_of c + unread (delete sid chans).
Proof. intros Hc. unfold unread. apply (map_fold_delete_L (λ _ c n, unread_of c + n)); [intros; lia|done]. Qed.
Lemma unread_set chans sid c c' :
  chans !! sid = Some c → unread (<[sid := c']> chans) + unread_of c = unread chans + unread_of c'.
Proof.
  intros Hc. rewrite (unread_delete chans sid c Hc), (unread_delete (<[sid := c']> chans) sid c').
  - rewrite delete_insert_eq. lia.
  - apply lookup_insert_eq.
Qed.
Lemma unread_send r c c' : send r c = Taken c' → unread_of c' ≤ S (unread_of c).
Proof. intros [_ ->]%send_taken. unfold unread_of. simpl. rewrite length_app. simpl. lia. Qed.
Lemma unread_receive c c' : receive c = Some c' → unread_of c = S (unread_of c').
Proof.
  unfold receive, unread_of. destruct (listening c); simpl; [|done].
  destruct (Nat.ltb_spec (received c) (length (sent c))); [|done]. intros [= <-]. simpl. lia.
Qed.
(** A send waits for a client that is there and has sixteen responses to receive. *)
Lemma send_waits r c : send r c = MustWait ↔ listening c = true ∧ ads_capacity ≤ unread_of c.
Proof.
  unfold send, unread_of. destruct (listening c); simpl; [|by split; [|intros [? _]]].
  destruct (Nat.ltb_spec (length (sent c) - received c) ads_capacity); split; try done; [intros [_ ?]; lia].
Qed.

(** The turns left, when there are at most [n] connections. *)
Definition push_todo (n : nat) (p : Push) : nat :=
  match p_items p with [] => 0 | _ :: items => S (length (p_left p)) + 5 * length items end +
  (shard_count - p_shard p) * S (5 * n).

(** What a turn sends, and all else it changes. *)
Lemma push_turn_cases rs p cp o cp' :
  push_turn rs p cp = Some (o, cp') →
  snapshot cp' = snapshot cp ∧ versions cp' = versions cp ∧ Xds.metrics cp' = Xds.metrics cp ∧
  size (connections cp') ≤ size (connections cp) ∧
  (channels cp' = channels cp ∨
   ∃ key h items r rest c c', p_items p = (key, h) :: items ∧ p_left p = r :: rest ∧
     channels cp !! sender h = Some c ∧ send r c = Taken c' ∧
     channels cp' = <[sender h := c']> (channels cp)) ∧
  (∀ p', o = Some p' → ∀ r, r ∈ p_left p' → r ∈ rs ∨ r ∈ p_left p).
Proof.
  unfold push_turn. destruct p as [sh items left gone]. simpl. destruct items as [|[key h] items].
  - destruct (_ <? _)%nat; intros [= <- <-].
    + split_and!; try done; [by left|]. intros ? [= <-]. by left.
    + split_and!; try done; [|by left]. simpl. clear. induction gone as [|k gone IH]; simpl; [done|].
      rewrite map_size_delete. destruct (_ !! k); simpl; lia.
  - destruct left as [|r rest].
    + intros [= <- <-]. split_and!; try done; [by left|]. intros ? [= <-]. by left.
    + destruct (channels cp !! sender h) as [c|] eqn:Hc; simpl.
      2: { intros [= <- <-]. split_and!; try done; [by left|]. intros ? [= <-]. by left. }
      destruct (send r c) as [c'| |] eqn:Es; [| |done]; intros [= <- <-].
      * split_and!; try done; [|intros ? [= <-]; set_solver].
        right. exists key, h, items, r, rest, c, c'. done.
      * split_and!; try done; [by left|]. intros ? [= <-]. by left.
Qed.

Lemma push_turn_todo n rs p cp p' cp' :
  push_turn rs p cp = Some (Some p', cp') → length rs ≤ 4 → size (connections cp) ≤ n →
  push_todo n p' < push_todo n p.
Proof.
  assert (Hnext : ∀ sh items gone, length rs ≤ 4 →
    push_todo n (mk_push sh items rs gone) ≤ 5 * length items + (shard_count - sh) * S (5 * n)).
  { intros sh items gone Hrs. unfold push_todo. simpl. destruct items; simpl; lia. }
  unfold push_turn. destruct p as [sh items left gone]. simpl. intros Ht Hrs Hn.
  destruct items as [|[key h] items].
  - destruct (Nat.ltb_spec sh shard_count); simplify_eq/=.
    eapply Nat.le_lt_trans; [apply (Hnext _ _ _ Hrs)|]. unfold push_todo. simpl.
    set (es := filter _ _). assert (length es ≤ n).
    { etrans; [apply length_filter|]. by rewrite length_map_to_list. }
    replace (shard_count - sh) with (S (shard_count - S sh)) by lia. simpl. lia.
  - destruct left as [|r rest].
    + simplify_eq/=. eapply Nat.le_lt_trans; [apply (Hnext _ _ _ Hrs)|]. unfold push_todo. simpl. lia.
    + destruct (send r <$> channels cp !! sender h) as [[c'| |]|]; simplify_eq/=;
        [unfold push_todo; simpl; lia|..];
        (eapply Nat.le_lt_trans; [apply (Hnext _ _ _ Hrs)|]; unfold push_todo; simpl; lia).
Qed.

(** A broadcast that cannot move waits for a client that is there and has
    sixteen responses to receive. *)
Lemma push_turn_waits rs p cp :
  push_turn rs p cp = None →
  ∃ key h items r rest c, p_items p = (key, h) :: items ∧ p_left p = r :: rest ∧
    channels cp !! sender h = Some c ∧ listening c = true ∧ ads_capacity ≤ unread_of c.
Proof.
  unfold push_turn. destruct (p_items p) as [|[key h] items]; [by destruct (_ <? _)%nat|].
  destruct (p_left p) as [|r rest]; [done|]. destruct (channels cp !! sender h) as [c|] eqn:Hc; simpl; [|done].
  destruct (send r c) eqn:Es; [done..|]. intros _. apply send_waits in Es as [? ?].
  by exists key, h, items, r, rest, c.
Qed.
End push_turns.

(** ** What [rebuild_from_config] does *)
Section rebuild.
Context `{Y : YamlLib} `{P : ProstLib}.

(** Whether or not the build succeeds, the version is consumed; when it
    fails nothing else changes. *)
Definition taken_version (cp : XdsControlPlane) : XdsControlPlane :=
  mk_cp (snapshot cp) (VersionCounter.mk (wrapping_add (VersionCounter.next (versions cp)) 1))
    (connections cp) (status_cells cp) (channels cp) (metrics cp).
Lemma rebuild_cases config elapsed reads cp :
  let v := wrapping_add (VersionCounter.next (versions cp)) 1 in
  (∃ s, XdsSnapshot.build config v = Ok s ∧
     rebuild_from_config config elapsed reads cp =
       cp' ← broadcast reads (XdsSnapshot.ordered_responses s) (publish s v (taken_version cp));
       Some (Ok (), set_metrics (record_xds_push elapsed) cp')) ∨
  (∃ e, XdsSnapshot.build config v = Err e ∧
     rebuild_from_config config elapsed reads cp = Some (Err e, taken_version cp)).
Proof.
  unfold rebuild_from_config, VersionCounter.increment.
  destruct (XdsSnapshot.build config _) as [s|e]; [left|right]; eauto.
Qed.
End rebuild.

(** ** Where responses come from *)
Lemma response_for_url s u r :
  XdsSnapshot.response_for s u = Some r → DiscoveryResponse.type_url r = u.
Proof. unfold XdsSnapshot.response_for. destruct (_ !! u); by intros [= <-]. Qed.

Lemma response_for_version s u r :
  XdsSnapshot.response_for s u = Some r → DiscoveryResponse.version_info r = fmt_int (XdsSnapshot.version s).
Proof. unfold XdsSnapshot.response_for. destruct (_ !! u); by intros [= <-]. Qed.

Lemma ordered_elem s r :
  r ∈ XdsSnapshot.ordered_responses s →
  XdsSnapshot.response_for s (DiscoveryResponse.type_url r) = Some r.
Proof.
  unfold XdsSnapshot.ordered_responses. rewrite list_elem_of_omap. intros (u & _ & Hu).
  by rewrite (response_for_url _ _ _ Hu).
Qed.

Lemma ordered_length s : length (XdsSnapshot.ordered_responses s) ≤ 4.
Proof.
  unfold XdsSnapshot.ordered_responses, TYPE_URLS_IN_ORDER. cbn [omap list_omap].
  repeat (destruct (XdsSnapshot.response_for s _); cbn [length]); lia.
Qed.

Lemma responses_to_elem m s r :
  r ∈ responses_to m s → XdsSnapshot.response_for s (DiscoveryResponse.type_url r) = Some r.
Proof.
  unfold responses_to. intros Hr. fold (XdsSnapshot.ordered_responses s) in Hr.
  assert (Hor : r ∈ XdsSnapshot.ordered_responses s ∨
                XdsSnapshot.response_for s (DiscoveryRequest.type_url m) = Some r).
  { destruct (str_is_empty _).
    - left. by destruct (XdsSnapshot.ordered_responses s).
    - destruct (XdsSnapshot.response_for s (DiscoveryRequest.type_url m)) as [r'|] eqn:E.
      + right. apply list_elem_of_singleton in Hr as ->. done.
      + by left. }
  destruct Hor as [?|Hu]; [by apply ordered_elem|]. by rewrite (response_for_url _ _ _ Hu).
Qed.

Lemma touch_status_proj h m cp :
  let cp' := touch_status h m cp in
  snapshot cp' = snapshot cp ∧ versions cp' = versions cp ∧
  channels cp' = channels cp ∧ connections cp' = connections cp.
Proof.
  unfold touch_status. destruct (status_cells cp !! h); [|done]. by destruct (update_status m _).
Qed.

Lemma begin_request_proj sid m t cp :
  let '(t', cp') := begin_request sid m t cp in
  snapshot cp' = snapshot cp ∧ versions cp' = versions cp ∧ channels cp' = channels cp ∧
  stream_phase t' = Answering m ∧
  if str_is_empty (node_id t)
  then node_id t' = node_id_of m ∧
       connections cp' = <[node_id_of m := mk_handle sid sid]> (connections cp)
  else node_id t' = node_id t ∧ connections cp' = connections cp.
Proof.
  unfold begin_request. destruct (str_is_empty (node_id t)).
  - simpl. match goal with |- context [touch_status ?h ?m ?cp] =>
      destruct (touch_status_proj h m cp) as (-> & -> & -> & ->) end. done.
  - destruct (status_handle t) as [h|]; simpl; [|done].
    by destruct (touch_status_proj h m cp) as (-> & -> & -> & ->).
Qed.

Lemma end_stream_proj t cp :
  let cp' := end_stream t cp in
  snapshot cp' = snapshot cp ∧ versions cp' = versions cp ∧ channels cp' = channels cp ∧
  connections cp' = if str_is_empty (node_id t) then connections cp
                    else delete (node_id t) (connections cp).
Proof. unfold end_stream. by destruct (str_is_empty (node_id t)). Qed.

Lemma stream_event_inv sid f sys sys' :
  stream_event sid f sys = Some sys' →
  ∃ t tc, streams sys !! sid = Some t ∧ f t (control_plane sys) = Some tc ∧
    sys' = mk_sys tc.2 (<[sid := tc.1]> (streams sys)).
Proof.
  unfold stream_event. intros (t & Ht & (tc & Hf & [= <-])%bind_Some)%bind_Some. eauto.
Qed.

Section provenance.
Context `{Y : YamlLib} `{P : ProstLib}.

(** The configuration at index [i] was given the version [i + 1]. *)
Definition built (cfgs : list GatewayConfig) (i : nat) (s : XdsSnapshot) : Prop :=
  ∃ cfg, cfgs !! i = Some cfg ∧ XdsSnapshot.build cfg (Z.of_nat i + 1) = Ok s.

(** The response is one of a snapshot that was built. *)
Definition from_built (cfgs : list GatewayConfig) (r : DiscoveryResponse) : Prop :=
  ∃ i s, built cfgs i s ∧ XdsSnapshot.response_for s (DiscoveryResponse.type_url r) = Some r.

(** Where everything sent, or about to be sent, comes from. *)
Record prov_inv (cfgs : list GatewayConfig) (sys : System) : Prop := {
  pv_next : VersionCounter.next (versions (control_plane sys)) = Z.of_nat (length cfgs);
  pv_snapshot : ∃ i, built cfgs i (snapshot (control_plane sys));
  pv_sent sid c r : channels (control_plane sys) !! sid = Some c → r ∈ sent c → from_built cfgs r;
  pv_pending sid t rs r :
    streams sys !! sid = Some t → stream_phase t = Sending rs → r ∈ rs → from_built cfgs r
}.
Lemma built_mono cfgs c i s : built cfgs i s → built (cfgs ++ [c]) i s.
Proof. intros (cfg & Hl & Hb). exists cfg. split; [by apply lookup_app_l_Some|done]. Qed.

Lemma from_built_mono cfgs c r : from_built cfgs r → from_built (cfgs ++ [c]) r.
Proof. intros (i & s & Hb & Hr). exists i, s. split; [by apply built_mono|done]. Qed.

Lemma from_built_ordered cfgs i s r :
  built cfgs i s → r ∈ XdsSnapshot.ordered_responses s → from_built cfgs r.
Proof. intros Hb Hr. exists i, s. split; [done|by apply ordered_elem]. Qed.

Lemma built_last cfgs c s :
  built (cfgs ++ [c]) (length cfgs) s ↔
  XdsSnapshot.build c (Z.of_nat (length cfgs) + 1) = Ok s.
Proof.
  unfold built. rewrite lookup_app_r, Nat.sub_diag by done. simpl.
  split; [by intros (? & [= <-] & ?)|by exists c].
Qed.

(** A version and a type name one response. *)
Lemma built_version cfgs i s : built cfgs i s → XdsSnapshot.version s = (Z.of_nat i + 1)%Z.
Proof.
  intros (cfg & _ & Hb). unfold XdsSnapshot.build in Hb.
  by repeat (apply result_bind_Ok in Hb as (? & _ & Hb)); simplify_eq/=.
Qed.
Lemma from_built_unique cfgs r r' :
  from_built cfgs r → from_built cfgs r' →
  DiscoveryResponse.version_info r = DiscoveryResponse.version_info r' →
  DiscoveryResponse.type_url r = DiscoveryResponse.type_url r' → r = r'.
Proof.
  intros (i & s & Hb & Hr) (i' & s' & Hb' & Hr') Hv Hu. rewrite Hu in Hr.
  assert (Hvs : fmt_int (XdsSnapshot.version s) = fmt_int (XdsSnapshot.version s')).
  { by rewrite <-(response_for_version _ _ _ Hr), <-(response_for_version _ _ _ Hr'). }
  apply (inj pretty) in Hvs. rewrite (built_version _ _ _ Hb), (built_version _ _ _ Hb') in Hvs.
  assert (i' = i) as -> by lia. destruct Hb as (cfg & Hc & Hb), Hb' as (cfg' & Hc' & Hb'). congruence.
Qed.

(** A step that changes neither the snapshot nor the versions and sends
    nothing new keeps the invariant. *)
Lemma prov_quiet cfgs sys cp' streams' :
  prov_inv cfgs sys →
  snapshot cp' = snapshot (control_plane sys) → versions cp' = versions (control_plane sys) →
  (∀ sid c r, channels cp' !! sid = Some c → r ∈ sent c → from_built cfgs r) →
  (∀ sid t rs r, streams' !! sid = Some t → stream_phase t = Sending rs → r ∈ rs →
     from_built cfgs r) →
  prov_inv cfgs (mk_sys cp' streams').
Proof. intros [Hn Hs _ _] Hsn Hv Hc Hp. split; simpl; [by rewrite Hv|by rewrite Hsn|done|done]. Qed.

(** A turn of one stream. *)
Lemma prov_stream cfgs sys sid t' cp' :
  prov_inv cfgs sys →
  snapshot cp' = snapshot (control_plane sys) → versions cp' = versions (control_plane sys) →
  (∀ sid c r, channels cp' !! sid = Some c → r ∈ sent c → from_built cfgs r) →
  (∀ rs r, stream_phase t' = Sending rs → r ∈ rs → from_built cfgs r) →
  prov_inv cfgs (mk_sys cp' (<[sid := t']> (streams sys))).
Proof.
  intros Hi Hs Hv Hc Hp. eapply prov_quiet; try done.
  intros sid' t rs r. rewrite lookup_insert_Some.
  intros [[<- <-]|[_ ?]]; [by apply Hp|by eapply pv_pending].
Qed.

Lemma prov_send cfgs sys sid t rs t' cp' :
  prov_inv cfgs sys → streams sys !! sid = Some t → stream_phase t = Sending rs →
  send_next sid t rs (control_plane sys) = Some (t', cp') →
  prov_inv cfgs (mk_sys cp' (<[sid := t']> (streams sys))).
Proof.
  intros Hi Ht Hph Hsn. pose proof Hi as [_ _ Hc Hp].
  unfold send_next in Hsn. destruct rs as [|r rs]; simplify_eq/=.
  { by apply prov_stream. }
  apply bind_Some in Hsn as (c & Hcs & Hsd).
  destruct (send r c) as [c'| |] eqn:Esd; simplify_eq/=; [|by apply prov_stream].
  apply send_taken in Esd as [_ ->]. apply prov_stream; try done.
  - intros sid' c0 r0. simpl. rewrite lookup_insert_Some. intros [[<- <-]|[_ ?]]; [|eauto].
    simpl. rewrite elem_of_app, list_elem_of_singleton.
    intros [?| ->]; [by eapply Hc|eapply Hp; [done|done|left]].
  - simpl. intros rs0 r0 [= <-] ?. eapply Hp; [done|done|by right].
Qed.

(** The stretches of a rebuild: the next version is taken for a configuration,
    a snapshot that was built is stored, and its responses are pushed. *)
Lemma next_version cfgs sys :
  (Z.of_nat (length cfgs) < u64_max)%Z → prov_inv cfgs sys →
  wrapping_add (VersionCounter.next (versions (control_plane sys))) 1 = (Z.of_nat (length cfgs) + 1)%Z.
Proof.
  intros Hlen [-> _ _ _]. unfold wrapping_add, as_u64, u64_max in *. rewrite Z.mod_small; lia.
Qed.
Lemma prov_take cfgs sys cfg cp' :
  prov_inv cfgs sys → VersionCounter.next (versions cp') = (Z.of_nat (length cfgs) + 1)%Z →
  snapshot cp' = snapshot (control_plane sys) → channels cp' = channels (control_plane sys) →
  prov_inv (cfgs ++ [cfg]) (mk_sys cp' (streams sys)).
Proof.
  intros [_ [i Hb] Hc Hp] Hv Hs Hch. split; simpl.
  - rewrite Hv, length_app. simpl. lia.
  - exists i. rewrite Hs. by apply built_mono.
  - intros sid c r. rewrite Hch. intros. apply from_built_mono. eauto.
  - intros. apply from_built_mono. eauto.
Qed.
Lemma prov_put cfgs sys i s cp' :
  prov_inv cfgs sys → built cfgs i s → snapshot cp' = s → versions cp' = versions (control_plane sys) →
  channels cp' = channels (control_plane sys) → prov_inv cfgs (mk_sys cp' (streams sys)).
Proof.
  intros [Hn _ Hc Hp] Hb Hs Hv Hch. split; simpl; [by rewrite Hv|exists i; by rewrite Hs|by rewrite Hch|done].
Qed.
(** A channel that is sent only what was built. *)
Lemma prov_channel cfgs sys sid c c' :
  prov_inv cfgs sys → channels (control_plane sys) !! sid = Some c →
  (∀ r, r ∈ sent c' → r ∈ sent c ∨ from_built cfgs r) →
  prov_inv cfgs (mk_sys (set_channels (insert sid c') (control_plane sys)) (streams sys)).
Proof.
  intros Hi Hc Hr. apply (prov_quiet _ _ _ _ Hi); [done|done| |exact (pv_pending _ _ Hi)].
  intros sid' c0 r. simpl. rewrite lookup_insert_Some. intros [[<- <-]|[_ ?]] Hin; [|by eapply pv_sent].
  destruct (Hr r Hin); [by eapply pv_sent|done].
Qed.
Lemma channel_event_inv sid f sys sys' :
  channel_event sid f sys = Some sys' →
  ∃ c c', channels (control_plane sys) !! sid = Some c ∧ f c = Some c' ∧
    sys' = mk_sys (set_channels (insert sid c') (control_plane sys)) (streams sys).
Proof.
  unfold channel_event. intros (c & Hc & (c' & Hf & [= <-])%bind_Some)%bind_Some. eauto.
Qed.
Lemma receive_sent c c' : receive c = Some c' → sent c' = sent c ∧ listening c' = true ∧ listening c = true.
Proof. unfold receive. destruct (listening c); [|done]. simpl. by destruct (_ <? _)%nat; intros [= <-]. Qed.
Lemma hang_up_sent c c' : hang_up c = Some c' → sent c' = sent c ∧ listening c' = false.
Proof. unfold hang_up. by destruct (listening c); intros [= <-]. Qed.

(** A turn of the streams, whatever reloads do. *)
Lemma prov_step cfgs e sys sys' :
  prov_inv cfgs sys → (∀ cfg el reads, e ≠ Rebuild cfg el reads) → xds_step e sys = Some sys' →
  prov_inv cfgs sys' ∧ snapshot (control_plane sys') = snapshot (control_plane sys).
Proof.
  intros Hi Hne Hs. pose proof Hi as [Hn Hsn Hc Hp].
  destruct e as [sid|sid m|sid|sid|sid|sid|sid|cfg el reads]; simpl in Hs |- *.
  - destruct (channels _ !! sid) eqn:E; simplify_eq. split; [|done]. apply prov_stream; try done.
    intros sid' c r. simpl. rewrite lookup_insert_Some. intros [[<- <-]|[_ ?]]; [set_solver|eauto].
  - apply stream_event_inv in Hs as (t & [t' cp'] & Ht & Hs & ->).
    destruct (stream_phase t); simplify_eq/=.
    pose proof (begin_request_proj sid m t (control_plane sys)) as Hbr. rewrite Hs in Hbr.
    destruct Hbr as (Hs1 & Hv1 & Hc1 & Hph & _). split; [|done].
    apply prov_stream; try done; [by rewrite Hc1|by rewrite Hph].
  - apply stream_event_inv in Hs as (t & tc & Ht & Hs & ->).
    destruct (stream_phase t); simplify_eq/=. split; [|done]. apply prov_stream; try done.
    simpl. intros rs r [= <-] Hr. apply responses_to_elem in Hr.
    destruct Hsn as (i & Hb). by exists i, (snapshot (control_plane sys)).
  - apply stream_event_inv in Hs as (t & [t' cp'] & Ht & Hs & ->).
    destruct (stream_phase t) as [| |rs] eqn:Eph; [done..|]. split; [by eapply prov_send|].
    unfold send_next in Hs. destruct rs; [by simplify_eq/=|].
    apply bind_Some in Hs as (c & _ & Hs). by destruct (send _ c); simplify_eq/=.
  - apply bind_Some in Hs as (t & Ht & Hs). destruct (stream_phase t); simplify_eq/=.
    destruct (end_stream_proj t (control_plane sys)) as (Hs1 & Hv1 & Hc1 & _). split; [|done].
    eapply prov_quiet; try done; [by rewrite Hc1|].
    intros sid' t0 rs r. rewrite lookup_delete_Some. intros [_ ?]; eauto.
  - apply channel_event_inv in Hs as (c & c' & Hcs & Hf & ->). split; [|done].
    apply receive_sent in Hf as [Hsent _]. eapply prov_channel; [done..|]. rewrite Hsent. auto.
  - apply channel_event_inv in Hs as (c & c' & Hcs & Hf & ->). split; [|done].
    apply hang_up_sent in Hf as [Hsent _]. eapply prov_channel; [done..|]. rewrite Hsent. auto.
  - by destruct (Hne cfg el reads).
Qed.

End provenance.

(** ** Traces on the sample configuration *)
Definition sample_cp : XdsControlPlane :=
  unwrap_or (mk_cp (XdsSnapshot.mk 0 EmptyString ∅) (VersionCounter.new 0) ∅ ∅ ∅ empty_metrics)
    (XdsControlPlane_new sample_config empty_metrics).
Lemma sample_cp_new : XdsControlPlane_new sample_config empty_metrics = Ok sample_cp.
Proof. apply ok_unwrap_or. vm_compute. reflexivity. Qed.
Definition hello (node : string) : DiscoveryRequest :=
  DiscoveryRequest.mk EmptyString (Some node) [] CLUSTER_TYPE_URL EmptyString None.
(** The first message of a stream, and its answer, received. *)
Definition greet (sid : nat) (node : string) : list event :=
  [Open sid; Request sid (hello node); Answer sid; SendNext sid; SendNext sid; Received sid].
(** The version numbers the channel of a stream has carried. *)
Definition versions_sent (sid : nat) (sys : System) : list string :=
  match channels (control_plane sys) !! sid with
  | Some c => DiscoveryResponse.version_info <$> sent c
  | None => []
  end.

Definition after_trace (es : list event) : System :=
  default (mk_sys sample_cp ∅) (xds_run es (mk_sys sample_cp ∅)).
Lemma after_trace_run es :
  is_some (xds_run es (mk_sys sample_cp ∅)) = true →
  xds_run es (mk_sys sample_cp ∅) = Some (after_trace es).
Proof. apply some_default. Qed.

(** ** Which streams a reload reaches *)
Section registration.
Context `{Y : YamlLib} `{P : ProstLib}.

(** The discipline of the clients: no stream introduces itself with the node
    id of another stream that is still open. *)
Definition fresh_node (e : event) (sys : System) : Prop :=
  match e with
  | Request sid m =>
      ∀ t, streams sys !! sid = Some t → node_id t = EmptyString →
      ∀ sid' t', streams sys !! sid' = Some t' → node_id t' ≠ node_id_of m
  | _ => True
  end.

Inductive reaches (sys0 : System) : System → Prop :=
  | reaches_refl : reaches sys0 sys0
  | reaches_step e sys sys' :
      reaches sys0 sys → fresh_node e sys → xds_step e sys = Some sys' → reaches sys0 sys'.

Lemma reaches_first e sys sys1 sys' :
  fresh_node e sys → xds_step e sys = Some sys1 → reaches sys1 sys' → reaches sys sys'.
Proof.
  intros Hf Hs. induction 1 as [|e' sys2 sys3 _ IH Hf' Hs'];
    [eapply reaches_step; [apply reaches_refl|done|done]|by eapply reaches_step].
Qed.

(** The discipline as a check of a concrete trace. *)
Definition fresh_nodeb (e : event) (sys : System) : bool :=
  match e with
  | Request sid m =>
      match streams sys !! sid with
      | Some t => negb (str_is_empty (node_id t)) ||
          forallb (λ kt, negb (bool_decide (node_id kt.2 = node_id_of m))) (map_to_list (streams sys))
      | None => true
      end
  | _ => true
  end.

Fixpoint fresh_run (es : list event) (sys : System) : bool :=
  match es with
  | [] => true
  | e :: es => fresh_nodeb e sys &&
      match xds_step e sys with Some sys' => fresh_run es sys' | None => false end
  end.

Lemma fresh_nodeb_ok e sys : fresh_nodeb e sys = true → fresh_node e sys.
Proof.
  destruct e; simpl; try done. intros H t Ht Hn sid' t' Ht'. rewrite Ht, Hn in H. simpl in H.
  apply Is_true_true_2, forallb_True in H. rewrite Forall_forall in H.
  apply elem_of_map_to_list in Ht'. specialize (H _ Ht'). simpl in H. by case_bool_decide.
Qed.

Lemma reaches_run es sys sys' :
  fresh_run es sys = true → xds_run es sys = Some sys' → reaches sys sys'.
Proof.
  revert sys. induction es as [|e es IH]; intros sys; simpl; [intros _ [= <-]; apply reaches_refl|].
  destruct (xds_step e sys) as [sys1|] eqn:E; simpl; [|done].
  rewrite andb_true_iff. intros [Hf Hr] Hrun. eapply reaches_first; [|exact E|by apply IH].
  by apply fresh_nodeb_ok.
Qed.

Record reg_inv (sys : System) : Prop := {
  (** every stream has its channel *)
  ri_channel sid t : streams sys !! sid = Some t → is_Some (channels (control_plane sys) !! sid);
  (** an identified stream whose receiver stays is registered *)
  ri_registered sid t :
    streams sys !! sid = Some t → node_id t ≠ EmptyString →
    stays (channels (control_plane sys)) sid →
    connections (control_plane sys) !! node_id t = Some (mk_handle sid sid);
  (** every registration is of an open stream with that node id *)
  ri_live n h :
    connections (control_plane sys) !! n = Some h →
    n ≠ EmptyString ∧ h = mk_handle (sender h) (sender h) ∧
    ∃ t, streams sys !! sender h = Some t ∧ node_id t = n;
  (** node ids of open streams are distinct *)
  ri_distinct sid1 t1 sid2 t2 :
    streams sys !! sid1 = Some t1 → streams sys !! sid2 = Some t2 →
    node_id t1 = node_id t2 → node_id t1 ≠ EmptyString → sid1 = sid2
}.

Lemma node_id_of_nonempty m : node_id_of m ≠ EmptyString.
Proof.
  unfold node_id_of. destruct (DiscoveryRequest.node m) as [n|]; simpl; [|done].
  unfold then_some. destruct (str_is_empty n) eqn:E; simpl; [done|].
  by apply str_is_empty_false.
Qed.

(** A step of one stream that keeps its node id, the registry and which
    receivers stay keeps the invariant. *)
Lemma reg_inv_same sys sid t t' cp' :
  reg_inv sys → streams sys !! sid = Some t → node_id t' = node_id t →
  connections cp' = connections (control_plane sys) →
  (∀ sid', is_Some (channels (control_plane sys) !! sid') → is_Some (channels cp' !! sid')) →
  (∀ sid', stays (channels cp') sid' → stays (channels (control_plane sys)) sid') →
  reg_inv (mk_sys cp' (<[sid := t']> (streams sys))).
Proof.
  intros [Hch Hreg Hlive Hd] Ht Hid Hcon Hsome Hst.
  assert (Hlk : ∀ sid' t0, <[sid := t']> (streams sys) !! sid' = Some t0 →
                ∃ t1, streams sys !! sid' = Some t1 ∧ node_id t0 = node_id t1).
  { intros sid' t0. rewrite lookup_insert_Some. intros [[<- <-]|[_ ?]]; eauto. }
  split; simpl.
  - intros sid' t0 (t1 & Ht1 & _)%Hlk. apply Hsome. by eapply Hch.
  - intros sid' t0 (t1 & Ht1 & ->)%Hlk ? ?. rewrite Hcon. by apply Hreg; [| |apply Hst].
  - intros n h. rewrite Hcon. intros (Hn & Hh & t0 & Ht0 & Hid0)%Hlive.
    split; [done|]. split; [done|]. destruct (decide (sender h = sid)) as [Heq|Hne].
    + exists t'. rewrite Heq in *. rewrite lookup_insert_eq. split; [done|]. congruence.
    + exists t0. by rewrite lookup_insert_ne.
  - intros sid1 t1 sid2 t2 (t1' & H1 & ->)%Hlk (t2' & H2 & ->)%Hlk. by apply Hd.
Qed.

Lemma reg_inv_open sys sid :
  reg_inv sys → channels (control_plane sys) !! sid = None →
  reg_inv (mk_sys (set_channels (insert sid new_channel) (control_plane sys))
             (<[sid := new_stream]> (streams sys))).
Proof.
  intros [Hch Hreg Hlive Hd] Hno.
  assert (Hns : streams sys !! sid = None).
  { destruct (streams sys !! sid) eqn:E; [|done]. destruct (Hch _ _ E). congruence. }
  split; simpl.
  - intros sid' t. rewrite !lookup_insert_Some, lookup_insert_is_Some.
    intros [[<- _]|[? ?]]; [by left|right]. eauto.
  - intros sid' t. rewrite lookup_insert_Some. intros [[<- <-]|[Hne ?]]; [done|].
    intros ? (c & Hc & ?). rewrite lookup_insert_ne in Hc by done.
    apply Hreg; [done..|]. by exists c.
  - intros n h (Hn & Hh & t & Ht & Hid)%Hlive. split; [done|]. split; [done|].
    exists t. rewrite lookup_insert_ne; [done|]. intros ->. congruence.
  - intros sid1 t1 sid2 t2. rewrite !lookup_insert_Some.
    intros [[<- <-]|[? ?]] [[<- <-]|[? ?]]; simpl; intros; try congruence. by eapply Hd.
Qed.

Lemma reg_inv_introduce sys sid m t cp' t' :
  reg_inv sys → fresh_node (Request sid m) sys → streams sys !! sid = Some t →
  node_id t = EmptyString → node_id t' = node_id_of m →
  connections cp' = <[node_id_of m := mk_handle sid sid]> (connections (control_plane sys)) →
  channels cp' = channels (control_plane sys) →
  reg_inv (mk_sys cp' (<[sid := t']> (streams sys))).
Proof.
  intros [Hch Hreg Hlive Hd] Hfr Ht Hempty Hid Hcon Hchan.
  pose proof (node_id_of_nonempty m) as Hne. specialize (Hfr t Ht Hempty).
  split; simpl; rewrite ?Hchan, ?Hcon.
  - intros sid' t0. rewrite lookup_insert_Some. intros [[<- <-]|[_ ?]]; eauto.
  - intros sid' t0. rewrite lookup_insert_Some. intros [[<- <-]|[? Ht0]] Hn0 Hs.
    + by rewrite Hid, lookup_insert_eq.
    + rewrite lookup_insert_ne; [by apply Hreg|]. intros Heq. by apply (Hfr sid' t0).
  - intros n h. rewrite lookup_insert_Some. intros [[<- <-]|[Hn Hl]].
    + split; [done|]. split; [done|]. exists t'. by rewrite lookup_insert_eq.
    + destruct (Hlive _ _ Hl) as (? & ? & t0 & Ht0 & Hid0). split; [done|]. split; [done|].
      exists t0. rewrite lookup_insert_ne; [done|]. intros ->. congruence.
  - intros sid1 t1 sid2 t2. rewrite !lookup_insert_Some.
    intros [[<- <-]|[? H1]] [[<- <-]|[? H2]]; [done|..].
    + intros Heq. exfalso. by apply (Hfr sid2 t2); [|congruence].
    + intros Heq. exfalso. by apply (Hfr sid1 t1); [|congruence].
    + by apply Hd.
Qed.

Lemma reg_inv_end sys sid t :
  reg_inv sys → streams sys !! sid = Some t →
  reg_inv (mk_sys (end_stream t (control_plane sys)) (delete sid (streams sys))).
Proof.
  intros [Hch Hreg Hlive Hd] Ht.
  destruct (end_stream_proj t (control_plane sys)) as (_ & _ & Hchan & Hcon).
  assert (Hkeep : ∀ n h, connections (end_stream t (control_plane sys)) !! n = Some h →
            connections (control_plane sys) !! n = Some h ∧ n ≠ node_id t).
  { intros n h. rewrite Hcon. destruct (str_is_empty (node_id t)) eqn:E.
    - intros Hl. split; [done|]. apply str_is_empty_true in E. rewrite E.
      by destruct (Hlive _ _ Hl).
    - rewrite lookup_delete_Some. naive_solver. }
  split; simpl; rewrite ?Hchan.
  - intros sid' t0. rewrite lookup_delete_Some. intros [_ ?]. eauto.
  - intros sid' t0. rewrite lookup_delete_Some. intros [Hne Ht0] Hn0 Hs.
    rewrite Hcon. destruct (str_is_empty (node_id t)) eqn:E; [by apply Hreg|].
    rewrite lookup_delete_ne; [by apply Hreg|]. intros Heq. apply Hne.
    eapply Hd; [done|done|done|by apply str_is_empty_false].
  - intros n h [Hl Hn]%Hkeep. destruct (Hlive _ _ Hl) as (? & ? & t0 & Ht0 & Hid).
    split; [done|]. split; [done|]. exists t0. split; [|done].
    rewrite lookup_delete_ne; [done|]. intros ->. congruence.
  - intros sid1 t1 sid2 t2. rewrite !lookup_delete_Some. intros [_ ?] [_ ?]. by apply Hd.
Qed.

(** The senders of the registry are distinct. *)
Lemma reg_inv_senders sys :
  reg_inv sys →
  NoDup ((λ item, sender item.2) <$> map_to_list (connections (control_plane sys))).
Proof.
  intros [_ _ Hlive _]. apply NoDup_fmap_2_strong; [|apply NoDup_map_to_list].
  intros [n1 h1] [n2 h2] H1 H2 Heq. simpl in Heq.
  apply elem_of_map_to_list in H1, H2.
  destruct (Hlive _ _ H1) as (_ & Hh1 & t1 & Ht1 & <-).
  destruct (Hlive _ _ H2) as (_ & Hh2 & t2 & Ht2 & <-).
  rewrite Hh1, Hh2, Heq in *. simplify_eq. congruence.
Qed.

Lemma reg_inv_rebuild sys cfg el reads r :
  reg_inv sys → rebuild_from_config cfg el reads (control_plane sys) = Some r →
  reg_inv (mk_sys r.2 (streams sys)).
Proof.
  intros Hi Hr. pose proof Hi as [Hch Hreg Hlive Hd].
  destruct (rebuild_cases cfg el reads (control_plane sys)) as [(s & Hb & Heq)|(e & Hb & Heq)];
    rewrite Heq in Hr; [|injection Hr as <-; by split].
  apply bind_Some in Hr as (cp' & (acc & Hpush & Hchan & Hcon & _)%broadcast_proj & [= <-]).
  simpl in Hpush. split; simpl; rewrite ?Hchan, ?Hcon.
  - intros sid t Ht. apply (push_all_dom _ _ _ _ _ _ Hpush). eauto.
  - intros sid t Ht Hn Hs. apply (push_all_stays _ _ _ _ _ _ Hpush) in Hs. simpl in Hs.
    rewrite foldr_delete_lookup. rewrite decide_False; [by apply Hreg|].
    intros [?|(h & Hin & Hns)]%(push_all_disconnected _ _ _ _ _ _ Hpush); [set_solver|].
    apply elem_of_map_to_list in Hin. simpl in Hin. rewrite (Hreg sid) in Hin by done. by simplify_eq/=.
  - intros n h. rewrite foldr_delete_lookup. case_decide; [done|]. apply Hlive.
  - apply Hd.
Qed.
(** The client's end of a channel. *)
Lemma reg_inv_channel sys sid c c' :
  reg_inv sys → channels (control_plane sys) !! sid = Some c → (listening c' = true → listening c = true) →
  reg_inv (mk_sys (set_channels (insert sid c') (control_plane sys)) (streams sys)).
Proof.
  intros [Hch Hreg Hlive Hd] Hc Ho. split; simpl; [|..|done|done].
  - intros sid' t Ht. rewrite lookup_insert_is_Some'. right. eauto.
  - intros sid' t Ht Hn (c0 & Hc0 & Hl). apply Hreg; [done..|].
    destruct (decide (sid = sid')) as [<-|Hne].
    + rewrite lookup_insert_eq in Hc0. simplify_eq. exists c. auto.
    + rewrite lookup_insert_ne in Hc0 by done. by exists c0.
Qed.
Lemma reg_inv_step e sys sys' :
  reg_inv sys → fresh_node e sys → xds_step e sys = Some sys' → reg_inv sys'.
Proof.
  intros Hi Hfr Hs. destruct e as [sid|sid m|sid|sid|sid|sid|sid|cfg el reads]; simpl in Hs.
  - destruct (channels _ !! sid) eqn:E; simplify_eq. by apply reg_inv_open.
  - apply stream_event_inv in Hs as (t & [t' cp'] & Ht & Hs & ->).
    destruct (stream_phase t); simplify_eq/=.
    pose proof (begin_request_proj sid m t (control_plane sys)) as Hbr. rewrite Hs in Hbr.
    destruct Hbr as (_ & _ & Hc & _ & Hid).
    destruct (str_is_empty (node_id t)) eqn:E; destruct Hid as [Hid Hcon].
    + eapply reg_inv_introduce; try done. by apply str_is_empty_true.
    + eapply reg_inv_same; try done; intros sid'; by rewrite Hc.
  - apply stream_event_inv in Hs as (t & tc & Ht & Hs & ->).
    destruct (stream_phase t); simplify_eq/=. by eapply reg_inv_same.
  - apply stream_event_inv in Hs as (t & [t' cp'] & Ht & Hsn & ->).
    destruct (stream_phase t) as [| |rs]; [done..|]. simpl.
    unfold send_next in Hsn. destruct rs as [|r rs]; simplify_eq/=; [by eapply reg_inv_same|].
    apply bind_Some in Hsn as (c & Hcs & Hsd).
    destruct (send r c) as [c'| |] eqn:Esd; simplify_eq/=; [|by eapply reg_inv_same].
    apply send_taken in Esd as [Ho ->].
    eapply (reg_inv_same (mk_sys (set_channels (insert sid _) (control_plane sys)) (streams sys)));
      [by eapply reg_inv_channel|done..].
  - apply bind_Some in Hs as (t & Ht & Hs). destruct (stream_phase t); simplify_eq/=.
    by apply reg_inv_end.
  - apply channel_event_inv in Hs as (c & c' & Hc & Hf & ->). eapply reg_inv_channel; [done..|].
    by apply receive_sent in Hf as (_ & _ & ->).
  - apply channel_event_inv in Hs as (c & c' & Hc & Hf & ->). eapply reg_inv_channel; [done..|].
    by apply hang_up_sent in Hf as [_ ->].
  - apply bind_Some in Hs as (r & Hr & [= <-]). by eapply reg_inv_rebuild.
Qed.

Lemma reaches_inv sys0 sys : reg_inv sys0 → reaches sys0 sys → reg_inv sys.
Proof. intros H0. induction 1 as [|e sys sys' _ IH Hfr Hs]; [done|]. by eapply reg_inv_step. Qed.

(** [C30] As long as no stream introduces itself with the node id of a stream
    that is still open, every reload reaches every Envoy: in any state such a
    history leads to, a rebuild that goes through appends exactly the four
    ordered responses of the new snapshot to the channel of every identified
    stream whose client is there, and leaves it open; and a rebuild waits only
    for a registered Envoy that is there, does not read, and whose channel of
    sixteen has no room for the four. *)
Theorem reload_reaches_every_stream (cfg0 config : GatewayConfig) (m : Metrics) (elapsed : f64)
    (reads : nat → bool) (cp0 : XdsControlPlane) (sys : System) :
  XdsControlPlane_new cfg0 m = Ok cp0 → reaches (mk_sys cp0 ∅) sys →
  match rebuild_from_config config elapsed reads (control_plane sys) with
  | Some (Ok _, cp') => ∀ sid t c,
      streams sys !! sid = Some t → node_id t ≠ EmptyString →
      channels (control_plane sys) !! sid = Some c → listening c = true →
      ∃ c', channels cp' !! sid = Some c' ∧ listening c' = true ∧
        sent c' = sent c ++ XdsSnapshot.ordered_responses (snapshot cp')
  | Some (Err _, cp') => channels cp' = channels (control_plane sys)
  | None => ∃ n h c, connections (control_plane sys) !! n = Some h ∧
      channels (control_plane sys) !! sender h = Some c ∧ listening c = true ∧
      reads (sender h) = false ∧ room c < 4
  end.
Proof.
  intros Hnew Hr.
  assert (Hi : reg_inv sys).
  { eapply reaches_inv; [|exact Hr]. unfold XdsControlPlane_new in Hnew.
    apply result_bind_Ok in Hnew as (s & _ & [= <-]). split; simpl; set_solver. }
  destruct (rebuild_cases config elapsed reads (control_plane sys)) as [(s & Hb & ->)|(e & Hb & ->)]; [|done].
  destruct (broadcast _ _ _) as [cp'|] eqn:Hbc; simpl.
  - apply broadcast_proj in Hbc as (acc & Hpush & Hchan & _ & Hsn & _). simpl in Hpush, Hsn.
    intros sid t c Ht Hn Hc Ho. rewrite Hchan, Hsn.
    destruct (push_all_once _ _ _ _ _ (node_id t) (mk_handle sid sid) c Hpush) as (c' & ? & ? & ?);
      [by apply reg_inv_senders| |done|done|by exists c'].
    apply elem_of_map_to_list. eapply ri_registered; [done..|by exists c].
  - assert (push_all reads (XdsSnapshot.ordered_responses s) (map_to_list (connections (control_plane sys)))
        (channels (control_plane sys), []) = None) as Hnone.
    { unfold broadcast in Hbc. simpl in Hbc. by destruct (push_all _ _ _ _) as [[]|]. }
    apply push_all_waits in Hnone as (n & h & c & Hin & Hc & Hrd & Ho & Hroom); [|by apply reg_inv_senders].
    apply elem_of_map_to_list in Hin. exists n, h, c. split_and!; [done..|].
    eapply Nat.lt_le_trans; [exact Hroom|apply ordered_length].
Qed.
End registration.

(** The system after one Envoy has connected, and after a reload. *)
Definition greeted : System := after_trace (greet 0 "envoy-1").
Definition reload_result : option (result Resources.ResourceError unit * XdsControlPlane) :=
  rebuild_from_config sample_config f64_zero (λ _, false) (control_plane greeted).
Definition reloaded : XdsControlPlane := (default (Ok tt, sample_cp) reload_result).2.
Definition greeted_channel : Channel :=
  default new_channel (channels (control_plane greeted) !! 0).

Lemma greeted_reaches : reaches (mk_sys sample_cp ∅) greeted.
Proof.
  apply (reaches_run (greet 0 "envoy-1")); [vm_compute; reflexivity|].
  apply after_trace_run. vm_compute. reflexivity.
Qed.

Lemma reload_reaches_every_stream_witness :
  versions_sent 0 greeted = ["1"] ∧
  ∃ c', channels reloaded !! 0 = Some c' ∧ listening c' = true ∧
    sent c' = sent greeted_channel ++ XdsSnapshot.ordered_responses (snapshot reloaded).
Proof.
  split; [vm_compute; reflexivity|].
  pose proof (reload_reaches_every_stream sample_config sample_config empty_metrics f64_zero (λ _, false)
    sample_cp greeted sample_cp_new greeted_reaches) as H. fold reload_result in H.
  assert (Hr : reload_result = Some (Ok tt, reloaded)).
  { unfold reloaded. assert (is_some reload_result = true) by (vm_compute; reflexivity).
    assert ((default (Ok tt, sample_cp) reload_result).1 = Ok tt) by (vm_compute; reflexivity).
    destruct reload_result as [[r cp]|]; simpl in *; congruence. }
  rewrite Hr in H. apply (H 0 (mk_stream "envoy-1" (Some 0) Waiting)).
  - vm_compute. reflexivity.
  - discriminate.
  - apply some_default. vm_compute. reflexivity.
  - vm_compute. reflexivity.
Defined.

(** ** Acknowledgements

    The state-of-the-world protocol acknowledges a response by echoing its
    version, nonce and type. *)
Definition ack_of (r : DiscoveryResponse) : DiscoveryRequest :=
  DiscoveryRequest.mk (DiscoveryResponse.version_info r) None []
    (DiscoveryResponse.type_url r) (DiscoveryResponse.nonce r) None.

Section acknowledgements.
Context `{Y : YamlLib} `{P : ProstLib}.

(** The stream's turn for an acknowledgement of [r]. *)
Definition ack_round (sid : nat) (r : DiscoveryResponse) : list event :=
  [Request sid (ack_of r); Answer sid; SendNext sid; SendNext sid; Received sid].

Fixpoint ack_rounds (sid : nat) (r : DiscoveryResponse) (n : nat) : list event :=
  match n with O => [] | S n => ack_round sid r ++ ack_rounds sid r n end.

(** A stream that is idle, identified and whose client has received everything. *)
Record idle (sid : nat) (sys : System) (msgs : list DiscoveryResponse) (s : XdsSnapshot) : Prop := {
  idle_stream : ∃ t, streams sys !! sid = Some t ∧ stream_phase t = Waiting ∧
                     node_id t ≠ EmptyString;
  idle_channel : channels (control_plane sys) !! sid = Some (mk_channel msgs (length msgs) true);
  idle_snapshot : snapshot (control_plane sys) = s
}.

Lemma xds_run_app es1 es2 sys :
  xds_run (es1 ++ es2) sys = (sys' ← xds_run es1 sys; xds_run es2 sys').
Proof.
  revert sys. induction es1 as [|e es1 IH]; intros sys; simpl; [done|].
  destruct (xds_step e sys); simpl; [apply IH|done].
Qed.

Lemma stream_event_intro sid f sys t tc :
  streams sys !! sid = Some t → f t (control_plane sys) = Some tc →
  stream_event sid f sys = Some (mk_sys tc.2 (<[sid := tc.1]> (streams sys))).
Proof. unfold stream_event. intros -> Hf. simpl. by rewrite Hf. Qed.

Lemma ack_round_spec sid sys msgs s r :
  idle sid sys msgs s → XdsSnapshot.response_for s (DiscoveryResponse.type_url r) = Some r →
  DiscoveryResponse.type_url r ≠ EmptyString →
  ∃ sys', xds_run (ack_round sid r) sys = Some sys' ∧ idle sid sys' (msgs ++ [r]) s.
Proof.
  intros [(t & Ht & Hw & Hn) Hc Hs] Hr Hu. apply str_is_empty_false in Hn, Hu.
  unfold ack_round. cbn [xds_run xds_step]. erewrite stream_event_intro; [|exact Ht|by rewrite Hw].
  pose proof (begin_request_proj sid (ack_of r) t (control_plane sys)) as Hbr.
  destruct (begin_request sid (ack_of r) t (control_plane sys)) as [t1 cp1].
  rewrite Hn in Hbr. destruct Hbr as (Hs1 & _ & Hc1 & Hph & Hid & _). cbn [mbind option_bind].
  assert (Hto : responses_to (ack_of r) (snapshot cp1) = [r]).
  { unfold responses_to. simpl. by rewrite Hu, Hs1, Hs, Hr. }
  erewrite stream_event_intro; [|apply lookup_insert_eq|by simpl; rewrite Hph]. cbn [mbind option_bind].
  erewrite stream_event_intro; [|apply lookup_insert_eq|].
  2: { simpl. rewrite Hto. simpl. rewrite Hc1, Hc. unfold send. simpl. by rewrite Nat.sub_diag. }
  cbn [mbind option_bind]. erewrite stream_event_intro; [|apply lookup_insert_eq|reflexivity].
  cbn [mbind option_bind]. unfold channel_event. cbn [control_plane snd set_channels channels].
  rewrite lookup_insert_eq. cbn [mbind option_bind]. unfold receive. cbn [listening received sent andb].
  rewrite length_app. simpl length. rewrite (proj2 (Nat.ltb_lt _ _)) by lia. cbn [mbind option_bind].
  eexists; split; [done|]. split; simpl.
  - eexists. rewrite lookup_insert_eq. split; [done|]. simpl. split; [done|].
    by rewrite Hid, <- str_is_empty_false.
  - rewrite lookup_insert_eq, length_app. simpl. by rewrite Nat.add_1_r.
  - by rewrite Hs1.
Qed.

(** An acknowledgement of the current response of a type is answered
    with that same response, so an Envoy that acknowledges what it is sent,
    as the protocol requires, is sent it again without end although nothing
    has changed: [n] acknowledgements bring [n] more copies. *)
Theorem ack_is_answered_again (sid : nat) (sys : System) (msgs : list DiscoveryResponse)
    (s : XdsSnapshot) (r : DiscoveryResponse) (n : nat) :
  idle sid sys msgs s → XdsSnapshot.response_for s (DiscoveryResponse.type_url r) = Some r →
  DiscoveryResponse.type_url r ≠ EmptyString →
  ∃ sys', xds_run (ack_rounds sid r n) sys = Some sys' ∧ idle sid sys' (msgs ++ replicate n r) s.
Proof.
  intros Hi Hr Hu. revert sys msgs Hi. induction n as [|n IH]; intros sys msgs Hi; cbn [ack_rounds].
  { exists sys. split; [done|]. by rewrite app_nil_r. }
  destruct (ack_round_spec _ _ _ _ _ Hi Hr Hu) as (sys1 & Hrun & Hi1).
  destruct (IH _ _ Hi1) as (sys2 & Hrun2 & Hi2). exists sys2.
  rewrite xds_run_app, Hrun. split; [exact Hrun2|]. simpl. by rewrite <- app_assoc in Hi2.
Qed.
End acknowledgements.

(** The clusters response the sample Envoy got. *)
Definition greeted_response : DiscoveryResponse :=
  default (DiscoveryResponse.mk EmptyString [] EmptyString EmptyString)
    (head (sent greeted_channel)).

Lemma ack_is_answered_again_witness :
  ∃ sys', xds_run (ack_rounds 0 greeted_response 3) greeted = Some sys' ∧
    idle 0 sys' ([greeted_response] ++ replicate 3 greeted_response)
      (snapshot (control_plane greeted)).
Proof.
  apply (ack_is_answered_again 0 greeted [greeted_response] (snapshot (control_plane greeted))
           greeted_response 3).
  - split; [|vm_compute; reflexivity|reflexivity].
    exists (mk_stream "envoy-1" (Some 0) Waiting).
    split; [vm_compute; reflexivity|]. split; [reflexivity|discriminate].
  - vm_compute. reflexivity.
  - vm_compute. discriminate.
Defined.

(** ** Two histories to know about *)

(** An Envoy reconnects with its node id before its old stream has ended.
    The end of the old stream removes the new stream's registration: the new
    stream stays open, but the reload that follows does not reach it. *)
Theorem reconnect_loses_updates :
  let sys := after_trace (greet 0 "envoy-1" ++ greet 1 "envoy-1" ++
                          [End 0; Rebuild sample_config f64_zero (λ _, true)]) in
  is_Some (streams sys !! 1) ∧ connections (control_plane sys) = ∅ ∧
  XdsSnapshot.version (snapshot (control_plane sys)) = 2%Z ∧ versions_sent 1 sys = ["1"].
Proof. vm_compute. by split; [eexists|]. Qed.

(** A reload that happens between a stream's read of the snapshot and its
    sends: the stream carries the new version first and the old one after. *)
Theorem stale_version_sent_last :
  let sys := after_trace (greet 0 "envoy-1" ++ [Request 0 (hello "envoy-1"); Answer 0;
                          Rebuild sample_config f64_zero (λ _, true); SendNext 0; SendNext 0]) in
  XdsSnapshot.version (snapshot (control_plane sys)) = 2%Z ∧
  versions_sent 0 sys = ["1"; "2"; "2"; "2"; "2"; "1"].
Proof. vm_compute. done. Qed.

(** An Envoy that acknowledges without reading: after sixteen responses its
    stream, and every reload, wait for it. *)
Definition deaf (n : nat) : list event :=
  greet 0 "envoy-1" ++ mjoin (replicate n [Request 0 (hello "envoy-1"); Answer 0; SendNext 0; SendNext 0]).
Theorem deaf_envoy_blocks_rebuild :
  is_some (xds_run (deaf 12) (mk_sys sample_cp ∅)) = true ∧
  is_some (xds_run (deaf 12 ++ [Rebuild sample_config f64_zero (λ _, false)]) (mk_sys sample_cp ∅)) = true ∧
  is_some (xds_run (deaf 13 ++ [Rebuild sample_config f64_zero (λ _, false)]) (mk_sys sample_cp ∅)) = false.
Proof. vm_compute. done. Qed.
