(* ===== verification/XdsStatusSpec.v ===== *)
(** * What the xDS status endpoint reports

    The status cells of the registry ([xds/registry.rs], [server.rs]) against
    the messages each stream has sent: the cell of a stream is a function of
    its own history, under every interleaving with other streams, reloads and
    reconnections. *)
From S2P Require Import Prelude RustStr F64 Yaml ConfigTypes Samples Observability.
From S2P Require Import XdsResources XdsResourcesSpec Xds XdsSpec.

Global Instance status_cmp_order : CmpOrder status_cmp.
Proof.
  split; [intros x y z; apply (cmp_trans (cmp := str_cmp))|intros x y; apply (cmp_opp (cmp := str_cmp))].
Qed.

(** ** The history of a stream *)
Section history.
Context `{Y : YamlLib} `{P : ProstLib}.

(** The messages of stream [sid] in a trace, in order. *)
Definition request_of (sid : nat) (e : event) : option DiscoveryRequest :=
  match e with
  | Request sid' m => if decide (sid' = sid) then Some m else None
  | _ => None
  end.
Definition requests_of (sid : nat) (es : list event) : list DiscoveryRequest :=
  omap (request_of sid) es.

Definition acknowledges (m : DiscoveryRequest) : bool :=
  negb (is_nack m) && negb (str_is_empty (DiscoveryRequest.version_info m)).
(** Messages that are an acknowledgement or a rejection. *)
Definition decides (m : DiscoveryRequest) : bool :=
  is_nack m || negb (str_is_empty (DiscoveryRequest.version_info m)).
Definition rejection (m : DiscoveryRequest) : option string :=
  if is_nack m then DiscoveryRequest.error_detail m else None.

(** The status an operator should see: the name given in the first message,
    type and nonce of the last one, the version acknowledged last, and the
    rejection if the last verdict was one. *)
Definition status_after (ms : list DiscoveryRequest) : option EnvoyConnectionStatus :=
  match ms with
  | [] => None
  | first :: _ => Some (EnvoyConnectionStatus.mk (node_id_of first)
      (last ms ≫= λ m, then_some (DiscoveryRequest.type_url m))
      (DiscoveryRequest.version_info <$> last (filter (λ m, acknowledges m = true) ms))
      (last ms ≫= λ m, then_some (DiscoveryRequest.response_nonce m))
      (last (filter (λ m, decides m = true) ms) ≫= rejection))
  end.

Lemma filter_snoc (p : DiscoveryRequest → bool) ms m :
  filter (λ m, p m = true) (ms ++ [m]) = filter (λ m, p m = true) ms ++ if p m then [m] else [].
Proof. rewrite filter_app, filter_cons, filter_nil. by destruct (p m). Qed.

(** One more message updates the status as the code does. *)
Lemma status_after_snoc first ms m :
  status_after ((first :: ms) ++ [m]) =
  (λ s, (update_status m s).1) <$> status_after (first :: ms).
Proof.
  unfold status_after at 1. change ((first :: ms) ++ [m]) with (first :: (ms ++ [m])) at 1.
  cbv iota beta. rewrite !filter_snoc, !last_snoc. unfold status_after. cbn [fmap option_fmap option_map mbind option_bind].
  unfold update_status, acknowledges, decides. cbn [EnvoyConnectionStatus.node_id
    EnvoyConnectionStatus.last_acked_version EnvoyConnectionStatus.last_nack].
  destruct (is_nack m) eqn:En; cbn [negb andb orb].
  - rewrite app_nil_r, last_snoc. simpl. unfold rejection. by rewrite En.
  - destruct (str_is_empty (DiscoveryRequest.version_info m)); cbn [negb].
    + by rewrite !app_nil_r.
    + rewrite !last_snoc. simpl. unfold rejection. by rewrite En.
Qed.

Lemma status_after_first m :
  status_after [m] = Some (update_status m (EnvoyConnectionStatus.fresh (node_id_of m))).1.
Proof.
  unfold status_after, update_status, acknowledges, decides. rewrite !filter_cons, !filter_nil. simpl.
  destruct (is_nack m) eqn:En; simpl.
  - unfold rejection. by rewrite En.
  - destruct (str_is_empty _); simpl; [done|]. unfold rejection. by rewrite En.
Qed.

(** ** The cells follow the histories *)
Record status_inv (h : nat → list DiscoveryRequest) (sys : System) : Prop := {
  si_cell sid : status_cells (control_plane sys) !! sid = status_after (h sid);
  si_stream sid t : streams sys !! sid = Some t →
    is_Some (channels (control_plane sys) !! sid) ∧
    match h sid with
    | [] => node_id t = EmptyString ∧ status_handle t = None
    | _ => node_id t ≠ EmptyString ∧ status_handle t = Some sid
    end;
  si_unopened sid : channels (control_plane sys) !! sid = None → h sid = []
}.

Lemma touch_status_cells hd m cp s :
  status_cells cp !! hd = Some s →
  status_cells (touch_status hd m cp) = <[hd := (update_status m s).1]> (status_cells cp).
Proof. intros H. unfold touch_status. rewrite H. by destruct (update_status m s). Qed.

Lemma begin_request_first sid m t cp : node_id t = EmptyString →
  status_cells (begin_request sid m t cp).2 =
    <[sid := (update_status m (EnvoyConnectionStatus.fresh (node_id_of m))).1]> (status_cells cp) ∧
  node_id (begin_request sid m t cp).1 ≠ EmptyString ∧
  status_handle (begin_request sid m t cp).1 = Some sid.
Proof.
  intros Hn. unfold begin_request. rewrite Hn. simpl. split; [|split; [apply node_id_of_nonempty|done]].
  erewrite touch_status_cells; [|simpl; apply lookup_insert_eq]. simpl. by rewrite insert_insert_eq.
Qed.

Lemma begin_request_next sid m t cp s : node_id t ≠ EmptyString → status_handle t = Some sid →
  status_cells cp !! sid = Some s →
  status_cells (begin_request sid m t cp).2 = <[sid := (update_status m s).1]> (status_cells cp) ∧
  node_id (begin_request sid m t cp).1 ≠ EmptyString ∧
  status_handle (begin_request sid m t cp).1 = Some sid.
Proof.
  intros Hn Hh Hs. apply str_is_empty_false in Hn as Hn'. unfold begin_request. rewrite Hn'. simpl.
  rewrite Hh. split; [by apply touch_status_cells|done].
Qed.

(** Steps that send no message of a stream. *)
Lemma status_inv_quiet h sys cp' sts' :
  status_inv h sys → status_cells cp' = status_cells (control_plane sys) →
  (∀ sid, is_Some (channels (control_plane sys) !! sid) → is_Some (channels cp' !! sid)) →
  (∀ sid t', sts' !! sid = Some t' →
     (∃ t, streams sys !! sid = Some t ∧ node_id t' = node_id t ∧ status_handle t' = status_handle t) ∨
     (channels (control_plane sys) !! sid = None ∧ is_Some (channels cp' !! sid) ∧ t' = new_stream)) →
  status_inv h (mk_sys cp' sts').
Proof.
  intros [Hc Hs Hu] Hcells Hch Hst. split; simpl.
  - intros sid. by rewrite Hcells.
  - intros sid t' [(t & Ht & -> & ->)|(Hnew & Hch' & ->)]%Hst.
    + destruct (Hs _ _ Ht) as [? ?]. split; [by apply Hch|done].
    + split; [done|]. by rewrite (Hu _ Hnew).
  - intros sid Hno. apply Hu. destruct (channels (control_plane sys) !! sid) eqn:E; [|done].
    destruct (Hch sid) as [? H]; [by rewrite E|]. congruence.
Qed.

Lemma status_inv_request h h' sid m t sys :
  status_inv h sys → streams sys !! sid = Some t →
  h' sid = h sid ++ [m] → (∀ sid', sid' ≠ sid → h' sid' = h sid') →
  status_inv h' (mk_sys (begin_request sid m t (control_plane sys)).2
                   (<[sid := (begin_request sid m t (control_plane sys)).1]> (streams sys))).
Proof.
  intros [Hc Hs Hu] Ht Hsid Hother. destruct (Hs _ _ Ht) as [Hch Hst].
  assert (Hbr : status_cells (begin_request sid m t (control_plane sys)).2 !! sid = status_after (h' sid) ∧
    (∀ sid', sid' ≠ sid → status_cells (begin_request sid m t (control_plane sys)).2 !! sid' =
                            status_cells (control_plane sys) !! sid') ∧
    node_id (begin_request sid m t (control_plane sys)).1 ≠ EmptyString ∧
    status_handle (begin_request sid m t (control_plane sys)).1 = Some sid).
  { rewrite Hsid. destruct (h sid) as [|first ms] eqn:Eh.
    - destruct Hst as [Hn Hh].
      destruct (begin_request_first sid m t (control_plane sys) Hn) as (Hcs & Hn' & Hh').
      rewrite Hcs, lookup_insert_eq. split; [symmetry; apply status_after_first|]. split; [|done].
      intros sid' Hne. by rewrite lookup_insert_ne.
    - destruct Hst as [Hn Hh]. pose proof (Hc sid) as Hcell. rewrite Eh in Hcell.
      destruct (begin_request_next sid m t (control_plane sys) _ Hn Hh Hcell) as (Hcs & Hn' & Hh').
      rewrite Hcs, lookup_insert_eq. split; [by rewrite status_after_snoc|]. split; [|done].
      intros sid' Hne. by rewrite lookup_insert_ne. }
  destruct Hbr as (Hcell & Hcells & Hn & Hh).
  pose proof (begin_request_proj sid m t (control_plane sys)) as Hp.
  destruct (begin_request sid m t (control_plane sys)) as [t' cp']. simpl in *.
  destruct Hp as (_ & _ & Hchan & _ & _). split; simpl.
  - intros sid'. destruct (decide (sid' = sid)) as [->|Hne]; [done|].
    rewrite Hcells, Hother by done. apply Hc.
  - intros sid' t0. rewrite Hchan, lookup_insert_Some. intros [[<- <-]|[Hne Ht0]].
    + split; [done|]. rewrite Hsid. by destruct (h sid).
    + rewrite Hother by done. by apply Hs.
  - intros sid'. rewrite Hchan. intros Hno. destruct (decide (sid' = sid)) as [->|Hne].
    + destruct Hch. congruence.
    + rewrite Hother by done. by apply Hu.
Qed.

Lemma send_next_keeps sid t rs cp t' cp' :
  send_next sid t rs cp = Some (t', cp') →
  status_cells cp' = status_cells cp ∧ node_id t' = node_id t ∧ status_handle t' = status_handle t ∧
  ∀ sid', is_Some (channels cp !! sid') → is_Some (channels cp' !! sid').
Proof.
  unfold send_next. destruct rs as [|r rs]; [by intros [= <- <-]|].
  intros (c & Hcs & Hsd)%bind_Some. destruct (send r c); simplify_eq/=; [|done]. split_and!; try done.
  intros sid' ?. rewrite lookup_insert_is_Some'. by right.
Qed.

Lemma rebuild_keeps cfg el reads cp r :
  rebuild_from_config cfg el reads cp = Some r →
  status_cells r.2 = status_cells cp ∧ ∀ sid, is_Some (channels cp !! sid) → is_Some (channels r.2 !! sid).
Proof.
  destruct (rebuild_cases cfg el reads cp) as [(s & _ & ->)|(e & _ & ->)]; [|by intros [= <-]].
  intros (cp' & (acc & Hp & Hch & _ & _ & _ & Hst & _)%broadcast_proj & [= <-])%bind_Some. simpl in *.
  rewrite Hch. split; [done|]. intros sid. by apply (push_all_dom _ _ _ _ _ _ Hp).
Qed.

Lemma status_inv_step h h' e sys sys' :
  status_inv h sys → xds_step e sys = Some sys' →
  (∀ sid, h' sid = h sid ++ requests_of sid [e]) → status_inv h' sys'.
Proof.
  intros Hi Hs Hh. pose proof Hi as [Hc Hst Hu].
  assert (Hquiet : (∀ sid, request_of sid e = None) → status_inv h sys' → status_inv h' sys').
  { intros Hno [Hc' Hs' Hu'].
    assert (Heq : ∀ sid, h' sid = h sid)
      by (intros sid; rewrite Hh; unfold requests_of; simpl; rewrite Hno; apply app_nil_r).
    split; intros sid; rewrite Heq; auto. }
  destruct e as [sid|sid m|sid|sid|sid|sid|sid|cfg el reads]; simpl in Hs; try (apply Hquiet; [done|]).
  - destruct (channels _ !! sid) eqn:E; simplify_eq. apply (status_inv_quiet h sys); try done; simpl.
    + intros sid' ?. rewrite lookup_insert_is_Some'. by right.
    + intros sid' t'. rewrite lookup_insert_Some. intros [[<- <-]|[_ ?]]; [|by left; eauto].
      right. by rewrite lookup_insert_eq.
  - apply stream_event_inv in Hs as (t & tc & Ht & Hs & ->).
    destruct (stream_phase t); simplify_eq/=. apply (status_inv_request h); [done|done| |].
    + rewrite Hh. unfold requests_of. simpl. by rewrite decide_True.
    + intros sid' Hne. rewrite Hh. unfold requests_of. simpl. rewrite decide_False by done.
      apply app_nil_r.
  - apply stream_event_inv in Hs as (t & tc & Ht & Hs & ->).
    destruct (stream_phase t); simplify_eq/=. apply (status_inv_quiet h sys); try done; simpl.
    intros sid' t'. rewrite lookup_insert_Some. intros [[<- <-]|[_ ?]]; left; eauto.
  - apply stream_event_inv in Hs as (t & [t' cp'] & Ht & Hs & ->).
    destruct (stream_phase t) as [| |rs]; [done..|]. simpl.
    apply send_next_keeps in Hs as (Hcs & Hid & Hhd & Hch). apply (status_inv_quiet h sys); try done.
    intros sid' t0. rewrite lookup_insert_Some. intros [[<- <-]|[_ ?]]; left; eauto.
  - apply bind_Some in Hs as (t & Ht & Hs). destruct (stream_phase t); simplify_eq/=.
    apply (status_inv_quiet h sys); try done.
    + unfold end_stream. by destruct (str_is_empty _).
    + destruct (end_stream_proj t (control_plane sys)) as (_ & _ & -> & _). done.
    + intros sid' t0. rewrite lookup_delete_Some. intros [_ ?]. left. eauto.
  - apply channel_event_inv in Hs as (c & c' & _ & _ & ->). apply (status_inv_quiet h sys); [done|done| |by left; eauto].
    intros sid' ?. simpl. rewrite lookup_insert_is_Some'. by right.
  - apply channel_event_inv in Hs as (c & c' & _ & _ & ->). apply (status_inv_quiet h sys); [done|done| |by left; eauto].
    intros sid' ?. simpl. rewrite lookup_insert_is_Some'. by right.
  - apply bind_Some in Hs as (r & Hr & [= <-]). apply rebuild_keeps in Hr as [Hcl Hch].
    apply (status_inv_quiet h sys); [done|done|done|by left; eauto].
Qed.

Lemma status_inv_run es : ∀ h sys sys',
  status_inv h sys → xds_run es sys = Some sys' →
  status_inv (λ sid, h sid ++ requests_of sid es) sys'.
Proof.
  induction es as [|e es IH]; intros h sys sys' Hi Hr; cbn [xds_run] in Hr.
  - simplify_eq. destruct Hi as [Hc Hs Hu]. unfold requests_of. simpl.
    split; intros sid; rewrite app_nil_r; auto.
  - apply bind_Some in Hr as (sys1 & Hs & Hr).
    assert (Hi1 : status_inv (λ sid, h sid ++ requests_of sid [e]) sys1)
      by (by eapply status_inv_step).
    destruct (IH _ _ _ Hi1 Hr) as [Hc' Hs' Hu'].
    assert (Heq : ∀ sid, h sid ++ requests_of sid (e :: es) =
                         (h sid ++ requests_of sid [e]) ++ requests_of sid es).
    { intros sid. rewrite <- app_assoc. f_equal. unfold requests_of. simpl.
      by destruct (request_of sid e). }
    split; intros sid; rewrite Heq; auto.
Qed.

(** [C40] The xDS status an operator sees is each Envoy's own history: after any
    trace of streams, messages, reloads and reconnections, the status cell of a
    stream carries the node id of its first message, the type and nonce of its
    last, the version it acknowledged last and, when its last verdict was a
    rejection, the reason; and the peers are listed sorted by node id, one for
    each registered stream. *)
Theorem status_reports_history (cfg0 : GatewayConfig) (m : Metrics) (cp : XdsControlPlane)
    (es : list event) (sys : System) :
  XdsControlPlane_new cfg0 m = Ok cp → xds_run es (mk_sys cp ∅) = Some sys →
  (∀ sid, status_cells (control_plane sys) !! sid = status_after (requests_of sid es)) ∧
  StronglySorted (cmp_le status_cmp) (statuses (control_plane sys)) ∧
  statuses (control_plane sys) ≡ₚ
    omap (λ item, status_after (requests_of (status item.2) es))
      (map_to_list (connections (control_plane sys))).
Proof.
  unfold XdsControlPlane_new. intros (s & _ & [= <-])%result_bind_Ok Hr.
  assert (Hi : status_inv (λ sid, [] ++ requests_of sid es) sys).
  { eapply status_inv_run; [|exact Hr]. split; simpl; [done|set_solver|done]. }
  destruct Hi as [Hc _ _]. split; [exact Hc|]. unfold statuses.
  split; [apply stable_sort_sorted, _|]. rewrite stable_sort_perm.
  assert (Heq : ∀ l : list (string * ConnectionHandle), omap (λ item : string * ConnectionHandle,
      status_cells (control_plane sys) !! status item.2) l =
    omap (λ item, status_after (requests_of (status item.2) es)) l).
  { unfold omap. induction l as [|x l IH]; simpl; [done|]. by rewrite Hc, IH. }
  by rewrite Heq.
Qed.
End history.

(** An Envoy that acknowledges the version it was sent, then rejects. *)
Definition ack_message (v : string) : DiscoveryRequest :=
  DiscoveryRequest.mk v (Some "envoy-1") [] CLUSTER_TYPE_URL "snapshot-1" None.
Definition nack_message : DiscoveryRequest :=
  DiscoveryRequest.mk "1" (Some "envoy-1") [] CLUSTER_TYPE_URL "snapshot-2" (Some "bad cluster").
Definition verdict_trace : list event :=
  greet 0 "envoy-1" ++
  [Request 0 (ack_message "1"); Answer 0; SendNext 0; SendNext 0; Request 0 nack_message].

Lemma status_reports_history_witness :
  status_cells (control_plane (after_trace verdict_trace)) !! 0 =
    Some (EnvoyConnectionStatus.mk "envoy-1" (Some CLUSTER_TYPE_URL) (Some "1") (Some "snapshot-2")
            (Some "bad cluster")).
Proof.
  assert (Hrun : xds_run verdict_trace (mk_sys sample_cp ∅) = Some (after_trace verdict_trace))
    by (apply after_trace_run; vm_compute; reflexivity).
  rewrite (proj1 (status_reports_history sample_config empty_metrics sample_cp verdict_trace
                    (after_trace verdict_trace) sample_cp_new Hrun) 0).
  vm_compute. reflexivity.
Defined.
