(* ===== verification/Tracing.v ===== *)
(** * Tracing set-up

    [controlplane/src/observability/tracing_init.rs].  The subscriber, the
    exporter and the propagator belong to libraries; what the module decides is
    which of them are installed, with which filter, end point and sampling
    ratio, in which order, and which failures it reports.  [Telemetry] is the
    process-wide state they live in. *)
From S2P Require Import Prelude RustStr F64 F64Theory Yaml ConfigTypes Validation ValidationSpec.

Inductive TracingInitError := OtlpInit (e : string) | SetGlobal (e : string).
Definition TracingInitError_to_string (e : TracingInitError) : string :=
  match e with
  | OtlpInit e => "failed to initialize OTLP exporter: " +:+ e
  | SetGlobal e => "failed to set global subscriber: " +:+ e
  end.

Record SdkTracerProvider := mk_provider {
  sampler_ratio : f64;          (* Sampler::TraceIdRatioBased *)
  exporter_endpoint : string
}.

(** The subscriber: its filter, and the name of the tracer its spans go to. *)
Record Subscriber := mk_subscriber { env_filter : string; otel_layer : option string }.

Record Telemetry := mk_telemetry {
  text_map_propagator : bool;                    (* W3C TraceContext registered *)
  TRACER_PROVIDER : option SdkTracerProvider;    (* the module's OnceLock *)
  tracer_provider : option SdkTracerProvider;    (* the global of the SDK *)
  subscriber : option Subscriber;
  shut_down : bool                               (* the provider of the OnceLock was flushed *)
}.
Definition no_telemetry : Telemetry := mk_telemetry false None None None false.

(** What the libraries answer: the filter of the environment when it parses,
    the construction of the exporter for an end point, and the error of
    [try_init] when a subscriber is set already. *)
Record tracing_env := mk_tracing_env {
  te_env_filter : option string;
  te_exporter : string → result string unit;
  te_already_set : string
}.

(** [f64::clamp] *)
Definition clamp (x lo hi : f64) : f64 :=
  let x := if f64_lt x lo then lo else x in
  if f64_gt x hi then hi else x.

(** [OnceLock::set] keeps the first value. *)
Definition once_set {A} (v : A) (cell : option A) : option A :=
  match cell with Some old => Some old | None => Some v end.

Definition try_init (env : tracing_env) (s : Subscriber) (t : Telemetry)
    : result TracingInitError unit * Telemetry :=
  match subscriber t with
  | Some _ => (Err (SetGlobal (te_already_set env)), t)
  | None => (Ok tt, mk_telemetry (text_map_propagator t) (TRACER_PROVIDER t) (tracer_provider t) (Some s)
                      (shut_down t))
  end.

Definition init_tracing (env : tracing_env) (tracing_config : TracingConfig.TracingConfig) (t : Telemetry)
    : result TracingInitError unit * Telemetry :=
  let filter := default "info" (te_env_filter env) in
  if TracingConfig.enabled tracing_config then
    let t := mk_telemetry true (TRACER_PROVIDER t) (tracer_provider t) (subscriber t)
               (shut_down t) in
    let sampler := clamp (TracingConfig.sample_rate tracing_config) f64_zero f64_one in
    match te_exporter env (TracingConfig.otlp_endpoint tracing_config) with
    | Err e => (Err (OtlpInit e), t)
    | Ok tt =>
        let p := mk_provider sampler (TracingConfig.otlp_endpoint tracing_config) in
        let t := mk_telemetry (text_map_propagator t) (once_set p (TRACER_PROVIDER t)) (Some p)
                   (subscriber t) (shut_down t) in
        try_init env (mk_subscriber filter (Some "api-gateway")) t
    end
  else try_init env (mk_subscriber filter None) t.

(** Shutting the provider down flushes it; its result is dropped. *)
Definition shutdown_tracing (t : Telemetry) : Telemetry :=
  match TRACER_PROVIDER t with
  | Some _ => mk_telemetry (text_map_propagator t) (TRACER_PROVIDER t) (tracer_provider t) (subscriber t) true
  | None => t
  end.

(** ** The sampling ratio *)
Lemma clamp_id x : sample_rate_accepted x → clamp x f64_zero f64_one = x.
Proof. unfold sample_rate_accepted, clamp. intros [-> ->]. done. Qed.

Lemma clamp_range x :
  is_nan x = false → f64_le f64_zero (clamp x f64_zero f64_one) = true ∧
  f64_le (clamp x f64_zero f64_one) f64_one = true.
Proof.
  intros Hn. unfold clamp.
  destruct (f64_lt x f64_zero) eqn:H0; [split; reflexivity|].
  destruct (f64_gt x f64_one) eqn:H1; [split; reflexivity|].
  split; by apply f64_lt_total.
Qed.

(** Setting tracing up for a validated configuration fails exactly when
    tracing is enabled and the exporter cannot be built.  Otherwise spans are exported exactly when tracing is enabled, to the configured end point
    and sampled at the configured rate, which the clamp leaves as it is and
    which is between 0 and 1 unless it is NaN; a shutdown then flushes the
    provider exactly when there is one, and a second set-up fails. *)
Theorem init_tracing_spec `{Y : YamlLib} (url_parse_ok : string → bool) (cfg : GatewayConfig)
    (env : tracing_env) :
  let tc := ObservabilityConfig.tracing (GatewayConfig.observability cfg) in
  let '(r, t) := init_tracing env tc no_telemetry in
  validate url_parse_ok cfg = Ok tt →
  (r = Ok tt ↔ (TracingConfig.enabled tc = true → te_exporter env (TracingConfig.otlp_endpoint tc) = Ok tt)) ∧
  (r = Ok tt →
     TRACER_PROVIDER t =
       (if TracingConfig.enabled tc
        then Some (mk_provider (TracingConfig.sample_rate tc) (TracingConfig.otlp_endpoint tc)) else None) ∧
     tracer_provider t = TRACER_PROVIDER t ∧ text_map_propagator t = TracingConfig.enabled tc ∧
     shut_down (shutdown_tracing t) = TracingConfig.enabled tc ∧
     (is_nan (TracingConfig.sample_rate tc) = false →
      f64_le f64_zero (TracingConfig.sample_rate tc) = true ∧
      f64_le (TracingConfig.sample_rate tc) f64_one = true) ∧
     ∀ tc', (init_tracing env tc' t).1 ≠ Ok tt).
Proof.
  intros tc. destruct (init_tracing env tc no_telemetry) as [r t] eqn:Hi. intros Hv.
  assert (Hrate : sample_rate_accepted (TracingConfig.sample_rate tc)).
  { apply validate_valid in Hv. apply Hv. }
  pose proof (clamp_range (TracingConfig.sample_rate tc)) as Hrange. rewrite (clamp_id _ Hrate) in Hrange.
  assert (Hagain : is_Some (subscriber t) → ∀ tc', (init_tracing env tc' t).1 ≠ Ok tt).
  { intros [sub Hs] tc'. unfold init_tracing, try_init. simpl. rewrite Hs.
    destruct (TracingConfig.enabled tc'); [|done]. by destruct (te_exporter env _) as [[]|]. }
  unfold init_tracing, try_init in Hi. rewrite (clamp_id _ Hrate) in Hi.
  destruct (TracingConfig.enabled tc) eqn:He.
  - destruct (te_exporter env (TracingConfig.otlp_endpoint tc)) as [[]|e] eqn:Hx; simplify_eq/=;
      split; [done| |naive_solver|done].
    intros _. split_and!; [done..|]. apply Hagain. by eexists.
  - simplify_eq/=. split; [done|]. intros _. split_and!; [done..|]. apply Hagain. by eexists.
Qed.
