(* ===== verification/UnitTests.v ===== *)
(** * The repository's unit tests on the model

    The [#[cfg(test)]] modules inside the source files, one Module per file:
    fixtures and tests are translated as they are written, a test is the
    conjunction of its assertions, and each file's tests are evaluated.  They
    tie the definitions to what the authors expect of the code.

    Clocks: a test that reads [Instant::now()] gets the readings as arguments
    and is evaluated with no time passing between them.  Documents: a test that
    parses a YAML or JSON text gets the tree of that text, since the parsers are
    libraries.  Tests that need the Lua interpreter, the network or a real key
    are left out. *)
From S2P Require Import Prelude RustStr F64 Yaml ConfigTypes Validation Deserialize Samples ValidationSpec DeserializeSpec.
From S2P Require Import RateLimit RateLimitSpec Auth Refresh AuthSpec Observability Plugins PluginsSpec Sandbox SandboxSpec ExtProc.
From S2P Require Import XdsResources XdsResourcesSpec Tracing.

(** [assert_eq!] *)
Definition assert_eq {A} `{EqDecision A} (x y : A) : bool := bool_decide (x = y).
Definition all_pass (tests : list bool) : bool := forallb (λ t, t) tests.

(** ** [shared/src/config_error.rs] *)
Module config_error_tests.
Definition config_errors_display_lists_all : bool :=
  let errs := ConfigErrors_new [InvalidVersion 1 2; DuplicateName "route" "foo"] in
  let text := ConfigErrors_to_string errs in
  str_contains "2 config error(s)" text && str_contains "version must be 1, got 2" text &&
  str_contains "duplicate route name: foo" text.
Definition config_errors_len_and_empty : bool :=
  let empty := ConfigErrors_new [] in
  let one := ConfigErrors_new [YamlParse "bad"] in
  ConfigErrors_is_empty empty && assert_eq (ConfigErrors_len empty) 0 &&
  negb (ConfigErrors_is_empty one) && assert_eq (ConfigErrors_len one) 1.
Example config_error_tests_pass :
  all_pass [config_errors_display_lists_all; config_errors_len_and_empty] = true.
Proof. vm_compute. reflexivity. Qed.
End config_error_tests.

(** ** [shared/src/config_types.rs] *)
Module config_types_tests.
Import SerdeModel.

(** The tree of the text; [extra] entries are added to the [gateway] section. *)
Definition gateway_section (extra : list (string * node)) : node := NMap
  ([("listen_address", NStr "0.0.0.0:8080"); ("admin_address", NStr "0.0.0.0:9090");
    ("request_timeout_ms", NInt 15000); ("idle_timeout_ms", NInt 60000);
    ("max_request_body_bytes", NInt 10485760); ("trust_forwarded_headers", NBool false)] ++ extra).
Definition rate_limits_section : node := NMap
  [("redis_address", NStr "redis:6379"); ("redis_db", NInt 0); ("redis_key_prefix", NStr "rl");
   ("default_timeout_ms", NInt 50); ("fail_open", NBool false);
   ("survivability_mode", NMap [("enabled", NBool true); ("fallback_capacity", NInt 20);
                                ("fallback_refill_rate_per_sec", NInt 5)])].
Definition observability_section : node := NMap
  [("access_log_json", NBool true); ("prometheus_enabled", NBool true);
   ("tracing", NMap [("enabled", NBool false); ("otlp_endpoint", NStr EmptyString); ("sample_rate", NFloat f64_zero)])].
Definition sample_yaml : node := NMap
  [("version", NInt 1);
   ("gateway", gateway_section []);
   ("auth", NMap [("providers", NSeq [NMap
      [("name", NStr "main"); ("issuer", NStr "https://auth.example.local/"); ("audience", NStr "api-gateway");
       ("jwks_uri", NStr "http://localhost:7001/.well-known/jwks.json");
       ("cache_ttl_seconds", NInt 300); ("clock_skew_seconds", NInt 30)]])]);
   ("rate_limits", rate_limits_section);
   ("routes", NSeq [NMap
      [("name", NStr "public-api"); ("hostnames", NSeq [NStr "api.example.com"]);
       ("path_prefix", NStr "/public"); ("methods", NSeq [NStr "GET"; NStr "POST"]);
       ("auth_required", NBool false);
       ("rate_limit", NMap [("bucket_capacity", NInt 100); ("refill_rate_per_sec", NInt 10); ("key_by", NStr "ip")]);
       ("upstream", NMap [("service", NStr "backend"); ("request_timeout_ms", NInt 5000); ("retries", NInt 1)])]]);
   ("services", NSeq [NMap
      [("name", NStr "backend"); ("endpoints", NSeq [NStr "backend-01:8080"]);
       ("health_check", NMap [("path", NStr "/healthz"); ("interval_ms", NInt 2000); ("timeout_ms", NInt 500)])]]);
   ("observability", observability_section)].
Definition read (n : node) : result string GatewayConfig := struct GatewayConfig_fields n.

Definition deserialize_valid_config : bool :=
  match read sample_yaml with
  | Ok cfg =>
      assert_eq (GatewayConfig.version cfg) 1%Z &&
      assert_eq (GatewayServer.listen_address (GatewayConfig.gateway cfg)) "0.0.0.0:8080" &&
      assert_eq (length (GatewayConfig.routes cfg)) 1 && assert_eq (length (GatewayConfig.services cfg)) 1 &&
      assert_eq (length (AuthConfig.providers (GatewayConfig.auth cfg))) 1 &&
      negb (PluginsConfig.enabled (GatewayConfig.plugins cfg)) &&
      negb (XdsConfig.enabled (GatewayConfig.xds cfg)) && negb (ExtProcConfig.enabled (GatewayConfig.ext_proc cfg))
  | Err _ => false
  end.
Definition reject_unknown_fields : bool :=
  is_err (read (NMap
    [("version", NInt 1); ("gateway", gateway_section [("bogus_field", NBool true)]);
     ("auth", NMap [("providers", NSeq [])]); ("rate_limits", rate_limits_section);
     ("routes", NSeq []); ("services", NSeq []); ("observability", observability_section)])).
Definition plugin_defaults_are_backwards_compatible : bool :=
  match read sample_yaml with
  | Ok cfg =>
      let p := GatewayConfig.plugins cfg in
      assert_eq (PluginsConfig.directory p) EmptyString &&
      assert_eq (PluginLimits.max_memory_bytes (PluginsConfig.limits p)) (8 * 1024 * 1024)%Z &&
      assert_eq (PluginLimits.max_instructions (PluginsConfig.limits p)) 1000000%Z &&
      assert_eq (PluginLimits.chain_timeout_ms (PluginsConfig.limits p)) 50%Z
  | Err _ => false
  end.
Example config_types_tests_pass :
  all_pass [deserialize_valid_config; reject_unknown_fields; plugin_defaults_are_backwards_compatible] = true.
Proof. vm_compute. reflexivity. Qed.
End config_types_tests.

(** ** [controlplane/src/config/loader.rs] *)
Module loader_tests.
Import SerdeModel.
(** The parser on the texts of these tests: [VALID_YAML] is the text of the
    configuration types' sample. *)
Definition parse (yaml : string) : result string node :=
  if bool_decide (yaml = "VALID_YAML") then Ok config_types_tests.sample_yaml
  else if bool_decide (yaml = "VALID_YAML with bogus") then
    Ok (match config_types_tests.sample_yaml with
        | NMap m => NMap ((λ e, if bool_decide (e.1 = "gateway")
                               then ("gateway", config_types_tests.gateway_section [("bogus", NBool true)])
                               else e) <$> m)
        | n => n
        end)
  else Err "mapping values are not allowed in this context".
Definition load (yaml : string) : result ConfigErrors GatewayConfig :=
  load_config_from_str (λ _, true) (yaml_from_str parse) yaml.
Definition load_valid_yaml_string : bool :=
  match load "VALID_YAML" with
  | Ok cfg => assert_eq (GatewayConfig.version cfg) 1%Z && assert_eq (length (GatewayConfig.routes cfg)) 1
  | Err _ => false
  end.
Definition first_error_contains (needle : string) (r : result ConfigErrors GatewayConfig) : bool :=
  match r with
  | Err err =>
      assert_eq (ConfigErrors_len err) 1 &&
      match errors err with e :: _ => str_contains needle (ConfigError_to_string e) | [] => false end
  | Ok _ => false
  end.
Definition reject_malformed_yaml : bool :=
  first_error_contains "YAML parse error" (load "not: [valid: yaml: {{").
Definition reject_unknown_field_via_loader : bool :=
  match load "VALID_YAML with bogus" with Err err => assert_eq (ConfigErrors_len err) 1 | Ok _ => false end.
Definition load_missing_file : bool :=
  first_error_contains "failed to read"
    (load_config (λ _, true) (yaml_from_str parse) (λ _, Err "No such file or directory (os error 2)")
       "/nonexistent/gateway.yaml").
Example loader_tests_pass :
  all_pass [load_valid_yaml_string; reject_malformed_yaml; reject_unknown_field_via_loader; load_missing_file] = true.
Proof. vm_compute. reflexivity. Qed.
End loader_tests.

(** ** [controlplane/src/ratelimit/bucket.rs] *)
Module bucket_tests.
Import LocalBucket.
Definition f (n : Z) : f64 := f64_of_int n.
(** The [n]th outcome of [try_consume] on a new bucket, with the clock at [now]. *)
Fixpoint consume (now : Z) (n : nat) (b : LocalBucket) : (bool * Z * Z) * LocalBucket :=
  match n with 0 => try_consume now b | S n => consume now n (try_consume now b).2 end.
Definition nth_outcome (now : Z) (capacity rate : f64) (n : nat) : bool * Z * Z :=
  (consume now n (new now capacity rate)).1.

Definition bucket_starts_full (now : Z) : bool :=
  let '(allowed, remaining, _) := nth_outcome now (f 10) (f 1) 0 in allowed && assert_eq remaining 9%Z.
Definition bucket_exhausted_returns_denied (now : Z) : bool :=
  let o := nth_outcome now (f 3) (f 0) in
  let '(allowed, remaining, retry) := o 3 in
  (o 0).1.1 && (o 1).1.1 && (o 2).1.1 && negb allowed && assert_eq remaining 0%Z && assert_eq retry u64_max.
Definition retry_after_ms_nonzero_when_denied (now : Z) : bool :=
  let '(allowed, _, retry) := nth_outcome now (f 1) (f 10) 1 in negb allowed && (0 <? retry)%Z.
Definition ttl_formula : bool :=
  assert_eq (ttl_seconds 50 (f 10)) 10%Z && assert_eq (ttl_seconds 100 (f 10)) 20%Z &&
  assert_eq (ttl_seconds 1 (f 1)) 2%Z.
Definition ttl_zero_refill_fallback : bool := assert_eq (ttl_seconds 50 (f 0)) 3600%Z.
Definition key_format : bool :=
  assert_eq (build_key "rl" "public-api" "ip" "192.168.1.20") "rl:public-api:ip:192.168.1.20".
Definition key_format_sub : bool :=
  assert_eq (build_key "rl" "private-api" "sub" "user-123") "rl:private-api:sub:user-123".
Definition capacity_one_single_token (now : Z) : bool :=
  let o := nth_outcome now (f 1) (f 0) in
  let '(allowed, remaining, _) := o 0 in
  let '(allowed', _, retry) := o 1 in
  allowed && assert_eq remaining 0%Z && negb allowed' && assert_eq retry u64_max.
Definition remaining_decrements_each_consume (now : Z) : bool :=
  let o := nth_outcome now (f 5) (f 0) in
  forallb (λ i, let '(allowed, remaining, _) := o i in
                allowed && assert_eq remaining (4 - Z.of_nat i)%Z) [0; 1; 2; 3; 4] &&
  negb (o 5).1.1.
Definition retry_after_formula_accuracy (now : Z) : bool :=
  let '(_, _, retry) := nth_outcome now (f 1) (f 2) 1 in assert_eq retry 500%Z.
Definition ttl_fractional_rounds_up : bool :=
  assert_eq (ttl_seconds 3 (f 2)) 3%Z && assert_eq (ttl_seconds 5 (f 3)) 4%Z.
Example bucket_tests_pass :
  all_pass [bucket_starts_full 0; bucket_exhausted_returns_denied 0; retry_after_ms_nonzero_when_denied 0;
            ttl_formula; ttl_zero_refill_fallback; key_format; key_format_sub; capacity_one_single_token 0;
            remaining_decrements_each_consume 0; retry_after_formula_accuracy 0; ttl_fractional_rounds_up] = true.
Proof. vm_compute. reflexivity. Qed.
End bucket_tests.

(** ** [controlplane/src/ratelimit/limiter.rs] and [error.rs] *)
Module limiter_tests.
Import LuaModel.
(** No connection, and none can be made. *)
Definition offline_for_test (config : RateLimitsConfig) : RateLimiter := RateLimiter.mk config None ∅.
Definition test_config (fail_open survivability_enabled : bool) : RateLimitsConfig :=
  RateLimitsConfig.mk "invalid:0" 0 "rl" 50 fail_open
    (SurvivabilityMode.mk survivability_enabled 5 (f64_of_int 1)).
(** [n] checks after one another and one more; the outcome of the last. *)
Fixpoint check_after (e : env) (n : nat) (l : RateLimiter) : result RateLimitError RateDecision :=
  let '(r, l', _) := check e "rl:test:ip:1.2.3.4" 10 (f64_of_int 1) l ∅ in
  match n with 0 => r | S n => check_after e n l' end.
Definition still : env := mk_env 0 0 (Lost false) 0 0.

Definition fail_open_allows_when_offline : bool :=
  match check_after still 0 (offline_for_test (test_config true false)) with
  | Ok d => RateDecision.allowed d && assert_eq (RateDecision.mode d) FailOpen
  | Err _ => false
  end.
Definition fail_closed_returns_unavailable : bool :=
  match check_after still 0 (offline_for_test (test_config false false)) with
  | Err Unavailable => true
  | _ => false
  end.
Definition survivability_mode_uses_local_bucket : bool :=
  let limiter := offline_for_test (test_config false true) in
  forallb (λ i, match check_after still i limiter with
                | Ok d => RateDecision.allowed d && assert_eq (RateDecision.mode d) DegradedLocal
                | Err _ => false
                end) [0; 1; 2; 3; 4] &&
  match check_after still 5 limiter with
  | Ok d => negb (RateDecision.allowed d) && assert_eq (RateDecision.mode d) DegradedLocal &&
            (0 <? RateDecision.retry_after_ms d)%Z
  | Err _ => false
  end.
Definition ping_offline_returns_false : bool :=
  negb (ping false (Refused "failed to lookup address") (offline_for_test (test_config true false))).1.
Definition rate_limit_mode_header_values : bool :=
  assert_eq (as_header_value Redis) "redis" && assert_eq (as_header_value DegradedLocal) "degraded-local" &&
  assert_eq (as_header_value FailOpen) "redis".
Definition error_display_messages : bool :=
  str_contains "refused" (RateLimitError_to_string (RedisConnect "refused")) &&
  str_contains "OOM" (RateLimitError_to_string (RedisCommand "OOM")) &&
  str_contains "timeout" (RateLimitError_to_string Timeout) &&
  str_contains "unavailable" (RateLimitError_to_string Unavailable) &&
  str_contains "bad json" (RateLimitError_to_string (LuaResponseParse "bad json")).
Example limiter_tests_pass :
  all_pass [fail_open_allows_when_offline; fail_closed_returns_unavailable; survivability_mode_uses_local_bucket;
            ping_offline_returns_false; rate_limit_mode_header_values; error_display_messages] = true.
Proof. vm_compute. reflexivity. Qed.
End limiter_tests.

(** ** [controlplane/src/auth/error.rs] and [types.rs] *)
Module auth_error_tests.
Definition all_variants_have_correct_status : bool :=
  forallb (λ c, assert_eq (http_status c.1) c.2)
    [(MissingToken, 401%Z); (InvalidTokenFormat, 401%Z); (InvalidToken, 401%Z); (UnsupportedAlgorithm, 401%Z);
     (UnknownKeyId, 401%Z); (InvalidSignature, 401%Z); (InvalidIssuer, 401%Z); (InvalidAudience, 401%Z);
     (TokenExpired, 401%Z); (TokenNotYetValid, 401%Z); (MissingSubject, 401%Z); (InsufficientScopes, 403%Z);
     (AuthProviderUnavailable, 503%Z); (JwksFetch "test", 503%Z)].
Definition lower_or_underscore (c : Ascii.ascii) : bool :=
  let n := Ascii.nat_of_ascii c in (97 <=? n)%nat && (n <=? 122)%nat || (n =? 95)%nat.
Definition error_codes_are_snake_case : bool :=
  forallb (λ v, forallb lower_or_underscore (String.list_ascii_of_string (error_code v)))
    [MissingToken; InvalidTokenFormat; InvalidToken; UnsupportedAlgorithm; UnknownKeyId; InvalidSignature;
     InvalidIssuer; InvalidAudience; TokenExpired; TokenNotYetValid; MissingSubject; InsufficientScopes;
     AuthProviderUnavailable].
Definition jwks_fetch_surfaces_as_unavailable : bool :=
  assert_eq (error_code (JwksFetch "connection refused")) "auth_provider_unavailable".
Definition audience_single_contains : bool :=
  let aud := Single "api-gateway" in Audience_contains aud "api-gateway" && negb (Audience_contains aud "other").
Definition audience_multiple_contains : bool :=
  let aud := Multiple ["api-gateway"; "admin"] in
  Audience_contains aud "api-gateway" && Audience_contains aud "admin" && negb (Audience_contains aud "other").
Definition audience_default_is_empty : bool := negb (Audience_contains Audience_default "anything").
Example auth_error_tests_pass :
  all_pass [all_variants_have_correct_status; error_codes_are_snake_case; jwks_fetch_surfaces_as_unavailable;
            audience_single_contains; audience_multiple_contains; audience_default_is_empty] = true.
Proof. vm_compute. reflexivity. Qed.
End auth_error_tests.

(** ** [controlplane/src/auth/jwks_cache.rs] and [registry.rs] *)
Module jwks_tests.
Import JwtModel.
Definition hour_nanos : Z := 3600 * 1000000000.
Definition rsa_modulus : string :=
  "0vx7agoebGcQSuuPiLJXZptN9nndrQmbXEps2aiAFbWhM78LhWx4cbbfAAtVT86zwu1RK7aPFFxuhDR1L6tSoc_BJECPebWKRXjBZCiFV4n3oknjhMstn64tZ_2W-5JsGY4Hc5n9yBXArwl93lqt7_RN5w6Cf0h4QyQ5v-65YGjQR0_FDW2QvzqY368QQMicAtaSqzs8KJZgnYb9c7d0zgdAZHzu6qMQvRL5hajrn1n91CbOpbISD08qNLyrdkt-bFTWhAI4vMQFh6WeZu0fM4lFd2NcRwr3XPksINHaQ-G_xBniIqbw0Ls1jF44-csFCur-kEgU8awapJzKnqDKgw".
Definition parse_valid_jwks_keys : bool :=
  match parse_jwks_keys [JwksRawKey.mk "key-1" "RSA" (Some "RS256") rsa_modulus "AQAB"] with
  | Ok keys => assert_eq (length keys) 1 && assert_eq (kid <$> head keys) (Some "key-1")
  | Err _ => false
  end.
Definition skip_non_rsa_keys : bool :=
  match parse_jwks_keys [JwksRawKey.mk "ec-key" "EC" (Some "ES256") EmptyString EmptyString] with
  | Ok keys => assert_eq (length keys) 0
  | Err _ => false
  end.
Definition for_test (provider : AuthProvider) (keys : list JwksKey) (fetched_at : Z)
    : JwksCache := mk_cache provider keys fetched_at.
Definition test_provider (name : string) (ttl : Z) : AuthProvider :=
  AuthProvider.mk name "https://auth.example.com/" "api-gateway" "http://localhost/.well-known/jwks.json" ttl 30.
Definition cache_provider : Z → AuthProvider := test_provider "test-provider".
Definition fresh_cache_is_not_stale (now : Z) : bool :=
  negb (is_stale now (for_test (cache_provider 300) [] now)).
Definition old_cache_is_stale (now : Z) : bool :=
  is_stale now (for_test (cache_provider 1) [] (now - hour_nanos)%Z).
Definition get_keys_returns_loaded_keys (now : Z) (test_decoding_key : string) : bool :=
  let keys := get_keys (for_test (cache_provider 300) [mk_key (J := jwt_model) "k1" test_decoding_key] now) in
  assert_eq (length keys) 1 && assert_eq (kid <$> head keys) (Some "k1").
Definition provider_name_returns_correct_name (now : Z) : bool :=
  assert_eq (AuthProvider.name (provider (for_test (cache_provider 300) [] now))) "test-provider".
(** The waiter is queued when the refresh is triggered, and is the one woken. *)
Definition trigger_and_wait_notify : bool :=
  let '(ready, n) := Notify.notified 1 Notify.new in
  negb ready && assert_eq (Notify.woken (Notify.notify_one n)) [1] &&
  assert_eq (is_some (Notify.polled 1 (Notify.notify_one n))) true.

Definition empty_for_test : gmap string JwksCache := ∅.
Definition from_caches_for_test (caches : list (string * JwksCache)) : gmap string JwksCache :=
  foldl (λ m e, <[e.1 := e.2]> m) ∅ caches.
Definition empty_registry_is_healthy (now : Z) : bool := all_healthy now empty_for_test.
Definition get_unknown_provider_returns_none : bool := negb (is_some (registry_get empty_for_test "nonexistent")).
Definition all_healthy_with_fresh_caches (now : Z) : bool :=
  all_healthy now (from_caches_for_test
    [("a", for_test (test_provider "a" 300) [] now); ("b", for_test (test_provider "b" 300) [] now)]).
Definition unhealthy_when_any_cache_stale (now : Z) : bool :=
  negb (all_healthy now (from_caches_for_test
    [("fresh", for_test (test_provider "fresh" 300) [] now);
     ("stale", for_test (test_provider "stale" 1) [] (now - hour_nanos)%Z)])).
Definition get_returns_existing_provider (now : Z) : bool :=
  let reg := from_caches_for_test [("my-provider", for_test (test_provider "my-provider" 300) [] now)] in
  assert_eq ((λ c, AuthProvider.name (provider c)) <$> registry_get reg "my-provider") (Some "my-provider").
Example jwks_tests_pass :
  all_pass [parse_valid_jwks_keys; skip_non_rsa_keys; fresh_cache_is_not_stale hour_nanos;
            old_cache_is_stale hour_nanos; get_keys_returns_loaded_keys 0 "key"; provider_name_returns_correct_name 0;
            trigger_and_wait_notify; empty_registry_is_healthy 0; get_unknown_provider_returns_none;
            all_healthy_with_fresh_caches 0; unhealthy_when_any_cache_stale hour_nanos;
            get_returns_existing_provider 0] = true.
Proof. vm_compute. reflexivity. Qed.
End jwks_tests.

(** ** [controlplane/src/observability/logs.rs] and [tracing_init.rs] *)
Module observability_tests.
Definition sample_entry : AccessLogEntry :=
  AccessLogEntry.mk "2026-03-29T23:59:59.000Z" "2c3c7b8f" "172.18.0.1" "localhost" "GET" "/private/data"
    "private-echo" 200 14 123 456 (Some "user-123") "redis" "echo-private" "echo-backend:8081".
(** [v["name"]] of the JSON value that the line is parsed back to. *)
Definition json_field (e : AccessLogEntry) (name : string) : option AccessLogEntry.field_value :=
  snd <$> iter_find (λ f, bool_decide (f.1 = name)) (AccessLogEntry.serialize e).
Definition is_str (e : AccessLogEntry) (name s : string) : bool :=
  match json_field e name with Some (AccessLogEntry.FStr s') => bool_decide (s' = s) | _ => false end.
Definition is_num (e : AccessLogEntry) (name : string) (n : Z) : bool :=
  match json_field e name with Some (AccessLogEntry.FNum n') => bool_decide (n' = n) | _ => false end.
Definition serializes_all_fields : bool :=
  let v := sample_entry in
  is_str v "ts" "2026-03-29T23:59:59.000Z" && is_str v "request_id" "2c3c7b8f" &&
  is_str v "remote_addr" "172.18.0.1" && is_str v "host" "localhost" && is_str v "method" "GET" &&
  is_str v "path" "/private/data" && is_str v "route" "private-echo" && is_num v "status" 200 &&
  is_num v "duration_ms" 14 && is_num v "bytes_in" 123 && is_num v "bytes_out" 456 &&
  is_str v "auth_subject" "user-123" && is_str v "rate_limit_mode" "redis" &&
  is_str v "upstream_service" "echo-private" && is_str v "upstream_addr" "echo-backend:8081".
Definition without_subject (e : AccessLogEntry) : AccessLogEntry :=
  AccessLogEntry.mk (AccessLogEntry.ts e) (AccessLogEntry.request_id e) (AccessLogEntry.remote_addr e)
    (AccessLogEntry.host e) (AccessLogEntry.method e) (AccessLogEntry.path e) (AccessLogEntry.route e)
    (AccessLogEntry.status e) (AccessLogEntry.duration_ms e) (AccessLogEntry.bytes_in e)
    (AccessLogEntry.bytes_out e) None (AccessLogEntry.rate_limit_mode e) (AccessLogEntry.upstream_service e)
    (AccessLogEntry.upstream_addr e).
Definition null_auth_subject : bool :=
  match json_field (without_subject sample_entry) "auth_subject" with Some AccessLogEntry.FNull => true | _ => false end.
Definition empty_route_on_404 : bool :=
  let e := sample_entry in
  let v := AccessLogEntry.mk (AccessLogEntry.ts e) (AccessLogEntry.request_id e) (AccessLogEntry.remote_addr e)
    (AccessLogEntry.host e) (AccessLogEntry.method e) (AccessLogEntry.path e) EmptyString 404
    (AccessLogEntry.duration_ms e) (AccessLogEntry.bytes_in e) (AccessLogEntry.bytes_out e) None "none"
    EmptyString EmptyString in
  is_str v "route" EmptyString && is_num v "status" 404 && is_str v "upstream_service" EmptyString.
Definition is_hexdigit (c : Ascii.ascii) : bool :=
  let n := Ascii.nat_of_ascii c in
  (48 <=? n)%nat && (n <=? 57)%nat || (97 <=? n)%nat && (n <=? 102)%nat || (65 <=? n)%nat && (n <=? 70)%nat.
Definition generate_request_id_length (nanos counter : Z) : bool :=
  let id := (generate_request_id nanos counter).1 in
  assert_eq (String.length id) 8 && forallb is_hexdigit (String.list_ascii_of_string id).
(** Identifiers of one run; the reading of the clock may change between them. *)
Fixpoint generate_ids (nanos : nat → Z) (n : nat) (counter : Z) : list string :=
  match n with
  | 0 => []
  | S n => let '(id, c) := generate_request_id (nanos n) counter in id :: generate_ids nanos n c
  end.
Definition generate_request_id_uniqueness (nanos : nat → Z) : bool :=
  (990 <=? length (remove_dups (generate_ids nanos 1000 0)))%nat.
Definition tracing_error_display_messages : bool :=
  str_contains "connection refused" (TracingInitError_to_string (OtlpInit "connection refused")) &&
  str_contains "already set" (TracingInitError_to_string (SetGlobal "already set")).
Example observability_tests_pass :
  all_pass [serializes_all_fields; null_auth_subject; empty_route_on_404; generate_request_id_length 123456789 0;
            generate_request_id_length 999999999 18446744073709551615;
            generate_request_id_uniqueness (λ n, (999000000 - 1000 * Z.of_nat n)%Z);
            tracing_error_display_messages] = true.
Proof. vm_compute. reflexivity. Qed.
End observability_tests.

(** ** [controlplane/src/extproc/processor.rs] *)
Module processor_tests.
Definition request_headers_can_trigger_immediate_response : bool :=
  match process (Some (ReqRequestHeaders [HeaderValue.mk "x-ext-proc-immediate-status" "401"] "GET" "/private")) with
  | Some (RespImmediate reply) => assert_eq (imm_status reply) 401%Z
  | _ => false
  end.
Example processor_tests_pass : request_headers_can_trigger_immediate_response = true.
Proof. vm_compute. reflexivity. Qed.
End processor_tests.

(** ** [controlplane/src/plugins/sandbox.rs] *)
Module sandbox_tests.
Import LuaStateModel.
Definition test_limits : PluginLimits := PluginLimits.mk (8 * 1024 * 1024) 1000000 50.
Definition dangerous_globals_are_removed : bool :=
  match create_sandboxed_vm fresh_lua test_limits with
  | Ok lua => forallb (λ name, match global lua [name] with LNil => true | _ => false end)
                ["io"; "debug"; "package"; "ffi"; "jit"; "_G"; "loadstring"]
  | Err _ => false
  end.
Example sandbox_tests_pass : dangerous_globals_are_removed = true.
Proof. vm_compute. reflexivity. Qed.
End sandbox_tests.
