(* ===== verification/Admin.v ===== *)
(** * Startup and the admin API

    [controlplane/src/admin] ([state.rs], [handlers.rs], [responses.rs]) and
    [controlplane/src/startup.rs]: the application state, how it is assembled
    from a configuration file, the probes, and the reload of the
    configuration.

    The metrics registry is one object shared with the xDS control plane; the
    state keeps it once and [with_xds] lends it to xDS operations.  What the
    outside answers during one call (files, plugin directory, clocks, network)
    is a record of arguments. *)
From S2P Require Import Prelude RustStr F64 Yaml ConfigTypes Validation EnvoyGen RateLimit Auth.
From S2P Require Import Observability Tracing Plugins XdsResources Xds.

(** ** Responses ([responses.rs]) *)
Module ReadyResponse.
Record ReadyResponse := mk {
  ok : bool;
  config_loaded : bool;
  redis_ok : bool;
  jwks_ok : bool;
  last_config_reload_unix : Z
}.
End ReadyResponse.

Module ConfigStatusResponse.
Record ConfigStatusResponse := mk {
  active_config_version : Z;
  active_config_sha256 : string;
  last_reload_result : string;
  last_reload_error : option string;
  last_reload_unix : Z
}.
End ConfigStatusResponse.

Module XdsStatusResponse.
Record XdsStatusResponse := mk {
  enabled : bool;
  connected_envoys : Z;
  peers : list EnvoyConnectionStatus
}.
End XdsStatusResponse.

(** The two answers of a reload, with their status codes. *)
Inductive ReloadResponse :=
  | ReloadSuccess (previous_sha256 new_sha256 : string) (reload_timestamp : Z)
  | ReloadError (error : string) (reload_timestamp : Z).
Definition reload_status (r : ReloadResponse) : Z :=
  match r with ReloadSuccess _ _ _ => 200 | ReloadError _ _ => 400 end.

(** ** State ([state.rs]) *)
Inductive ReloadResult := ReloadedOk | ValidationError.
Definition ReloadResult_as_str (r : ReloadResult) : string :=
  match r with ReloadedOk => "success" | ValidationError => "validation_error" end.

Module ConfigState.
Record ConfigState `{YamlLib} := mk {
  config : GatewayConfig;
  sha256 : string;
  last_reload_unix : Z;
  last_reload_result : ReloadResult;
  last_reload_error : option string
}.
Arguments mk {_}.
End ConfigState.
Export ConfigState(ConfigState).

(** [Semaphore::MAX_PERMITS]: [usize::MAX >> 3] *)
Definition MAX_PERMITS : Z := 2305843009213693951.

(** [Semaphore::new] panics above its maximum. *)
Definition Semaphore_new (permits : Z) : option Z :=
  if (permits <=? MAX_PERMITS)%Z then Some permits else None.

Section admin.
Context `{Y : YamlLib} `{P : ProstLib} `{V : LuaVm} `{J : JwtLib}.

Record AppState := mk_app_state {
  config_state : ConfigState;
  config_path : string;
  envoy_config_path : option string;
  jwks_registry : gmap string JwksCache;
  rate_limiter : RateLimiter;
  app_metrics : Metrics;
  concurrency_limit : Z;
  tracing_enabled : bool;
  plugin_engine : option PluginEngine;
  xds : option XdsControlPlane;
  (** the bootstrap file as last written, when its path is set *)
  envoy_file : option string
}.

Definition set_config_state (cs : ConfigState) (st : AppState) : AppState :=
  mk_app_state cs (config_path st) (envoy_config_path st) (jwks_registry st) (rate_limiter st)
    (app_metrics st) (concurrency_limit st) (tracing_enabled st) (plugin_engine st) (xds st)
    (envoy_file st).
Definition set_rate_limiter (l : RateLimiter) (st : AppState) : AppState :=
  mk_app_state (config_state st) (config_path st) (envoy_config_path st) (jwks_registry st) l
    (app_metrics st) (concurrency_limit st) (tracing_enabled st) (plugin_engine st) (xds st)
    (envoy_file st).
Definition set_app_metrics (m : Metrics) (st : AppState) : AppState :=
  mk_app_state (config_state st) (config_path st) (envoy_config_path st) (jwks_registry st)
    (rate_limiter st) m (concurrency_limit st) (tracing_enabled st) (plugin_engine st) (xds st)
    (envoy_file st).
Definition set_plugin_engine (e : option PluginEngine) (st : AppState) : AppState :=
  mk_app_state (config_state st) (config_path st) (envoy_config_path st) (jwks_registry st)
    (rate_limiter st) (app_metrics st) (concurrency_limit st) (tracing_enabled st) e (xds st)
    (envoy_file st).
Definition set_xds (x : option XdsControlPlane) (st : AppState) : AppState :=
  mk_app_state (config_state st) (config_path st) (envoy_config_path st) (jwks_registry st)
    (rate_limiter st) (app_metrics st) (concurrency_limit st) (tracing_enabled st)
    (plugin_engine st) x (envoy_file st).
Definition set_envoy_file (f : option string) (st : AppState) : AppState :=
  mk_app_state (config_state st) (config_path st) (envoy_config_path st) (jwks_registry st)
    (rate_limiter st) (app_metrics st) (concurrency_limit st) (tracing_enabled st)
    (plugin_engine st) (xds st) f.

(** The control plane with the registry of the application. *)
Definition lend_metrics (m : Metrics) (cp : XdsControlPlane) : XdsControlPlane :=
  set_metrics (λ _, m) cp.

(** ** Libraries the module calls *)
Context (sha256_hex : string → string).
Context (url_parse_ok : string → bool) (yaml_from_str : string → result YamlError GatewayConfig).
Context (to_json : Value → JsonValue) (schema_check : JsonValue → JsonValue → result string unit).

(** [None] is the panic of [Semaphore::new]. *)
Definition build_state (config : GatewayConfig) (raw_yaml : string) (path : string)
    (envoy_path : option string) (jwks : gmap string JwksCache) (limiter : RateLimiter)
    (m : Metrics) (engine : option PluginEngine) (x : option XdsControlPlane)
    (envoy_written : option string) (now : Z) : option AppState :=
  let max_conc := default MAX_PERMITS
    (GatewayServer.max_concurrent_requests (GatewayConfig.gateway config)) in
  permits ← Semaphore_new max_conc;
  Some (mk_app_state
    (ConfigState.mk config (sha256_hex raw_yaml) now ReloadedOk None)
    path envoy_path jwks limiter m permits
    (TracingConfig.enabled (ObservabilityConfig.tracing (GatewayConfig.observability config)))
    engine x envoy_written).

(** ** Probes *)
Definition readyz (alive : bool) (c : connect) (instant : Z) (st : AppState)
    : Z * ReadyResponse.ReadyResponse * AppState :=
  let '(redis_ok, limiter) := ping alive c (rate_limiter st) in
  let st := set_rate_limiter limiter st in
  let jwks_ok := all_healthy instant (jwks_registry st) in
  let ok := redis_ok && jwks_ok in
  (if ok then 200 else 503,
   ReadyResponse.mk ok true redis_ok jwks_ok (ConfigState.last_reload_unix (config_state st)),
   st)%Z.

Definition config_status (st : AppState) : ConfigStatusResponse.ConfigStatusResponse :=
  let cs := config_state st in
  ConfigStatusResponse.mk (GatewayConfig.version (ConfigState.config cs)) (ConfigState.sha256 cs)
    (ReloadResult_as_str (ConfigState.last_reload_result cs)) (ConfigState.last_reload_error cs)
    (ConfigState.last_reload_unix cs).

Definition xds_status (st : AppState) : XdsStatusResponse.XdsStatusResponse :=
  match xds st with
  | Some x => XdsStatusResponse.mk true (as_u64 (connected_envoys x)) (statuses x)
  | None => XdsStatusResponse.mk false 0 []
  end.

(** ** Reload *)

(** What the outside answers during one reload. *)
Record reload_env := mk_reload_env {
  re_now : Z;
  (** [std::fs::read] of the configuration file *)
  re_read : result string string;
  (** the plugin directory *)
  re_dir_exists : bool;
  re_load : string → string → result string LoadedPlugin;
  re_read_dir : result string (list (result string DirEntry));
  (** the duration of the xDS push, which Envoys receive when a send has to wait
      for them, and whether the bootstrap can be written *)
  re_elapsed : f64;
  re_reads : nat → bool;
  re_write : result string unit
}.

Definition reload_validation_error (now : Z) (error_msg : string) (st : AppState)
    : ReloadResponse * AppState :=
  let cs := config_state st in
  let cs := ConfigState.mk (ConfigState.config cs) (ConfigState.sha256 cs) now ValidationError
              (Some error_msg) in
  let st := set_config_state cs st in
  let st := set_app_metrics (record_config_reload "validation_error" (app_metrics st)) st in
  (ReloadError error_msg now, st).

(** Reload of the plugins, when there is an engine. *)
Definition reload_plugins (env : reload_env) (new_config : GatewayConfig) (st : AppState)
    : result PluginError unit * AppState :=
  match plugin_engine st with
  | None => (Ok tt, st)
  | Some engine =>
      let '(r, engine) := reload_from_config to_json schema_check (re_dir_exists env)
                            (re_load env) (re_read_dir env) new_config engine in
      (r, set_plugin_engine (Some engine) st)
  end.

(** Rebuild of the xDS snapshot, when there is a control plane; [None] when it
    waits for an Envoy that does not receive. *)
Definition rebuild_xds (env : reload_env) (new_config : GatewayConfig) (st : AppState)
    : option (result Resources.ResourceError unit * AppState) :=
  match xds st with
  | None => Some (Ok tt, st)
  | Some x =>
      rx ← rebuild_from_config new_config (re_elapsed env) (re_reads env)
             (lend_metrics (app_metrics st) x);
      Some (rx.1, set_app_metrics (metrics rx.2) (set_xds (Some rx.2) st))
  end.

(** The bootstrap file; failures are only logged, [None] is a panic. *)
Definition regenerate_envoy (env : reload_env) (st : AppState) : option AppState :=
  match envoy_config_path st with
  | None => Some st
  | Some _ =>
      match generate_envoy_config (ConfigState.config (config_state st)) with
      | None => None
      | Some (Ok envoy_yaml) =>
          match re_write env with
          | Ok _ => Some (set_envoy_file (Some envoy_yaml) st)
          | Err _ => Some st
          end
      | Some (Err _) => Some st
      end
  end.

(** There is no result when the rebuild waits for ever; the response is [None]
    when the handler panics. *)
Definition apply_config_reload (env : reload_env) (raw : string) (new_config : GatewayConfig)
    (st : AppState) : option (option ReloadResponse * AppState) :=
  let now := re_now env in
  let '(plugins_r, st) := reload_plugins env new_config st in
  match plugins_r with
  | Err error =>
      let '(r, st) := reload_validation_error now (PluginError_to_string error) st in
      Some (Some r, st)
  | Ok _ =>
      xs ← rebuild_xds env new_config st;
      let '(xds_r, st) := xs in
      match xds_r with
      | Err error =>
          let '(r, st) := reload_validation_error now (Resources.ResourceError_to_string error) st in
          Some (Some r, st)
      | Ok _ =>
          let new_sha := sha256_hex raw in
          let previous_sha := ConfigState.sha256 (config_state st) in
          let st := set_config_state (ConfigState.mk new_config new_sha now ReloadedOk None) st in
          let st := set_app_metrics (record_config_reload "success" (app_metrics st)) st in
          match regenerate_envoy env st with
          | None => Some (None, st)
          | Some st => Some (Some (ReloadSuccess previous_sha new_sha now), st)
          end
      end
  end.

Definition config_reload (env : reload_env) (st : AppState)
    : option (option ReloadResponse * AppState) :=
  let now := re_now env in
  match re_read env with
  | Err error =>
      let '(r, st) := reload_validation_error now
        ("failed to read " +:+ config_path st +:+ ": " +:+ error) st in
      Some (Some r, st)
  | Ok raw =>
      match load_config_from_str url_parse_ok yaml_from_str (from_utf8_lossy raw) with
      | Ok new_config => apply_config_reload env raw new_config st
      | Err errors =>
          let '(r, st) := reload_validation_error now (ConfigErrors_to_string errors) st in
          Some (Some r, st)
      end
  end.

(** ** Startup ([startup.rs])

    The part of [run] before the servers are started.  A fatal error is the
    message the process exits with. *)
Record start_env := mk_start_env {
  se_config_var : option string;         (* GATEWAY_CONFIG *)
  se_envoy_var : option string;          (* ENVOY_CONFIG_PATH *)
  se_read : string → result string string;
  se_tracing : tracing_env;
  se_write : result string unit;
  se_fetch : AuthProvider → result string JwksDocument;
  se_instant : Z;
  se_connect : connect;                  (* the first connection to Redis *)
  se_alive : bool;                       (* the ping that follows, and its reconnection *)
  se_reconnect : connect;
  se_construct : string * list string → result string unit;
  se_register : list string → string * list string → result string (list string);
  se_dir_exists : bool;
  se_load : string → string → result string LoadedPlugin;
  se_read_dir : result string (list (result string DirEntry));
  se_now : Z
}.

Inductive start_error :=
  | Fatal (message error : string)
  | Panicked.

Definition AuthError_to_string (e : AuthError) : string :=
  match e with
  | JwksFetch m => "jwks fetch error: " +:+ m
  | _ => error_code e
  end.

Definition write_envoy_config (env : start_env) (config : GatewayConfig) (envoy_path : string)
    : result start_error string :=
  match generate_envoy_config config with
  | None => Err Panicked
  | Some (Err e) => Err (Fatal "failed to generate envoy config" (EnvoyGenError_to_string e))
  | Some (Ok envoy_yaml) =>
      _ ← map_err (Fatal ("failed to write envoy config to " +:+ envoy_path)) (se_write env);
      Ok envoy_yaml
  end.

Definition init_jwks (env : start_env) (config : GatewayConfig)
    : result start_error (gmap string JwksCache) :=
  map_err (λ e, Fatal "JWKS initial fetch failed" (AuthError_to_string e))
    (registry_from_config (se_fetch env) (se_instant env)
       (AuthConfig.providers (GatewayConfig.auth config))).

Definition init_metrics (env : start_env) : result start_error Metrics :=
  map_err (Fatal "failed to create metrics registry")
    (MetricsRegistry_new (se_construct env) (se_register env)).

Definition init_plugins (env : start_env) (config : GatewayConfig)
    : result start_error (option PluginEngine) :=
  map_err (λ e, Fatal "failed to initialize plugin engine" (PluginError_to_string e))
    (Some <$> engine_from_config to_json schema_check (se_dir_exists env) (se_load env)
                (se_read_dir env) config).

(** The limiter, after the [ping] whose result is logged. *)
Definition init_rate_limiter (env : start_env) (config : GatewayConfig) : RateLimiter :=
  let limiter := RateLimit.from_config (GatewayConfig.rate_limits config) (se_connect env) in
  (ping (se_alive env) (se_reconnect env) limiter).2.

Definition init_xds (config : GatewayConfig) (m : Metrics)
    : result start_error (option XdsControlPlane) :=
  if XdsConfig.enabled (GatewayConfig.xds config) then
    x ← map_err (λ e, Fatal "failed to initialize xDS control plane"
                        (Resources.ResourceError_to_string e)) (XdsControlPlane_new config m);
    Ok (Some x)
  else Ok None.

Definition start (env : start_env) : result start_error AppState :=
  let path := default "configs/gateway.yaml" (se_config_var env) in
  raw_yaml ← map_err (Fatal ("failed to read " +:+ path)) (se_read env path);
  cfg ← map_err (λ e, Fatal "config validation failed" (ConfigErrors_to_string e))
          (load_config_from_str url_parse_ok yaml_from_str (from_utf8_lossy raw_yaml));
  _ ← map_err (λ e, Fatal "failed to initialize tracing" (TracingInitError_to_string e))
        (init_tracing (se_tracing env) (ObservabilityConfig.tracing (GatewayConfig.observability cfg))
           no_telemetry).1;
  envoy_written ←
    match se_envoy_var env with
    | Some envoy_path => y ← write_envoy_config env cfg envoy_path; Ok (Some y)
    | None => Ok None
    end;
  jwks ← init_jwks env cfg;
  let limiter := init_rate_limiter env cfg in
  m ← init_metrics env;
  engine ← init_plugins env cfg;
  x ← init_xds cfg m;
  let m := match x with Some x => metrics x | None => m end in
  ok_or Panicked
    (build_state cfg raw_yaml path (se_envoy_var env) jwks limiter m engine x
       envoy_written (se_now env)).
End admin.
