(* ===== verification/AdminSpec.v ===== *)
(** * Theorems on startup and the admin API

    A reload replaces the configuration, the xDS snapshot and the plugin
    chains together or not at all, and the three stay built from one validated
    configuration for the life of the process. *)
From S2P Require Import Prelude RustStr F64 Yaml ConfigTypes Validation Samples ValidationSpec.
From S2P Require Import EnvoyGen EnvoyGenSpec RateLimit Auth AuthSpec Observability.
From S2P Require Import Plugins PluginsSpec.
From S2P Require Import XdsResources XdsResourcesSpec Xds XdsSpec Tracing Admin.

Section admin_theorems.
Context `{Y : YamlLib} `{P : ProstLib} `{V : LuaVm} `{J : JwtLib}.
Context (sha256_hex : string → string).
Context (url_parse_ok : string → bool) (yaml_from_str : string → result YamlError GatewayConfig).
Context (to_json : Value → JsonValue) (schema_check : JsonValue → JsonValue → result string unit).

Implicit Types st : AppState.
Implicit Types env : reload_env.
Notation load := (load_config_from_str url_parse_ok yaml_from_str).
Notation reload := (config_reload sha256_hex url_parse_ok yaml_from_str to_json schema_check).
Notation active st := (ConfigState.config (config_state st)).

(** ** What a reload can touch *)

(** Everything a reload never changes. *)
Definition same_rest st st' : Prop :=
  config_path st' = config_path st ∧ envoy_config_path st' = envoy_config_path st ∧
  jwks_registry st' = jwks_registry st ∧ rate_limiter st' = rate_limiter st ∧
  concurrency_limit st' = concurrency_limit st ∧ tracing_enabled st' = tracing_enabled st.

(** What the two publishing components serve. *)
Definition served_snapshot st : option XdsSnapshot := snapshot <$> xds st.
Definition served_runtime st : option PluginRuntime := runtime <$> plugin_engine st.

(** The components are built from [cfg]. *)
Definition serves (cfg : GatewayConfig) st : Prop :=
  (∀ s, served_snapshot st = Some s → ∃ v, XdsSnapshot.build cfg v = Ok s) ∧
  (∀ rt, served_runtime st = Some rt → ∃ dir_exists loader read_dir gen,
     build_runtime to_json schema_check dir_exists loader read_dir cfg gen = Ok rt).

(** A reload that failed: everything that is served is as before; the attempt
    is recorded. *)
Definition reload_refused env st (msg : string) st' : Prop :=
  active st' = active st ∧ ConfigState.sha256 (config_state st') = ConfigState.sha256 (config_state st) ∧
  served_snapshot st' = served_snapshot st ∧ served_runtime st' = served_runtime st ∧
  envoy_file st' = envoy_file st ∧
  ConfigState.last_reload_error (config_state st') = Some msg ∧
  ConfigState.last_reload_result (config_state st') = ValidationError ∧
  ConfigState.last_reload_unix (config_state st') = re_now env ∧
  same_rest st st'.

(** A reload that succeeded. *)
Definition reload_applied env st (raw : string) (cfg : GatewayConfig) st' : Prop :=
  config_state st' = ConfigState.mk cfg (sha256_hex raw) (re_now env) ReloadedOk None ∧
  serves cfg st' ∧
  (is_Some (xds st') ↔ is_Some (xds st)) ∧
  (is_Some (plugin_engine st') ↔ is_Some (plugin_engine st)) ∧
  (is_Some (envoy_config_path st) → re_write env = Ok tt →
   ∀ yaml, generate_envoy_config cfg = Some (Ok yaml) → envoy_file st' = Some yaml) ∧
  same_rest st st'.

Lemma generate_no_panic cfg : generate_envoy_config cfg ≠ None.
Proof.
  unfold generate_envoy_config, generate_envoy_value, build_listener.
  destruct (parse_endpoint _); simpl; [|done].
  by destruct (build_virtual_hosts_total (GatewayConfig.routes cfg)) as [vs ->].
Qed.

Lemma validation_error_refused env now msg st st1 r st' :
  reload_validation_error now msg st1 = (r, st') → now = re_now env →
  active st1 = active st → ConfigState.sha256 (config_state st1) = ConfigState.sha256 (config_state st) →
  served_snapshot st1 = served_snapshot st → served_runtime st1 = served_runtime st →
  envoy_file st1 = envoy_file st → same_rest st st1 →
  r = ReloadError msg (re_now env) ∧ reload_refused env st msg st'.
Proof. intros [= <- <-] -> ? ? ? ? ? ?. by split. Qed.

Lemma reload_plugins_cases env cfg st :
  ∃ r engine, reload_plugins to_json schema_check env cfg st = (r, set_plugin_engine engine st) ∧
    (is_Some engine ↔ is_Some (plugin_engine st)) ∧
    match r with
    | Ok _ => ∀ rt, runtime <$> engine = Some rt → ∃ gen,
        build_runtime to_json schema_check (re_dir_exists env) (re_load env) (re_read_dir env)
          cfg gen = Ok rt
    | Err _ => runtime <$> engine = served_runtime st
    end.
Proof.
  unfold reload_plugins, served_runtime. destruct (plugin_engine st) as [e|] eqn:E.
  - unfold reload_from_config. cbn [next_generation].
    destruct (build_runtime _ _ _ _ _ cfg (next_generation e)) as [rt|err] eqn:Eb.
    + eexists _, _. split; [done|]. split; [done|]. intros ? [= <-]. eauto.
    + eexists _, _. split; [done|]. by split.
  - exists (Ok tt), None. split; [|done]. by destruct st; simpl in *; subst.
Qed.

Context `{!ProstLaws P}.

(** The control plane waits for an Envoy that is registered, listens, and does
    not receive. *)
Definition xds_stalled env st : Prop := ∃ x, xds st = Some x ∧ stalled (re_reads env) x.

(** A validated configuration always builds: the rebuild cannot fail, but it can
    wait. *)
Lemma rebuild_xds_ok env cfg st :
  valid_config url_parse_ok cfg →
  (rebuild_xds env cfg st = None ∧ xds_stalled env st) ∨
  ∃ st', rebuild_xds env cfg st = Some (Ok tt, st') ∧
    config_state st' = config_state st ∧ plugin_engine st' = plugin_engine st ∧
    envoy_file st' = envoy_file st ∧ same_rest st st' ∧
    (is_Some (xds st') ↔ is_Some (xds st)) ∧
    ∀ s, served_snapshot st' = Some s → ∃ v, XdsSnapshot.build cfg v = Ok s.
Proof.
  intros Hv. unfold rebuild_xds, served_snapshot. destruct (xds st) as [x|] eqn:E.
  - destruct (rebuild_cases cfg (re_elapsed env) (re_reads env) (lend_metrics (app_metrics st) x))
      as [(s & Hb & ->)|(e & Hb & _)].
    + destruct (broadcast _ _ _) as [cp'|] eqn:Ebc; simpl.
      * right. eexists. split; [reflexivity|]. repeat (split; [done|]). simpl. intros s' [= <-].
        apply broadcast_proj in Ebc as (_ & _ & _ & _ & -> & _). eauto.
      * left. split; [done|]. exists x. split; [done|]. by apply broadcast_stalled in Ebc.
    + match type of Hb with XdsSnapshot.build _ ?v = _ =>
        destruct (snapshot_built url_parse_ok cfg v Hv) as (s & cs & es & l & r & Hb' & _) end.
      rewrite Hb' in Hb. done.
  - right. exists st. rewrite E. repeat (split; [done|]). done.
Qed.

Lemma regenerate_cases env st :
  ∃ f, regenerate_envoy env st = Some (set_envoy_file f st) ∧
    (is_Some (envoy_config_path st) → re_write env = Ok tt →
     ∀ yaml, generate_envoy_config (active st) = Some (Ok yaml) → f = Some yaml).
Proof.
  unfold regenerate_envoy. pose proof (generate_no_panic (active st)) as Hn.
  assert (Hid : set_envoy_file (envoy_file st) st = st) by (by destruct st).
  destruct (envoy_config_path st); [|exists (envoy_file st); rewrite Hid; split; [done|by intros [? [=]]]].
  destruct (generate_envoy_config (active st)) as [[y|e]|];
    [|exists (envoy_file st); by rewrite Hid|done].
  destruct (re_write env) as [[]|]; [|exists (envoy_file st); by rewrite Hid].
  eexists. split; [done|]. by intros _ _ yaml [= <-].
Qed.

(** The answers of a reload: the file was applied or refused, or there is none
    yet because the broadcast waits. *)
Definition reload_outcome env st (applied : option ReloadResponse → AppState → Prop)
    (o : option (option ReloadResponse * AppState)) : Prop :=
  match o with
  | Some (r, st') =>
      applied r st' ∨ ∃ msg, r = Some (ReloadError msg (re_now env)) ∧ reload_refused env st msg st'
  | None => xds_stalled env st
  end.
Lemma outcome_refused env st st1 applied now msg :
  now = re_now env → active st1 = active st →
  ConfigState.sha256 (config_state st1) = ConfigState.sha256 (config_state st) →
  served_snapshot st1 = served_snapshot st → served_runtime st1 = served_runtime st →
  envoy_file st1 = envoy_file st → same_rest st st1 →
  reload_outcome env st applied
    (let '(r, st') := reload_validation_error now msg st1 in Some (Some r, st')).
Proof.
  intros. destruct (reload_validation_error now msg st1) as [r st'] eqn:Ev. right. exists msg.
  eapply (validation_error_refused env) in Ev as [-> ?]; eauto.
Qed.

Definition applied_as env st raw cfg (r : option ReloadResponse) st' : Prop :=
  r = Some (ReloadSuccess (ConfigState.sha256 (config_state st)) (sha256_hex raw) (re_now env)) ∧
  reload_applied env st raw cfg st'.

Lemma apply_cases env raw cfg st :
  valid_config url_parse_ok cfg →
  reload_outcome env st (applied_as env st raw cfg)
    (apply_config_reload sha256_hex to_json schema_check env raw cfg st).
Proof.
  intros Hv. unfold apply_config_reload.
  destruct (reload_plugins_cases env cfg st) as (pr & engine & -> & Hsome & Hr).
  destruct pr as [[]|err]; [|by apply outcome_refused].
  destruct (rebuild_xds_ok env cfg (set_plugin_engine engine st) Hv)
    as [[-> Hst]|(st2 & -> & Hcs & Hpe & Hef & Hsr & Hxs & Hsnap)]; [exact Hst|]. simpl.
  match goal with |- context [regenerate_envoy env ?s] =>
    destruct (regenerate_cases env s) as (f & -> & Hf) end.
  left. split; [by rewrite Hcs|]. split; [done|]. split; [split|].
  - exact Hsnap.
  - unfold served_runtime. simpl. rewrite Hpe. intros rt Hrt.
    destruct (Hr rt Hrt) as [gen Hg]. eauto 10.
  - split; [exact Hxs|]. split; [simpl; by rewrite Hpe|]. split; [|exact Hsr].
    destruct Hsr as (_ & Hep & _). simpl in Hf, Hep. by rewrite Hep in Hf.
Qed.

Lemma reload_cases env st :
  reload_outcome env st
    (λ r st', ∃ raw cfg, re_read env = Ok raw ∧ load (from_utf8_lossy raw) = Ok cfg ∧
       applied_as env st raw cfg r st')
    (reload env st).
Proof.
  unfold config_reload. destruct (re_read env) as [raw|e]; [|by apply outcome_refused].
  destruct (load (from_utf8_lossy raw)) as [cfg|errs] eqn:El; [|by apply outcome_refused].
  assert (Hv : valid_config url_parse_ok cfg).
  { unfold load_config_from_str in El. apply result_bind_Ok in El as (c & _ & El).
    apply result_bind_Ok in El as ([] & Hval & [= <-]). by apply validate_valid. }
  pose proof (apply_cases env raw cfg st Hv) as H.
  destruct (apply_config_reload _ _ _ env raw cfg st) as [[r st']|]; [|done].
  destruct H as [?|?]; [left; eauto 10|by right].
Qed.

(** [C9] [POST /config/reload] is all or nothing, and answers unless it waits
    for a registered Envoy that is connected and does not receive.  Either the
    file was read and passed validation, the answer is 200, and the active
    configuration with its digest, the xDS snapshot and the plugin chains are all
    those of the new file; or the answer is 400 with the error (also when the file
    cannot be read, where the API document says 500), the error is recorded, and
    the active configuration, its digest, the xDS snapshot, the plugin chains and
    the bootstrap file are all as before. *)
Theorem reload_all_or_nothing env st :
  match reload env st with
  | Some (r, st') =>
      (∃ raw cfg, re_read env = Ok raw ∧ load (from_utf8_lossy raw) = Ok cfg ∧
         reload_status <$> r = Some 200%Z ∧
         r = Some (ReloadSuccess (ConfigState.sha256 (config_state st)) (sha256_hex raw) (re_now env)) ∧
         reload_applied env st raw cfg st') ∨
      (∃ msg, reload_status <$> r = Some 400%Z ∧
         r = Some (ReloadError msg (re_now env)) ∧ reload_refused env st msg st')
  | None =>
      ∃ x key h c, xds st = Some x ∧ connections x !! key = Some h ∧
        channels x !! sender h = Some c ∧ listening c = true ∧ re_reads env (sender h) = false
  end.
Proof.
  pose proof (reload_cases env st) as H. destruct (reload env st) as [[r st']|]; simpl in H.
  - destruct H as [(raw & cfg & Hread & Hl & -> & Ha)|(msg & -> & Hr)]; [left|right]; eauto 10.
  - destruct H as (x & Hx & key & h & Hk & (c & Hc & Ho) & Hrd). by exists x, key, h, c.
Qed.

(** ** The life of the process *)

(** The active configuration is the one of the file the digest names, and
    everything that is served is built from it. *)
Definition consistent st : Prop :=
  (∃ raw, ConfigState.sha256 (config_state st) = sha256_hex raw ∧
          load (from_utf8_lossy raw) = Ok (active st)) ∧
  serves (active st) st.

Lemma start_consistent senv st :
  start sha256_hex url_parse_ok yaml_from_str to_json schema_check senv = Ok st → consistent st.
Proof.
  unfold start. intros H.
  apply result_bind_Ok in H as (raw & _ & H). apply result_bind_Ok in H as (cfg & Hcfg & H).
  apply result_bind_Ok in H as (_ & _ & H). apply result_bind_Ok in H as (written & _ & H).
  apply result_bind_Ok in H as (jwks & _ & H). apply result_bind_Ok in H as (m & _ & H).
  apply result_bind_Ok in H as (engine & Hen & H). apply result_bind_Ok in H as (x & Hx & H).
  unfold build_state in H. destruct (Semaphore_new _); simplify_eq/=.
  split; simpl.
  - exists raw. split; [done|]. by destruct (load (from_utf8_lossy raw)); simplify_eq/=.
  - split; unfold served_snapshot, served_runtime; simpl.
    + intros s Hs. unfold init_xds in Hx. destruct (XdsConfig.enabled _); simplify_eq/=.
      apply result_bind_Ok in Hx as (x' & Hx & [= <-]). simplify_eq/=.
      unfold XdsControlPlane_new in Hx.
      destruct (XdsSnapshot.build cfg 1) as [s|] eqn:Hb; simplify_eq/=. eauto.
    + unfold init_plugins, engine_from_config in Hen.
      destruct (build_runtime _ _ _ _ _ cfg 1) as [rt'|] eqn:Hb; simplify_eq/=.
      intros rt [= <-]. eauto 10.
Qed.

Lemma start_xds_new senv st x :
  start sha256_hex url_parse_ok yaml_from_str to_json schema_check senv = Ok st → xds st = Some x →
  ∃ m, XdsControlPlane_new (ConfigState.config (config_state st)) m = Ok x.
Proof.
  unfold start. intros H.
  apply result_bind_Ok in H as (raw & _ & H). apply result_bind_Ok in H as (cfg & _ & H).
  apply result_bind_Ok in H as (_ & _ & H). apply result_bind_Ok in H as (written & _ & H).
  apply result_bind_Ok in H as (jwks & _ & H). apply result_bind_Ok in H as (m & _ & H).
  apply result_bind_Ok in H as (engine & _ & H). apply result_bind_Ok in H as (x' & Hx' & H).
  unfold build_state in H. destruct (Semaphore_new _); simplify_eq/=. intros ->.
  unfold init_xds in Hx'. destruct (XdsConfig.enabled _); simplify_eq/=.
  apply result_bind_Ok in Hx' as (x1 & Hx & [= <-]). exists m. by destruct (XdsControlPlane_new cfg m); simplify_eq/=.
Qed.

Lemma reload_consistent env st r st' :
  reload env st = Some (r, st') → consistent st → consistent st'.
Proof.
  intros Hrel [(raw & Hsha & Hraw) [Hs Hr]]. pose proof (reload_cases env st) as H. rewrite Hrel in H.
  destruct H as [(raw' & cfg & _ & Hl & _ & Hcs & Hserves & _)|(msg & _ & Ha & Hsh & Hss & Hrt & _)].
  - split; rewrite Hcs; simpl; [by exists raw'|done].
  - split; [exists raw; by rewrite Hsh, Ha|]. unfold serves. by rewrite Ha, Hss, Hrt.
Qed.

(** One reload after the other. *)
Fixpoint reloads (envs : list reload_env) st : option AppState :=
  match envs with
  | [] => Some st
  | env :: envs => r ← reload env st; reloads envs r.2
  end.

Definition no_envoy st : Prop := ∀ x, xds st = Some x → connections x = ∅.
Lemma rebuild_no_envoy env cfg st r st' :
  rebuild_xds env cfg st = Some (r, st') → no_envoy st → no_envoy st'.
Proof.
  unfold rebuild_xds. destruct (xds st) as [x|] eqn:Ex; [|by intros [= <- <-]].
  intros ([? x'] & Hx & [= <- <-])%bind_Some Hno ? [= <-].
  destruct (rebuild_cases cfg (re_elapsed env) (re_reads env) (lend_metrics (app_metrics st) x))
    as [(s & _ & Heq)|(e & _ & Heq)]; rewrite Heq in Hx.
  - apply bind_Some in Hx as (cp' & (acc & _ & _ & Hc & _)%broadcast_proj & [= <- <-]). simpl in *.
    rewrite Hc, (Hno x Ex). apply map_eq. intros k. rewrite foldr_delete_lookup.
    rewrite lookup_empty. by destruct (decide _).
  - injection Hx as <- <-. exact (Hno x Ex).
Qed.

Lemma reload_no_envoy env st :
  no_envoy st → ∃ r st', reload env st = Some (r, st') ∧ no_envoy st'.
Proof.
  intros Hno. pose proof (reload_cases env st) as H. destruct (reload env st) as [[r st']|] eqn:E.
  - exists r, st'. split; [done|]. clear H. revert E.
    unfold config_reload. destruct (re_read env) as [raw|]; [|by intros [= <- <-]].
    destruct (load (from_utf8_lossy raw)) as [cfg|]; [|by intros [= <- <-]]. unfold apply_config_reload.
    destruct (reload_plugins_cases env cfg st) as ([[]|err] & en & -> & _); [|by intros [= <- <-]].
    intros ([xr st2] & Hx & E)%bind_Some. apply rebuild_no_envoy in Hx; [|exact Hno].
    destruct xr as [[]|]; [|by injection E as <- <-].
    match goal with E : context [regenerate_envoy env ?s] |- _ =>
      destruct (regenerate_cases env s) as (f & Hf & _) end.
    rewrite Hf in E. by injection E as <- <-.
  - destruct H as (x & Hx & key & h & Hk & _). rewrite (Hno x Hx) in Hk. done.
Qed.

Lemma reloads_consistent envs st :
  no_envoy st → consistent st → ∃ st', reloads envs st = Some st' ∧ consistent st'.
Proof.
  revert st. induction envs as [|env envs IH]; intros st Hno Hc; simpl; [by exists st|].
  destruct (reload_no_envoy env st Hno) as (r & st' & E & Hno'). rewrite E. simpl.
  apply IH; [done|]. eapply reload_consistent; eauto.
Qed.

(** [C2] From startup on, through any sequence of reloads whatever their
    outcome, the parts of the control plane agree: the active configuration is
    the validated content of the file whose digest is reported, and the xDS
    snapshot and the plugin chains being served are built from that same
    configuration.  (No Envoy is connected, so every reload ends.) *)
Theorem components_stay_consistent (senv : start_env) (st0 : AppState) (envs : list reload_env) :
  start sha256_hex url_parse_ok yaml_from_str to_json schema_check senv = Ok st0 →
  ∃ st, reloads envs st0 = Some st ∧ consistent st.
Proof.
  intros H. apply reloads_consistent; [|by eapply start_consistent].
  intros x Hx. destruct (start_xds_new _ _ _ H Hx) as [m Hm]. unfold XdsControlPlane_new in Hm.
  by destruct (XdsSnapshot.build _ 1); simplify_eq/=.
Qed.

(** A reload that changes the authentication providers, the limiter's
    settings or the concurrency limit does not change what is used: the key
    caches, the limiter and the semaphore are those of startup. *)
Theorem reload_keeps_startup_services env st r st' :
  reload env st = Some (r, st') →
  jwks_registry st' = jwks_registry st ∧ rate_limiter st' = rate_limiter st ∧
  concurrency_limit st' = concurrency_limit st ∧ tracing_enabled st' = tracing_enabled st.
Proof.
  intros Hrel. pose proof (reload_cases env st) as H. rewrite Hrel in H.
  destruct H as [(raw & cfg & _ & _ & _ & _ & _ & _ & _ & _ & Hs)|(msg & _ & Hs)].
  - by destruct Hs as (_ & _ & ? & ? & ? & ?).
  - by destruct Hs as (_ & _ & _ & _ & _ & _ & _ & _ & _ & _ & ? & ? & ? & ?).
Qed.
End admin_theorems.

(** ** Probes *)

(** [GET /readyz] answers 200 exactly when Redis answers (on the pooled
    connection, or on a new one) and no provider's key set is stale; the two
    causes are reported separately, and the probe changes nothing but the
    pooled Redis connection. *)
Theorem readyz_spec `{YamlLib} `{JwtLib} `{LuaVm} (alive : bool) (c : connect) (instant : Z)
    (st : AppState) :
  let '(code, body, st') := readyz alive c instant st in
  (code = 200%Z ↔
     (RateLimiter.conn (rate_limiter st) = Some tt ∧ alive = true ∨ c = Connected) ∧
     ∀ name cache, jwks_registry st !! name = Some cache → is_stale instant cache = false) ∧
  (code = 200%Z ∨ code = 503%Z) ∧
  ReadyResponse.ok body = ReadyResponse.redis_ok body && ReadyResponse.jwks_ok body ∧
  (ReadyResponse.jwks_ok body = true ↔
     ∀ name cache, jwks_registry st !! name = Some cache → is_stale instant cache = false) ∧
  RateLimiter.fallback (rate_limiter st') = RateLimiter.fallback (rate_limiter st) ∧
  config_state st' = config_state st ∧ jwks_registry st' = jwks_registry st ∧
  app_metrics st' = app_metrics st.
Proof.
  assert (Hj : all_healthy instant (jwks_registry st) = true ↔
    ∀ name cache, jwks_registry st !! name = Some cache → is_stale instant cache = false).
  { unfold all_healthy. rewrite forallb_forall. split.
    - intros Hall name cache Hl. apply negb_true_iff, Hall, list_elem_of_In, list_elem_of_fmap.
      exists (name, cache). split; [done|]. by apply elem_of_map_to_list.
    - intros Hall cache Hin. apply list_elem_of_In, list_elem_of_fmap in Hin as ([n k] & -> & Hin).
      apply negb_true_iff. eapply Hall. by apply elem_of_map_to_list. }
  unfold readyz, ping. destruct (RateLimiter.conn (rate_limiter st)) as [[]|] eqn:Ec, alive, c;
    simpl; rewrite <- ?Hj; destruct (all_healthy instant (jwks_registry st)); simpl;
    repeat split; intuition congruence.
Qed.

(** ** The concurrency limit *)

(** The sample configuration with the given limit. *)
Definition config_with_limit (n : Z) : GatewayConfig :=
  GatewayConfig.mk 1
    (GatewayServer.mk "0.0.0.0:8080" "0.0.0.0:9090" 15000 60000 10485760 false
       (Some "0.0.0.0:10003") (Some n))
    (AuthConfig.mk [sample_provider]) sample_rate_limits
    [sample_route; sample_private_route] [sample_service] sample_observability
    PluginsConfig.PluginsConfig_default XdsConfig.XdsConfig_default ExtProcConfig.ExtProcConfig_default.

(** A concurrency limit above the semaphore's maximum passes validation and
    makes the construction of the state panic. *)
Theorem huge_limit_passes_validation_and_panics `{ProstLib} `{LuaVm} `{JwtLib} sha raw path envoy
    jwks limiter m engine x written now :
  validate (λ _, true) (config_with_limit 2305843009213693952) = Ok tt ∧
  build_state (Y := YamlModel.yaml_model) sha (config_with_limit 2305843009213693952) raw path envoy
    jwks limiter m engine x written now = None.
Proof. split; [vm_compute; reflexivity|reflexivity]. Qed.

(** ** Witnesses

    A process that starts on one file with xDS and plugins enabled, and
    reloads another. *)
Module AdminModel.
Import JwtModel LuaVmModel.
Definition xds_config (routes : list RouteConfig) : GatewayConfig :=
  GatewayConfig.mk 1 sample_server (AuthConfig.mk [sample_provider]) sample_rate_limits
    routes [sample_service] sample_observability
    (PluginsConfig.mk true "plugins" PluginLimits.PluginLimits_default [plugin_config])
    (XdsConfig.mk true "0.0.0.0:18000") ExtProcConfig.ExtProcConfig_default.
(** Two files, by their content. *)
Definition parse_file (s : string) : result YamlError GatewayConfig :=
  if decide (s = "v1") then Ok (xds_config [sample_route])
  else Ok (xds_config [sample_route; sample_private_route]).
Definition no_json (_ : Value) : JsonValue (LuaVm := lua_vm_model) := 0.
Definition any_schema (_ _ : JsonValue (LuaVm := lua_vm_model)) : result string unit := Ok tt.
Definition digest (s : string) : string := "sha:" +:+ s.
Definition sample_start : start_env (V := lua_vm_model) := {|
  se_config_var := None;
  se_envoy_var := Some "envoy.yaml";
  se_read := λ _, Ok "v1";
  se_tracing := mk_tracing_env None (λ _, Ok tt) "a global default trace dispatcher has already been set";
  se_write := Ok tt;
  se_fetch := λ _, Ok [JwksRawKey.mk "k1" "RSA" None "n" "e"];
  se_instant := 0;
  se_connect := Connected;
  se_alive := true;
  se_reconnect := Connected;
  se_construct := λ _, Ok tt;
  se_register := λ reg f, Ok (reg ++ [f.1]);
  se_dir_exists := true;
  se_load := sample_load;
  se_read_dir := sample_dir;
  se_now := 100
|}.
Definition sample_reload (content : string) : reload_env (V := lua_vm_model) := {|
  re_now := 200;
  re_read := Ok content;
  re_dir_exists := true;
  re_load := sample_load;
  re_read_dir := sample_dir;
  re_elapsed := f64_zero;
  re_reads := λ _, true;
  re_write := Ok tt
|}.
Definition started : result start_error (AppState (V := lua_vm_model) (J := jwt_model)) :=
  start digest (λ _, true) parse_file no_json any_schema sample_start.
End AdminModel.
Import JwtModel LuaVmModel AdminModel.

Definition start_fallback : AppState (V := LuaVmModel.lua_vm_model) (J := JwtModel.jwt_model) :=
  mk_app_state (V := LuaVmModel.lua_vm_model) (J := JwtModel.jwt_model)
    (ConfigState.mk sample_config EmptyString 0 ReloadedOk None) EmptyString None ∅
    (RateLimit.from_config sample_rate_limits Connected) empty_metrics 0 false None None None.
Definition started_state : AppState :=
  unwrap_or start_fallback started.

Lemma components_stay_consistent_witness :
  started = Ok started_state ∧
  ∃ st, reloads digest (λ _, true) parse_file no_json any_schema
          [sample_reload "v2"; sample_reload "v1"] started_state = Some st ∧
    consistent digest (λ _, true) parse_file no_json any_schema st.
Proof.
  assert (H : started = Ok started_state)
    by (apply ok_unwrap_or; vm_compute; reflexivity).
  split; [exact H|].
  exact (components_stay_consistent digest (λ _, true) parse_file no_json any_schema
           sample_start started_state [sample_reload "v2"; sample_reload "v1"] H).
Defined.

Lemma reload_all_or_nothing_witness :
  ∃ st', config_reload digest (λ _, true) parse_file no_json any_schema
           (sample_reload "v2") started_state = Some (Some (ReloadSuccess "sha:v1" "sha:v2" 200), st') ∧
    reload_applied digest no_json any_schema (sample_reload "v2") started_state "v2"
      (xds_config [sample_route; sample_private_route]) st'.
Proof.
  pose proof (reload_all_or_nothing digest (λ _, true) parse_file no_json any_schema
                (sample_reload "v2") started_state) as H.
  assert (Hf : fst <$> config_reload digest (λ _, true) parse_file no_json any_schema
                  (sample_reload "v2") started_state = Some (Some (ReloadSuccess "sha:v1" "sha:v2" 200)))
    by (vm_compute; reflexivity).
  destruct (config_reload digest (λ _, true) parse_file no_json any_schema
              (sample_reload "v2") started_state) as [[r st']|]; [|discriminate].
  simpl in Hf. injection Hf as ->. exists st'. split; [reflexivity|].
  destruct H as [(raw & cfg & Hread & Hload & _ & _ & Happ)|(msg & _ & Hmsg & _)]; [|discriminate].
  injection Hread as <-. vm_compute in Hload. injection Hload as <-. exact Happ.
Defined.
