(* ===== verification/Server.v ===== *)
(** * The servers of the process and the admin API's router

    The part of [controlplane/src/startup.rs] after the state is assembled
    ([serve], [run]) and [controlplane/src/admin/mod.rs]: which servers a
    configuration starts and on which addresses, how the process ends, and
    which handler answers which admin request. *)
From S2P Require Import Prelude RustStr F64 Yaml ConfigTypes Validation EnvoyGen RateLimit Auth.
From S2P Require Import Observability Plugins SocketAddr XdsResources Xds Tracing Admin.

(** ** Serving *)
Inductive Server :=
  | AdminServer (addr : string)
  | ExtAuthzServer (addr : string)
  | XdsServer (addr : SocketAddr)
  | ExtProcServer (addr : SocketAddr).

(** How a server task ends. *)
Inductive server_exit := Returned | Failed (error : string) | TaskPanicked (error : string).

Definition server_error (s : Server) (error : string) : string :=
  match s with
  | AdminServer _ => "admin API server error: " +:+ error
  | ExtAuthzServer _ => "ext_authz server error: " +:+ error
  | XdsServer _ => "xDS server error: " +:+ error
  | ExtProcServer _ => "ext_proc server error: " +:+ error
  end.

(** What the operating system answers, and the server that ends first. *)
Record serve_env := mk_serve_env {
  sv_bind_admin : result string unit;
  sv_bind_extauthz : result string unit;
  sv_join_next : list Server → Server * server_exit
}.

Definition parse_socket_addr (value label : string) : result start_error SocketAddr :=
  map_err (Fatal ("invalid " +:+ label +:+ " listen address")) (socket_addr_from_str value).

Section server.
Context `{Y : YamlLib} `{P : ProstLib} `{V : LuaVm} `{J : JwtLib}.

(** The servers spawned, in order. *)
Definition spawn_servers (env : serve_env) (st : AppState) : result start_error (list Server) :=
  let config := ConfigState.config (config_state st) in
  let admin_addr := GatewayServer.admin_address (GatewayConfig.gateway config) in
  _ ← map_err (Fatal "failed to bind admin API") (sv_bind_admin env);
  let servers := [AdminServer admin_addr] in
  servers ←
    match GatewayServer.extauthz_address (GatewayConfig.gateway config) with
    | Some addr =>
        _ ← map_err (Fatal "failed to bind ext_authz service") (sv_bind_extauthz env);
        Ok (servers ++ [ExtAuthzServer addr])
    | None => Ok servers
    end;
  servers ←
    match xds st with
    | Some _ =>
        addr ← parse_socket_addr (XdsConfig.listen_address (GatewayConfig.xds config)) "xDS";
        Ok (servers ++ [XdsServer addr])
    | None => Ok servers
    end;
  if ExtProcConfig.enabled (GatewayConfig.ext_proc config) then
    addr ← parse_socket_addr (ExtProcConfig.listen_address (GatewayConfig.ext_proc config)) "ext_proc";
    Ok (servers ++ [ExtProcServer addr])
  else Ok servers.

Definition serve (env : serve_env) (st : AppState) : result start_error unit :=
  servers ← spawn_servers env st;
  let '(server, exit) := sv_join_next env servers in
  match exit with
  | Failed error => Err (Fatal "server exited with error" (server_error server error))
  | TaskPanicked error => Err (Fatal "server task panicked" error)
  | Returned => Ok tt
  end.

Context (sha256_hex : string → string).
Context (url_parse_ok : string → bool) (yaml_from_str : string → result YamlError GatewayConfig).
Context (to_json : Value → JsonValue) (schema_check : JsonValue → JsonValue → result string unit).

(** The whole process; when a server returns, the spans are flushed. *)
Definition run (env : start_env) (senv : serve_env) : result start_error Telemetry :=
  st ← start sha256_hex url_parse_ok yaml_from_str to_json schema_check env;
  _ ← serve senv st;
  let tracing_config := ObservabilityConfig.tracing
    (GatewayConfig.observability (ConfigState.config (config_state st))) in
  Ok (shutdown_tracing (init_tracing (se_tracing env) tracing_config no_telemetry).2).

(** ** The admin router *)
Inductive handler := Healthz | Readyz | ConfigStatus | ConfigReload | XdsStatus | MetricsText.

Definition router : list (string * (string * handler)) :=
  [("/healthz", ("GET", Healthz));
   ("/readyz", ("GET", Readyz));
   ("/config/status", ("GET", ConfigStatus));
   ("/config/reload", ("POST", ConfigReload));
   ("/xds/status", ("GET", XdsStatus));
   ("/metrics", ("GET", MetricsText))].

(** A [GET] route also answers [HEAD]; a status code when nothing answers. *)
Definition method_matches (route_method method : string) : bool :=
  bool_decide (route_method = method) ||
  (bool_decide (route_method = "GET") && bool_decide (method = "HEAD")).

Definition dispatch (method path : string) : result Z handler :=
  match iter_find (λ r, bool_decide (r.1 = path)) router with
  | None => Err 404%Z
  | Some (_, (m, h)) => if method_matches m method then Ok h else Err 405%Z
  end.

(** [MetricsRegistry::encode]; the text encoder is the [prometheus] crate's. *)
Inductive MetricsError := Registration (e : string) | Encoding (e : string).
Context (text_encode : Metrics → result string string) (utf8_error : string → string).

Definition encode (m : Metrics) : result MetricsError string :=
  buf ← map_err Encoding (text_encode m);
  if bool_decide (from_utf8_lossy buf = buf) then Ok buf else Err (Encoding (utf8_error buf)).

Inductive admin_response :=
  | NoRoute (status : Z)
  | HealthResponse (ok : bool)
  | ReadyAnswer (status : Z) (body : ReadyResponse.ReadyResponse)
  | StatusAnswer (body : ConfigStatusResponse.ConfigStatusResponse)
  | ReloadAnswer (r : ReloadResponse)
  | XdsAnswer (body : XdsStatusResponse.XdsStatusResponse)
  | MetricsAnswer (status : Z) (content_type body : option string).

Definition healthz : admin_response := HealthResponse true.

Definition metrics_handler (st : AppState) : admin_response :=
  match encode (app_metrics st) with
  | Ok body => MetricsAnswer 200 (Some "text/plain; version=0.0.4; charset=utf-8") (Some body)
  | Err _ => MetricsAnswer 500 None None
  end.

(** What the outside answers while a request is handled. *)
Record admin_env := mk_admin_env {
  ae_reload : reload_env;
  ae_alive : bool;
  ae_connect : connect;
  ae_instant : Z
}.

(** One request to the admin API.  There is no result when a reload waits for an
    Envoy that does not receive; the response is [None] when the handler panics. *)
Definition admin_request (env : admin_env) (method path : string) (st : AppState)
    : option (option admin_response * AppState) :=
  match dispatch method path with
  | Err status => Some (Some (NoRoute status), st)
  | Ok Healthz => Some (Some healthz, st)
  | Ok Readyz =>
      let '(status, body, st) := readyz (ae_alive env) (ae_connect env) (ae_instant env) st in
      Some (Some (ReadyAnswer status body), st)
  | Ok ConfigStatus => Some (Some (StatusAnswer (config_status st)), st)
  | Ok ConfigReload =>
      rs ← config_reload sha256_hex url_parse_ok yaml_from_str to_json schema_check (ae_reload env) st;
      let '(r, st) := rs in Some (option_map ReloadAnswer r, st)
  | Ok XdsStatus => Some (Some (XdsAnswer (xds_status st)), st)
  | Ok MetricsText => Some (Some (metrics_handler st), st)
  end.
End server.
