(* ===== verification/ServerSpec.v ===== *)
(** * The servers of the process and the admin router: properties *)
From S2P Require Import Prelude RustStr F64 Yaml ConfigTypes Validation Samples ValidationSpec EnvoyGen RateLimit Auth AuthSpec.
From S2P Require Import Observability Plugins PluginsSpec SocketAddr XdsResources Xds XdsResourcesSpec XdsSpec Tracing Admin AdminSpec Server.
From Stdlib Require Import Ascii.

Section server_theorems.
Context `{Y : YamlLib} `{P : ProstLib} `{V : LuaVm} `{J : JwtLib}.
Context (sha256_hex : string → string).
Context (url_parse_ok : string → bool) (yaml_from_str : string → result YamlError GatewayConfig).
Context (to_json : Value → JsonValue) (schema_check : JsonValue → JsonValue → result string unit).

(** ** Which servers run *)

(** A listener that is wanted or not, on an address that parses. *)
Definition listens (wanted : bool) (address : string) (mk : SocketAddr → Server) (l : list Server)
    : Prop :=
  if wanted then ∃ a, socket_addr_from_str address = Ok a ∧ l = [mk a] else l = [].

Definition configured_servers (cfg : GatewayConfig) (servers : list Server) : Prop :=
  ∃ x p,
    servers = AdminServer (GatewayServer.admin_address (GatewayConfig.gateway cfg)) ::
      match GatewayServer.extauthz_address (GatewayConfig.gateway cfg) with
      | Some addr => [ExtAuthzServer addr]
      | None => []
      end ++ x ++ p ∧
    listens (XdsConfig.enabled (GatewayConfig.xds cfg))
      (XdsConfig.listen_address (GatewayConfig.xds cfg)) XdsServer x ∧
    listens (ExtProcConfig.enabled (GatewayConfig.ext_proc cfg))
      (ExtProcConfig.listen_address (GatewayConfig.ext_proc cfg)) ExtProcServer p.

Lemma start_xds env st :
  start sha256_hex url_parse_ok yaml_from_str to_json schema_check env = Ok st →
  is_some (xds st) = XdsConfig.enabled (GatewayConfig.xds (ConfigState.config (config_state st))).
Proof.
  unfold start. intros H.
  do 7 (apply result_bind_Ok in H as (? & _ & H)). apply result_bind_Ok in H as (xc & Hx & H).
  unfold build_state in H. destruct (Semaphore_new _); simplify_eq/=. unfold init_xds in Hx.
  destruct (XdsConfig.enabled _); simplify_eq/=; [|done].
  by apply result_bind_Ok in Hx as (x' & _ & [= <-]).
Qed.

Lemma listens_spec wanted address label mk (servers : list Server) k :
  (if wanted : bool then addr ← parse_socket_addr address label; Ok (servers ++ [mk addr])
   else Ok servers) = Ok k ↔ ∃ l, k = servers ++ l ∧ listens wanted address mk l.
Proof.
  unfold listens. destruct wanted.
  - unfold parse_socket_addr. destruct (socket_addr_from_str address) as [a|e]; simpl.
    + split; [intros [= <-]; by eauto|]. by intros (l & -> & a' & [= <-] & ->).
    + split; [done|]. by intros (l & _ & a' & [=] & _).
  - split; [intros [= <-]; exists []; by rewrite app_nil_r|]. by intros (l & -> & ->); rewrite app_nil_r.
Qed.

(** The process serves what its configuration asks for: once the state is
    assembled, the servers are started exactly when the TCP addresses can be
    bound and the gRPC addresses parse, and they are the admin API always, the
    ext_authz service when it has an address, xDS when it is enabled and
    ext_proc when it is enabled, each on the configured address. *)
Theorem spawned_servers_follow_config (env : start_env) (senv : serve_env) (st : AppState)
    (servers : list Server) :
  start sha256_hex url_parse_ok yaml_from_str to_json schema_check env = Ok st →
  spawn_servers senv st = Ok servers ↔
  sv_bind_admin senv = Ok tt ∧
  (is_Some (GatewayServer.extauthz_address (GatewayConfig.gateway (ConfigState.config (config_state st)))) →
     sv_bind_extauthz senv = Ok tt) ∧
  configured_servers (ConfigState.config (config_state st)) servers.
Proof.
  intros Hx%start_xds. unfold spawn_servers, configured_servers.
  set (cfg := ConfigState.config (config_state st)) in *.
  assert (Hif : ∀ (a b : result start_error (list Server)),
    match xds st with Some _ => a | None => b end =
    if XdsConfig.enabled (GatewayConfig.xds cfg) then a else b).
  { intros a b. rewrite <- Hx. by destruct (xds st). }
  set (authz := match GatewayServer.extauthz_address (GatewayConfig.gateway cfg) with
                | Some addr => [ExtAuthzServer addr] | None => [] end).
  destruct (sv_bind_admin senv) as [[]|e]; simpl; [|split; [done|by intros [[=] _]]].
  transitivity ((is_Some (GatewayServer.extauthz_address (GatewayConfig.gateway cfg)) →
                 sv_bind_extauthz senv = Ok tt) ∧ ∃ k, 
     (if XdsConfig.enabled (GatewayConfig.xds cfg)
      then addr ← parse_socket_addr (XdsConfig.listen_address (GatewayConfig.xds cfg)) "xDS";
           Ok ((AdminServer (GatewayServer.admin_address (GatewayConfig.gateway cfg)) :: authz) ++
               [XdsServer addr])
      else Ok (AdminServer (GatewayServer.admin_address (GatewayConfig.gateway cfg)) :: authz)) = Ok k ∧
     (if ExtProcConfig.enabled (GatewayConfig.ext_proc cfg)
      then addr ← parse_socket_addr (ExtProcConfig.listen_address (GatewayConfig.ext_proc cfg)) "ext_proc";
           Ok (k ++ [ExtProcServer addr]) else Ok k) = Ok servers).
  - unfold authz. destruct (GatewayServer.extauthz_address _) as [addr|]; simpl.
    + destruct (sv_bind_extauthz senv) as [[]|e]; simpl.
      * rewrite result_bind_Ok. setoid_rewrite Hif. naive_solver.
      * split; [done|]. intros [H _]. by specialize (H ltac:(by eexists)).
    + rewrite result_bind_Ok. setoid_rewrite Hif. split; [|naive_solver].
      intros H. split; [by intros [? ?]|done].
  - setoid_rewrite listens_spec. split.
    + intros (Hb & k & (x & -> & Hl) & p & -> & Hp). split; [done|]. split; [done|].
      exists x, p. rewrite <- app_assoc. done.
    + intros (_ & Hb & x & p & -> & Hl & Hp). split; [done|]. eexists. split; [by exists x|].
      exists p. by rewrite <- app_assoc.
Qed.

(** A listen address that passes validation may end the process: the
    validator accepts any host name with a port for the xDS server, the server
    needs a numeric socket address.  A process that has loaded, validated and
    assembled such a configuration exits with a fatal error. *)
Theorem hostname_listen_address_is_fatal (env : start_env) (senv : serve_env) (st : AppState)
    (a : ascii) (rest : string) :
  start sha256_hex url_parse_ok yaml_from_str to_json schema_check env = Ok st →
  sv_bind_admin senv = Ok tt → sv_bind_extauthz senv = Ok tt →
  XdsConfig.enabled (GatewayConfig.xds (ConfigState.config (config_state st))) = true →
  XdsConfig.listen_address (GatewayConfig.xds (ConfigState.config (config_state st))) = String a rest →
  digit_val a = None → a ≠ "["%char →
  run sha256_hex url_parse_ok yaml_from_str to_json schema_check env senv =
    Err (Fatal "invalid xDS listen address" "invalid socket address syntax").
Proof.
  intros Hst Ha Hb Hen Hl Hd Hbr. unfold run. rewrite Hst. simpl. unfold serve, spawn_servers.
  apply start_xds in Hst. rewrite Hen in Hst. rewrite Ha, Hb. simpl.
  assert (Hbad : parse_socket_addr (XdsConfig.listen_address
    (GatewayConfig.xds (ConfigState.config (config_state st)))) "xDS" =
    Err (Fatal "invalid xDS listen address" "invalid socket address syntax")).
  { unfold parse_socket_addr. by rewrite Hl, socket_addr_first. }
  rewrite Hbad. destruct (xds st); [|done]. by destruct (GatewayServer.extauthz_address _).
Qed.

(** ** The admin API *)
Context `{!ProstLaws P}.
Context (text_encode : Metrics → result string string) (utf8_error : string → string).

Lemma dispatch_reload method path :
  dispatch method path = Ok ConfigReload → method = "POST" ∧ path = "/config/reload".
Proof.
  unfold dispatch. intros Hd. destruct (iter_find _ _) as [[p [m h]]|] eqn:Hf; [|done].
  apply iter_find_Some in Hf as [Hin Hp]. apply bool_decide_eq_true in Hp. simpl in Hp.
  destruct (method_matches m method) eqn:Hm; [|done]. injection Hd as ->.
  assert (p = "/config/reload" ∧ m = "POST") as [-> ->].
  { unfold router in Hin. repeat (apply elem_of_cons in Hin as [Heq|Hin]; [by simplify_eq|]).
    by apply elem_of_nil in Hin. }
  unfold method_matches in Hm. simpl in Hm. rewrite orb_false_r in Hm.
  apply bool_decide_eq_true in Hm. done.
Qed.

(** What a request to the admin API does to the state. *)
Definition admin_outcome (env : admin_env) (method path : string) (st : AppState)
    (o : option (option admin_response * AppState)) : Prop :=
  match o with
  | Some (r, st') =>
      is_Some r ∧
      ((∃ l, st' = set_rate_limiter l st) ∨
       (method = "POST" ∧ path = "/config/reload" ∧
        ∃ r', config_reload sha256_hex url_parse_ok yaml_from_str to_json schema_check
                (ae_reload env) st = Some (r', st')))
  | None => method = "POST" ∧ path = "/config/reload" ∧ xds_stalled (ae_reload env) st
  end.
Lemma admin_request_cases (env : admin_env) (method path : string) (st : AppState) :
  admin_outcome env method path st
    (admin_request sha256_hex url_parse_ok yaml_from_str to_json schema_check
       text_encode utf8_error env method path st).
Proof.
  assert (Hid : ∃ l, st = set_rate_limiter l st) by (exists (rate_limiter st); by destruct st).
  unfold admin_request. destruct (dispatch method path) as [[]|code] eqn:Hd; try (split; [by eexists|by left]).
  - unfold readyz. destruct (ping _ _ _) as [ok l]. split; [by eexists|]. left. by exists l.
  - apply dispatch_reload in Hd as [-> ->].
    pose proof (reload_cases sha256_hex url_parse_ok yaml_from_str to_json schema_check
                  (ae_reload env) st) as Hr.
    destruct (config_reload sha256_hex url_parse_ok yaml_from_str to_json schema_check
                (ae_reload env) st) as [[r st']|] eqn:Hrel; simpl; [|done]. split; [|right; eauto].
    destruct Hr as [(raw & cfg & _ & _ & -> & _)|(msg & -> & _)]; by eexists.
Qed.

(** Every admin request is answered, but for a reload that waits for a connected
    Envoy that does not receive, and only [POST /config/reload] can change
    anything an operator relies on: any other method or path leaves the state as
    it was, but for the Redis connection that the readiness probe may renew. *)
Theorem admin_request_effects (env : admin_env) (method path : string) (st : AppState) :
  match admin_request sha256_hex url_parse_ok yaml_from_str to_json schema_check
          text_encode utf8_error env method path st with
  | Some (r, st') =>
      is_Some r ∧
      ((∃ l, st' = set_rate_limiter l st) ∨
       (method = "POST" ∧ path = "/config/reload" ∧
        ∃ r', config_reload sha256_hex url_parse_ok yaml_from_str to_json schema_check
                (ae_reload env) st = Some (r', st')))
  | None =>
      method = "POST" ∧ path = "/config/reload" ∧ ∃ x, xds st = Some x ∧ stalled (re_reads (ae_reload env)) x
  end.
Proof. apply admin_request_cases. Qed.
End server_theorems.

(** ** Witnesses *)
Import JwtModel LuaVmModel AdminModel.

Definition all_up : serve_env := mk_serve_env (Ok tt) (Ok tt) (λ _, (AdminServer EmptyString, Returned)).

Lemma started_ok : started = Ok started_state.
Proof. apply ok_unwrap_or. vm_compute. reflexivity. Qed.

Lemma spawned_servers_follow_config_witness :
  spawn_servers all_up started_state =
    Ok [AdminServer "0.0.0.0:9090"; ExtAuthzServer "0.0.0.0:10003"; XdsServer (V4 0 0 0 0 18000)].
Proof.
  apply (spawned_servers_follow_config digest (λ _, true) parse_file no_json any_schema sample_start
           all_up started_state _ started_ok).
  split; [reflexivity|]. split; [reflexivity|].
  exists [XdsServer (V4 0 0 0 0 18000)], []. split; [vm_compute; reflexivity|].
  split; [vm_compute; eexists; split; reflexivity|vm_compute; reflexivity].
Defined.

(** The sample with a host name as the address of the xDS server. *)
Definition named_config : GatewayConfig :=
  GatewayConfig.mk 1 sample_server (AuthConfig.mk [sample_provider]) sample_rate_limits
    [sample_route] [sample_service] sample_observability PluginsConfig.PluginsConfig_default
    (XdsConfig.mk true "localhost:18000") ExtProcConfig.ExtProcConfig_default.
Definition named_started : result start_error (AppState (V := lua_vm_model) (J := jwt_model)) :=
  start digest (λ _, true) (λ _, Ok named_config) no_json any_schema sample_start.
Definition named_state : AppState := unwrap_or start_fallback named_started.

Lemma hostname_listen_address_is_fatal_witness :
  validate (λ _, true) named_config = Ok tt ∧
  run digest (λ _, true) (λ _, Ok named_config) no_json any_schema sample_start all_up =
    Err (Fatal "invalid xDS listen address" "invalid socket address syntax").
Proof.
  split; [vm_compute; reflexivity|].
  apply (hostname_listen_address_is_fatal digest (λ _, true) (λ _, Ok named_config) no_json any_schema
           sample_start all_up named_state "l" "ocalhost:18000").
  - apply ok_unwrap_or. vm_compute. reflexivity.
  - reflexivity.
  - reflexivity.
  - vm_compute. reflexivity.
  - vm_compute. reflexivity.
  - reflexivity.
  - discriminate.
Defined.

Definition sample_admin_env : admin_env :=
  mk_admin_env (sample_reload "v2") true Connected 0.

Lemma admin_request_effects_witness :
  ∃ r l, admin_request digest (λ _, true) parse_file no_json any_schema (λ _, Ok EmptyString) (λ s, s)
           sample_admin_env "GET" "/config/reload" started_state =
         Some (r, set_rate_limiter l started_state).
Proof.
  pose proof (admin_request_effects digest (λ _, true) parse_file no_json any_schema
    (λ _, Ok EmptyString) (λ s, s) sample_admin_env "GET" "/config/reload" started_state) as H.
  destruct (admin_request _ _ _ _ _ _ _ _ _ _ _) as [[r st']|].
  - destruct H as [_ [[l ->]|[[=] _]]]. exists r, l. reflexivity.
  - destruct H as [[=] _].
Defined.
