(* ===== verification/Gateway.v ===== *)
(** * The control plane as one system

    The servers that [controlplane/src/startup.rs] starts share one
    [AppState].  A [Gateway] is that state with what lives outside of it: the
    Lua machine of each worker thread, the ADS stream tasks, the Redis
    database, the access log and the request counter.  Its events are the
    authorisation checks, the admin requests, the turns of the key refresh
    loops and the turns of the ADS streams, in any order; an authorisation
    check and an admin request are handled without interruption. *)
From S2P Require Import Prelude RustStr F64 Yaml ConfigTypes Validation RateLimit Auth.
From S2P Require Import Observability Plugins Http ExtAuthz XdsResources Xds Admin Server.

Section gateway.
Context `{Y : YamlLib} `{P : ProstLib} `{V : LuaVm} `{J : JwtLib} `{L : LuaLib} `{H : HeaderLib}.
Context (sha256_hex : string → string).
Context (url_parse_ok : string → bool) (yaml_from_str : string → result YamlError GatewayConfig).
Context (to_json : Value → JsonValue) (schema_check : JsonValue → JsonValue → result string unit).
Context (text_encode : Metrics → result string string) (utf8_error : string → string).

Record Gateway := mk_gateway {
  app : AppState;
  streams : gmap nat Stream;                           (* the ADS tasks *)
  vms : gmap nat (result PluginError ThreadLocalVm);   (* LUA_VM of each thread that used it *)
  redis_data : redis_db;
  log : list AccessLogEntry;
  requests : Z                                         (* REQUEST_COUNTER *)
}.

Definition active_config (g : Gateway) : GatewayConfig := ConfigState.config (config_state (app g)).

(** The machine of a thread is created when it is first used. *)
Definition thread_vm (thread : nat) (g : Gateway) : result PluginError ThreadLocalVm :=
  default ThreadLocalVm_new (vms g !! thread).

(** What a check that runs on [thread] works on. *)
Definition request_view (clock : nat → Z) (thread : nat) (g : Gateway)
    : ExtAuthz.App (P := engine_host clock) :=
  mk_app (P := engine_host clock) (active_config g) (jwks_registry (app g)) (rate_limiter (app g))
    (redis_data g) (app_metrics (app g)) (concurrency_limit (app g)) (tracing_enabled (app g))
    ((λ engine, (runtime engine, thread_vm thread g)) <$> plugin_engine (app g))
    (log g) (requests g).

Definition set_concurrency_limit (n : Z) (st : AppState) : AppState :=
  mk_app_state (config_state st) (config_path st) (envoy_config_path st) (jwks_registry st)
    (rate_limiter st) (app_metrics st) n (tracing_enabled st) (plugin_engine st) (xds st)
    (envoy_file st).
Definition set_jwks_registry (r : gmap string JwksCache) (st : AppState) : AppState :=
  mk_app_state (config_state st) (config_path st) (envoy_config_path st) r (rate_limiter st)
    (app_metrics st) (concurrency_limit st) (tracing_enabled st) (plugin_engine st) (xds st)
    (envoy_file st).

(** What the check leaves behind: it only reads the configuration, the key
    caches and the plugin chains. *)
Definition absorb (clock : nat → Z) (thread : nat) (s : ExtAuthz.App (P := engine_host clock))
    (g : Gateway) : Gateway :=
  mk_gateway
    (set_concurrency_limit (ExtAuthz.permits s)
       (set_app_metrics (ExtAuthz.metrics s) (set_rate_limiter (ExtAuthz.rate_limiter s) (app g))))
    (streams g)
    (match ExtAuthz.plugin_engine s with
     | Some p => <[thread := p.2]> (vms g)
     | None => vms g
     end)
    (ExtAuthz.redis s) (ExtAuthz.access_log s) (ExtAuthz.request_counter s).

(** A request as it reaches [check]: the thread that handles it, the clock
    readings of its plugin chain and its identifier, and its environment. *)
Record Incoming := mk_incoming {
  in_thread : nat;
  in_clock : nat → Z;
  in_nanos : Z;
  in_env : req_env;
  in_headers : HeaderMap;
  in_method : string;
  in_path : string
}.

(** A check that no other event interrupts: no fetch of keys ends during it. *)
Definition check_request (i : Incoming) (g : Gateway) : Response * Gateway :=
  let '(resp, s) :=
    ExtAuthz.check (P := engine_host (in_clock i)) (in_nanos i) (without_fetches (in_env i))
      (in_headers i) (in_method i) (in_path i) (request_view (in_clock i) (in_thread i) g) in
  (resp, absorb (in_clock i) (in_thread i) s g).

Inductive gateway_event :=
  | Checked (i : Incoming)
  | AdminRequest (env : admin_env) (method path : string)
  | KeysFetched (provider_name : string) (reply : result string JwksDocument) (now : Z)
  | AdsTurn (e : Xds.event).

Definition set_app (st : AppState) (g : Gateway) : Gateway :=
  mk_gateway st (streams g) (vms g) (redis_data g) (log g) (requests g).

(** A turn of an ADS task, which reports to the metrics of the state; a
    rebuild is not one, it belongs to a reload. *)
Definition ads_turn (e : Xds.event) (g : Gateway) : option Gateway :=
  match e with
  | Xds.Rebuild _ _ _ => None
  | _ =>
      x ← xds (app g);
      sys ← xds_step e (mk_sys (lend_metrics (app_metrics (app g)) x) (streams g));
      Some (mk_gateway
        (set_app_metrics (Xds.metrics (control_plane sys))
           (set_xds (Some (control_plane sys)) (app g)))
        (Xds.streams sys) (vms g) (redis_data g) (log g) (requests g))
  end.

(** A fetch of the refresh loop of a provider, and what it leaves. *)
Definition key_fetch (name : string) (reply : result string JwksDocument) (now : Z) (g : Gateway)
    : option Gateway :=
  c ← jwks_registry (app g) !! name;
  Some (set_app (set_jwks_registry
          (<[name := (fetch_and_store reply now c).2]> (jwks_registry (app g))) (app g)) g).

(** [None] when the event is not possible. *)
Definition gateway_step (ev : gateway_event) (g : Gateway) : option Gateway :=
  match ev with
  | Checked i => Some (check_request i g).2
  | AdminRequest env method path =>
      r ← admin_request sha256_hex url_parse_ok yaml_from_str to_json schema_check
            text_encode utf8_error env method path (app g);
      Some (set_app r.2 g)
  | KeysFetched name reply now => key_fetch name reply now g
  | AdsTurn e => ads_turn e g
  end.

Fixpoint gateway_run (evs : list gateway_event) (g : Gateway) : option Gateway :=
  match evs with
  | [] => Some g
  | ev :: evs => g' ← gateway_step ev g; gateway_run evs g'
  end.

(** The system when the servers start; Redis keeps what it had. *)
Definition gateway_start (env : start_env) (db : redis_db) : result start_error Gateway :=
  st ← start sha256_hex url_parse_ok yaml_from_str to_json schema_check env;
  Ok (mk_gateway st ∅ ∅ db [] 0).
End gateway.
