(* ===== verification/GatewaySpec.v ===== *)
(** * The control plane from start to end

    Theorems on the whole life of a control plane, with checks, admin requests,
    key fetches and ADS turns in any order: what stays true between events, and
    what a reload does not change. *)
From S2P Require Import Prelude RustStr F64 Yaml ConfigTypes Validation Samples ValidationSpec.
From S2P Require Import RateLimit RateLimitSpec Auth AuthSpec Observability Plugins PluginsSpec Http ExtAuthz ExtAuthzSpec ExtAuthzResponses.
From S2P Require Import XdsResources XdsResourcesSpec Xds XdsSpec Admin AdminSpec Server ServerSpec Gateway.

(** ** The life of a control plane *)
Section life.
Context `{Y : YamlLib} `{P : ProstLib} `{!ProstLaws P} `{V : LuaVm} `{J : JwtLib} `{L : LuaLib} `{H : HeaderLib}.
Context (sha256_hex : string → string).
Context (url_parse_ok : string → bool) (yaml_from_str : string → result YamlError GatewayConfig).
Context (to_json : Value → JsonValue) (schema_check : JsonValue → JsonValue → result string unit).
Context (text_encode : Metrics → result string string) (utf8_error : string → string).

Implicit Types g : Gateway.
Implicit Types i : Incoming.
Notation consistent := (consistent sha256_hex url_parse_ok yaml_from_str to_json schema_check).
Notation step := (gateway_step sha256_hex url_parse_ok yaml_from_str to_json schema_check
                    text_encode utf8_error).
Notation run := (gateway_run sha256_hex url_parse_ok yaml_from_str to_json schema_check
                   text_encode utf8_error).
Notation boot := (gateway_start sha256_hex url_parse_ok yaml_from_str to_json schema_check).
Notation providers cfg := (AuthConfig.providers (GatewayConfig.auth cfg)).

(** A document of keys that the endpoint of the provider returned, at startup
    or to its refresh loop. *)
Definition published (env : start_env) (cfg0 : GatewayConfig) (evs : list gateway_event)
    (name : string) (doc : JwksDocument) : Prop :=
  (∃ p, p ∈ providers cfg0 ∧ AuthProvider.name p = name ∧ se_fetch env p = Ok doc) ∨
  ∃ now, KeysFetched name (Ok doc) now ∈ evs.

(** The registry has caches of the startup providers only, and their keys were
    published. *)
Definition registry_ok (env : start_env) (cfg0 : GatewayConfig) (evs : list gateway_event)
    (reg : gmap string JwksCache) : Prop :=
  ∀ name c, reg !! name = Some c →
    provider c ∈ providers cfg0 ∧ AuthProvider.name (provider c) = name ∧
    ∃ doc, published env cfg0 evs name doc ∧ parse_jwks_keys doc = Ok (cached_keys c).

(** What holds between any two events. *)
Record life_inv (env : start_env) (g0 : Gateway) (evs : list gateway_event) (g : Gateway) : Prop := {
  life_consistent : consistent (app g);
  life_registry : registry_ok env (active_config g0) evs (jwks_registry (app g));
  life_permits : concurrency_limit (app g) = concurrency_limit (app g0)
}.

Lemma published_app env cfg0 evs evs' name doc :
  published env cfg0 evs name doc → published env cfg0 (evs ++ evs') name doc.
Proof. unfold published. set_solver. Qed.

Lemma registry_ok_app env cfg0 evs evs' reg :
  registry_ok env cfg0 evs reg → registry_ok env cfg0 (evs ++ evs') reg.
Proof.
  intros Hr name c Hc. destruct (Hr name c Hc) as (? & ? & doc & ? & ?).
  split_and!; [done..|]. exists doc. split; [by apply published_app|done].
Qed.

Lemma registry_from_config_ok (env : start_env) now ps reg :
  registry_from_config (se_fetch env) now ps = Ok reg →
  ∀ name c, reg !! name = Some c → provider c ∈ ps ∧ AuthProvider.name (provider c) = name ∧
    ∃ doc, se_fetch env (provider c) = Ok doc ∧ parse_jwks_keys doc = Ok (cached_keys c).
Proof.
  revert reg. induction ps as [|p ps IH] using rev_ind; [by intros reg [= <-]|].
  intros reg. rewrite registry_snoc. unfold registry_step.
  intros (reg0 & Hreg & (cache & Hc & [= <-])%result_bind_Ok)%result_bind_Ok name c.
  destruct (decide (AuthProvider.name p = name)) as [<-|Hne].
  - rewrite lookup_insert_eq. intros [= <-]. rewrite (JwksCache_new_provider _ _ _ _ _ Hc).
    split_and!; [set_solver|done|]. unfold JwksCache_new, fetch_and_store in Hc.
    destruct (se_fetch env p) as [doc|]; [|done]. simpl in Hc. exists doc. split; [done|].
    destruct (parse_jwks_keys doc); [|done]. by injection Hc as <-.
  - rewrite lookup_insert_ne by done. intros Hl. destruct (IH reg0 Hreg name c Hl) as (? & ? & ?).
    split_and!; [set_solver|done..].
Qed.

Lemma start_registry env st :
  start sha256_hex url_parse_ok yaml_from_str to_json schema_check env = Ok st →
  registry_ok env (ConfigState.config (config_state st)) [] (jwks_registry st).
Proof.
  unfold start. intros Hs.
  apply result_bind_Ok in Hs as (raw & _ & Hs). apply result_bind_Ok in Hs as (cfg & _ & Hs).
  apply result_bind_Ok in Hs as (_ & _ & Hs). apply result_bind_Ok in Hs as (written & _ & Hs).
  apply result_bind_Ok in Hs as (jwks & Hj & Hs). apply result_bind_Ok in Hs as (m & _ & Hs).
  apply result_bind_Ok in Hs as (engine & _ & Hs). apply result_bind_Ok in Hs as (x & _ & Hs).
  unfold build_state in Hs. destruct (Semaphore_new _); simplify_eq/=.
  unfold init_jwks in Hj.
  destruct (registry_from_config _ _ _) as [reg|] eqn:Hreg; simplify_eq/=.
  intros name c Hc. destruct (registry_from_config_ok _ _ _ _ Hreg name c Hc) as (? & ? & doc & ? & ?).
  split_and!; [done..|]. exists doc. split; [left; by exists (provider c)|done].
Qed.

(** The parts that say what is served decide consistency. *)
Lemma consistent_same st st' :
  config_state st' = config_state st → served_snapshot st' = served_snapshot st →
  served_runtime st' = served_runtime st → consistent st → consistent st'.
Proof. intros Hc Hs Hr. unfold AdminSpec.consistent, serves. by rewrite Hc, Hs, Hr. Qed.

(** A turn of a stream leaves the snapshot. *)
Lemma xds_step_snapshot e sys sys' :
  (∀ c t reads, e ≠ Xds.Rebuild c t reads) → xds_step e sys = Some sys' →
  snapshot (control_plane sys') = snapshot (control_plane sys).
Proof.
  intros Hne Hst. destruct e as [sid|sid msg|sid|sid|sid|sid|sid|c t reads]; simpl in Hst.
  - destruct (channels _ !! sid); by simplify_eq/=.
  - apply stream_event_inv in Hst as (t & tc & _ & Hf & ->). destruct (stream_phase t); simplify_eq/=.
    pose proof (begin_request_proj sid msg t (control_plane sys)) as Hb.
    destruct (Xds.begin_request sid msg t (control_plane sys)). by destruct Hb as (? & _).
  - apply stream_event_inv in Hst as (t & tc & _ & Hf & ->). by destruct (stream_phase t); simplify_eq/=.
  - apply stream_event_inv in Hst as (t & tc & _ & Hf & ->).
    destruct (stream_phase t) as [| |rs]; simplify_eq/=. unfold send_next in Hf.
    destruct rs as [|r rs]; [by simplify_eq/=|]. apply bind_Some in Hf as (c & _ & Hf).
    by destruct (send r c); simplify_eq/=.
  - apply bind_Some in Hst as (t & _ & Hst). destruct (stream_phase t); simplify_eq/=.
    apply end_stream_proj.
  - by apply channel_event_inv in Hst as (? & ? & _ & _ & ->).
  - by apply channel_event_inv in Hst as (? & ? & _ & _ & ->).
  - by destruct (Hne c t reads).
Qed.

Lemma ads_turn_keeps e g g' :
  ads_turn e g = Some g' →
  config_state (app g') = config_state (app g) ∧
  served_snapshot (app g') = served_snapshot (app g) ∧
  served_runtime (app g') = served_runtime (app g) ∧
  jwks_registry (app g') = jwks_registry (app g) ∧
  concurrency_limit (app g') = concurrency_limit (app g).
Proof.
  intros Ht. assert (∀ c t reads, e ≠ Xds.Rebuild c t reads) as Hne by (by intros c t reads ->).
  assert (∃ x sys, xds (app g) = Some x ∧
    xds_step e (mk_sys (lend_metrics (app_metrics (app g)) x) (streams g)) = Some sys ∧
    app g' = set_app_metrics (Xds.metrics (control_plane sys))
               (set_xds (Some (control_plane sys)) (app g))) as (x & sys & Hx & Hst & ->).
  { unfold ads_turn in Ht. destruct e; try done;
      apply bind_Some in Ht as (x & Hx & (sys & Hsys & [= <-])%bind_Some); eauto. }
  apply (xds_step_snapshot _ _ _ Hne) in Hst.
  unfold served_snapshot. simpl. rewrite Hx. simpl. split_and!; try done. by rewrite Hst.
Qed.

(** ** The invariant *)
Lemma life_start env db g0 : boot env db = Ok g0 → life_inv env g0 [] g0.
Proof.
  unfold gateway_start. intros (st & Hst & [= <-])%result_bind_Ok. split; simpl; [|by apply start_registry|done].
  by apply start_consistent in Hst.
Qed.

Lemma life_check env g0 evs i g :
  life_inv env g0 evs g → life_inv env g0 (evs ++ [Checked i]) (check_request i g).2.
Proof.
  intros [Hc Hr Hp]. unfold check_request.
  match goal with |- context [ExtAuthz.check ?n ?e ?h ?m ?p ?s] =>
    pose proof (check_permits n e h m p s) as Hperm; destruct (ExtAuthz.check n e h m p s) as [resp s'] end.
  split; simpl.
  - by eapply consistent_same; [..|exact Hc].
  - by apply registry_ok_app.
  - simpl in Hperm. congruence.
Qed.

Lemma life_admin env g0 evs aenv method path g :
  let ev := AdminRequest aenv method path in
  life_inv env g0 evs g → ∀ g', step ev g = Some g' → life_inv env g0 (evs ++ [ev]) g'.
Proof.
  intros ev [Hc Hr Hp] g' ([r st'] & Hreq & [= <-])%bind_Some.
  pose proof (admin_request_cases sha256_hex url_parse_ok yaml_from_str to_json schema_check
                text_encode utf8_error aenv method path (app g)) as Ha. rewrite Hreq in Ha. simpl.
  destruct Ha as [_ [[l ->]|(_ & _ & r' & Hrel)]].
  - split; simpl; [|by apply registry_ok_app|done]. by eapply consistent_same; [..|exact Hc].
  - destruct (reload_keeps_startup_services _ _ _ _ _ _ _ _ _ Hrel) as (Hj & _ & Hl & _).
    split; simpl; [by eapply reload_consistent|rewrite Hj; by apply registry_ok_app|by rewrite Hl].
Qed.

(** A fetch stores published keys, or leaves the cache. *)
Lemma registry_ok_fetch env cfg0 evs reg name reply now c :
  registry_ok env cfg0 evs reg → reg !! name = Some c →
  registry_ok env cfg0 (evs ++ [KeysFetched name reply now])
    (<[name := (fetch_and_store reply now c).2]> reg).
Proof.
  intros Hr Hl n c'. destruct (decide (n = name)) as [->|Hne].
  - rewrite lookup_insert_eq. intros [= <-].
    destruct (Hr name c Hl) as (Hin & Hn & doc & Hpub & Hdoc). unfold fetch_and_store.
    destruct (map_err JwksFetch reply ≫= parse_jwks_keys) as [keys|] eqn:Hk; simpl.
    + destruct reply as [doc'|]; [|done]. simpl in Hk. split_and!; [done..|]. exists doc'.
      split; [right; exists now; set_solver|done].
    + split_and!; [done..|]. exists doc. split; [by apply published_app|done].
  - rewrite lookup_insert_ne by done. apply registry_ok_app. exact Hr.
Qed.

Lemma life_fetched env g0 evs name reply now g :
  let ev := KeysFetched name reply now in
  life_inv env g0 evs g → ∀ g', step ev g = Some g' → life_inv env g0 (evs ++ [ev]) g'.
Proof.
  intros ev [Hc Hr Hp] g' (c & Hl & [= <-])%bind_Some.
  split; simpl; [by eapply consistent_same; [..|exact Hc]|by apply registry_ok_fetch|done].
Qed.

Lemma life_step env g0 evs ev g g' :
  life_inv env g0 evs g → step ev g = Some g' → life_inv env g0 (evs ++ [ev]) g'.
Proof.
  intros Hl Hs. destruct ev as [i|aenv method path|name reply now|e].
  - injection Hs as <-. by apply life_check.
  - by eapply life_admin.
  - by eapply life_fetched.
  - destruct Hl as [Hc Hr Hp]. apply ads_turn_keeps in Hs as (H1 & H2 & H3 & H4 & H5).
    split; [by eapply consistent_same|rewrite H4; by apply registry_ok_app|by rewrite H5].
Qed.

Lemma life_run env g0 evs evs' g g' :
  life_inv env g0 evs g → run evs' g = Some g' → life_inv env g0 (evs ++ evs') g'.
Proof.
  revert evs g. induction evs' as [|ev evs' IH]; intros evs g Hl Hr; simpl in Hr.
  - injection Hr as <-. by rewrite app_nil_r.
  - apply bind_Some in Hr as (g1 & Hs & Hr).
    rewrite (cons_middle ev evs evs'), (assoc_L (++)). eapply IH; [|exact Hr]. by eapply life_step.
Qed.

Lemma life_invariant env db g0 evs g :
  boot env db = Ok g0 → run evs g0 = Some g → life_inv env g0 evs g.
Proof. intros Hb Hr. change evs with ([] ++ evs). eapply life_run; [by eapply life_start|done]. Qed.

(** [C12] Whatever checks, admin requests, key fetches and ADS turns a control
    plane has handled, in whatever order: its active configuration is the
    validated content of the file whose digest it reports, its xDS snapshot and
    plugin chains are built from that configuration, every permit of the
    concurrency limit is back, and every cached key set belongs to a provider of
    the startup configuration and is one that this provider's endpoint
    returned. *)
Theorem gateway_invariant (env : start_env) (db : redis_db) (g0 g : Gateway)
    (evs : list gateway_event) :
  boot env db = Ok g0 → run evs g0 = Some g → life_inv env g0 evs g.
Proof. apply life_invariant. Qed.

(** A provider that only a reload configured stays unavailable until a
    restart: at any point of the life of the control plane, a request to a
    route that requires that provider (and that no plugin answers) is answered
    503 although it carries a token and the reload was answered with success, since the key caches are
    those of startup. *)
Theorem reloaded_provider_unavailable (env : start_env) (db : redis_db) (g0 g : Gateway)
    (evs : list gateway_event) (i : Incoming) (route : RouteConfig) (token : string) :
  boot env db = Ok g0 → run evs g0 = Some g →
  match_route (GatewayConfig.routes (active_config g)) (request_host (in_headers i)) (in_path i) =
    Some route →
  existsb (λ x, eq_ignore_ascii_case x (in_method i)) (RouteConfig.methods route) = true →
  RouteConfig.auth_required route = true →
  default "main" (RouteConfig.auth_provider route) ∉ (AuthProvider.name <$> providers (active_config g0)) →
  plugins_continue (request_view (in_clock i) (in_thread i) g) route
    (request_meta (in_headers i) (in_method i) (in_path i)) →
  extract_bearer (in_headers i) = Some (Valid token) →
  Http.status (check_request i g).1 = 503%Z.
Proof.
  intros Hb Hr Hm Hmeth Hreq Hnew Hpl Htok. destruct (life_invariant _ _ _ _ _ Hb Hr) as [_ Hreg _].
  unfold check_request.
  match goal with |- context [ExtAuthz.check ?n ?e ?h ?m ?p ?s] =>
    pose proof (check_answer n e h m p s) as Hans; destruct (ExtAuthz.check n e h m p s) as [resp s'] end.
  cbn [fst] in *.
  destruct Hans as [[_ ?]|(e' & s1 & -> & _ & _ & _ & _ & Hcfg & Hjw & Heng)]; [done|].
  eapply check_inner_no_cache; try done.
  - rewrite Hcfg. exact Hm.
  - intros p Hp. rewrite Heng in Hp. by apply Hpl.
  - rewrite Hjw. apply eq_None_not_Some. intros [c Hc]. apply Hnew.
    destruct (Hreg _ _ Hc) as (Hin & <- & _). apply list_elem_of_fmap. by exists (provider c).
Qed.
End life.

(** ** Witnesses

    A control plane that starts on one file, reloads another, fetches new keys
    and serves an Envoy, and then handles requests. *)
Import JwtModel LuaVmModel AdminModel.
Module GatewayModel.
#[export] Existing Instances YamlModel.yaml_model JwtModel.jwt_model LuaModel.lua_model
  HeaderModel.header_model LuaVmModel.lua_vm_model ProstModel.prost_model ProstModel.prost_model_laws.

(** A third file, with a provider, a route and a service that the first does
    not have. *)
Definition extra_provider : AuthProvider :=
  AuthProvider.mk "extra" "https://extra.example.local/" "api-gateway"
    "http://localhost:7002/.well-known/jwks.json" 300 30.
Definition extra_route : RouteConfig :=
  RouteConfig.mk "extra-api" ["api.example.com"] "/extra" ["GET"] true (Some "extra") (Some ["api.read"])
    (RouteRateLimit.mk 50 (f64_of_int 10) "sub") (UpstreamConfig.mk "extra" 1500 0) [].
Definition extra_service : ServiceConfig :=
  ServiceConfig.mk "extra" (ServiceConfig.endpoints sample_service) (ServiceConfig.health_check sample_service).
Definition extra_config : GatewayConfig :=
  GatewayConfig.mk 1 sample_server (AuthConfig.mk [sample_provider; extra_provider]) sample_rate_limits
    [sample_route; extra_route] [sample_service; extra_service] sample_observability
    (PluginsConfig.mk true "plugins" PluginLimits.PluginLimits_default [plugin_config])
    (XdsConfig.mk true "0.0.0.0:18000") ExtProcConfig.ExtProcConfig_default.
Definition parse_any (s : string) : result YamlError GatewayConfig :=
  if decide (s = "v3") then Ok extra_config else parse_file s.

Definition boot : result start_error Gateway :=
  gateway_start digest (λ _, true) parse_any no_json any_schema sample_start ∅.
Definition fallback : Gateway := mk_gateway start_fallback ∅ ∅ ∅ [] 0.
Definition booted : Gateway := unwrap_or fallback boot.

Definition reload_event (content : string) : gateway_event :=
  AdminRequest (mk_admin_env (sample_reload content) true Connected 0) "POST" "/config/reload".
Definition incoming (thread : nat) (path : string) : Incoming :=
  mk_incoming thread (λ _, 0%Z) 0 AuthzModel.env AuthzModel.headers "GET" path.
Definition run_from_boot (evs : list gateway_event) : option Gateway :=
  gateway_run digest (λ _, true) parse_any no_json any_schema (λ _, Ok EmptyString) (λ s, s) evs booted.

Definition life : list gateway_event :=
  [Checked (incoming 0 "/public/x"); AdsTurn (Xds.Open 0); reload_event "v2";
   KeysFetched "main" (Ok [JwksRawKey.mk "k1" "RSA" None "secret-1" "e"]) 10;
   Checked (incoming 1 "/private/data")].
Definition after_life : Gateway := default fallback (run_from_boot life).
Definition after_reload : Gateway := default fallback (run_from_boot [reload_event "v3"]).
End GatewayModel.
Import GatewayModel.

Lemma boot_ok : boot = Ok booted.
Proof. apply ok_unwrap_or. vm_compute. reflexivity. Qed.
Lemma life_ok : run_from_boot life = Some after_life.
Proof. apply some_default. vm_compute. reflexivity. Qed.
Lemma reload_ok : run_from_boot [reload_event "v3"] = Some after_reload.
Proof. apply some_default. vm_compute. reflexivity. Qed.

Lemma gateway_invariant_witness :
  life_inv digest (λ _, true) parse_any no_json any_schema sample_start booted life after_life.
Proof.
  exact (gateway_invariant digest (λ _, true) parse_any no_json any_schema (λ _, Ok EmptyString) (λ s, s)
           sample_start ∅ booted after_life life boot_ok life_ok).
Defined.

Lemma reloaded_provider_unavailable_witness :
  Http.status (check_request (incoming 0 "/extra/x") after_reload).1 = 503%Z.
Proof.
  apply (reloaded_provider_unavailable digest (λ _, true) parse_any no_json any_schema
    (λ _, Ok EmptyString) (λ s, s) sample_start ∅ booted after_reload [reload_event "v3"]
    (incoming 0 "/extra/x") extra_route "tok-1").
  - exact boot_ok.
  - exact reload_ok.
  - vm_compute. reflexivity.
  - reflexivity.
  - reflexivity.
  - apply (bool_decide_unpack _). vm_compute. exact I.
  - apply plugins_continueb_ok. vm_compute. reflexivity.
  - vm_compute. reflexivity.
Defined.
