(* ===== verification/Concurrent.v ===== *)
(** * Requests in flight

    The handlers of the control plane run concurrently and give way to each
    other at their awaits.  Here [check] ([extauthz/handler.rs]) and
    [config_reload] ([admin/handlers.rs]) become tasks beside the shared state
    of [Gateway].  A reload is cut where it waits for the plugin runtime, for
    the snapshot, at every send of its broadcast and for the configuration; a
    check where it waits for the configuration, before its plugins, before its
    authentication, where that waits for fresh keys, and before its rate
    limiting.  A send waits while the channel of its Envoy is full, so a reload
    may be unable to move until that Envoy receives; the guard that a broadcast
    holds on a shard of the registry meanwhile is not modelled, and an Envoy may
    register there where the code would make it wait.  A step is a turn of one
    task on some worker thread, the arrival of a request, a key fetch, a turn of an
    ADS stream, or the end of a task whose client has gone, which drops the
    task where it stands.

    Two awaits stay inside a stretch: the exchange with Redis, whose script is
    atomic, and the log phase of the plugins, which touches the machine of its
    own thread.  How long a check waits for fresh keys is left open here; [Live]
    adds the notifier and the refresh loops that decide it.

    The configuration is guarded by a fair read-write lock: a check holds the
    read guard from its first look at the configuration to its answer, a reload
    takes the write guard for its last, uninterrupted, stretch. *)
From S2P Require Import Prelude RustStr F64 Yaml ConfigTypes Validation RateLimit Auth.
From S2P Require Import Observability Plugins Http ExtAuthz XdsResources Xds Admin Server Gateway.

(** ** The lock ([tokio::sync::RwLock])

    Tasks queue in the order of their requests, and the head of the queue is
    served as soon as its mode allows.  A write guard is given back within the
    turn that takes it, so it is never seen from outside. *)
Module RwLock.
Inductive mode := Read | Write.
Record RwLock := mk { readers : gset nat; queue : list (nat * mode) }.

Definition new : RwLock := mk ∅ [].
Definition request (t : nat) (m : mode) (l : RwLock) : RwLock := mk (readers l) (queue l ++ [(t, m)]).
Definition acquire (t : nat) (l : RwLock) : option RwLock :=
  match queue l with
  | [] => None
  | (t', m) :: q =>
      if bool_decide (t' = t) then
        match m with
        | Read => Some (mk ({[t]} ∪ readers l) q)
        | Write => if bool_decide (readers l = ∅) then Some (mk ∅ q) else None
        end
      else None
  end.
(** A guard is dropped, or the wait for one is. *)
Definition release (t : nat) (l : RwLock) : RwLock :=
  mk (readers l ∖ {[t]}) (filter (λ x, x.1 ≠ t) (queue l)).
End RwLock.

Section concurrent.
Context `{D : DashMapLib} `{Y : YamlLib} `{P : ProstLib} `{V : LuaVm} `{J : JwtLib} `{L : LuaLib} `{H : HeaderLib}.
Context (sha256_hex : string → string).
Context (url_parse_ok : string → bool) (yaml_from_str : string → result YamlError GatewayConfig).
Context (to_json : Value → JsonValue) (schema_check : JsonValue → JsonValue → result string unit).

(** ** The stretches of a reload between its awaits *)

(** [config_reload] up to the call of [apply_config_reload]. *)
Definition reload_load (env : reload_env) (st : AppState) : result string (string * GatewayConfig) :=
  match re_read env with
  | Err error => Err ("failed to read " +:+ config_path st +:+ ": " +:+ error)
  | Ok raw =>
      match load_config_from_str url_parse_ok yaml_from_str (from_utf8_lossy raw) with
      | Ok new_config => Ok (raw, new_config)
      | Err errors => Err (ConfigErrors_to_string errors)
      end
  end.

(** [PluginEngine::reload_from_config] before it waits for the runtime's lock;
    [None] without an engine. *)
Definition take_runtime (env : reload_env) (new_config : GatewayConfig) (st : AppState)
    : result PluginError (option PluginRuntime) * AppState :=
  match plugin_engine st with
  | None => (Ok None, st)
  | Some e =>
      let gen := next_generation e in
      let st := Admin.set_plugin_engine (Some (mk_engine (runtime e) (gen +u64 1)%mach)) st in
      (Some <$> build_runtime to_json schema_check (re_dir_exists env) (re_load env)
                  (re_read_dir env) new_config gen, st)
  end.
(** [replace_runtime] *)
Definition put_runtime (rt : PluginRuntime) (st : AppState) : AppState :=
  Admin.set_plugin_engine ((λ e, mk_engine rt (next_generation e)) <$> plugin_engine st) st.

(** [rebuild_from_config] before it waits for the snapshot's lock. *)
Definition take_snapshot (new_config : GatewayConfig) (st : AppState)
    : result Resources.ResourceError (option XdsSnapshot) * AppState :=
  match xds st with
  | None => (Ok None, st)
  | Some cp =>
      let '(version, vs) := VersionCounter.increment (versions cp) in
      let cp := mk_cp (snapshot cp) vs (connections cp) (status_cells cp) (channels cp)
                  (app_metrics st) in
      match XdsSnapshot.build new_config version with
      | Err e => (Err e, set_xds (Some cp) st)
      | Ok s =>
          (Ok (Some s),
           set_app_metrics (set_xds_snapshot_version (as_i64 version) (app_metrics st))
             (set_xds (Some cp) st))
      end
  end.
Definition with_xds (f : XdsControlPlane → XdsControlPlane) (st : AppState) : AppState :=
  match xds st with
  | None => st
  | Some cp =>
      let cp := f (lend_metrics (app_metrics st) cp) in
      set_app_metrics (Xds.metrics cp) (set_xds (Some cp) st)
  end.
Definition put_snapshot (s : XdsSnapshot) : AppState → AppState := with_xds (λ cp,
  mk_cp s (versions cp) (connections cp) (status_cells cp) (channels cp) (Xds.metrics cp)).
(** A turn of the broadcast, [None] while it waits; at its end the push is
    recorded. *)
Definition push_snapshot (env : reload_env) (s : XdsSnapshot) (p : Push) (st : AppState)
    : option (option Push * AppState) :=
  match xds st with
  | None => Some (None, st)
  | Some cp =>
      r ← push_turn (XdsSnapshot.ordered_responses s) p (lend_metrics (app_metrics st) cp);
      let '(p, cp) := r in
      let cp := match p with
                | Some _ => cp
                | None => set_metrics (record_xds_push (re_elapsed env)) cp
                end in
      Some (p, set_app_metrics (Xds.metrics cp) (set_xds (Some cp) st))
  end.

(** The end of [apply_config_reload], under the write guard. *)
Definition commit_reload (env : reload_env) (raw : string) (new_config : GatewayConfig) (st : AppState)
    : option ReloadResponse * AppState :=
  let new_sha := sha256_hex raw in
  let previous_sha := ConfigState.sha256 (config_state st) in
  let st := set_config_state (ConfigState.mk new_config new_sha (re_now env) ReloadedOk None) st in
  let st := set_app_metrics (record_config_reload "success" (app_metrics st)) st in
  match regenerate_envoy env st with
  | None => (None, st)
  | Some st => (Some (ReloadSuccess previous_sha new_sha (re_now env)), st)
  end.

(** ** The stretches of a check between its awaits *)
Section check.
Context `{Hp : PluginHost}.

Definition meta_of (headers : HeaderMap) (method path : string) : meta :=
  mk_meta_ headers (default "*" (header_str headers "host")) method path (client_ip headers false).

(** From the read guard to the plugins: an answer, or the route. *)
Definition check_route (e : req_env) (m : meta) (cfg : GatewayConfig)
    : st App (result Response RouteConfig) :=
  match match_route (GatewayConfig.routes cfg) (m_host m) (m_path m) with
  | None =>
      emit_log e m EmptyString 200 None "none" EmptyString ;;;
      record e m EmptyString 200 ;;;
      st_ret (Err (allow_response hm_new (e_request_id e)))
  | Some route =>
      if negb (existsb (λ x, eq_ignore_ascii_case x (m_method m)) (RouteConfig.methods route))
      then resp <-- method_denied e m route ;; st_ret (Err resp)
      else st_ret (Ok route)
  end.

(** [apply_auth] up to its wait for fresh keys, with the token, the provider and
    the cache in hand there. *)
Definition auth_begin (e : req_env) (cfg : GatewayConfig) (route : RouteConfig)
    (headers response_headers : HeaderMap)
    : st App (result AuthDeny (HeaderMap * option string + string * AuthProvider * JwksCache)) :=
  if negb (RouteConfig.auth_required route) then st_ret (Ok (inl (response_headers, None)))
  else
    subject <-- auth_credentials cfg route headers ;;
    match subject with
    | Err deny => st_ret (Err deny)
    | Ok (token, p, c) =>
        match validate_cached (e_now_secs e) (e_instant e) token p c (required_scopes_of route) with
        | None => st_ret (Ok (inr (token, p, c)))
        | Some r => v <-- auth_verdict route response_headers r ;; st_ret (inl <$> v)
        end
    end.

(** From there on: the cache in hand is read as it is now. *)
Definition auth_resume (e : req_env) (route : RouteConfig) (response_headers : HeaderMap)
    (token : string) (p : AuthProvider) (c : JwksCache)
    : st App (result AuthDeny (HeaderMap * option string)) :=
  registry <-- st_gets ExtAuthz.jwks_registry ;;
  auth_verdict route response_headers
    (validate_token (e_now_again e) token p
       (get_keys (default c (registry_get registry (AuthProvider.name p)))) (required_scopes_of route)).

(** The denial an authentication may end in. *)
Definition or_deny {A} (e : req_env) (m : meta) (route : RouteConfig) (request : PluginRequest)
    (auth : st App (result AuthDeny A)) : st App (result Response A) :=
  r <-- auth ;;
  match r with
  | Err deny =>
      run_plugin_log request (deny_status deny) ;;;
      resp <-- early_deny e m route (deny_status deny) (deny_code deny) ;;
      st_ret (Err resp)
  | Ok ok => st_ret (Ok ok)
  end.
Definition check_auth (e : req_env) (m : meta) (cfg : GatewayConfig) (route : RouteConfig)
    (request : PluginRequest) (response_headers : HeaderMap) :=
  or_deny e m route request (auth_begin e cfg route (m_headers m) response_headers).
Definition check_refresh (e : req_env) (m : meta) (route : RouteConfig) (request : PluginRequest)
    (response_headers : HeaderMap) (token : string) (p : AuthProvider) (c : JwksCache) :=
  or_deny e m route request (auth_resume e route response_headers token p c).

(** What [check] does before and after [check_inner]. *)
Definition check_begin (nanos : Z) : st App (result Response string) := λ s,
  let '(request_id, n) := generate_request_id nanos (request_counter s) in
  let s := set_request_counter n s in
  match ExtAuthz.begin_request s with
  | None => (Err (overload_response request_id), (modify_metrics record_overload s).2)
  | Some s => (Ok request_id, s)
  end.
Definition check_end (e : req_env) (headers : HeaderMap) (result : Response) : st App Response := λ s,
  (if ExtAuthz.tracing_enabled s
   then mk_response (Http.status result)
          (inject_otel_context (e_propagate e (extractor_get headers) (extractor_keys headers))
             (Http.headers result)) (Http.body result)
   else result,
   end_request s).
End check.

(** ** Tasks *)
Inductive reload_phase :=
  | RLoad
  | RPlugins (raw : string) (cfg : GatewayConfig)
  | RRuntime (raw : string) (cfg : GatewayConfig) (rt : PluginRuntime)
  | RXds (raw : string) (cfg : GatewayConfig)
  | RSnapshot (raw : string) (cfg : GatewayConfig) (s : XdsSnapshot)
  | RBroadcast (raw : string) (cfg : GatewayConfig) (s : XdsSnapshot) (p : Push)
  | RCommit (raw : string) (cfg : GatewayConfig)    (* waits for the write guard *)
  | RRefuse (error_msg : string).                   (* waits for the write guard *)

Inductive check_phase :=
  | CLock                                           (* waits for the read guard *)
  | CPlugins (cfg : GatewayConfig) (route : RouteConfig)
  | CAuth (cfg : GatewayConfig) (route : RouteConfig) (request : PluginRequest)
      (upstream_headers : gmap string string) (response_headers : HeaderMap)
  | CRefresh (cfg : GatewayConfig) (route : RouteConfig) (request : PluginRequest)
      (upstream_headers : gmap string string) (response_headers : HeaderMap)
      (token : string) (p : AuthProvider) (c : JwksCache)      (* waits for fresh keys *)
  | CLimit (cfg : GatewayConfig) (route : RouteConfig) (request : PluginRequest)
      (upstream_headers : gmap string string) (response_headers : HeaderMap) (sub : option string).

Inductive task :=
  | Reload (env : reload_env) (p : reload_phase)
  | Check (i : Incoming) (p : check_phase).

Inductive answer :=
  | ReloadAnswered (r : option ReloadResponse)
  | CheckAnswered (resp : Response).

Record Conc := mk_conc {
  gateway : Gateway;
  config_lock : RwLock.RwLock;
  tasks : gmap nat task;
  answers : list (nat * answer)
}.

Definition set_task (t : nat) (k : task) (c : Conc) : Conc :=
  mk_conc (gateway c) (config_lock c) (<[t := k]> (tasks c)) (answers c).
Definition set_lock (l : RwLock.RwLock) (c : Conc) : Conc :=
  mk_conc (gateway c) l (tasks c) (answers c).
Definition set_gateway (g : Gateway) (c : Conc) : Conc :=
  mk_conc g (config_lock c) (tasks c) (answers c).
Definition set_state (st : AppState) (c : Conc) : Conc := set_gateway (set_app st (gateway c)) c.

(** The task answers and is gone, with its guard. *)
Definition finish (t : nat) (a : answer) (c : Conc) : Conc :=
  mk_conc (gateway c) (RwLock.release t (config_lock c)) (delete t (tasks c)) (answers c ++ [(t, a)]).
(** The task queues for the lock. *)
Definition wait_for (t : nat) (m : RwLock.mode) (k : task) (c : Conc) : Conc :=
  set_task t k (set_lock (RwLock.request t m (config_lock c)) c).

Definition refuse (t : nat) (env : reload_env) (error_msg : string) : Conc → Conc :=
  wait_for t RwLock.Write (Reload env (RRefuse error_msg)).

Definition reload_turn (t : nat) (env : reload_env) (p : reload_phase) (c : Conc) : option Conc :=
  let st := app (gateway c) in
  let goto p := set_task t (Reload env p) in
  match p with
  | RLoad =>
      Some (match reload_load env st with
            | Ok (raw, cfg) => goto (RPlugins raw cfg) c
            | Err error_msg => refuse t env error_msg c
            end)
  | RPlugins raw cfg =>
      let '(r, st) := take_runtime env cfg st in
      let c := set_state st c in
      Some (match r with
            | Err e => refuse t env (PluginError_to_string e) c
            | Ok None => goto (RXds raw cfg) c
            | Ok (Some rt) => goto (RRuntime raw cfg rt) c
            end)
  | RRuntime raw cfg rt => Some (goto (RXds raw cfg) (set_state (put_runtime rt st) c))
  | RXds raw cfg =>
      let '(r, st) := take_snapshot cfg st in
      let c := set_state st c in
      Some (match r with
            | Err e => refuse t env (Resources.ResourceError_to_string e) c
            | Ok None => wait_for t RwLock.Write (Reload env (RCommit raw cfg)) c
            | Ok (Some s) => goto (RSnapshot raw cfg s) c
            end)
  | RSnapshot raw cfg s => Some (goto (RBroadcast raw cfg s push_start) (set_state (put_snapshot s st) c))
  | RBroadcast raw cfg s p =>
      r ← push_snapshot env s p st;
      let '(p, st) := r in
      let c := set_state st c in
      Some (match p with
            | Some p => goto (RBroadcast raw cfg s p) c
            | None => wait_for t RwLock.Write (Reload env (RCommit raw cfg)) c
            end)
  | RCommit raw cfg =>
      l ← RwLock.acquire t (config_lock c);
      let '(r, st) := commit_reload env raw cfg st in
      Some (finish t (ReloadAnswered r) (set_state st (set_lock l c)))
  | RRefuse error_msg =>
      l ← RwLock.acquire t (config_lock c);
      let '(r, st) := reload_validation_error (re_now env) error_msg st in
      Some (finish t (ReloadAnswered (Some r)) (set_state st (set_lock l c)))
  end.

(** A computation of the check on a worker thread. *)
Definition on_thread {A} (thread : nat) (clock : nat → Z) (m : st (App (P := engine_host clock)) A)
    (g : Gateway) : A * Gateway :=
  let '(a, s) := m (request_view clock thread g) in (a, absorb clock thread s g).

(** The end of a check, after the answer of [check_inner]. *)
Definition answer_check (t thread : nat) (clock : nat → Z) (i : Incoming) (resp : Response) (c : Conc)
    : Conc :=
  let '(resp, g) := on_thread thread clock
    (check_end (Hp := engine_host clock) (in_env i) (in_headers i) resp) (gateway c) in
  finish t (CheckAnswered resp) (set_gateway g c).

(** A turn of a check; between two awaits it stays on one thread. *)
Definition check_turn (t thread : nat) (clock : nat → Z) (i : Incoming) (p : check_phase) (c : Conc)
    : option Conc :=
  let e := in_env i in
  let m := meta_of (in_headers i) (in_method i) (in_path i) in
  let goto p := set_task t (Check i p) in
  let run {A} (f : st (App (P := engine_host clock)) A) g := on_thread thread clock f g in
  match p with
  | CLock =>
      l ← RwLock.acquire t (config_lock c);
      let c := set_lock l c in
      let cfg := active_config (gateway c) in
      let '(r, g) := run (check_route (Hp := engine_host clock) e m cfg) (gateway c) in
      let c := set_gateway g c in
      Some (match r with
            | Err resp => answer_check t thread clock i resp c
            | Ok route => goto (CPlugins cfg route) c
            end)
  | CPlugins cfg route =>
      let '(r, g) := run (execute_access_plugins (P := engine_host clock) e route m hm_new) (gateway c) in
      let c := set_gateway g c in
      Some (match r with
            | Err resp => answer_check t thread clock i resp c
            | Ok (request, up, rh) => goto (CAuth cfg route request up rh) c
            end)
  | CAuth cfg route request up rh =>
      let '(r, g) := run (check_auth (Hp := engine_host clock) e m cfg route request rh) (gateway c) in
      let c := set_gateway g c in
      Some (match r with
            | Err resp => answer_check t thread clock i resp c
            | Ok (inl (rh, sub)) => goto (CLimit cfg route request up rh sub) c
            | Ok (inr (token, p, ca)) => goto (CRefresh cfg route request up rh token p ca) c
            end)
  | CRefresh cfg route request up rh token p ca =>
      let '(r, g) := run (check_refresh (Hp := engine_host clock) e m route request rh token p ca)
                       (gateway c) in
      let c := set_gateway g c in
      Some (match r with
            | Err resp => answer_check t thread clock i resp c
            | Ok (rh, sub) => goto (CLimit cfg route request up rh sub) c
            end)
  | CLimit cfg route request up rh sub =>
      let '(resp, g) := run (limit_and_finish (P := engine_host clock) e cfg route m request up rh sub)
                          (gateway c) in
      Some (answer_check t thread clock i resp (set_gateway g c))
  end.

(** ** Events *)
Inductive conc_event :=
  | ReloadArrives (t : nat) (env : reload_env)
  | CheckArrives (t : nat) (i : Incoming)
  | Turn (t thread : nat) (clock : nat → Z)
  | ClientGone (t : nat)
  | KeyFetch (provider_name : string) (reply : result string JwksDocument) (now : Z)
  | AdsEvent (e : Xds.event).

Definition with_id (id : string) (i : Incoming) : Incoming :=
  mk_incoming (in_thread i) (in_clock i) (in_nanos i) (with_request_id id (in_env i)) (in_headers i)
    (in_method i) (in_path i).

Definition check_arrives (t : nat) (i : Incoming) (c : Conc) : Conc :=
  let '(r, g) := on_thread (in_thread i) (in_clock i)
    (check_begin (Hp := engine_host (in_clock i)) (in_nanos i)) (gateway c) in
  let c := set_gateway g c in
  match r with
  | Err resp => mk_conc (gateway c) (config_lock c) (tasks c) (answers c ++ [(t, CheckAnswered resp)])
  | Ok id => wait_for t RwLock.Read (Check (with_id id i) CLock) c
  end.

(** A task whose client has gone is dropped at its await: its permit and its
    guards go back, nothing else of it runs. *)
Definition drop_task (t : nat) (k : task) (c : Conc) : Conc :=
  let g := gateway c in
  let g := match k with
           | Reload _ _ => g
           | Check _ _ => set_app (set_concurrency_limit (concurrency_limit (app g) + 1) (app g)) g
           end in
  mk_conc g (RwLock.release t (config_lock c)) (delete t (tasks c)) (answers c).

Definition conc_step (ev : conc_event) (c : Conc) : option Conc :=
  match ev with
  | ReloadArrives t env =>
      match tasks c !! t with
      | Some _ => None
      | None => Some (set_task t (Reload env RLoad) c)
      end
  | CheckArrives t i =>
      match tasks c !! t with
      | Some _ => None
      | None => Some (check_arrives t i c)
      end
  | Turn t thread clock =>
      k ← tasks c !! t;
      match k with
      | Reload env p => reload_turn t env p c
      | Check i p => check_turn t thread clock i p c
      end
  | ClientGone t => k ← tasks c !! t; Some (drop_task t k c)
  | KeyFetch name reply now => g ← key_fetch name reply now (gateway c); Some (set_gateway g c)
  | AdsEvent e => g ← ads_turn e (gateway c); Some (set_gateway g c)
  end.

Fixpoint conc_run (evs : list conc_event) (c : Conc) : option Conc :=
  match evs with
  | [] => Some c
  | ev :: evs => c' ← conc_step ev c; conc_run evs c'
  end.

Definition conc_start (g : Gateway) : Conc := mk_conc g RwLock.new ∅ [].
End concurrent.
