(* ===== verification/Live.v ===== *)
(** * The control plane with its key refresh loops

    [Concurrent] leaves open when a check that waits for fresh keys goes on.
    Here the notifiers and the refresh loops of [Refresh] run beside the
    requests: the keys of a provider change only when its loop ends a fetch, and
    a check waits until it is notified or its five seconds are over. *)
From S2P Require Import Prelude RustStr F64 Yaml ConfigTypes Validation RateLimit Auth Refresh.
From S2P Require Import Observability Plugins Http ExtAuthz XdsResources Xds Admin Server Gateway Concurrent.

Section live.
Context `{D : DashMapLib} `{Y : YamlLib} `{P : ProstLib} `{V : LuaVm} `{J : JwtLib} `{L : LuaLib} `{H : HeaderLib}.
Context (sha256_hex : string → string).
Context (url_parse_ok : string → bool) (yaml_from_str : string → result YamlError GatewayConfig).
Context (to_json : Value → JsonValue) (schema_check : JsonValue → JsonValue → result string unit).
Notation step := (conc_step sha256_hex url_parse_ok yaml_from_str to_json schema_check).

Record Live := mk_live {
  conc : Conc;
  refreshers : gmap string refresher    (* by provider name, like the key caches *)
}.

(** The provider whose keys a task waits for. *)
Definition waiting_for (c : Conc) (t : nat) : option string :=
  match tasks c !! t with
  | Some (Check _ (CRefresh _ _ _ _ _ _ p _)) => Some (AuthProvider.name p)
  | _ => None
  end.

Inductive live_event :=
  | Request (ev : conc_event)
  | TimeUp (t thread : nat) (clock : nat → Z)      (* the timeout of a wait for keys *)
  | Loop (provider_name : string) (ev : loop_event).

Definition set_refresher (name : string) (r : refresher) (c : Conc) (l : Live) : Live :=
  mk_live c (<[name := r]> (refreshers l)).

(** A turn of a task.  A check that finds a key id unknown asks for a refresh and
    waits; when the wait is over at once it goes on in the same turn. *)
Definition task_turn (t thread : nat) (clock : nat → Z) (l : Live) : option Live :=
  match waiting_for (conc l) t with
  | Some name =>
      r ← refreshers l !! name;
      n ← Notify.polled (S t) (notify r);
      c ← step (Turn t thread clock) (conc l);
      Some (set_refresher name (set_notify n r) c l)
  | None =>
      c ← step (Turn t thread clock) (conc l);
      match waiting_for c t with
      | None => Some (mk_live c (refreshers l))
      | Some name =>
          r ← refreshers l !! name;
          let '(ready, r) := request_refresh t r in
          if ready then
            c ← step (Turn t thread clock) c;
            Some (set_refresher name r c l)
          else Some (set_refresher name r c l)
      end
  end.

(** The wait of task [t], if there is one, is dropped. *)
Definition drop_wait (t : nat) (c : Conc) (l : Live) : Live :=
  match name ← waiting_for (conc l) t; r ← refreshers l !! name; Some (name, r) with
  | Some (name, r) => set_refresher name (set_notify (Notify.dropped (S t) (notify r)) r) c l
  | None => mk_live c (refreshers l)
  end.

Definition live_step (ev : live_event) (l : Live) : option Live :=
  match ev with
  | Request (Turn t thread clock) => task_turn t thread clock l
  | Request (ClientGone t) => c ← step (ClientGone t) (conc l); Some (drop_wait t c l)
  | Request (KeyFetch _ _ _) => None                           (* only the loops fetch *)
  | Request ev => c ← step ev (conc l); Some (mk_live c (refreshers l))
  | TimeUp t thread clock =>
      name ← waiting_for (conc l) t;
      r ← refreshers l !! name;
      if bool_decide (S t ∈ Notify.waiters (notify r)) then
        c ← step (Turn t thread clock) (conc l); Some (drop_wait t c l)
      else None
  | Loop name ev =>
      r ← refreshers l !! name;
      r' ← loop_turn ev r;
      match ev with
      | FetchEnds reply now _ =>
          c ← step (KeyFetch name reply now) (conc l); Some (set_refresher name r' c l)
      | _ => Some (set_refresher name r' (conc l) l)
      end
  end.

Fixpoint live_run (evs : list live_event) (l : Live) : option Live :=
  match evs with
  | [] => Some l
  | ev :: evs => l' ← live_step ev l; live_run evs l'
  end.

(** Startup spawns a loop per key cache. *)
Definition live_start (g : Gateway) : Live :=
  mk_live (conc_start g) (spawn_all_refresh_loops (jwks_registry (app g))).
End live.
