(* ===== verification/ConcurrentSpec.v ===== *)
(** * The stretches of a check compose to its handler

    A check whose turns are not interrupted by other requests does what
    [ExtAuthz.check] does, with the same answer and the same state; the lemmas
    on the stretches and the lock are shared with the files on interleavings. *)
From S2P Require Import Prelude RustStr F64 Yaml ConfigTypes Validation Samples ValidationSpec.
From S2P Require Import RateLimit RateLimitSpec Auth AuthSpec Observability Plugins PluginsSpec Http ExtAuthz ExtAuthzSpec ExtAuthzResponses.
From S2P Require Import XdsResources XdsResourcesSpec Xds XdsSpec Admin AdminSpec Server ServerSpec Gateway GatewaySpec Concurrent.

(** ** The lock *)
Lemma acquire_sole t m :
  RwLock.acquire t (RwLock.request t m RwLock.new) =
  Some (match m with RwLock.Read => RwLock.mk {[t]} [] | RwLock.Write => RwLock.new end).
Proof.
  unfold RwLock.acquire. simpl. rewrite bool_decide_eq_true_2 by done. destruct m; simpl.
  - by rewrite (right_id_L ∅ (∪)).
  - by rewrite bool_decide_eq_true_2.
Qed.
Lemma release_new t : RwLock.release t RwLock.new = RwLock.new.
Proof. unfold RwLock.release, RwLock.new. simpl. f_equal. set_solver. Qed.

(** ** A check in one piece *)
Section check_cut.
Context `{Y : YamlLib} `{J : JwtLib} `{L : LuaLib} `{H : HeaderLib} `{Hp : PluginHost}.

(** The stretches of the check, one after the other: a stretch answers, or the
    rest goes on with what it found. *)
Definition or_answer {A} (m : st App (result Response A)) (k : A → st App Response) : st App Response :=
  r <-- m ;; match r with Err resp => st_ret resp | Ok a => k a end.
Definition after_auth (e : req_env) (m : meta) (cfg : GatewayConfig) (route : RouteConfig)
    (request : PluginRequest) (up : gmap string string) (rh : HeaderMap)
    (a : HeaderMap * option string + string * AuthProvider * JwksCache) : st App Response :=
  match a with
  | inl (rh, sub) => limit_and_finish e cfg route m request up rh sub
  | inr (token, p, c) =>
      or_answer (check_refresh e m route request rh token p c)
        (λ '(rh, sub), limit_and_finish e cfg route m request up rh sub)
  end.
Definition after_plugins (e : req_env) (m : meta) (cfg : GatewayConfig) (route : RouteConfig)
    (x : PluginRequest * gmap string string * HeaderMap) : st App Response :=
  let '(request, up, rh) := x in
  or_answer (check_auth e m cfg route request rh) (after_auth e m cfg route request up rh).
Definition after_route (e : req_env) (m : meta) (cfg : GatewayConfig) (route : RouteConfig)
    : st App Response :=
  or_answer (execute_access_plugins e route m hm_new) (after_plugins e m cfg route).
Definition check_inner_stretches (e : req_env) (m : meta) (cfg : GatewayConfig) : st App Response :=
  or_answer (check_route e m cfg) (after_route e m cfg).
Definition check_stretches (nanos : Z) (e : req_env) (headers : HeaderMap) (method path : string)
    : st App Response :=
  r <-- check_begin nanos ;;
  match r with
  | Err resp => st_ret resp
  | Ok id =>
      cfg <-- st_gets ExtAuthz.config ;;
      resp <-- check_inner_stretches (with_request_id id e) (meta_of headers method path) cfg ;;
      check_end (with_request_id id e) headers resp
  end.

Lemma bind_ext {A B} (m : st App A) (k k' : A → st App B) s :
  (∀ a s', k a s' = k' a s') → st_bind m k s = st_bind m k' s.
Proof. intros Hk. unfold st_bind. destruct (m s). apply Hk. Qed.

(** The authentication in one piece, when the keys stay as they are. *)
Lemma apply_auth_cut e cfg route headers rh s :
  e_fetches e = [] →
  apply_auth e cfg route headers rh s =
    (a <-- auth_begin e cfg route headers rh ;;
     match a with
     | Err deny => st_ret (Err deny)
     | Ok (inl ok) => st_ret (Ok ok)
     | Ok (inr (token, p, c)) => auth_resume e route rh token p c
     end) s.
Proof.
  intros Hre. unfold apply_auth, auth_begin. destruct (negb _); [done|].
  pose proof (credentials_spec cfg route headers s) as Hc. unfold st_bind at 1 2 3.
  destruct (auth_credentials _ _ _ s) as [[[[token p] c]|deny] s']; [|done].
  destruct Hc as (-> & _ & Hpr & Hc). rewrite <-(provider_of_name _ _ _ Hpr) in Hc.
  unfold validate_with_refresh. destruct (validate_cached _ _ _ _ _ _) as [r|].
  - unfold st_bind. by destruct r.
  - unfold auth_resume, st_bind, st_gets, st_ret, registry_get. unfold refreshed. by rewrite Hc, Hre.
Qed.

Lemma auth_cut e m cfg route req up rh s :
  e_fetches e = [] →
  (auth <-- apply_auth e cfg route (m_headers m) rh ;;
   match auth with
   | Err deny =>
       run_plugin_log req (deny_status deny) ;;;
       early_deny e m route (deny_status deny) (deny_code deny)
   | Ok (rh, sub) => limit_and_finish e cfg route m req up rh sub
   end) s = after_plugins e m cfg route (req, up, rh) s.
Proof.
  intros Hre. unfold st_bind at 1. rewrite apply_auth_cut by done.
  unfold after_plugins, or_answer, check_auth, or_deny, after_auth, check_refresh, or_answer, or_deny, st_bind, st_ret.
  destruct (auth_begin _ _ _ _ _ s) as [[[[rh' sub]|[[token p] c]]|deny] s1]; [done|destruct (auth_resume _ _ _ _ _ _ s1) as [[[rh' sub]|deny] s2]; [done|]|].
  all: destruct (run_plugin_log _ _ _) as [[] s3]; by destruct (early_deny _ _ _ _ _ s3).
Qed.

Lemma check_inner_cut e headers method path s :
  e_fetches e = [] →
  check_inner e headers method path s =
    check_inner_stretches e (meta_of headers method path) (ExtAuthz.config s) s.
Proof.
  intros Hre.
  unfold check_inner, check_inner_stretches, check_route. unfold st_bind at 1, st_gets.
  fold (meta_of headers method path). cbn [m_host m_path m_method meta_of].
  destruct (match_route _ _ _) as [route|]; [|done].
  destruct (negb _); [by unfold or_answer, st_bind; destruct (method_denied _ _ _ _)|].
  change (or_answer (st_ret (Ok route)) ?k s) with (k route s). unfold after_route, or_answer.
  apply bind_ext. intros [[[req up] rh]|resp] s'; [|done].
  by apply (auth_cut e (meta_of headers method path)).
Qed.

Lemma check_cut nanos e headers method path s :
  e_fetches e = [] →
  check nanos e headers method path s = check_stretches nanos e headers method path s.
Proof.
  intros Hre. unfold check, check_stretches, check_begin. unfold st_bind at 1.
  destruct (generate_request_id _ _) as [id n]. destruct (ExtAuthz.begin_request _) as [s1|]; [|done].
  unfold st_bind at 1, st_gets. unfold st_bind at 1. rewrite <-check_inner_cut by done.
  by destruct (check_inner _ _ _ _ s1).
Qed.
End check_cut.

(** ** What the stretches of a check leave alone

    They read the configuration, the key caches, the tracing flag and the plugin
    chains, and write none of them. *)
Section kept.
Context `{Y : YamlLib} `{V : LuaVm} `{J : JwtLib} `{L : LuaLib} `{H : HeaderLib}.
Context (clock : nat → Z).
Local Instance host : PluginHost := engine_host clock.

Record kept (s s' : App (P := host)) : Prop := {
  kept_config : ExtAuthz.config s' = ExtAuthz.config s;
  kept_jwks : ExtAuthz.jwks_registry s' = ExtAuthz.jwks_registry s;
  kept_tracing : ExtAuthz.tracing_enabled s' = ExtAuthz.tracing_enabled s;
  kept_runtime : fst <$> ExtAuthz.plugin_engine s' = fst <$> ExtAuthz.plugin_engine s
}.

Class Kept {A} (m : st (App (P := host)) A) : Prop := is_kept : ∀ s, kept s (m s).2.

Global Instance Kept_ret {A} (a : A) : Kept (st_ret a).
Proof. done. Qed.
Global Instance Kept_gets {A} (f : App → A) : Kept (st_gets f).
Proof. done. Qed.
Global Instance Kept_bind {A B} (m : st App A) (k : A → st App B) :
  Kept m → (∀ a, Kept (k a)) → Kept (st_bind m k).
Proof.
  intros Hm Hk s. unfold st_bind. specialize (Hm s). destruct (m s) as [a s']. simpl in Hm.
  destruct Hm, (Hk a s'). split; congruence.
Qed.
Global Instance Kept_metrics f : Kept (modify_metrics f).
Proof. done. Qed.
Global Instance Kept_log e m route code sub mode service : Kept (emit_log e m route code sub mode service).
Proof. done. Qed.
Global Instance Kept_record e m route code : Kept (record e m route code).
Proof. done. Qed.
Global Instance Kept_chain r us : Kept (record_chain r us).
Proof. done. Qed.
Global Instance Kept_limiter e k c r : Kept (call_limiter e k c r).
Proof. intros s. unfold call_limiter. by destruct (RateLimit.check _ _ _ _ _ _) as [[? ?] ?]. Qed.
Global Instance Kept_run_log req code : Kept (run_plugin_log req code).
Proof.
  intros s. unfold run_plugin_log, st_bind, st_gets. destruct (ExtAuthz.plugin_engine s) as [[rt slot]|] eqn:E; [|done].
  split; try done. simpl. rewrite E. by destruct (execute_log rt req code slot).
Qed.
Lemma Kept_access req p s :
  ExtAuthz.plugin_engine s = Some p → kept s (call_access req p s).2.
Proof.
  intros E. unfold call_access. destruct p as [rt slot]. cbn [host_access host engine_host fst snd].
  destruct (execute_access clock rt req slot) as [r slot']. split; try done. simpl. by rewrite E.
Qed.
Global Instance Kept_deny_auth {A} r x d : Kept (deny_auth (A := A) r x d).
Proof. unfold deny_auth. apply _. Qed.
Global Instance Kept_credentials cfg r h : Kept (auth_credentials cfg r h).
Proof.
  unfold auth_credentials. destruct (extract_bearer h) as [[]|]; try apply _.
  destruct (iter_find _ _); [|apply _]. apply Kept_bind; [apply _|]. intros reg.
  destruct (registry_get reg _); apply _.
Qed.
Global Instance Kept_verdict r rh v : Kept (auth_verdict r rh v).
Proof. destruct v; unfold auth_verdict; apply _. Qed.
Global Instance Kept_apply_auth e cfg r h rh : Kept (apply_auth e cfg r h rh).
Proof.
  unfold apply_auth. destruct (negb _); [apply _|]. apply Kept_bind; [apply _|].
  intros [[[token p] c]|deny]; apply _.
Qed.
Global Instance Kept_early_deny e m route code err : Kept (early_deny e m route code err).
Proof. unfold early_deny. apply _. Qed.
Global Instance Kept_limit e cfg route m req up rh sub : Kept (limit_and_finish e cfg route m req up rh sub).
Proof.
  unfold limit_and_finish. apply Kept_bind; [apply _|]. intros [d|err]; [|apply _].
  destruct (negb _); apply _.
Qed.
Global Instance Kept_plugins e route m rh : Kept (execute_access_plugins e route m rh).
Proof.
  intros s. unfold execute_access_plugins. unfold st_bind at 1, st_gets.
  destruct (ExtAuthz.plugin_engine s) as [p|] eqn:E; [|done].
  unfold st_bind. pose proof (Kept_access (plugin_request route m) p s E) as Hk.
  destruct (call_access (plugin_request route m) p s) as [r s1]. simpl in Hk.
  assert (Kept (plugin_answer e route m (plugin_request route m) rh r)) as Ha.
  { destruct r as [[| |]|err]; unfold plugin_answer; apply _. }
  destruct Hk, (Ha s1). split; congruence.
Qed.
Global Instance Kept_route e m cfg : Kept (check_route e m cfg).
Proof. unfold check_route. destruct (match_route _ _ _); [destruct (negb _)|]; apply _. Qed.
Global Instance Kept_or_deny {A} e m route req (auth : st App (result AuthDeny A)) :
  Kept auth → Kept (or_deny e m route req auth).
Proof. intros Ha. apply Kept_bind; [done|]. intros [ok|deny]; apply _. Qed.
Global Instance Kept_auth e m cfg route req rh : Kept (check_auth e m cfg route req rh).
Proof.
  apply Kept_or_deny. unfold auth_begin. destruct (negb _); [apply _|]. apply Kept_bind; [apply _|].
  intros [[[token p] c]|deny]; [|apply _]. destruct (validate_cached _ _ _ _ _ _); apply _.
Qed.
Global Instance Kept_refresh e m route req rh token p c : Kept (check_refresh e m route req rh token p c).
Proof. apply Kept_or_deny. unfold auth_resume. apply _. Qed.
Global Instance Kept_or_answer {A} (m : st App (result Response A)) k :
  Kept m → (∀ a, Kept (k a)) → Kept (or_answer m k).
Proof. intros Hm Hk. apply Kept_bind; [done|]. intros [a|resp]; [apply Hk|apply _]. Qed.
Global Instance Kept_after_auth e m cfg route req up rh a : Kept (after_auth e m cfg route req up rh a).
Proof. destruct a as [[rh' sub]|[[token p] c]]; [apply _|]. apply Kept_or_answer; [apply _|]. by intros [rh' sub]; apply _. Qed.
Global Instance Kept_after_plugins e m cfg route x : Kept (after_plugins e m cfg route x).
Proof. destruct x as [[req up] rh]. apply Kept_or_answer; apply _. Qed.
Global Instance Kept_stretches e m cfg : Kept (check_inner_stretches e m cfg).
Proof. apply Kept_or_answer; [apply _|]. intros route. apply Kept_or_answer; apply _. Qed.
Global Instance Kept_begin nanos : Kept (check_begin nanos).
Proof.
  intros s. unfold check_begin. destruct (generate_request_id _ _).
  unfold ExtAuthz.begin_request. by destruct (_ <? _)%Z.
Qed.
Global Instance Kept_end e h resp : Kept (check_end e h resp).
Proof. done. Qed.

(** ** Views *)
Context `{P : ProstLib}.

(** The state of a check is the view of the gateway that it works on. *)
Lemma view_absorb thread g (s : App) :
  kept (request_view clock thread g) s → request_view clock thread (absorb clock thread s g) = s.
Proof.
  intros [Hc Hj Ht Hr]. destruct s as [cfg jw rl db m pe te en lg rc]. simpl in *. subst.
  unfold request_view, absorb, thread_vm. simpl. f_equal.
  destruct (Admin.plugin_engine (Gateway.app g)) as [e|], en as [[rt slot]|]; simplify_eq/=; [|done].
  by rewrite lookup_insert_eq.
Qed.
Lemma absorb_absorb thread g (s s' : App) :
  kept s s' → absorb clock thread s' (absorb clock thread s g) = absorb clock thread s' g.
Proof.
  intros [_ _ _ Hr]. destruct s as [? ? ? ? ? ? ? en ? ?], s' as [? ? ? ? ? ? ? en' ? ?].
  unfold absorb. simpl in *. f_equal. destruct en as [p|], en' as [p'|]; try done.
  by rewrite insert_insert_eq.
Qed.

Lemma on_thread_bind {A B} thread (m : st App A) (k : A → st App B) g :
  Kept m → (∀ a, Kept (k a)) →
  on_thread thread clock (st_bind m k) g =
    let '(a, g) := on_thread thread clock m g in on_thread thread clock (k a) g.
Proof.
  intros Hm Hk. unfold on_thread, st_bind. specialize (Hm (request_view clock thread g)).
  destruct (m (request_view clock thread g)) as [a s]. simpl in Hm. rewrite (view_absorb _ _ _ Hm).
  specialize (Hk a s). destruct (k a s) as [b s']. simpl in Hk. by rewrite (absorb_absorb _ _ _ _ Hk).
Qed.

(** After a stretch on a thread, its machine is in place. *)
Definition settled (thread : nat) (g : Gateway) : Prop :=
  absorb clock thread (request_view clock thread g) g = g.
Lemma on_thread_settled {A} thread (m : st App A) g : Kept m → settled thread (on_thread thread clock m g).2.
Proof.
  intros Hm. unfold on_thread, settled. specialize (Hm (request_view clock thread g)).
  destruct (m (request_view clock thread g)) as [a s]. simpl in *. rewrite (view_absorb _ _ _ Hm).
  by apply absorb_absorb.
Qed.
Lemma on_thread_ret {A} thread (a : A) g : settled thread g → on_thread thread clock (st_ret a) g = (a, g).
Proof. intros Hs. unfold on_thread, st_ret. by rewrite Hs. Qed.
Lemma on_thread_ext {A} thread (m m' : st App A) g :
  (∀ s, m s = m' s) → on_thread thread clock m g = on_thread thread clock m' g.
Proof. intros Hm. unfold on_thread. by rewrite Hm. Qed.
End kept.

(** ** An uninterrupted check *)
Section check_alone.
Context `{D : DashMapLib} `{Y : YamlLib} `{P : ProstLib} `{V : LuaVm} `{J : JwtLib} `{L : LuaLib} `{H : HeaderLib}.
Context (sha256_hex : string → string).
Context (url_parse_ok : string → bool) (yaml_from_str : string → result YamlError GatewayConfig).
Context (to_json : Value → JsonValue) (schema_check : JsonValue → JsonValue → result string unit).
Context (t : nat) (i : Incoming) (ts : gmap nat task) (ans : list (nat * answer)) (Ht : ts !! t = None).
Notation run := (conc_run sha256_hex url_parse_ok yaml_from_str to_json schema_check).
Notation turns n := (run (replicate n (Turn t (in_thread i) (in_clock i)))).
Notation at_check i p g := (mk_conc g (RwLock.mk {[t]} []) (<[t := Check i p]> ts) ans).
Notation answered resp g := (mk_conc g RwLock.new ts (ans ++ [(t, CheckAnswered resp)])).
Notation on m g := (on_thread (in_thread i) (in_clock i) m g).

Lemma answer_check_alone i' p resp g :
  let '(resp', g') := on (check_end (Hp := engine_host (in_clock i)) (in_env i') (in_headers i') resp) g in
  answer_check t (in_thread i) (in_clock i) i' resp (at_check i' p g) = answered resp' g'.
Proof.
  destruct (on _ g) as [resp' g'] eqn:E. unfold answer_check. cbn [gateway]. rewrite E.
  unfold finish, set_gateway, RwLock.release. cbn [tasks config_lock answers gateway RwLock.readers RwLock.queue].
  rewrite delete_insert_id by done. f_equal. rewrite difference_diag_L. done.
Qed.

Lemma turns_check n i' p g c' c'' :
  check_turn t (in_thread i) (in_clock i) i' p (at_check i' p g) = Some c' →
  turns n c' = Some c'' → turns (S n) (at_check i' p g) = Some c''.
Proof.
  intros Hs Hn. cbn [replicate conc_run conc_step tasks]. rewrite lookup_insert_eq. cbn [mbind option_bind].
  by rewrite Hs.
Qed.

(** What is left of a check at each phase. *)
Notation hst := (engine_host (in_clock i)).
Definition left_of (e : req_env) (m : meta) (p : check_phase) : st (App (P := hst)) Response :=
  match p with
  | CLock => cfg <-- st_gets ExtAuthz.config ;; check_inner_stretches (Hp := hst) e m cfg
  | CPlugins cfg route => after_route (Hp := hst) e m cfg route
  | CAuth cfg route request up rh => after_plugins (Hp := hst) e m cfg route (request, up, rh)
  | CRefresh cfg route request up rh token p c =>
      after_auth (Hp := hst) e m cfg route request up rh (inr (token, p, c))
  | CLimit cfg route request up rh sub => limit_and_finish (P := hst) e cfg route m request up rh sub
  end.

(** The turns from a phase on, up to [n] of them, do what is left and end. *)
Definition completes (n : nat) (i' : Incoming) (p : check_phase) (g : Gateway) : Prop :=
  let m := meta_of (in_headers i') (in_method i') (in_path i') in
  let '(resp, g1) := on (left_of (in_env i') m p) g in
  let '(resp, g2) := on (check_end (Hp := hst) (in_env i') (in_headers i') resp) g1 in
  ∃ k, k ≤ n ∧ turns k (at_check i' p g) = Some (answered resp g2).

Lemma completes_limit i' cfg route req up rh sub g : completes 1 i' (CLimit cfg route req up rh sub) g.
Proof.
  unfold completes. cbn [left_of]. destruct (on _ g) as [resp g1] eqn:E.
  pose proof (answer_check_alone i' (CLimit cfg route req up rh sub) resp g1) as Ha.
  destruct (on _ g1) as [resp' g2]. exists 1. split; [done|].
  eapply turns_check; [cbn [check_turn gateway]; by rewrite E|]. cbn [replicate conc_run]. by rewrite <-Ha.
Qed.

(** A stretch that answers, or goes on to the next phase. *)
Lemma completes_stretch {X} n i' p g (m : st (App (P := hst)) (result Response X))
    (k : X → st (App (P := hst)) Response) (next : X → check_phase) :
  Kept (in_clock i) m → (∀ x, Kept (in_clock i) (k x)) →
  left_of (in_env i') (meta_of (in_headers i') (in_method i') (in_path i')) p = or_answer (Hp := hst) m k →
  (∀ x, left_of (in_env i') (meta_of (in_headers i') (in_method i') (in_path i')) (next x) = k x) →
  (check_turn t (in_thread i) (in_clock i) i' p (at_check i' p g) =
     let '(r, g1) := on m g in
     Some (match r with
           | Err resp => answer_check t (in_thread i) (in_clock i) i' resp (at_check i' p g1)
           | Ok x => at_check i' (next x) g1
           end)) →
  (∀ x g, completes n i' (next x) g) → completes (S n) i' p g.
Proof.
  intros Hm Hk Hleft Hnext Hturn Hn. unfold completes, or_answer in *. rewrite Hleft, on_thread_bind;
    [|done|intros [x|resp]; [apply Hk|apply _]].
  pose proof (on_thread_settled (in_clock i) (in_thread i) m g Hm) as Hset.
  destruct (on m g) as [[x|resp] g1]; simpl in Hset.
  - specialize (Hn x g1). unfold completes in Hn. rewrite Hnext in Hn.
    destruct (on (k x) g1) as [resp g2]. destruct (on (check_end _ _ resp) g2) as [resp' g3].
    destruct Hn as (j & Hj & Hn). exists (S j). split; [lia|]. by eapply turns_check.
  - rewrite on_thread_ret by done. pose proof (answer_check_alone i' p resp g1) as Ha.
    destruct (on (check_end _ _ resp) g1) as [resp' g2]. exists 1. split; [lia|].
    eapply turns_check; [exact Hturn|]. cbn [replicate conc_run]. by rewrite Ha.
Qed.

Lemma completes_mono n n' i' p g : n ≤ n' → completes n i' p g → completes n' i' p g.
Proof.
  unfold completes. intros Hn. destruct (on _ g) as [resp g1]. destruct (on _ g1) as [resp' g2].
  intros (k & Hk & Ht'). exists k. split; [lia|done].
Qed.

Lemma completes_refresh i' cfg route req up rh token p c g :
  completes 2 i' (CRefresh cfg route req up rh token p c) g.
Proof.
  eapply (completes_stretch 1 i' _ g _ (λ '(rh, sub), limit_and_finish (P := hst) _ cfg route _ req up rh sub)
            (λ '(rh, sub), CLimit cfg route req up rh sub)).
  - apply Kept_refresh.
  - intros [rh' sub]. apply Kept_limit.
  - done.
  - by intros [rh' sub].
  - cbn [check_turn gateway]. destruct (on _ g) as [[[rh' sub]|resp] g1]; [|done].
    unfold set_task, set_gateway. cbn. by rewrite insert_insert_eq.
  - intros [rh' sub] g1. apply completes_limit.
Qed.

(** The keys decide, or the check waits for fresh ones. *)
Definition auth_phase (cfg : GatewayConfig) (route : RouteConfig) (req : PluginRequest)
    (up : gmap string string) (rh : HeaderMap)
    (a : HeaderMap * option string + string * AuthProvider * JwksCache) : check_phase :=
  match a with
  | inl (rh, sub) => CLimit cfg route req up rh sub
  | inr (token, p, c) => CRefresh cfg route req up rh token p c
  end.

Lemma completes_auth i' cfg route req up rh g : completes 3 i' (CAuth cfg route req up rh) g.
Proof.
  eapply (completes_stretch 2 i' _ g _ (after_auth (Hp := hst) _ _ cfg route req up rh)
            (auth_phase cfg route req up rh)).
  - apply Kept_auth.
  - intros a. apply Kept_after_auth.
  - done.
  - by intros [[rh' sub]|[[token p] c]].
  - cbn [check_turn gateway]. destruct (on _ g) as [[[[rh' sub]|[[token p] c]]|resp] g1]; [..|done];
      unfold set_task, set_gateway; cbn; by rewrite insert_insert_eq.
  - intros [[rh' sub]|[[token p] c]] g1; [|apply completes_refresh].
    eapply completes_mono; [|apply completes_limit]. lia.
Qed.

Lemma completes_plugins i' cfg route g : completes 4 i' (CPlugins cfg route) g.
Proof.
  eapply (completes_stretch 3 i' _ g _ (after_plugins (Hp := hst) _ _ cfg route)
            (λ '(req, up, rh), CAuth cfg route req up rh)).
  - apply Kept_plugins.
  - intros x. apply Kept_after_plugins.
  - done.
  - by intros [[req up] rh].
  - cbn [check_turn gateway]. destruct (on _ g) as [[[[req up] rh]|resp] g1]; [|done].
    unfold set_task, set_gateway. cbn. by rewrite insert_insert_eq.
  - intros [[req up] rh] g1. apply completes_auth.
Qed.

(** From the queue: the first turn takes the read guard. *)
Lemma completes_lock i' g :
  let m := meta_of (in_headers i') (in_method i') (in_path i') in
  let '(resp, g1) := on (left_of (in_env i') m CLock) g in
  let '(resp, g2) := on (check_end (Hp := hst) (in_env i') (in_headers i') resp) g1 in
  ∃ k, k ≤ 5 ∧
    turns k (mk_conc g (RwLock.request t RwLock.Read RwLock.new) (<[t := Check i' CLock]> ts) ans) =
      Some (answered resp g2).
Proof.
  intros m. cbn [left_of].
  assert (Hg : on (cfg <-- st_gets ExtAuthz.config ;; check_inner_stretches (Hp := hst) (in_env i') m cfg) g =
               on (check_inner_stretches (Hp := hst) (in_env i') m (active_config g)) g) by done.
  rewrite Hg. unfold check_inner_stretches at 1, or_answer.
  rewrite on_thread_bind; [|apply Kept_route|intros [route|resp]; [apply Kept_or_answer; apply _|apply _]].
  assert (Hset : settled (in_clock i) (in_thread i)
    (on (check_route (Hp := hst) (in_env i') m (active_config g)) g).2)
    by (apply on_thread_settled, Kept_route).
  assert (Hturn : ∀ n c, turns n (let '(r, g1) := on (check_route (Hp := hst) (in_env i') m (active_config g)) g in
      match r with
      | Err resp => answer_check t (in_thread i) (in_clock i) i' resp (at_check i' CLock g1)
      | Ok route => at_check i' (CPlugins (active_config g) route) g1
      end) = Some c →
    turns (S n) (mk_conc g (RwLock.request t RwLock.Read RwLock.new) (<[t := Check i' CLock]> ts) ans) = Some c).
  { intros n c Hn. cbn [replicate conc_run conc_step tasks]. rewrite lookup_insert_eq.
    cbn [mbind option_bind check_turn config_lock]. rewrite acquire_sole. cbn [mbind option_bind].
    unfold set_lock, set_task, set_gateway. cbn [gateway tasks answers config_lock]. fold m.
    destruct (on (check_route (Hp := hst) (in_env i') m (active_config g)) g) as [[route|resp] g1];
      cbn [gateway tasks answers config_lock]; [|exact Hn].
    rewrite insert_insert_eq. exact Hn. }
  destruct (on (check_route (Hp := hst) (in_env i') m (active_config g)) g) as [[route|resp] g1]; simpl in Hset.
  - pose proof (completes_plugins i' (active_config g) route g1) as Hc. unfold completes in Hc. cbn [left_of] in Hc.
    fold m in Hc. destruct (on _ g1) as [resp g2]. destruct (on _ g2) as [resp' g3].
    destruct Hc as (k & Hk & Hc). exists (S k). split; [lia|]. by apply Hturn.
  - rewrite on_thread_ret by done. pose proof (answer_check_alone i' CLock resp g1) as Ha.
    destruct (on _ g1) as [resp' g2]. exists 1. split; [lia|]. apply Hturn. cbn [replicate conc_run]. by rewrite Ha.
Qed.

Lemma check_turns g :
  let '(resp, g') := check_request i g in
  ∃ k, k ≤ 5 ∧ run (CheckArrives t i :: replicate k (Turn t (in_thread i) (in_clock i)))
                 (mk_conc g RwLock.new ts ans) = Some (answered resp g').
Proof.
  assert (Hcut : check_request i g =
    on (check_stretches (Hp := hst) (in_nanos i) (in_env i) (in_headers i) (in_method i) (in_path i)) g).
  { unfold check_request, on_thread. by rewrite check_cut by done. }
  rewrite Hcut. unfold check_stretches.
  rewrite on_thread_bind; [|apply Kept_begin|].
  2: { intros [id|resp]; [|apply Kept_ret]. apply Kept_bind; [apply Kept_gets|]. intros cfg.
       apply Kept_bind; [apply Kept_stretches|]. intros resp. apply Kept_end. }
  assert (Hset : settled (in_clock i) (in_thread i) (on (check_begin (Hp := hst) (in_nanos i)) g).2)
    by (apply on_thread_settled, Kept_begin).
  cbn [conc_run conc_step tasks]. rewrite Ht. cbn [mbind option_bind]. unfold check_arrives. cbn [gateway].
  destruct (on (check_begin (Hp := hst) (in_nanos i)) g) as [[id|resp] g1]; simpl in Hset; cycle 1.
  { rewrite on_thread_ret by done. exists 0. split; [lia|done]. }
  pose proof (completes_lock (with_id id i) g1) as Hc. cbv zeta in Hc. cbn [left_of in_env in_headers in_method in_path with_id] in Hc.
  set (e := with_request_id id (in_env i)) in *. set (m := meta_of (in_headers i) (in_method i) (in_path i)) in *.
  change (on (cfg <-- st_gets ExtAuthz.config ;; check_inner_stretches (Hp := hst) e m cfg) g1)
    with (on (check_inner_stretches (Hp := hst) e m (active_config g1)) g1) in Hc.
  change (on (cfg <-- st_gets ExtAuthz.config ;; resp <-- check_inner_stretches (Hp := hst) e m cfg ;;
              check_end (Hp := hst) e (in_headers i) resp) g1)
    with (on (resp <-- check_inner_stretches (Hp := hst) e m (active_config g1) ;;
              check_end (Hp := hst) e (in_headers i) resp) g1).
  rewrite on_thread_bind; [|apply Kept_stretches|intros resp; apply Kept_end].
  destruct (on (check_inner_stretches (Hp := hst) e m (active_config g1)) g1) as [resp g2].
  destruct (on (check_end (Hp := hst) e (in_headers i) resp) g2) as [resp' g3]. exact Hc.
Qed.
End check_alone.

Section uninterrupted.
Context `{D : DashMapLib} `{Y : YamlLib} `{P : ProstLib} `{V : LuaVm} `{J : JwtLib} `{L : LuaLib} `{H : HeaderLib}.
Context (sha256_hex : string → string).
Context (url_parse_ok : string → bool) (yaml_from_str : string → result YamlError GatewayConfig).
Context (to_json : Value → JsonValue) (schema_check : JsonValue → JsonValue → result string unit).

(** The check task does what the handler does: when no other task moves,
    nobody holds or waits for the configuration and no key is fetched while the
    check waits for one, a check that arrives is answered after at most five
    turns, with the answer and the effects of [check] in one
    piece; its guard and its permit are back. *)
Theorem uninterrupted_check (t : nat) (i : Incoming) (c : Conc) :
  tasks c !! t = None → config_lock c = RwLock.new →
  let '(resp, g') := check_request i (gateway c) in
  ∃ n, n ≤ 5 ∧
    conc_run sha256_hex url_parse_ok yaml_from_str to_json schema_check
      (CheckArrives t i :: replicate n (Turn t (in_thread i) (in_clock i))) c =
      Some (mk_conc g' RwLock.new (tasks c) (answers c ++ [(t, CheckAnswered resp)])).
Proof.
  intros Ht Hl. destruct c as [g l ts ans]. simpl in *. subst l.
  exact (check_turns sha256_hex url_parse_ok yaml_from_str to_json schema_check t i ts ans Ht g).
Qed.
End uninterrupted.

(** ** Witnesses: the control plane of [GatewaySpec] with requests in flight *)
Import JwtModel LuaVmModel AdminModel GatewayModel.
Module ConcModel.
(** Four shards, by the length of the node id. *)
#[export] Instance dash_map_model : DashMapLib := {|
  shard_of := λ key, (String.length key `mod` 4)%nat;
  shard_count := 4
|}.
Definition begun : Conc := conc_start booted.
Definition run_conc (evs : list conc_event) (c : Conc) : option Conc :=
  conc_run digest (λ _, true) parse_any no_json any_schema evs c.
Definition turns (t n : nat) : list conc_event := replicate n (Turn t t (λ _, 0%Z)).
Definition stopped : Conc := mk_conc fallback RwLock.new ∅ [].
End ConcModel.
Import ConcModel.

Lemma uninterrupted_check_witness :
  ∃ resp g' n, n ≤ 5 ∧ Http.status resp = 200%Z ∧
    run_conc (CheckArrives 0 (incoming 0 "/public/x") :: turns 0 n) begun =
      Some (mk_conc g' RwLock.new ∅ [(0, CheckAnswered resp)]).
Proof.
  pose proof (uninterrupted_check digest (λ _, true) parse_any no_json any_schema 0
    (incoming 0 "/public/x") begun eq_refl eq_refl) as H.
  assert (Hr : Http.status (check_request (incoming 0 "/public/x") (gateway begun)).1 = 200%Z)
    by (vm_compute; reflexivity).
  destruct (check_request _ _) as [resp g']. simpl in Hr.
  destruct H as (n & Hn & H). exists resp, g', n. split; [exact Hn|]. split; [exact Hr|]. exact H.
Defined.
