(* ===== verification/InterleavingSpec.v ===== *)
(** * Theorems on interleavings

    Invariants of the requests in flight under every order of arrivals, turns,
    disconnections, key fetches and ADS events. *)
From S2P Require Import Prelude RustStr F64 Yaml ConfigTypes Validation Samples ValidationSpec.
From S2P Require Import EnvoyGen RateLimit RateLimitSpec Auth AuthSpec Observability Plugins PluginsSpec Http ExtAuthz ExtAuthzSpec ExtAuthzResponses.
From S2P Require Import XdsResources XdsResourcesSpec Xds XdsSpec Admin AdminSpec Server ServerSpec Gateway GatewaySpec Concurrent ConcurrentSpec.

(** ** The lock and the tasks *)
Section lock.
Context `{D : DashMapLib} `{Y : YamlLib} `{P : ProstLib} `{V : LuaVm} `{J : JwtLib} `{H : HeaderLib}.

Definition holds (k : task) : bool :=
  match k with Check _ CLock => false | Check _ _ => true | Reload _ _ => false end.
Definition waits (k : task) : option RwLock.mode :=
  match k with
  | Check _ CLock => Some RwLock.Read
  | Reload _ (RCommit _ _) | Reload _ (RRefuse _) => Some RwLock.Write
  | _ => None
  end.

(** The readers are the tasks that look at the configuration, the queue the
    tasks that wait. *)
Record lock_inv (l : RwLock.RwLock) (ts : gmap nat task) : Prop := {
  li_readers t : t ∈ RwLock.readers l ↔ ∃ k, ts !! t = Some k ∧ holds k = true;
  li_queue t m : (t, m) ∈ RwLock.queue l ↔ ∃ k, ts !! t = Some k ∧ waits k = Some m;
  li_nodup : NoDup (RwLock.queue l).*1
}.

Lemma lock_inv_new : lock_inv RwLock.new ∅.
Proof.
  split; simpl; [intros t|intros t m|constructor]; rewrite lookup_empty; split; try set_solver; by intros (? & ? & _).
Qed.

(** Which task satisfies [Q] after an insertion or a deletion. *)
Lemma lookup_insert_cases {A} (m : gmap nat A) t t' (x : A) (Q : A → Prop) :
  (∃ y, <[t := x]> m !! t' = Some y ∧ Q y) ↔
  if decide (t' = t) then Q x else ∃ y, m !! t' = Some y ∧ Q y.
Proof.
  case_decide as Ht; [subst t'; rewrite lookup_insert_eq|by rewrite lookup_insert_ne by done].
  split; [by intros (y & [= <-] & ?)|eauto].
Qed.
Lemma lookup_delete_cases {A} (m : gmap nat A) t t' (Q : A → Prop) :
  (∃ y, delete t m !! t' = Some y ∧ Q y) ↔ t' ≠ t ∧ ∃ y, m !! t' = Some y ∧ Q y.
Proof.
  destruct (decide (t' = t)) as [->|Hne].
  - rewrite lookup_delete_eq. split; [by intros (? & ? & _)|by intros [? _]].
  - rewrite lookup_delete_ne by done. tauto.
Qed.
Lemma lookup_at {A} (m : gmap nat A) t x (Q : A → Prop) :
  m !! t = Some x → ((∃ y, m !! t = Some y ∧ Q y) ↔ Q x).
Proof. intros ->. split; [by intros (y & [= <-] & ?)|eauto]. Qed.
Lemma lookup_nowhere {A} (m : gmap nat A) t (Q : A → Prop) :
  (∀ x, m !! t = Some x → ¬ Q x) → ((∃ y, m !! t = Some y ∧ Q y) ↔ False).
Proof. intros Hn. split; [|done]. intros (y & Hy & HQ). by eapply Hn. Qed.

Lemma lock_inv_set l ts t k0 k :
  lock_inv l ts → ts !! t = Some k0 → holds k = holds k0 → waits k = waits k0 →
  lock_inv l (<[t := k]> ts).
Proof.
  intros [Hr Hq Hn] Ht Hh Hw. split; [| |done].
  - intros t'. rewrite Hr, lookup_insert_cases. case_decide; [subst|done].
    rewrite (lookup_at _ _ _ _ Ht). by rewrite Hh.
  - intros t' m. rewrite Hq, lookup_insert_cases. case_decide; [subst|done].
    rewrite (lookup_at _ _ _ _ Ht). by rewrite Hw.
Qed.

Lemma lock_inv_request l ts t m k :
  lock_inv l ts → (∀ k0, ts !! t = Some k0 → holds k0 = false ∧ waits k0 = None) →
  holds k = false → waits k = Some m → lock_inv (RwLock.request t m l) (<[t := k]> ts).
Proof.
  intros [Hr Hq Hn] Ht Hh Hw. split; simpl.
  - intros t'. rewrite Hr, lookup_insert_cases. case_decide; [subst|done]. rewrite lookup_nowhere, Hh; [done|].
    intros k0 Hk0. destruct (Ht k0 Hk0). congruence.
  - intros t' m'. rewrite elem_of_app, list_elem_of_singleton, Hq, lookup_insert_cases. case_decide.
    + subst. rewrite lookup_nowhere, Hw; [split; [by intros [[]|[= ->]]|intros [= ->]; by right]|].
      intros k0 Hk0. destruct (Ht k0 Hk0). congruence.
    + split; [intros [?|[= ? ?]]; done|by left].
  - rewrite fmap_app. apply NoDup_app. split_and!; [done| |simpl; apply NoDup_singleton].
    intros t' Hin. simpl. rewrite list_elem_of_singleton. intros ->.
    apply list_elem_of_fmap in Hin as ([t' m'] & Heq & Hin). simpl in Heq. subst t'.
    apply Hq in Hin as (k0 & Hk & Hw'). destruct (Ht k0 Hk) as [_ Hnw]. congruence.
Qed.

Lemma acquire_inv t l l' :
  RwLock.acquire t l = Some l' →
  ∃ m q, RwLock.queue l = (t, m) :: q ∧ RwLock.queue l' = q ∧
    match m with
    | RwLock.Read => RwLock.readers l' = {[t]} ∪ RwLock.readers l
    | RwLock.Write => RwLock.readers l = ∅ ∧ RwLock.readers l' = ∅
    end.
Proof.
  unfold RwLock.acquire. destruct (RwLock.queue l) as [|[t' m] q]; [done|].
  case_bool_decide as Ht; [subst t'|done]. destruct m.
  - intros [= <-]. by exists RwLock.Read, q.
  - case_bool_decide as Hr; [|done]. intros [= <-]. by exists RwLock.Write, q.
Qed.

Lemma lock_inv_acquire_read l l' ts t k0 k :
  lock_inv l ts → ts !! t = Some k0 → waits k0 = Some RwLock.Read → RwLock.acquire t l = Some l' →
  holds k = true → waits k = None → lock_inv l' (<[t := k]> ts).
Proof.
  intros [Hr Hq Hn] Ht Hw Hacq Hh Hw'. apply acquire_inv in Hacq as (m & q & Hq1 & Hq2 & Hm).
  assert (m = RwLock.Read) as ->.
  { destruct (proj1 (Hq t m)) as (k1 & Hk1 & Hw1); [rewrite Hq1; set_solver|]. congruence. }
  rewrite Hq1 in Hn. cbn in Hn. apply NoDup_cons in Hn as [Hnin Hn]. split.
  - intros t'. rewrite Hm, elem_of_union, elem_of_singleton, Hr, lookup_insert_cases.
    case_decide; [subst|]; tauto.
  - intros t' m'. rewrite Hq2, lookup_insert_cases. specialize (Hq t' m').
    rewrite Hq1, elem_of_cons in Hq. case_decide; [subst|].
    + split; [|by rewrite Hw']. intros Hin. destruct Hnin. apply list_elem_of_fmap. by exists (t, m').
    + rewrite <-Hq. split; [by right|intros [[= ? ?]|?]; done].
  - by rewrite Hq2.
Qed.

Lemma release_acquire t l l' :
  NoDup (RwLock.queue l).*1 → RwLock.acquire t l = Some l' → RwLock.release t l' = RwLock.release t l.
Proof.
  intros Hn Hacq. apply acquire_inv in Hacq as (m & q & Hq1 & Hq2 & Hm).
  unfold RwLock.release. rewrite Hq1, Hq2. rewrite filter_cons_False by (simpl; naive_solver).
  f_equal. destruct m; [rewrite Hm; set_solver|]. destruct Hm as [-> ->]. done.
Qed.

Lemma lock_inv_release l ts t : lock_inv l ts → lock_inv (RwLock.release t l) (delete t ts).
Proof.
  intros [Hr Hq Hn]. split; simpl.
  - intros t'. rewrite elem_of_difference, elem_of_singleton, Hr, lookup_delete_cases. tauto.
  - intros t' m. rewrite list_elem_of_filter, Hq, lookup_delete_cases. simpl. tauto.
  - clear Hq. induction (RwLock.queue l) as [|[t' m] q IH]; [done|]. cbn in Hn.
    apply NoDup_cons in Hn as [Hnin Hn]. rewrite filter_cons. case_decide; [|by apply IH].
    cbn. constructor; [|by apply IH]. intros Hin. apply Hnin.
    apply list_elem_of_fmap in Hin as ([t1 m1] & Heq & Hin). apply list_elem_of_filter in Hin as [_ Hin].
    apply list_elem_of_fmap. by exists (t1, m1).
Qed.

(** ** Counting checks *)
Definition is_check (k : task) : bool := match k with Check _ _ => true | Reload _ _ => false end.
Definition checks (ts : gmap nat task) : Z := Z.of_nat (size (filter (λ kv, is_check kv.2 = true) ts)).
Definition one (b : bool) : Z := if b then 1 else 0.
Definition check_at (ts : gmap nat task) (t : nat) : Z := one (from_option is_check false (ts !! t)).

Lemma checks_delete ts t : checks (delete t ts) = (checks ts - check_at ts t)%Z.
Proof.
  unfold checks, check_at. rewrite map_filter_delete.
  destruct (ts !! t) as [k|] eqn:Ht; [destruct (is_check k) eqn:Hk|]; simpl; rewrite ?Hk; simpl.
  - assert (is_Some (filter (λ kv, is_check kv.2 = true) ts !! t)) as Hf
      by (exists k; by apply map_lookup_filter_Some).
    pose proof (map_size_ne_0_lookup_2 _ _ Hf). rewrite map_size_delete_Some by done. lia.
  - rewrite map_size_delete_None; [lia|]. apply map_lookup_filter_None. right. simpl. congruence.
  - rewrite map_size_delete_None; [lia|]. apply map_lookup_filter_None. by left.
Qed.
Lemma checks_insert ts t k : checks (<[t := k]> ts) = (checks ts - check_at ts t + one (is_check k))%Z.
Proof.
  destruct (is_check k) eqn:Hk; simpl.
  - rewrite <-(insert_delete_eq ts t k), <-checks_delete. unfold checks.
    rewrite map_filter_insert_True by done. rewrite map_size_insert_None; [lia|].
    apply map_lookup_filter_None. left. apply lookup_delete_eq.
  - rewrite <-checks_delete. unfold checks. rewrite map_filter_insert_False by (simpl; congruence). lia.
Qed.
End lock.

(** ** What a turn changes *)
Section turns.
Context `{D : DashMapLib} `{Y : YamlLib} `{P : ProstLib} `{V : LuaVm} `{J : JwtLib} `{L : LuaLib} `{H : HeaderLib}.

(** The parts a check only reads. *)
Record same_served (g g' : Gateway) : Prop := {
  ss_config : config_state (Gateway.app g') = config_state (Gateway.app g);
  ss_engine : Admin.plugin_engine (Gateway.app g') = Admin.plugin_engine (Gateway.app g);
  ss_xds : xds (Gateway.app g') = xds (Gateway.app g);
  ss_jwks : Admin.jwks_registry (Gateway.app g') = Admin.jwks_registry (Gateway.app g);
  ss_streams : Gateway.streams g' = Gateway.streams g
}.
Lemma same_served_trans g1 g2 g3 : same_served g1 g2 → same_served g2 g3 → same_served g1 g3.
Proof. intros [] []. split; congruence. Qed.

(** The free permits and the gauge of requests in flight. *)
Definition usage (st : AppState) : Z * Z := (concurrency_limit st, gauge inflight_requests (app_metrics st)).
Notation used g := (usage (Gateway.app g)).

Lemma on_thread_served {A} thread clock (m : st (App (P := engine_host clock)) A) g :
  same_served g (on_thread thread clock m g).2.
Proof. unfold on_thread. by destruct (m _). Qed.
Lemma on_thread_usage {A} thread clock (m : st (App (P := engine_host clock)) A) g :
  Framed m → used (on_thread thread clock m g).2 = used g.
Proof.
  intros Hm. unfold on_thread. specialize (Hm (request_view clock thread g)). destruct (m _) as [a s].
  simpl in *. unfold usage. simpl. by rewrite (frame_permits _ _ Hm), (frame_inflight _ _ Hm).
Qed.

Global Instance Framed_route `{Hp : PluginHost} e m cfg : Framed (check_route e m cfg).
Proof. unfold check_route. destruct (match_route _ _ _); [destruct (negb _)|]; apply _. Qed.
Global Instance Framed_or_deny `{Hp : PluginHost} {A} e m route req (auth : st App (result AuthDeny A)) :
  Framed auth → Framed (or_deny e m route req auth).
Proof. intros Ha. apply Framed_bind; [done|]. intros [ok|deny]; apply _. Qed.
Global Instance Framed_auth `{Hp : PluginHost} e m cfg route req rh : Framed (check_auth e m cfg route req rh).
Proof.
  apply Framed_or_deny. unfold auth_begin. destruct (negb _); [apply _|]. apply Framed_bind; [apply _|].
  intros [[[token p] c]|deny]; [|apply _]. destruct (validate_cached _ _ _ _ _ _); apply _.
Qed.
Global Instance Framed_refresh `{Hp : PluginHost} e m route req rh token p c :
  Framed (check_refresh e m route req rh token p c).
Proof. apply Framed_or_deny. unfold auth_resume. apply _. Qed.

(** The end of a check. *)
Lemma answer_check_shape t thread clock i resp (c : Conc) :
  ∃ resp' g', answer_check t thread clock i resp c = finish t (CheckAnswered resp') (set_gateway g' c) ∧
    same_served (gateway c) g' ∧ used g' = ((used (gateway c)).1 + 1, (used (gateway c)).2 - 1)%Z.
Proof.
  unfold answer_check.
  pose proof (on_thread_served thread clock (check_end (Hp := engine_host clock) (in_env i) (in_headers i) resp)
    (gateway c)) as Hs.
  destruct (on_thread _ _ _ (gateway c)) as [resp' g'] eqn:E. exists resp', g'. split; [done|]. split; [done|].
  unfold on_thread, check_end in E. simplify_eq/=. unfold usage. simpl. f_equal.
  unfold dec_inflight. by rewrite gauge_set_eq.
Qed.

(** The configuration a check has in hand. *)
Definition config_of (p : check_phase) : option GatewayConfig :=
  match p with
  | CLock => None
  | CPlugins cfg _ | CAuth cfg _ _ _ _ | CRefresh cfg _ _ _ _ _ _ _ | CLimit cfg _ _ _ _ _ => Some cfg
  end.

(** The turns a task has left at most. *)
Definition check_left (p : check_phase) : nat :=
  match p with
  | CLock => 5 | CPlugins _ _ => 4 | CAuth _ _ _ _ _ => 3 | CRefresh _ _ _ _ _ _ _ _ => 2
  | CLimit _ _ _ _ _ _ => 1
  end.
(** [n] bounds the connections that a broadcast may find. *)
Definition reload_left (n : nat) (p : reload_phase) : nat :=
  let push p := 2 + push_todo n p in
  match p with
  | RLoad => 5 + push push_start | RPlugins _ _ => 4 + push push_start | RRuntime _ _ _ => 3 + push push_start
  | RXds _ _ => 2 + push push_start | RSnapshot _ _ _ => 1 + push push_start
  | RBroadcast _ _ _ p => push p | RCommit _ _ => 1 | RRefuse _ => 1
  end.
Definition envoys (st : AppState) : nat := from_option (λ x, size (connections x)) 0 (xds st).
Definition backlog (st : AppState) : nat := from_option (λ x, unread (channels x)) 0 (xds st).

(** A turn of a check: it may take the guard, works without touching what is
    served, and then goes on or answers. *)
Lemma check_turn_shape t thread clock i p (c c' : Conc) :
  check_turn t thread clock i p c = Some c' →
  ∃ l g, match p with CLock => RwLock.acquire t (config_lock c) = Some l | _ => l = config_lock c end ∧
    same_served (gateway c) g ∧ used g = used (gateway c) ∧
    ((∃ p', c' = set_task t (Check i p') (set_gateway g (set_lock l c)) ∧
        config_of p' = Some (default (active_config (gateway c)) (config_of p)) ∧
        check_left p' < check_left p) ∨
     (∃ resp, c' = answer_check t thread clock i resp (set_gateway g (set_lock l c)))).
Proof.
  assert (Hstretch : ∀ A (m : st (App (P := engine_host clock)) A), Framed m →
    same_served (gateway c) (on_thread thread clock m (gateway c)).2 ∧
    used (on_thread thread clock m (gateway c)).2 = used (gateway c)).
  { intros A m Hm. split; [apply on_thread_served|by apply on_thread_usage]. }
  destruct p as [|cfg route|cfg route req up rh|cfg route req up rh token p ca|cfg route req up rh sub];
    cbn [check_turn].
  1: intros (l & Hl & Hc')%bind_Some; revert Hc'; cbn [gateway set_lock].
  all: match goal with |- context [on_thread _ _ ?m ?g0] =>
    destruct (Hstretch _ m ltac:(apply _)) as [Hs Hperm];
    destruct (on_thread _ _ m g0) as [r g] end; simpl in Hs, Hperm.
  - intros [= <-]. exists l, g. split_and!; try done. destruct r as [route|resp]; [left|right]; eauto.
  - intros [= <-]. exists (config_lock c), g. split_and!; try done.
    destruct r as [[[req up] rh]|resp]; [left|right]; eexists; destruct c; simpl; eauto.
  - intros [= <-]. exists (config_lock c), g. split_and!; try done.
    destruct r as [[[rh' sub]|[[token p] ca]]|resp]; [left|left|right]; eexists; destruct c; simpl; eauto.
  - intros [= <-]. exists (config_lock c), g. split_and!; try done.
    destruct r as [[rh' sub]|resp]; [left|right]; eexists; destruct c; simpl; eauto.
  - intros [= <-]. exists (config_lock c), g. split_and!; try done. right. exists r. by destruct c.
Qed.

Context (sha256_hex : string → string).
Context (url_parse_ok : string → bool) (yaml_from_str : string → result YamlError GatewayConfig).
Context (to_json : Value → JsonValue) (schema_check : JsonValue → JsonValue → result string unit).

(** The stretches of a reload before its end leave the active configuration, the
    permits and the gauge. *)
Definition uncommitted (st st' : AppState) : Prop :=
  config_state st' = config_state st ∧ usage st' = usage st ∧
  Admin.jwks_registry st' = Admin.jwks_registry st.

Lemma take_runtime_uncommitted env cfg st :
  uncommitted st (take_runtime to_json schema_check env cfg st).2.
Proof. unfold take_runtime. by destruct (Admin.plugin_engine st). Qed.
Lemma take_snapshot_uncommitted cfg st : uncommitted st (take_snapshot cfg st).2.
Proof.
  unfold take_snapshot. destruct (xds st) as [cp|]; [|done].
  destruct (VersionCounter.increment _). destruct (XdsSnapshot.build _ _); [|done].
  split_and!; [done| |done]. unfold usage, set_xds_snapshot_version. simpl. by rewrite gauge_set_ne.
Qed.
Lemma with_xds_uncommitted f st :
  (∀ cp, gauge inflight_requests (Xds.metrics (f cp)) = gauge inflight_requests (Xds.metrics cp)) →
  uncommitted st (with_xds f st).
Proof. intros Hf. unfold with_xds. destruct (xds st) as [x|]; [|done]. split_and!; [done| |done]. unfold usage. simpl. by rewrite Hf. Qed.
Lemma push_uncommitted env s p st o st' :
  push_snapshot env s p st = Some (o, st') →
  uncommitted st st' ∧ envoys st' ≤ envoys st ∧ backlog st' ≤ S (backlog st) ∧
  ∀ n p', o = Some p' → envoys st ≤ n → push_todo n p' < push_todo n p.
Proof.
  unfold push_snapshot, envoys, backlog. destruct (xds st) as [cp|] eqn:Hx.
  2: { intros [= <- <-]. split; [done|]. rewrite Hx. simpl. split_and!; [lia|lia|done]. }
  intros ([o' cp'] & Ht & Heq)%bind_Some. destruct (push_turn_cases _ _ _ _ _ Ht) as (_ & _ & Hm & Hc & Hch & _).
  injection Heq as <- <-. simpl in Hm, Hc, Hch. split_and!; [| | |].
  - split_and!; [done| |done]. unfold usage. simpl. f_equal.
    destruct o'; simpl; [by rewrite Hm|]. unfold record_xds_push. by rewrite gauge_observe, Hm.
  - simpl. by destruct o'.
  - assert (unread (channels cp') ≤ S (unread (channels cp))); [|simpl; by destruct o'].
    destruct Hch as [->|(key & h & items & r & rest & c & c' & _ & _ & Hl & Hs & ->)]; [lia|].
    pose proof (unread_set _ _ _ c' Hl). pose proof (unread_send _ _ _ Hs). lia.
  - intros n p' -> Hn. eapply push_turn_todo; [exact Ht|apply ordered_length|done].
Qed.
Lemma regenerate_uncommitted env st st' : regenerate_envoy env st = Some st' → uncommitted st st'.
Proof.
  unfold regenerate_envoy. destruct (envoy_config_path st); [|by intros [= <-]].
  destruct (generate_envoy_config _) as [[|]|]; [destruct (re_write env)| |done]; by intros [= <-].
Qed.
Lemma commit_permits env raw cfg st :
  usage (commit_reload sha256_hex env raw cfg st).2 = usage st ∧
  Admin.jwks_registry (commit_reload sha256_hex env raw cfg st).2 = Admin.jwks_registry st.
Proof.
  unfold commit_reload. destruct (regenerate_envoy env _) as [st'|] eqn:E; [|done].
  apply regenerate_uncommitted in E as (_ & ? & ?). done.
Qed.

(** The streams count other things. *)
Lemma begin_request_gauge sid msg t cp :
  gauge inflight_requests (Xds.metrics (Xds.begin_request sid msg t cp).2) =
    gauge inflight_requests (Xds.metrics cp).
Proof.
  assert (Htouch : ∀ h cp, gauge inflight_requests (Xds.metrics (touch_status h msg cp)) =
                           gauge inflight_requests (Xds.metrics cp)).
  { intros h cp'. unfold touch_status. destruct (status_cells cp' !! h) as [s|]; [|done].
    unfold update_status. destruct (is_nack msg); [|destruct (negb _)]; simpl; [|done..].
    apply gauge_inc. }
  unfold Xds.begin_request. destruct (str_is_empty (node_id t)); simpl.
  - rewrite Htouch. simpl. unfold set_xds_connected_envoys. by rewrite gauge_set_ne.
  - destruct (status_handle t); [apply Htouch|done].
Qed.
Lemma xds_step_gauge e sys sys' :
  (∀ c t reads, e ≠ Xds.Rebuild c t reads) → xds_step e sys = Some sys' →
  gauge inflight_requests (Xds.metrics (control_plane sys')) =
    gauge inflight_requests (Xds.metrics (control_plane sys)).
Proof.
  intros Hne Hst. destruct e as [sid|sid msg|sid|sid|sid|sid|sid|c t reads]; simpl in Hst.
  - destruct (channels _ !! sid); by simplify_eq/=.
  - apply stream_event_inv in Hst as (t & tc & _ & Hf & ->). destruct (stream_phase t); simplify_eq/=.
    apply begin_request_gauge.
  - apply stream_event_inv in Hst as (t & tc & _ & Hf & ->). by destruct (stream_phase t); simplify_eq/=.
  - apply stream_event_inv in Hst as (t & tc & _ & Hf & ->).
    destruct (stream_phase t) as [| |rs]; simplify_eq/=. unfold send_next in Hf.
    destruct rs as [|r rs]; [by simplify_eq/=|]. apply bind_Some in Hf as (c & _ & Hf).
    by destruct (send r c); simplify_eq/=.
  - apply bind_Some in Hst as (t & _ & Hst). destruct (stream_phase t); simplify_eq/=.
    unfold end_stream. destruct (str_is_empty (node_id t)); [done|]. simpl.
    unfold set_xds_connected_envoys. by rewrite gauge_set_ne.
  - by apply channel_event_inv in Hst as (? & ? & _ & _ & ->).
  - by apply channel_event_inv in Hst as (? & ? & _ & _ & ->).
  - by destruct (Hne c t reads).
Qed.
Lemma ads_turn_gauge e g g' :
  ads_turn e g = Some g' →
  gauge inflight_requests (app_metrics (Gateway.app g')) = gauge inflight_requests (app_metrics (Gateway.app g)).
Proof.
  unfold ads_turn. intros Ht. assert (∀ c t reads, e ≠ Xds.Rebuild c t reads) as Hne by (by intros c t reads ->).
  assert (∃ x sys, xds_step e (mk_sys (lend_metrics (app_metrics (Gateway.app g)) x) (Gateway.streams g)) = Some sys ∧
    app_metrics (Gateway.app g') = Xds.metrics (control_plane sys)) as (x & sys & Hst & ->).
  { destruct e; try done; apply bind_Some in Ht as (x & _ & (sys & Hsys & [= <-])%bind_Some); eauto. }
  by rewrite (xds_step_gauge _ _ _ Hne Hst).
Qed.

(** A turn of a reload: it goes on, joins the queue for the lock, or ends under
    the write guard. *)
Definition nearer (st : AppState) (p p' : reload_phase) : Prop :=
  ∀ n, envoys st ≤ n → reload_left n p' < reload_left n p.
Lemma reload_turn_shape t env p (c c' : Conc) :
  reload_turn sha256_hex url_parse_ok yaml_from_str to_json schema_check t env p c = Some c' →
  ∃ st, usage st = used (gateway c) ∧
    Admin.jwks_registry st = Admin.jwks_registry (Gateway.app (gateway c)) ∧
    ((∃ p', c' = set_task t (Reload env p') (set_state st c) ∧
        waits (Reload env p) = None ∧ waits (Reload env p') = None ∧
        config_state st = config_state (Gateway.app (gateway c)) ∧ nearer (Gateway.app (gateway c)) p p') ∨
     (∃ p', c' = wait_for t RwLock.Write (Reload env p') (set_state st c) ∧
        waits (Reload env p) = None ∧ waits (Reload env p') = Some RwLock.Write ∧
        config_state st = config_state (Gateway.app (gateway c)) ∧ nearer (Gateway.app (gateway c)) p p') ∨
     (∃ r l, RwLock.acquire t (config_lock c) = Some l ∧ waits (Reload env p) = Some RwLock.Write ∧
        c' = finish t (ReloadAnswered r) (set_state st (set_lock l c)))).
Proof.
  destruct c as [g l0 ts ans]. destruct p as [|raw cfg|raw cfg rt|raw cfg|raw cfg s|raw cfg s p|raw cfg|msg];
    cbn [reload_turn gateway].
  - intros [= <-]. exists (Gateway.app g).
    assert (set_state (Gateway.app g) (mk_conc g l0 ts ans) = mk_conc g l0 ts ans) as -> by (by destruct g).
    split_and!; [done..|]. destruct (reload_load _ _ env (Gateway.app g)) as [[raw cfg]|msg].
    + left. (eexists; split_and!; [done..|intros n _; simpl; lia]).
    + right. left. (eexists; split_and!; [done..|intros n _; simpl; lia]).
  - pose proof (take_runtime_uncommitted env cfg (Gateway.app g)) as (Hc & Hp & Hj).
    destruct (take_runtime _ _ _ _ _) as [r st]. intros [= <-]. exists st. simpl in *.
    split_and!; [done..|]. destruct r as [[rt|]|e]; [left|left|right; left];
      (eexists; split_and!; [done..|intros n _; simpl; lia]).
  - intros [= <-]. exists (put_runtime rt (Gateway.app g)). split_and!; [done..|]. left.
    (eexists; split_and!; [done..|intros n _; simpl; lia]).
  - pose proof (take_snapshot_uncommitted cfg (Gateway.app g)) as (Hc & Hp & Hj).
    destruct (take_snapshot _ _) as [r st]. intros [= <-]. exists st. simpl in *.
    split_and!; [done..|]. destruct r as [[rt|]|e]; [left|right; left|right; left];
      (eexists; split_and!; [done..|intros n _; simpl; lia]).
  - pose proof (with_xds_uncommitted (λ cp, mk_cp s (versions cp) (connections cp) (status_cells cp)
      (channels cp) (Xds.metrics cp)) (Gateway.app g) ltac:(done)) as (Hc & Hp & Hj).
    intros [= <-]. exists (put_snapshot s (Gateway.app g)). split_and!; [done..|]. left.
    (eexists; split_and!; [done..|intros n _; simpl; lia]).
  - intros ([o st] & ((Hc & Hp & Hj) & _ & _ & Hlt)%push_uncommitted & [= <-])%bind_Some. exists st.
    split_and!; [done..|]. destruct o as [p'|]; [left|right; left]; eexists; (split_and!; [done..|]).
    + intros n Hn. specialize (Hlt n p' eq_refl Hn). simpl. lia.
    + intros n _. simpl. lia.
  - intros (l & Hl & Hc')%bind_Some. pose proof (commit_permits env raw cfg (Gateway.app g)) as [Hp Hj].
    destruct (commit_reload _ _ _ _ _) as [r st]. injection Hc' as <-. exists st.
    split_and!; [done..|]. right. right. by exists r, l.
  - intros (l & Hl & [= <-])%bind_Some. eexists. split_and!; cycle 2.
    { right. right. by eexists _, l. }
    all: done.
Qed.
End turns.

(** ** The invariant of requests in flight *)
Section inflight.
Context `{D : DashMapLib} `{Y : YamlLib} `{P : ProstLib} `{V : LuaVm} `{J : JwtLib} `{L : LuaLib} `{H : HeaderLib}.
Context (sha256_hex : string → string).
Context (url_parse_ok : string → bool) (yaml_from_str : string → result YamlError GatewayConfig).
Context (to_json : Value → JsonValue) (schema_check : JsonValue → JsonValue → result string unit).
Notation step := (conc_step sha256_hex url_parse_ok yaml_from_str to_json schema_check).
Notation run := (conc_run sha256_hex url_parse_ok yaml_from_str to_json schema_check).
Notation permits g := (concurrency_limit (Gateway.app g)).
Notation in_flight g := (gauge inflight_requests (app_metrics (Gateway.app g))).
Notation used g := (usage (Gateway.app g)).

(** [gone] is the number of checks whose client left before the answer. *)
Record inflight (limit gone : Z) (c : Conc) : Prop := {
  if_lock : lock_inv (config_lock c) (tasks c);
  if_config t i p cfg : tasks c !! t = Some (Check i p) → config_of p = Some cfg →
    cfg = active_config (gateway c);
  if_permits : (permits (gateway c) + checks (tasks c) = limit)%Z;
  if_free : (0 ≤ permits (gateway c))%Z;
  if_gauge : in_flight (gateway c) = (checks (tasks c) + gone)%Z
}.

(** A step that leaves the tasks, the permits and the gauge. *)
Lemma inflight_gateway limit gone c g :
  inflight limit gone c → config_state (Gateway.app g) = config_state (Gateway.app (gateway c)) →
  used g = used (gateway c) → inflight limit gone (set_gateway g c).
Proof.
  intros [Hl Hc Hp Hf Hg] Hcs [= Hpe Hga]. split; simpl; [done| |by rewrite Hpe|by rewrite Hpe|by rewrite Hga].
  intros t i p cfg Ht Hcfg. unfold active_config. rewrite Hcs. by eapply Hc.
Qed.

(** A task that stays a check or stays a reload. *)
Lemma inflight_set limit gone c t k0 k l :
  inflight limit gone c → tasks c !! t = Some k0 → is_check k = is_check k0 →
  lock_inv l (<[t := k]> (tasks c)) →
  (∀ i p cfg, k = Check i p → config_of p = Some cfg → cfg = active_config (gateway c)) →
  inflight limit gone (set_task t k (set_lock l c)).
Proof.
  intros [Hl Hc Hp Hf Hg] Ht Hk Hli Hcfg. split; simpl; [done| | |done|].
  - intros t' i p cfg. destruct (decide (t' = t)) as [->|Hne].
    + rewrite lookup_insert_eq. intros [= ->]. by eapply Hcfg.
    + rewrite lookup_insert_ne by done. apply Hc.
  - rewrite checks_insert. unfold check_at. rewrite Ht. simpl. rewrite Hk. lia.
  - rewrite checks_insert. unfold check_at. rewrite Ht. simpl. rewrite Hk. lia.
Qed.

(** A task that ends; a check gives its permit back, and lowers the gauge
    unless its client has gone. *)
Lemma inflight_end limit gone left c t k g' ans :
  inflight limit gone c → tasks c !! t = Some k →
  (is_check k = true → config_state (Gateway.app g') = config_state (Gateway.app (gateway c))) →
  (is_check k = false → RwLock.readers (config_lock c) = ∅ ∨
     config_state (Gateway.app g') = config_state (Gateway.app (gateway c))) →
  used g' = (permits (gateway c) + one (is_check k), in_flight (gateway c) - one (is_check k) + left)%Z →
  inflight limit (gone + left) (mk_conc g' (RwLock.release t (config_lock c)) (delete t (tasks c)) ans).
Proof.
  intros [Hl Hc Hp Hf Hg] Ht Hcheck Hreload [= Hpe Hga]. split; simpl.
  - by apply lock_inv_release.
  - intros t' i p cfg Ht' Hcfg. assert (tasks c !! t' = Some (Check i p)) as Hin.
    { destruct (decide (t' = t)) as [->|]; [by rewrite lookup_delete_eq in Ht'|].
      by rewrite lookup_delete_ne in Ht' by done. }
    assert (config_state (Gateway.app g') = config_state (Gateway.app (gateway c))) as Hcs.
    { destruct (is_check k); [by apply Hcheck|]. destruct (Hreload eq_refl) as [Hr|]; [|done].
      assert (t' ∈ RwLock.readers (config_lock c)) as Hbad; [|rewrite Hr in Hbad; set_solver].
      apply (li_readers _ _ Hl). exists (Check i p). split; [done|]. by destruct p. }
    unfold active_config. rewrite Hcs. by eapply Hc.
  - rewrite checks_delete, Hpe. unfold check_at. rewrite Ht. simpl. lia.
  - rewrite Hpe. unfold one. destruct (is_check k); lia.
  - rewrite checks_delete, Hga. unfold check_at. rewrite Ht. simpl. lia.
Qed.
Lemma inflight_answered limit gone c t k g' ans :
  inflight limit gone c → tasks c !! t = Some k →
  (is_check k = true → config_state (Gateway.app g') = config_state (Gateway.app (gateway c))) →
  (is_check k = false → RwLock.readers (config_lock c) = ∅ ∨
     config_state (Gateway.app g') = config_state (Gateway.app (gateway c))) →
  used g' = (permits (gateway c) + one (is_check k), in_flight (gateway c) - one (is_check k))%Z →
  inflight limit gone (mk_conc g' (RwLock.release t (config_lock c)) (delete t (tasks c)) ans).
Proof.
  intros Hi Ht Hc Hr Hu. replace gone with (gone + 0)%Z by lia. eapply inflight_end; [done..|].
  rewrite Hu. f_equal. lia.
Qed.

Lemma inflight_check_turn limit gone t thread clock i p c c' :
  inflight limit gone c → tasks c !! t = Some (Check i p) → check_turn t thread clock i p c = Some c' →
  inflight limit gone c'.
Proof.
  intros Hi Ht Hs. apply check_turn_shape in Hs as (l & g & Hl & Hsv & Hpe & Hcase).
  pose proof (inflight_gateway _ _ _ _ Hi (ss_config _ _ Hsv) Hpe) as Hi'.
  destruct Hcase as [(p' & -> & Hp' & _)|(resp & ->)].
  - replace (set_gateway g (set_lock l c)) with (set_lock l (set_gateway g c)) by (by destruct c).
    eapply inflight_set; [exact Hi'|exact Ht|done| |].
    + cbn [tasks set_gateway]. destruct p.
      * eapply lock_inv_acquire_read; [apply Hi|exact Ht|done|exact Hl| |]; by destruct p'.
      * subst l. eapply lock_inv_set; [apply Hi|exact Ht|by destruct p'..].
      * subst l. eapply lock_inv_set; [apply Hi|exact Ht|by destruct p'..].
      * subst l. eapply lock_inv_set; [apply Hi|exact Ht|by destruct p'..].
      * subst l. eapply lock_inv_set; [apply Hi|exact Ht|by destruct p'..].
    + intros i' p1 cfg [= <- <-] Hcfg. rewrite Hp' in Hcfg. injection Hcfg as <-.
      unfold active_config. cbn [gateway set_gateway]. rewrite (ss_config _ _ Hsv).
      destruct (config_of p) as [cfg|] eqn:Ep; [|done]. simpl. by eapply (if_config _ _ _ Hi).
  - destruct (answer_check_shape t thread clock i resp (set_gateway g (set_lock l c)))
      as (resp' & g' & -> & Hsv' & Hpe'). unfold finish. cbn [gateway set_gateway config_lock tasks answers set_lock].
    assert (RwLock.release t l = RwLock.release t (config_lock c)) as ->.
    { destruct p; [|by rewrite Hl..]. apply release_acquire; [apply (if_lock _ _ _ Hi)|done]. }
    eapply inflight_answered; [exact Hi|exact Ht| |done|].
    + intros _. rewrite (ss_config _ _ Hsv'). apply Hsv.
    + rewrite Hpe'. cbn [gateway set_gateway]. by rewrite Hpe.
Qed.

Lemma inflight_reload_turn limit gone t env p c c' :
  inflight limit gone c → tasks c !! t = Some (Reload env p) →
  reload_turn sha256_hex url_parse_ok yaml_from_str to_json schema_check t env p c = Some c' →
  inflight limit gone c'.
Proof.
  intros Hi Ht Hs. apply reload_turn_shape in Hs as (st & Hpe & _ & Hcase).
  destruct Hcase as [(p' & -> & Hw & Hw' & Hcs & _)|[(p' & -> & Hw & Hw' & Hcs & _)|(r & l & Hl & Hw & ->)]].
  - pose proof (inflight_gateway _ _ _ (set_app st (gateway c)) Hi Hcs Hpe) as Hi'.
    change (inflight limit gone (set_task t (Reload env p') (set_lock (config_lock c) (set_state st c)))).
    eapply inflight_set; [exact Hi'|exact Ht|done| |done].
    eapply lock_inv_set; [apply Hi|exact Ht|done|congruence].
  - pose proof (inflight_gateway _ _ _ (set_app st (gateway c)) Hi Hcs Hpe) as Hi'.
    unfold wait_for. eapply inflight_set; [exact Hi'|exact Ht|done| |done].
    apply lock_inv_request; [apply Hi| |done|done]. simpl. intros k0 Hk0. rewrite Ht in Hk0.
    injection Hk0 as <-. by split.
  - unfold finish. cbn [gateway set_state set_gateway config_lock tasks answers set_lock].
    assert (RwLock.release t l = RwLock.release t (config_lock c)) as ->.
    { apply release_acquire; [apply (if_lock _ _ _ Hi)|done]. }
    eapply inflight_answered; [exact Hi|exact Ht|done| |].
    + intros _. left. apply acquire_inv in Hl as (m & q & Hq & _ & Hm).
      assert (m = RwLock.Write) as ->; [|by destruct Hm].
      destruct (proj1 (li_queue _ _ (if_lock _ _ _ Hi) t m)) as (k1 & Hk1 & Hw1); [rewrite Hq; set_solver|].
      congruence.
    + simpl. rewrite Hpe. unfold usage. f_equal; lia.
Qed.

(** The permit is taken and counted on arrival, or the request is turned away. *)
Lemma check_begin_permits thread clock nanos g :
  let '(r, g') := on_thread thread clock (check_begin (Hp := engine_host clock) nanos) g in
  match r with
  | Ok _ => (0 < permits g)%Z ∧ used g' = (permits g - 1, in_flight g + 1)%Z
  | Err resp => (permits g ≤ 0)%Z ∧ used g' = used g ∧ Http.status resp = 503%Z
  end.
Proof.
  unfold on_thread, check_begin, generate_request_id, ExtAuthz.begin_request. simpl.
  destruct (Z.ltb_spec 0 (permits g)).
  - split; [done|]. unfold usage. simpl. unfold inc_inflight. by rewrite gauge_set_eq.
  - split_and!; [done| |done]. unfold usage. simpl. unfold record_overload. by rewrite gauge_inc.
Qed.

Lemma inflight_check_arrives limit gone t i c :
  inflight limit gone c → tasks c !! t = None → inflight limit gone (check_arrives t i c).
Proof.
  intros Hi Ht. unfold check_arrives.
  pose proof (check_begin_permits (in_thread i) (in_clock i) (in_nanos i) (gateway c)) as Hb.
  pose proof (on_thread_served (in_thread i) (in_clock i)
    (check_begin (Hp := engine_host (in_clock i)) (in_nanos i)) (gateway c)) as Hsv.
  destruct (on_thread _ _ _ (gateway c)) as [[id|resp] g]; simpl in Hsv.
  - destruct Hb as [Hpos [= Hb Hbg]]. destruct Hi as [Hl Hc Hp Hf Hg].
    unfold wait_for. split; cbn [gateway set_task set_lock set_gateway config_lock tasks].
    + apply lock_inv_request; [done| |done|done]. simpl. intros k0 Hk0. congruence.
    + intros t' i' p cfg. destruct (decide (t' = t)) as [->|].
      * rewrite lookup_insert_eq. by intros [= <- <-].
      * rewrite lookup_insert_ne by done. unfold active_config. rewrite (ss_config _ _ Hsv). apply Hc.
    + rewrite checks_insert, Hb. unfold check_at. rewrite Ht. simpl. lia.
    + lia.
    + rewrite checks_insert, Hbg. unfold check_at. rewrite Ht. simpl. lia.
  - destruct Hb as (_ & Hb & _).
    destruct (inflight_gateway _ _ _ _ Hi (ss_config _ _ Hsv) Hb) as [Hl Hc Hp Hf Hg]. by split.
Qed.

(** The checks that a step abandons. *)
Definition abandons (ev : conc_event) (c : Conc) : Z :=
  match ev with ClientGone t => check_at (tasks c) t | _ => 0 end.

Lemma inflight_step limit gone ev c c' :
  inflight limit gone c → step ev c = Some c' → inflight limit (gone + abandons ev c) c'.
Proof.
  intros Hi Hs. destruct ev as [t env|t i|t thread clock|t|name reply now|e];
    cbn [conc_step abandons] in Hs |- *; rewrite ?Z.add_0_r.
  - destruct (tasks c !! t) eqn:Ht; [done|]. injection Hs as <-. destruct Hi as [Hl Hc Hp Hf Hg].
    split; simpl; [| | |done|].
    + split; [| |apply Hl].
      * intros t'. rewrite (li_readers _ _ Hl), lookup_insert_cases. case_decide; [subst|done].
        by rewrite lookup_nowhere by (intros ?; congruence).
      * intros t' m. rewrite (li_queue _ _ Hl), lookup_insert_cases. case_decide; [subst|done].
        by rewrite lookup_nowhere by (intros ?; congruence).
    + intros t' i p cfg. destruct (decide (t' = t)) as [->|]; [by rewrite lookup_insert_eq|].
      rewrite lookup_insert_ne by done. apply Hc.
    + rewrite checks_insert. unfold check_at. rewrite Ht. simpl. lia.
    + rewrite checks_insert. unfold check_at. rewrite Ht. simpl. lia.
  - destruct (tasks c !! t) eqn:Ht; [done|]. injection Hs as <-. by apply inflight_check_arrives.
  - apply bind_Some in Hs as (k & Ht & Hs). destruct k as [env p|i p].
    + by eapply inflight_reload_turn.
    + by eapply inflight_check_turn.
  - apply bind_Some in Hs as (k & Ht & [= <-]). unfold drop_task.
    eapply inflight_end; [exact Hi|exact Ht|by destruct k| |].
    + intros _. right. by destruct k.
    + unfold check_at, usage. rewrite Ht. destruct k; simpl; f_equal; lia.
  - apply bind_Some in Hs as (g & Hg & [= <-]). unfold key_fetch in Hg.
    apply bind_Some in Hg as (ca & _ & [= <-]). by apply inflight_gateway.
  - apply bind_Some in Hs as (g & Hg & [= <-]). pose proof (ads_turn_gauge _ _ _ Hg) as Hga.
    apply ads_turn_keeps in Hg as (Hc & _ & _ & _ & Hp).
    apply inflight_gateway; [done|done|]. unfold usage. by rewrite Hp, Hga.
Qed.

Lemma inflight_start g :
  (0 ≤ permits g)%Z → inflight (permits g) (in_flight g) (conc_start g).
Proof.
  intros Hp. assert (checks ∅ = 0%Z) as H0 by (unfold checks; by rewrite map_filter_empty, map_size_empty).
  split; simpl; rewrite ?H0; [apply lock_inv_new|done|lia|done|lia].
Qed.

(** The checks that a run abandons. *)
Fixpoint abandoned (evs : list conc_event) (c : Conc) : Z :=
  match evs with
  | [] => 0
  | ev :: evs => abandons ev c + from_option (abandoned evs) 0%Z (step ev c)
  end.

Lemma inflight_run limit gone evs c c' :
  inflight limit gone c → run evs c = Some c' → inflight limit (gone + abandoned evs c) c'.
Proof.
  revert gone c. induction evs as [|ev evs IH]; intros gone c Hi Hr; simpl in Hr |- *.
  - injection Hr as <-. by rewrite Z.add_0_r.
  - apply bind_Some in Hr as (c1 & Hs & Hr). rewrite Hs, Z.add_assoc. simpl.
    eapply IH; [|exact Hr]. by eapply inflight_step.
Qed.

(** [C19] Overload protection holds under concurrency: whatever requests arrive,
    take turns, are abandoned by their clients or answered, in any order, the
    free permits and the checks in flight always add up to the configured
    limit, so there are never more checks in flight than that; and a check
    arrives to be turned away with 503 exactly when that many are in flight. *)
Theorem inflight_checks_bounded (g : Gateway) (evs : list conc_event) (c : Conc) :
  (0 ≤ permits g)%Z → run evs (conc_start g) = Some c →
  (permits (gateway c) + checks (tasks c) = permits g)%Z ∧ (checks (tasks c) ≤ permits g)%Z ∧
  ∀ t i, tasks c !! t = None →
    (checks (tasks c) = permits g ↔ tasks (check_arrives t i c) !! t = None) ∧
    (checks (tasks c) = permits g →
       ∃ resp, answers (check_arrives t i c) = answers c ++ [(t, CheckAnswered resp)] ∧
         Http.status resp = 503%Z).
Proof.
  intros Hg Hr. destruct (inflight_run _ _ _ _ _ (inflight_start g Hg) Hr) as [_ _ Hp Hf _].
  split_and!; [done|lia|]. intros t i Ht. unfold check_arrives.
  pose proof (check_begin_permits (in_thread i) (in_clock i) (in_nanos i) (gateway c)) as Hb.
  destruct (on_thread _ _ _ (gateway c)) as [[id|resp] g']; simpl.
  - destruct Hb as [Hb _]. rewrite lookup_insert_eq. split; [split; [lia|done]|lia].
  - destruct Hb as (Hb & _ & Hst). split; [split; [done|lia]|]. intros _. by exists resp.
Qed.

(** The gauge of requests in flight is exact only as long as clients wait:
    after any run it exceeds the number of checks in flight by the number of
    checks whose client left before the answer.  Those checks are dropped at an
    await and give their permit back, but the gauge is lowered only after
    [check_inner] has returned, and it never recovers. *)
Theorem inflight_gauge_drifts (g : Gateway) (evs : list conc_event) (c : Conc) :
  (0 ≤ permits g)%Z → run evs (conc_start g) = Some c →
  in_flight (gateway c) = (in_flight g + checks (tasks c) + abandoned evs (conc_start g))%Z ∧
  (permits (gateway c) + checks (tasks c) = permits g)%Z.
Proof.
  intros Hg Hr. destruct (inflight_run _ _ _ _ _ (inflight_start g Hg) Hr) as [_ _ Hp _ Hga].
  split; [lia|done].
Qed.

(** [C15] A check sees one configuration: under every interleaving with reloads,
    the configuration a check took when it got the read guard is the active one
    until the check ends, since a reload ends only when no check holds the
    guard; and a task that holds the guard is not waiting for it, so no two
    tasks can block each other. *)
Theorem checks_see_one_configuration (g : Gateway) (evs : list conc_event) (c : Conc) (t : nat)
    (i : Incoming) (p : check_phase) (cfg : GatewayConfig) :
  (0 ≤ permits g)%Z → run evs (conc_start g) = Some c → tasks c !! t = Some (Check i p) →
  config_of p = Some cfg →
  cfg = active_config (gateway c) ∧ t ∈ RwLock.readers (config_lock c) ∧
  (∀ m, (t, m) ∉ RwLock.queue (config_lock c)) ∧
  ∀ t' env raw new l, tasks c !! t' = Some (Reload env (RCommit raw new)) →
    RwLock.acquire t' (config_lock c) ≠ Some l.
Proof.
  intros Hg Hr Ht Hcfg. destruct (inflight_run _ _ _ _ _ (inflight_start g Hg) Hr) as [Hl Hc _ _ _].
  assert (Hin : t ∈ RwLock.readers (config_lock c)).
  { apply (li_readers _ _ Hl). exists (Check i p). split; [done|]. by destruct p. }
  split_and!; [by eapply Hc|done| |].
  - intros m Hm. apply (li_queue _ _ Hl) in Hm as (k & Hk & Hw). rewrite Ht in Hk. injection Hk as <-.
    by destruct p.
  - intros t' env raw new l Ht' Hacq. apply acquire_inv in Hacq as (m & q & Hq & _ & Hm).
    assert (m = RwLock.Write) as ->.
    { destruct (proj1 (li_queue _ _ Hl t' m)) as (k1 & Hk1 & Hw1); [rewrite Hq; set_solver|].
      rewrite Ht' in Hk1. injection Hk1 as <-. by injection Hw1 as <-. }
    destruct Hm as [Hm _]. rewrite Hm in Hin. set_solver.
Qed.
End inflight.

(** ** Witnesses *)
Import JwtModel LuaVmModel AdminModel GatewayModel ConcModel.

(** One permit; a check that has the configuration, and a reload that waits. *)
Definition narrow : Gateway := set_app (set_concurrency_limit 1 (Gateway.app booted)) booted.
Definition one_check : list conc_event :=
  [CheckArrives 0 (incoming 0 "/public/x"); ReloadArrives 1 (sample_reload "v2")] ++ turns 0 1 ++ turns 1 10.
Definition busy : Conc := default stopped (run_conc one_check (conc_start narrow)).
Lemma busy_ok : run_conc one_check (conc_start narrow) = Some busy.
Proof. apply some_default. vm_compute. reflexivity. Qed.

Lemma inflight_checks_bounded_witness :
  checks (tasks busy) = 1%Z ∧
  ∃ resp, answers (check_arrives 2 (incoming 0 "/public/x") busy) = answers busy ++ [(2, CheckAnswered resp)] ∧
    Http.status resp = 503%Z.
Proof.
  destruct (inflight_checks_bounded digest (λ _, true) parse_any no_json any_schema narrow one_check busy
    ltac:(vm_compute; discriminate) busy_ok) as (_ & _ & H).
  assert (Hc : checks (tasks busy) = 1%Z) by (vm_compute; reflexivity).
  split; [exact Hc|]. apply (H 2 (incoming 0 "/public/x")); [|exact Hc].
  apply is_none_eq. vm_compute. reflexivity.
Defined.

Definition left_one : list conc_event :=
  [CheckArrives 0 (incoming 0 "/public/x")] ++ turns 0 1 ++ [ClientGone 0].
Definition quiet : Conc := default stopped (run_conc left_one (conc_start narrow)).
Lemma inflight_gauge_drifts_witness :
  checks (tasks quiet) = 0%Z ∧ gauge inflight_requests (app_metrics (Gateway.app (gateway quiet))) = 1%Z.
Proof.
  assert (Hr : run_conc left_one (conc_start narrow) = Some quiet)
    by (apply some_default; vm_compute; reflexivity).
  split; [vm_compute; reflexivity|].
  destruct (inflight_gauge_drifts digest (λ _, true) parse_any no_json any_schema narrow left_one quiet
    ltac:(vm_compute; discriminate) Hr) as [-> _]. vm_compute. reflexivity.
Defined.

(** The configuration in the hands of a task. *)
Definition check_task (c : Conc) (t : nat) : option (Incoming * check_phase * GatewayConfig) :=
  match tasks c !! t with
  | Some (Check i p) => (λ cfg, (i, p, cfg)) <$> config_of p
  | _ => None
  end.
Lemma check_task_inv c t i p cfg :
  check_task c t = Some (i, p, cfg) → tasks c !! t = Some (Check i p) ∧ config_of p = Some cfg.
Proof.
  unfold check_task. destruct (tasks c !! t) as [[|i' p']|]; [done| |done].
  destruct (config_of p') eqn:E; [|done]. by intros [= <- <- <-].
Qed.
Definition at_work : Incoming * check_phase * GatewayConfig :=
  default (incoming 0 "/", CLock, extra_config) (check_task busy 0).
Lemma at_work_ok : check_task busy 0 = Some at_work.
Proof. apply some_default. vm_compute. reflexivity. Qed.

Lemma checks_see_one_configuration_witness :
  (∃ i p, check_task busy 0 = Some (i, p, active_config (gateway busy))) ∧
  0 ∈ RwLock.readers (config_lock busy).
Proof.
  pose proof at_work_ok as E. destruct at_work as [[i p] cfg].
  destruct (check_task_inv busy 0 i p cfg E) as [Ht Hcfg].
  destruct (checks_see_one_configuration digest (λ _, true) parse_any no_json any_schema narrow one_check busy
    0 i p cfg ltac:(vm_compute; discriminate) busy_ok Ht Hcfg) as (Heq & Hin & _ & _).
  split; [|exact Hin]. exists i, p. rewrite <-Heq. exact E.
Defined.
