(* ===== verification/ProgressSpec.v ===== *)
(** * Every request in flight is answered, unless an Envoy stops reading

    No deadlock among the tasks and no endless work: the moves of the tasks, and
    of the Envoys that receive, are bounded; when no task can move every check has
    been answered, and a reload that is left waits for an Envoy that is connected
    and has sixteen responses to receive; when those are received every reload is
    answered too.  Until then the reload waits, whatever else happens. *)
From S2P Require Import Prelude RustStr F64 Yaml ConfigTypes Validation Samples ValidationSpec.
From S2P Require Import EnvoyGen RateLimit Auth AuthSpec Observability Plugins PluginsSpec Http ExtAuthz ExtAuthzSpec ExtAuthzResponses.
From S2P Require Import XdsResources XdsResourcesSpec Xds XdsSpec Admin AdminSpec Server ServerSpec Gateway GatewaySpec Concurrent ConcurrentSpec InterleavingSpec.

Section progress.
Context `{D : DashMapLib} `{Y : YamlLib} `{P : ProstLib} `{V : LuaVm} `{J : JwtLib} `{L : LuaLib} `{H : HeaderLib}.
Context (sha256_hex : string → string).
Context (url_parse_ok : string → bool) (yaml_from_str : string → result YamlError GatewayConfig).
Context (to_json : Value → JsonValue) (schema_check : JsonValue → JsonValue → result string unit).
Notation step := (conc_step sha256_hex url_parse_ok yaml_from_str to_json schema_check).
Notation run := (conc_run sha256_hex url_parse_ok yaml_from_str to_json schema_check).
Implicit Types c : Conc.

Notation state c := (Gateway.app (gateway c)).
Notation any_turn t := (Turn t 0 (λ _, 0%Z)).

(** ** Work

    The turns that the tasks have left, when there are at most [n] connections. *)
Definition task_left (n : nat) (k : task) : nat :=
  match k with Reload _ p => reload_left n p | Check _ p => check_left p end.
Definition work (n : nat) (ts : gmap nat task) : nat := map_fold (λ _ k m, task_left n k + m) 0 ts.
(** The moves of the tasks and of the clients: a send is a turn, and gives the
    client one more response to receive. *)
Definition moves_left c : nat := 2 * work (envoys (state c)) (tasks c) + backlog (state c).

Lemma task_left_pos n k : 1 ≤ task_left n k.
Proof. destruct k as [? []|? []]; simpl; lia. Qed.
Lemma push_todo_mono n m p : n ≤ m → push_todo n p ≤ push_todo m p.
Proof. intros Hnm. unfold push_todo. apply Nat.add_le_mono_l, Nat.mul_le_mono_l. lia. Qed.
Lemma task_left_mono n m k : n ≤ m → task_left n k ≤ task_left m k.
Proof.
  intros Hnm. destruct k as [? p|? p]; [|done]. pose proof (push_todo_mono n m push_start Hnm).
  destruct p; simpl; try lia. pose proof (push_todo_mono n m p Hnm). lia.
Qed.
Lemma work_insert n ts t k : ts !! t = None → work n (<[t := k]> ts) = task_left n k + work n ts.
Proof. intros Ht. unfold work. apply (map_fold_insert_L (λ _ k m, task_left n k + m)); [intros; lia|done]. Qed.
Lemma work_delete n ts t k : ts !! t = Some k → work n ts = task_left n k + work n (delete t ts).
Proof. intros Ht. unfold work. apply (map_fold_delete_L (λ _ k m, task_left n k + m)); [intros; lia|done]. Qed.
Lemma work_set n ts t k k' :
  ts !! t = Some k → work n (<[t := k']> ts) + task_left n k = work n ts + task_left n k'.
Proof.
  intros Ht. rewrite <-insert_delete_eq, work_insert, (work_delete n ts _ _ Ht) by apply lookup_delete_eq. lia.
Qed.
Lemma work_mono n m ts : n ≤ m → work n ts ≤ work m ts.
Proof.
  intros Hnm. induction ts as [|t k ts Ht IH] using map_ind; [done|].
  rewrite !work_insert by done. pose proof (task_left_mono n m k Hnm). lia.
Qed.

(** Every task is still there, as the request that it was, or has been answered
    since. *)
Definition answered c c' (t : nat) : Prop := ∃ new a, answers c' = answers c ++ new ∧ (t, a) ∈ new.
Definition served c c' : Prop :=
  (∃ new, answers c' = answers c ++ new) ∧
  ∀ t k, tasks c !! t = Some k →
    (∃ k', tasks c' !! t = Some k' ∧ is_check k' = is_check k) ∨ answered c c' t.

Lemma served_refl c : served c c.
Proof. split; [exists []; by rewrite app_nil_r|eauto]. Qed.
Lemma served_trans c1 c2 c3 : served c1 c2 → served c2 c3 → served c1 c3.
Proof.
  intros [[n1 H1] Ht1] [[n2 H2] Ht2].
  assert (H12 : answers c3 = answers c1 ++ (n1 ++ n2)) by (by rewrite H2, H1, (assoc_L (++))).
  split; [by exists (n1 ++ n2)|]. intros t k Hk.
  destruct (Ht1 t k Hk) as [(k1 & Hk1 & Hc1)|(m & a & Hm & Ha)].
  - destruct (Ht2 t k1 Hk1) as [(k2 & Hk2 & Hc2)|(m & a & Hm & Ha)]; [left; eexists; split; [done|congruence]|].
    right. exists (n1 ++ n2), a. split; [done|]. rewrite H2 in Hm. apply app_inv_head in Hm as ->. set_solver.
  - right. exists (n1 ++ n2), a. split; [done|]. rewrite H1 in Hm. apply app_inv_head in Hm as ->. set_solver.
Qed.

Definition advances c c' : Prop := moves_left c' < moves_left c ∧ served c c'.

Lemma served_set c t k k' g l :
  tasks c !! t = Some k → is_check k' = is_check k → served c (set_task t k' (set_gateway g (set_lock l c))).
Proof.
  intros Ht Hk. split; [exists []; by rewrite app_nil_r|]. intros t' k0 Ht'. left. simpl.
  destruct (decide (t' = t)) as [->|]; [rewrite lookup_insert_eq|rewrite lookup_insert_ne by done; eauto].
  rewrite Ht in Ht'. simplify_eq. eauto.
Qed.
Lemma served_finish c t k a g l :
  tasks c !! t = Some k → served c (finish t a (set_gateway g (set_lock l c))).
Proof.
  intros Ht. split; [by eexists|]. intros t' k0 Ht'. simpl. destruct (decide (t' = t)) as [->|Hne].
  - right. exists [(t, a)], a. split; [done|left].
  - left. rewrite lookup_delete_ne by done. eauto.
Qed.

(** A turn of a task, for a state with at most as many connections and at most
    one more response to receive. *)
Lemma advances_set c t k k' g l :
  tasks c !! t = Some k → is_check k' = is_check k →
  task_left (envoys (state c)) k' < task_left (envoys (state c)) k →
  envoys (Gateway.app g) ≤ envoys (state c) → backlog (Gateway.app g) ≤ S (backlog (state c)) →
  advances c (set_task t k' (set_gateway g (set_lock l c))).
Proof.
  intros Ht Hk Hlt He Hb. split; [|by eapply served_set]. unfold moves_left. simpl.
  pose proof (work_mono _ _ (<[t := k']> (tasks c)) He).
  pose proof (work_set (envoys (state c)) _ _ _ k' Ht). lia.
Qed.
Lemma advances_finish c t k a g l :
  tasks c !! t = Some k → envoys (Gateway.app g) ≤ envoys (state c) →
  backlog (Gateway.app g) ≤ S (backlog (state c)) →
  advances c (finish t a (set_gateway g (set_lock l c))).
Proof.
  intros Ht He Hb. split; [|by eapply served_finish]. unfold moves_left. simpl.
  pose proof (work_mono _ _ (delete t (tasks c)) He). pose proof (work_delete (envoys (state c)) _ _ _ Ht).
  pose proof (task_left_pos (envoys (state c)) k). lia.
Qed.

(** What a turn does to the connections and the channels. *)
Lemma regenerate_xds env st st' : regenerate_envoy env st = Some st' → xds st' = xds st.
Proof.
  unfold regenerate_envoy. destruct (envoy_config_path st); [|by intros [= <-]].
  destruct (generate_envoy_config _) as [[|]|]; [destruct (re_write env)| |done]; by intros [= <-].
Qed.
Lemma reload_turn_load t env p c c' :
  reload_turn sha256_hex url_parse_ok yaml_from_str to_json schema_check t env p c = Some c' →
  envoys (state c') ≤ envoys (state c) ∧ backlog (state c') ≤ S (backlog (state c)).
Proof.
  assert (Hxds : ∀ st st', xds st' = xds st → envoys st' ≤ envoys st ∧ backlog st' ≤ S (backlog st)).
  { intros st st' Hx. unfold envoys, backlog. rewrite Hx. lia. }
  destruct c as [g l ts ans]. destruct p as [|raw cfg|raw cfg rt|raw cfg|raw cfg s|raw cfg s p|raw cfg|msg];
    cbn [reload_turn gateway].
  - intros [= <-]. apply Hxds. by destruct (reload_load _ _ _ _) as [[]|].
  - unfold take_runtime. destruct (Admin.plugin_engine _) as [e|]; [|intros [= <-]; by apply Hxds].
    destruct (build_runtime _ _ _ _ _ cfg _); intros [= <-]; by apply Hxds.
  - intros [= <-]. by apply Hxds.
  - unfold take_snapshot. destruct (xds (Gateway.app g)) as [x|] eqn:Hx; [|intros [= <-]; by apply Hxds].
    destruct (VersionCounter.increment _) as [v vs].
    destruct (XdsSnapshot.build cfg v); intros [= <-]; unfold envoys, backlog; simpl; rewrite Hx; simpl; lia.
  - intros [= <-]. unfold put_snapshot, with_xds, envoys, backlog.
    destruct (xds (Gateway.app g)) as [x|] eqn:Hx; simpl; rewrite ?Hx; simpl; lia.
  - intros ([o st] & (_ & He & Hb & _)%push_uncommitted & [= <-])%bind_Some. by destruct o.
  - intros (l' & _ & Hc')%bind_Some. unfold commit_reload in Hc'.
    destruct (regenerate_envoy env _) as [st|] eqn:E; injection Hc' as <-; [|by apply Hxds].
    apply Hxds. by apply regenerate_xds in E.
  - intros (l' & _ & [= <-])%bind_Some. by apply Hxds.
Qed.

Lemma turn_advances t thread clock c c' : step (Turn t thread clock) c = Some c' → advances c c'.
Proof.
  cbn [conc_step]. intros ([env p|i p] & Ht & Hs)%bind_Some.
  - destruct (reload_turn_load _ _ _ _ _ Hs) as [He Hb].
    apply reload_turn_shape in Hs as (st & _ & _ & Hcase).
    destruct Hcase as [(p' & -> & _ & _ & _ & Hlt)|[(p' & -> & _ & _ & _ & Hlt)|(r & l & _ & _ & ->)]]; simpl in He, Hb.
    + apply (advances_set c t (Reload env p) (Reload env p') (set_app st (gateway c)) (config_lock c)); [done|done|by apply Hlt|done|done].
    + apply (advances_set c t (Reload env p) (Reload env p') (set_app st (gateway c))); [done|done|by apply Hlt|done|done].
    + by eapply advances_finish.
  - apply check_turn_shape in Hs as (l & g & _ & Hsv & _ & Hcase).
    assert (Hx : ∀ g', same_served (gateway c) g' →
      envoys (Gateway.app g') ≤ envoys (state c) ∧ backlog (Gateway.app g') ≤ S (backlog (state c))).
    { intros g' Hg. unfold envoys, backlog. rewrite (ss_xds _ _ Hg). lia. }
    destruct Hcase as [(p' & -> & _ & Hlt)|(resp & ->)].
    + destruct (Hx g Hsv). by eapply advances_set.
    + destruct (answer_check_shape t thread clock i resp (set_gateway g (set_lock l c))) as (resp' & g' & -> & Hsv' & _).
      destruct (Hx g' (same_served_trans _ _ _ Hsv Hsv')).
      by apply (advances_finish c t (Check i p) (CheckAnswered resp') g' l).
Qed.

(** The client of a stream receives. *)
Lemma received_inv sid c c' :
  step (AdsEvent (Xds.Received sid)) c = Some c' →
  ∃ x ch ch' st, xds (state c) = Some x ∧ channels x !! sid = Some ch ∧ receive ch = Some ch' ∧
    c' = set_state st c ∧
    xds st = Some (set_channels (insert sid ch') (lend_metrics (app_metrics (state c)) x)).
Proof.
  cbn [conc_step ads_turn]. intros (g & (x & Hx & (sys & Hs & [= <-])%bind_Some)%bind_Some & [= <-])%bind_Some.
  cbn [xds_step] in Hs. apply channel_event_inv in Hs as (ch & ch' & Hch & Hr & ->). simpl in Hch.
  eexists x, ch, ch', _. split_and!; [done..|reflexivity|reflexivity].
Qed.
Lemma received_advances sid c c' : step (AdsEvent (Xds.Received sid)) c = Some c' → advances c c'.
Proof.
  intros (x & ch & ch' & st & Hx & Hch & Hr & -> & Hst)%received_inv.
  split; [|split; [exists []; by rewrite app_nil_r|eauto]].
  unfold moves_left, envoys, backlog. simpl. rewrite Hst, Hx. simpl.
  pose proof (unread_set _ _ _ ch' Hch). pose proof (unread_receive _ _ Hr). lia.
Qed.

(** ** No deadlock *)

(** A reload that waits for an Envoy: the next one of its broadcast is connected
    and has sixteen responses to receive. *)
Definition at_envoy (sid : nat) (k : task) : Prop :=
  ∃ env raw cfg s p key h items r rest, k = Reload env (RBroadcast raw cfg s p) ∧
    p_items p = (key, h) :: items ∧ p_left p = r :: rest ∧ sender h = sid.
Definition full (st : AppState) (sid : nat) : Prop :=
  ∃ x ch, xds st = Some x ∧ channels x !! sid = Some ch ∧ listening ch = true ∧ ads_capacity ≤ unread_of ch.
Definition waits_for (st : AppState) (sid : nat) (k : task) : Prop := at_envoy sid k ∧ full st sid.
Lemma at_envoy_check sid i p : ¬ at_envoy sid (Check i p).
Proof. by intros (? & ? & ? & ? & ? & ? & ? & ? & ? & ? & [=] & _). Qed.
Lemma at_envoy_free sid k : at_envoy sid k → waits k = None ∧ holds k = false.
Proof. by intros (? & ? & ? & ? & ? & ? & ? & ? & ? & ? & -> & _). Qed.

(** A task that does not wait, or is first in the queue with the lock free for
    it, can take a turn, unless it waits for an Envoy. *)
Lemma turn_enabled c t k :
  tasks c !! t = Some k →
  match waits k with Some _ => is_Some (RwLock.acquire t (config_lock c)) | None => True end →
  is_Some (step (any_turn t) c) ∨ ∃ sid, waits_for (state c) sid k.
Proof.
  intros Ht Hw. cbn [conc_step]. rewrite Ht. cbn [mbind option_bind].
  destruct k as [env p|i p]; [destruct p as [| | | | |raw cfg s p| |]|destruct p];
    cbn [waits] in Hw; cbn [reload_turn check_turn];
    try (destruct Hw as [l Hl]; rewrite Hl; cbn [mbind option_bind]).
  6: { unfold push_snapshot. destruct (xds (state c)) as [x|] eqn:Hx; [|left; simpl; eauto].
       destruct (push_turn _ p _) as [[o cp]|] eqn:Hp; [left; simpl; eauto|right].
       apply push_turn_waits in Hp as (key & h & items & r & rest & ch & Hi & Hl & Hch & Ho & Hu).
       exists (sender h). split; [by exists env, raw, cfg, s, p, key, h, items, r, rest|by exists x, ch]. }
  all: left; repeat match goal with |- is_Some (let '(_, _) := ?m in _) => destruct m end; eauto.
Qed.

Lemma stuck_waits c :
  lock_inv (config_lock c) (tasks c) → (∀ t, step (any_turn t) c = None) →
  ∀ t k, tasks c !! t = Some k → ∃ sid, waits_for (state c) sid k.
Proof.
  intros [Hr Hq Hn] Hstuck.
  assert (Hfree : ∀ t k, tasks c !! t = Some k → waits k = None → ∃ sid, waits_for (state c) sid k).
  { intros t k Ht Hw. destruct (turn_enabled c t k Ht) as [[c' Hs]|?]; [by rewrite Hw| |done].
    rewrite Hstuck in Hs. done. }
  intros t k Ht. destruct (waits k) as [m|] eqn:Hw; [|by eapply Hfree]. exfalso.
  assert (Hempty : RwLock.readers (config_lock c) = ∅).
  { apply elem_of_equiv_empty_L. intros t' Hin. apply Hr in Hin as (k' & Ht' & Hh).
    destruct (Hfree t' k' Ht') as (sid & Hat & _); [by destruct k' as [|? []]|].
    apply at_envoy_free in Hat as [_ ?]. congruence. }
  assert ((t, m) ∈ RwLock.queue (config_lock c)) as Hin by (apply Hq; eauto).
  destruct (RwLock.queue (config_lock c)) as [|[t1 m1] q] eqn:Eq; [set_solver|].
  destruct (proj1 (Hq t1 m1)) as (k1 & Ht1 & Hw1); [set_solver|].
  destruct (turn_enabled c t1 k1 Ht1) as [[c' Hs]|Hwf].
  - rewrite Hw1. unfold RwLock.acquire. rewrite Eq, bool_decide_eq_true_2 by done.
    destruct m1; [eauto|]. rewrite bool_decide_eq_true_2 by done. eauto.
  - rewrite Hstuck in Hs. done.
  - destruct Hwf as (sid & Hat & _). apply at_envoy_free in Hat as [? _]. congruence.
Qed.

Lemma waits_receive c sid k : waits_for (state c) sid k → is_Some (step (AdsEvent (Xds.Received sid)) c).
Proof.
  intros [_ (x & ch & Hx & Hch & Ho & Hu)].
  cbn [conc_step ads_turn]. rewrite Hx. cbn [mbind option_bind xds_step]. unfold channel_event. simpl.
  rewrite Hch. simpl. unfold receive. rewrite Ho. unfold unread_of, ads_capacity in Hu.
  destruct (Nat.ltb_spec (received ch) (length (sent ch))); [simpl; eauto|lia].
Qed.

(** ** Completion *)
Definition is_turn (ev : conc_event) : bool := match ev with Turn _ _ _ => true | _ => false end.
(** Turns of the tasks, and Envoys that receive. *)
Definition is_step (ev : conc_event) : bool :=
  match ev with Turn _ _ _ | AdsEvent (Xds.Received _) => true | _ => false end.

Lemma step_advances ev c c' : is_step ev = true → step ev c = Some c' → advances c c'.
Proof.
  destruct ev as [| |t thread clock| | |e]; try done; [intros _; apply turn_advances|].
  destruct e; try done. intros _. apply received_advances.
Qed.
Lemma steps_bounded evs c c' :
  forallb is_step evs = true → run evs c = Some c' → length evs + moves_left c' ≤ moves_left c ∧ served c c'.
Proof.
  revert c. induction evs as [|ev evs IH]; intros c Hall Hr; simpl in Hr.
  - simplify_eq. split; [simpl; lia|apply served_refl].
  - cbn [forallb] in Hall. apply andb_true_iff in Hall as [Hev Hall].
    apply bind_Some in Hr as (c1 & Hs & Hr). apply step_advances in Hs as [Hw Hsv]; [|done].
    destruct (IH c1 Hall Hr) as [Hl Hsv']. split; [simpl; lia|by eapply served_trans].
Qed.

Lemma some_step c :
  lock_inv (config_lock c) (tasks c) → tasks c ≠ ∅ → ∃ ev c', is_step ev = true ∧ step ev c = Some c'.
Proof.
  intros Hl Hne. apply map_choose in Hne as (t0 & k0 & Ht0).
  destruct (decide (map_Exists (λ t _, is_Some (step (any_turn t) c)) (tasks c))) as [(t & k & _ & c' & Hs)|Hno].
  { by exists (any_turn t), c'. }
  destruct (stuck_waits c Hl) with (t := t0) (k := k0) as [sid Hw]; [|done|].
  - intros t. apply eq_None_not_Some. intros Hs. apply Hno. cbn [conc_step] in Hs.
    destruct (tasks c !! t) as [k|] eqn:Ht; [|by destruct Hs]. exists t, k. split; [done|].
    cbn [conc_step]. by rewrite Ht.
  - destruct (waits_receive c sid k0 Hw) as [c' Hs]. by exists (AdsEvent (Xds.Received sid)), c'.
Qed.

Lemma steps_complete n limit gone c :
  moves_left c ≤ n → inflight limit gone c →
  ∃ evs c', forallb is_step evs = true ∧ run evs c = Some c' ∧ tasks c' = ∅ ∧ served c c'.
Proof.
  revert c gone. induction n as [|n IH]; intros c gone Hw Hi;
    (destruct (decide (tasks c = ∅)) as [He|Hne]; [exists [], c; split_and!; try done; apply served_refl|]);
    destruct (some_step c (if_lock _ _ _ Hi) Hne) as (ev & c1 & Hev & Hs);
    destruct (step_advances _ _ _ Hev Hs) as [Hlt Hsv]; [lia|].
  destruct (IH c1 _ ltac:(lia) (inflight_step _ _ _ _ _ _ _ _ _ _ Hi Hs)) as (evs & c' & Hall & Hr & He & Hsv').
  exists (ev :: evs), c'. split_and!; [cbn [forallb]; by rewrite Hev| |done|by eapply served_trans].
  cbn [conc_run]. by rewrite Hs.
Qed.


(** ** An Envoy that stops receiving *)
Definition event_task (ev : conc_event) : option nat :=
  match ev with
  | ReloadArrives t _ | CheckArrives t _ | Turn t _ _ | ClientGone t => Some t
  | KeyFetch _ _ _ | AdsEvent _ => None
  end.

Lemma turn_tasks t thread clock c c' :
  step (Turn t thread clock) c = Some c' →
  (∃ k, tasks c' = <[t := k]> (tasks c)) ∨ tasks c' = delete t (tasks c).
Proof.
  cbn [conc_step]. intros ([env p|i p] & Ht & Hs)%bind_Some.
  - apply reload_turn_shape in Hs as (st & _ & _ & [(p' & -> & _)|[(p' & -> & _)|(r & lo & _ & _ & ->)]]);
      simpl; eauto.
  - apply check_turn_shape in Hs as (lo & g & _ & _ & _ & [(p' & -> & _)|(resp & ->)]);
      [simpl; eauto|].
    destruct (answer_check_shape t thread clock i resp (set_gateway g (set_lock lo c))) as (? & ? & -> & _).
    by right.
Qed.

Lemma step_other_task ev c c' t :
  step ev c = Some c' → event_task ev ≠ Some t → tasks c' !! t = tasks c !! t.
Proof.
  intros Hs Ht. destruct ev as [t' renv|t' i|t' thread clock|t'|name reply now|e]; simpl in Ht.
  3: { destruct (turn_tasks t' thread clock c c' Hs) as [[k ->]| ->].
       - rewrite lookup_insert_ne; congruence.
       - rewrite lookup_delete_ne; congruence. }
  all: cbn [conc_step] in Hs.
  - destruct (tasks c !! t'); [done|]. injection Hs as <-. simpl. rewrite lookup_insert_ne; congruence.
  - destruct (tasks c !! t'); [done|]. injection Hs as <-. unfold check_arrives.
    destruct (on_thread _ _ _ _) as [[id|resp] g]; simpl; [|done]. rewrite lookup_insert_ne; congruence.
  - apply bind_Some in Hs as (k & _ & [= <-]). simpl. rewrite lookup_delete_ne; congruence.
  - by apply bind_Some in Hs as (g & _ & [= <-]).
  - by apply bind_Some in Hs as (g & _ & [= <-]).
Qed.

(** A full channel stays full until its client receives or leaves. *)
Lemma push_full env s p st o st' sid :
  push_snapshot env s p st = Some (o, st') → full st sid → full st' sid.
Proof.
  intros Hp (x & ch & Hx & Hch & Ho & Hu). unfold push_snapshot in Hp. rewrite Hx in Hp.
  apply bind_Some in Hp as ([o' cp] & Ht & [= <- <-]).
  destruct (push_turn_cases _ _ _ _ _ Ht) as (_ & _ & _ & _ & Hcs & _).
  assert (channels cp !! sid = Some ch) as Hch'.
  { destruct Hcs as [->|(key & h & items & r & rest & c & c' & _ & _ & Hc & Hs & ->)]; [done|]. simpl in Hc |- *.
    destruct (decide (sender h = sid)) as [<-|Hne]; [|by rewrite lookup_insert_ne].
    rewrite Hch in Hc. injection Hc as <-. assert (send r ch = MustWait) by (by apply send_waits). congruence. }
  eexists _, ch. split; [reflexivity|]. by destruct o'.
Qed.
Lemma full_same st st' sid : xds st' = xds st → full st sid → full st' sid.
Proof. intros Hx. unfold full. by rewrite Hx. Qed.
Lemma reload_turn_full t env p c c' sid :
  reload_turn sha256_hex url_parse_ok yaml_from_str to_json schema_check t env p c = Some c' →
  full (state c) sid → full (state c') sid.
Proof.
  destruct c as [g l ts ans]. destruct p as [|raw cfg|raw cfg rt|raw cfg|raw cfg s|raw cfg s p|raw cfg|msg];
    cbn [reload_turn gateway].
  - intros [= <-]. apply full_same. by destruct (reload_load _ _ _ _) as [[]|].
  - unfold take_runtime. destruct (Admin.plugin_engine _) as [e|]; [|intros [= <-]; by apply full_same].
    destruct (build_runtime _ _ _ _ _ cfg _); intros [= <-]; by apply full_same.
  - intros [= <-]. by apply full_same.
  - intros Hs (x & ch & Hx & Hch). revert Hs. unfold take_snapshot. rewrite Hx.
    destruct (VersionCounter.increment _) as [v vs].
    destruct (XdsSnapshot.build cfg v); intros [= <-]; eexists _, ch; (split; [reflexivity|done]).
  - intros [= <-] (x & ch & Hx & Hch). unfold put_snapshot, with_xds, full. rewrite Hx.
    eexists _, ch. split; [reflexivity|done].
  - intros ([o st] & Hp & [= <-])%bind_Some Hf. apply (push_full _ _ _ _ _ _ _ Hp) in Hf. by destruct o.
  - intros (l' & _ & Hc')%bind_Some. unfold commit_reload in Hc'.
    destruct (regenerate_envoy env _) as [st|] eqn:E; injection Hc' as <-; apply full_same; [|done].
    by apply regenerate_xds in E.
  - intros (l' & _ & [= <-])%bind_Some. by apply full_same.
Qed.
Lemma xds_step_full e sys sys' sid ch :
  (∀ cfg el reads, e ≠ Xds.Rebuild cfg el reads) → e ≠ Xds.Received sid → e ≠ Xds.HungUp sid →
  xds_step e sys = Some sys' → channels (control_plane sys) !! sid = Some ch →
  listening ch = true → ads_capacity ≤ unread_of ch → channels (control_plane sys') !! sid = Some ch.
Proof.
  intros Hne Hre Hhu Hst Hch Ho Hu.
  destruct e as [sid'|sid' msg|sid'|sid'|sid'|sid'|sid'|cfg el reads]; simpl in Hst.
  - destruct (channels _ !! sid') eqn:E; [done|]. injection Hst as <-. simpl. rewrite lookup_insert_ne; congruence.
  - apply stream_event_inv in Hst as (t & tc & _ & Hf & ->). destruct (stream_phase t); simplify_eq/=.
    pose proof (begin_request_proj sid' msg t (control_plane sys)) as Hb.
    destruct (Xds.begin_request sid' msg t (control_plane sys)). simpl in *. by destruct Hb as (_ & _ & -> & _).
  - apply stream_event_inv in Hst as (t & tc & _ & Hf & ->). by destruct (stream_phase t); simplify_eq/=.
  - apply stream_event_inv in Hst as (t & tc & _ & Hf & ->).
    destruct (stream_phase t) as [| |rs]; simplify_eq/=. unfold send_next in Hf.
    destruct rs as [|r rs]; [by simplify_eq/=|]. apply bind_Some in Hf as (c & Hc & Hf).
    destruct (send r c) eqn:Es; simplify_eq/=; [|done]. rewrite lookup_insert_ne; [done|]. intros ->.
    rewrite Hch in Hc. injection Hc as <-. assert (send r ch = MustWait) by (by apply send_waits). congruence.
  - apply bind_Some in Hst as (t & _ & Hst). destruct (stream_phase t); simplify_eq/=.
    destruct (end_stream_proj t (control_plane sys)) as (_ & _ & -> & _). done.
  - apply channel_event_inv in Hst as (? & ? & _ & _ & ->). simpl. rewrite lookup_insert_ne; [done|congruence].
  - apply channel_event_inv in Hst as (? & ? & _ & _ & ->). simpl. rewrite lookup_insert_ne; [done|congruence].
  - by destruct (Hne cfg el reads).
Qed.
Lemma ads_turn_inv e g g' :
  ads_turn e g = Some g' → (∀ cfg el reads, e ≠ Xds.Rebuild cfg el reads) ∧
  ∃ x sys, xds (Gateway.app g) = Some x ∧
    xds_step e (mk_sys (lend_metrics (app_metrics (Gateway.app g)) x) (Gateway.streams g)) = Some sys ∧
    xds (Gateway.app g') = Some (control_plane sys).
Proof.
  intros Ha. split; [by intros cfg el reads ->|]. unfold ads_turn in Ha. destruct e; try done;
    apply bind_Some in Ha as (x & Hx & (sys & Hsys & [= <-])%bind_Some); by exists x, sys.
Qed.
Lemma step_full ev c c' sid :
  ev ≠ AdsEvent (Xds.Received sid) → ev ≠ AdsEvent (Xds.HungUp sid) → step ev c = Some c' →
  full (state c) sid → full (state c') sid.
Proof.
  intros Hre Hhu Hs. destruct ev as [t env|t i|t thread clock|t|name reply now|e]; cbn [conc_step] in Hs.
  - destruct (tasks c !! t); [done|]. by injection Hs as <-.
  - destruct (tasks c !! t); [done|]. injection Hs as <-. apply full_same. unfold check_arrives.
    pose proof (on_thread_served (in_thread i) (in_clock i)
      (check_begin (Hp := engine_host (in_clock i)) (in_nanos i)) (gateway c)) as Hsv.
    destruct (on_thread _ _ _ _) as [[id|resp] g]; apply Hsv.
  - apply bind_Some in Hs as ([env p|i p] & _ & Hs); [by eapply reload_turn_full|].
    apply full_same. apply check_turn_shape in Hs as (lo & g & _ & Hsv & _ & [(p' & -> & _)|(resp & ->)]); [apply Hsv|].
    destruct (answer_check_shape t thread clock i resp (set_gateway g (set_lock lo c))) as (? & g' & -> & Hsv' & _).
    simpl. rewrite (ss_xds _ _ Hsv'). apply Hsv.
  - apply bind_Some in Hs as (k & _ & [= <-]). apply full_same. by destruct k.
  - apply bind_Some in Hs as (g & Hg & [= <-]). unfold key_fetch in Hg.
    apply bind_Some in Hg as (ca & _ & [= <-]). by apply full_same.
  - apply bind_Some in Hs as (g & (Hne & x & sys & Hx & Hs & Hx')%ads_turn_inv & [= <-]).
    intros (x0 & ch & Hx0 & Hch & Ho & Hu). rewrite Hx in Hx0. injection Hx0 as <-. exists (control_plane sys), ch.
    split; [done|]. split; [|done]. eapply xds_step_full; [exact Hne| | |exact Hs|exact Hch|done|done]; congruence.
Qed.
Lemma waits_no_turn c t thread clock k sid :
  tasks c !! t = Some k → waits_for (state c) sid k → step (Turn t thread clock) c = None.
Proof.
  intros Ht [(env & raw & cfg & s & p & key & h & items & r & rest & -> & Hi & Hl & <-) (x & ch & Hx & Hch & Ho & Hu)].
  cbn [conc_step]. rewrite Ht. cbn [mbind option_bind reload_turn]. unfold push_snapshot. rewrite Hx.
  unfold push_turn. rewrite Hi, Hl. simpl. rewrite Hch. simpl.
  assert (send r ch = MustWait) as -> by (by apply send_waits). done.
Qed.

(** [C21] An Envoy that stops receiving blocks a reload for ever: while a reload
    waits for an Envoy that is connected and has sixteen responses to receive,
    no sequence of events answers it or lets it take a turn - requests, turns of
    other tasks, key fetches, other Envoys, whatever they are - short of that
    Envoy receiving or disconnecting, or the operator giving up. *)
Theorem stalled_envoy_blocks_reload (c : Conc) (t sid : nat) (k : task) (evs : list conc_event) (c' : Conc) :
  tasks c !! t = Some k → waits_for (state c) sid k →
  AdsEvent (Xds.Received sid) ∉ evs → AdsEvent (Xds.HungUp sid) ∉ evs → ClientGone t ∉ evs →
  run evs c = Some c' →
  tasks c' !! t = Some k ∧ waits_for (state c') sid k ∧
  ∀ thread clock, step (Turn t thread clock) c' = None.
Proof.
  intros Ht Hw Hre Hhu Hgone Hr.
  assert (tasks c' !! t = Some k ∧ waits_for (state c') sid k) as [Ht' Hw'].
  { revert c Ht Hw Hr. induction evs as [|ev evs IH]; intros c Ht Hw Hr; simpl in Hr; [by simplify_eq|].
    apply bind_Some in Hr as (c1 & Hs & Hr).
    assert (event_task ev ≠ Some t) as Hev.
    { intros He. destruct ev as [t' env|t' i|t' thread clock|t'| |]; simpl in He; simplify_eq.
      - cbn [conc_step] in Hs. by rewrite Ht in Hs.
      - cbn [conc_step] in Hs. by rewrite Ht in Hs.
      - by rewrite (waits_no_turn _ _ _ _ _ _ Ht Hw) in Hs.
      - set_solver. }
    apply (IH ltac:(set_solver) ltac:(set_solver) ltac:(set_solver) c1); [|split; [apply Hw|]|done].
    - by rewrite (step_other_task _ _ _ _ Hs Hev).
    - eapply step_full; [| |exact Hs|apply Hw]; set_solver. }
  split; [done|]. split; [done|]. intros thread clock. by eapply waits_no_turn.
Qed.
End progress.

Import JwtModel LuaVmModel AdminModel GatewayModel ConcModel.

(** The Envoy that a task waits for, by evaluation. *)
Definition blocked_on (c : Conc) (t : nat) : option nat :=
  match tasks c !! t with
  | Some (Reload _ (RBroadcast _ _ _ p)) =>
      match p_items p, p_left p with
      | (_, h) :: _, _ :: _ =>
          x ← xds (Gateway.app (gateway c));
          ch ← channels x !! sender h;
          if listening ch && (ads_capacity <=? unread_of ch)%nat then Some (sender h) else None
      | _, _ => None
      end
  | _ => None
  end.
Lemma blocked_on_waits c t sid :
  blocked_on c t = Some sid → ∃ k, tasks c !! t = Some k ∧ waits_for (Gateway.app (gateway c)) sid k.
Proof.
  unfold blocked_on. destruct (tasks c !! t) as [[env [| | | | |raw cfg s p| |]|]|]; try done.
  destruct (p_items p) as [|[key h] items] eqn:Hi; [done|]. destruct (p_left p) as [|r rest] eqn:Hl; [done|].
  intros (x & Hx & (ch & Hch & Hb)%bind_Some)%bind_Some. destruct (listening ch) eqn:Ho; [|done]. cbn [andb] in Hb.
  destruct (Nat.leb_spec ads_capacity (unread_of ch)); [|done]. injection Hb as <-. eexists. split; [done|].
  split; [by exists env, raw, cfg, s, p, key, h, items, r, rest|by exists x, ch].
Qed.

(** An Envoy with sixteen responses to receive, and a reload that gets to it. *)
Definition stall : list conc_event :=
  (AdsEvent <$> deaf 16) ++ [ReloadArrives 0 (sample_reload "v2")] ++ turns 0 9.
Definition stalled_gateway : Conc := default stopped (run_conc stall begun).
(** A second reload gets as far, and a check is answered. *)
Definition meanwhile : list conc_event :=
  [ReloadArrives 1 (sample_reload "v3"); CheckArrives 2 (incoming 0 "/public/x")] ++ turns 1 9 ++ turns 2 4.
Definition requests_only (ev : conc_event) : bool :=
  match ev with AdsEvent _ | ClientGone _ | KeyFetch _ _ _ => false | _ => true end.
Definition later : Conc := default stopped (run_conc meanwhile stalled_gateway).

Lemma stalled_envoy_blocks_reload_witness :
  run_conc stall begun = Some stalled_gateway ∧ blocked_on stalled_gateway 0 = Some 0 ∧
  run_conc meanwhile stalled_gateway = Some later ∧ (answers later).*1 = [2] ∧
  is_Some (tasks later !! 0) ∧ run_conc (turns 0 1) later = None.
Proof.
  split; [apply some_default; vm_compute; reflexivity|].
  assert (Hb : blocked_on stalled_gateway 0 = Some 0) by (vm_compute; reflexivity).
  assert (Hr : run_conc meanwhile stalled_gateway = Some later) by (apply some_default; vm_compute; reflexivity).
  split; [exact Hb|]. split; [exact Hr|]. split; [vm_compute; reflexivity|].
  destruct (blocked_on_waits _ _ _ Hb) as (k & Hk & Hw).
  destruct (stalled_envoy_blocks_reload digest (λ _, true) parse_any no_json any_schema stalled_gateway 0 0 k
    meanwhile later Hk Hw) as (Hk' & _ & Hn).
  1-3: intros Hin%list_elem_of_In; exact (diff_false_true (proj1 (forallb_forall requests_only meanwhile) eq_refl _ Hin)).
  - exact Hr.
  - split; [exists k; exact Hk'|]. unfold run_conc. cbn [turns replicate conc_run]. rewrite Hn. reflexivity.
Defined.
