(* ===== verification/ReloadOrderSpec.v ===== *)
(** * The order of reloads

    What the parts of the control plane serve while reloads, checks, key
    fetches and ADS turns interleave: reloads one at a time keep the parts
    consistent, whatever else happens between their awaits; overlapping or
    abandoned reloads keep each part authentic but may leave parts of two
    different files. *)
From S2P Require Import Prelude RustStr F64 Yaml ConfigTypes Validation Samples ValidationSpec.
From S2P Require Import EnvoyGen RateLimit RateLimitSpec Auth AuthSpec Observability Plugins PluginsSpec Http ExtAuthz ExtAuthzSpec ExtAuthzResponses.
From S2P Require Import XdsResources XdsResourcesSpec Xds XdsSpec Admin AdminSpec Server ServerSpec Gateway GatewaySpec Concurrent ConcurrentSpec InterleavingSpec.

Section order.
Context `{D : DashMapLib} `{Y : YamlLib} `{P : ProstLib} `{!ProstLaws P} `{V : LuaVm} `{J : JwtLib} `{L : LuaLib} `{H : HeaderLib}.
Context (sha256_hex : string → string).
Context (url_parse_ok : string → bool) (yaml_from_str : string → result YamlError GatewayConfig).
Context (to_json : Value → JsonValue) (schema_check : JsonValue → JsonValue → result string unit).
Notation step := (conc_step sha256_hex url_parse_ok yaml_from_str to_json schema_check).
Notation run := (conc_run sha256_hex url_parse_ok yaml_from_str to_json schema_check).
Notation turn := (reload_turn sha256_hex url_parse_ok yaml_from_str to_json schema_check).
Notation boot := (gateway_start sha256_hex url_parse_ok yaml_from_str to_json schema_check).
Notation consistent := (consistent sha256_hex url_parse_ok yaml_from_str to_json schema_check).
Notation state c := (Gateway.app (gateway c)).
Implicit Types st : AppState.
Implicit Types c : Conc.

(** ** Where the parts come from *)

(** The content of a configuration file that passes validation. *)
Definition loads (raw : string) (cfg : GatewayConfig) : Prop :=
  load_config_from_str url_parse_ok yaml_from_str (from_utf8_lossy raw) = Ok cfg.
Definition runtime_from (cfg : GatewayConfig) (rt : PluginRuntime) : Prop :=
  ∃ dir_exists loader read_dir gen,
    build_runtime to_json schema_check dir_exists loader read_dir cfg gen = Ok rt.
Definition snapshot_from (cfg : GatewayConfig) (s : XdsSnapshot) : Prop :=
  ∃ v, XdsSnapshot.build cfg v = Ok s.

Definition runtime_of (cfg : GatewayConfig) st : Prop :=
  ∀ rt, served_runtime st = Some rt → runtime_from cfg rt.
Definition snapshot_of (cfg : GatewayConfig) st : Prop :=
  ∀ s, served_snapshot st = Some s → snapshot_from cfg s.
Definition authentic st : Prop :=
  ∃ raw, ConfigState.sha256 (config_state st) = sha256_hex raw ∧
         loads raw (ConfigState.config (config_state st)).
(** Every part is built from some valid file. *)
Definition from_files st : Prop :=
  authentic st ∧ (∃ raw cfg, loads raw cfg ∧ runtime_of cfg st) ∧
  ∃ raw cfg, loads raw cfg ∧ snapshot_of cfg st.

(** What a reload carries from one await to the next. *)
Definition phase_ok (p : reload_phase) : Prop :=
  match p with
  | RLoad | RRefuse _ => True
  | RPlugins raw cfg | RXds raw cfg | RCommit raw cfg => loads raw cfg
  | RRuntime raw cfg rt => loads raw cfg ∧ runtime_from cfg rt
  | RSnapshot raw cfg s | RBroadcast raw cfg s _ => loads raw cfg ∧ snapshot_from cfg s
  end.
(** The files of the plugin chains and of the snapshot, while a reload is at
    [p] and the active configuration is [cfg0]. *)
Definition sources (cfg0 : GatewayConfig) (p : reload_phase) : GatewayConfig * GatewayConfig :=
  match p with
  | RLoad | RPlugins _ _ | RRuntime _ _ _ | RRefuse _ => (cfg0, cfg0)
  | RXds _ cfg | RSnapshot _ cfg _ => (cfg, cfg0)
  | RBroadcast _ cfg _ _ | RCommit _ cfg => (cfg, cfg)
  end.
Definition served_as (p : reload_phase) st : Prop :=
  runtime_of (sources (ConfigState.config (config_state st)) p).1 st ∧
  snapshot_of (sources (ConfigState.config (config_state st)) p).2 st.

Lemma loads_valid raw cfg : loads raw cfg → valid_config url_parse_ok cfg.
Proof.
  unfold loads, load_config_from_str. intros El. apply result_bind_Ok in El as (c & _ & El).
  apply result_bind_Ok in El as ([] & Hval & [= <-]). by apply validate_valid.
Qed.

Lemma consistent_parts st : consistent st ↔ authentic st ∧ served_as RLoad st.
Proof. unfold AdminSpec.consistent, serves, authentic, served_as, runtime_of, snapshot_of. simpl. tauto. Qed.
Lemma consistent_from_files st : consistent st → from_files st.
Proof.
  rewrite consistent_parts. intros [Ha [Hr Hs]]. split; [done|]. destruct Ha as (raw & _ & Hl). eauto 10.
Qed.

(** States that serve the same parts. *)
Record same_parts st st' : Prop := {
  sp_config : config_state st' = config_state st;
  sp_snapshot : served_snapshot st' = served_snapshot st;
  sp_runtime : served_runtime st' = served_runtime st
}.
Lemma same_parts_runtime st st' cfg : same_parts st st' → runtime_of cfg st → runtime_of cfg st'.
Proof. intros [_ _ Hr]. unfold runtime_of. by rewrite Hr. Qed.
Lemma same_parts_snapshot st st' cfg : same_parts st st' → snapshot_of cfg st → snapshot_of cfg st'.
Proof. intros [_ Hs _]. unfold snapshot_of. by rewrite Hs. Qed.
Lemma same_parts_served p st st' : same_parts st st' → served_as p st → served_as p st'.
Proof.
  intros Hs [Hr Hn]. unfold served_as. rewrite (sp_config _ _ Hs).
  split; [by eapply same_parts_runtime|by eapply same_parts_snapshot].
Qed.
Lemma same_parts_authentic st st' : same_parts st st' → authentic st → authentic st'.
Proof. intros [Hc _ _]. unfold authentic. by rewrite Hc. Qed.
Lemma same_parts_files st st' : same_parts st st' → from_files st → from_files st'.
Proof.
  intros Hs (Ha & (raw & cfg & Hl & Hr) & raw' & cfg' & Hl' & Hn).
  split; [by eapply same_parts_authentic|].
  split; [exists raw, cfg|exists raw', cfg']; split; try done;
    [by eapply same_parts_runtime|by eapply same_parts_snapshot].
Qed.

(** ** The stretches of a reload *)
Lemma take_runtime_parts env cfg st :
  same_parts st (take_runtime to_json schema_check env cfg st).2 ∧
  match (take_runtime to_json schema_check env cfg st).1 with
  | Ok None => served_runtime st = None
  | Ok (Some rt) => runtime_from cfg rt
  | Err _ => True
  end.
Proof.
  unfold take_runtime. destruct (plugin_engine st) as [e|] eqn:He; simpl.
  - split; [split; [done..|]; unfold served_runtime; by rewrite He|].
    destruct (build_runtime _ _ _ _ _ cfg _) as [rt|] eqn:Hb; simpl; [|done]. by eexists _, _, _, _.
  - split; [done|]. unfold served_runtime. by rewrite He.
Qed.
Lemma put_runtime_parts rt st :
  config_state (put_runtime rt st) = config_state st ∧
  served_snapshot (put_runtime rt st) = served_snapshot st ∧
  served_runtime (put_runtime rt st) = ((λ _, rt) <$> plugin_engine st).
Proof. unfold put_runtime, served_runtime. simpl. by destruct (plugin_engine st). Qed.
Lemma take_snapshot_parts cfg st :
  same_parts st (take_snapshot cfg st).2 ∧
  match (take_snapshot cfg st).1 with
  | Ok None => served_snapshot st = None
  | Ok (Some s) => snapshot_from cfg s
  | Err _ => ¬ valid_config url_parse_ok cfg
  end.
Proof.
  unfold take_snapshot. destruct (xds st) as [x|] eqn:Hx.
  2: { split; [done|]. unfold served_snapshot. by rewrite Hx. }
  destruct (VersionCounter.increment (versions x)) as [v vs].
  destruct (XdsSnapshot.build cfg v) as [s|e] eqn:Hb; simpl.
  - split; [|by exists v]. split; unfold served_snapshot; simpl; rewrite ?Hx; done.
  - split; [split; unfold served_snapshot; simpl; rewrite ?Hx; done|].
    intros Hv. destruct (snapshot_built url_parse_ok cfg v Hv) as (s & _ & _ & _ & _ & Hb' & _). congruence.
Qed.
Lemma put_snapshot_parts s st :
  config_state (put_snapshot s st) = config_state st ∧
  served_runtime (put_snapshot s st) = served_runtime st ∧
  served_snapshot (put_snapshot s st) = ((λ _, s) <$> xds st).
Proof. unfold put_snapshot, with_xds, served_snapshot. by destruct (xds st) as [x|] eqn:Hx; simpl; rewrite ?Hx. Qed.
Lemma push_snapshot_parts env s p st o st' :
  push_snapshot env s p st = Some (o, st') → same_parts st st'.
Proof.
  unfold push_snapshot. destruct (xds st) as [x|] eqn:Hx; [|by intros [= <- <-]].
  intros ([o' cp'] & (Hsn & _)%push_turn_cases & [= <- <-])%bind_Some.
  split; [done| |done]. unfold served_snapshot. simpl. rewrite Hx. simpl in *. rewrite <-Hsn. by destruct o'.
Qed.
Lemma commit_parts env raw cfg st :
  let st' := (commit_reload sha256_hex env raw cfg st).2 in
  config_state st' = ConfigState.mk cfg (sha256_hex raw) (re_now env) ReloadedOk None ∧
  served_snapshot st' = served_snapshot st ∧ served_runtime st' = served_runtime st.
Proof.
  unfold commit_reload. match goal with |- context [regenerate_envoy env ?s] =>
    destruct (regenerate_cases env s) as (f & -> & _) end. done.
Qed.
Lemma refuse_parts now msg st :
  let st' := (reload_validation_error now msg st).2 in
  ConfigState.config (config_state st') = ConfigState.config (config_state st) ∧
  ConfigState.sha256 (config_state st') = ConfigState.sha256 (config_state st) ∧
  served_snapshot st' = served_snapshot st ∧ served_runtime st' = served_runtime st.
Proof. done. Qed.

(** The task of a reload after a turn; [None] when it has answered. *)
Definition after_turn (t : nat) (env : reload_env) (o : option reload_phase) (ts : gmap nat task)
    : gmap nat task :=
  match o with Some p => <[t := Reload env p]> ts | None => delete t ts end.
(** What a turn from [p] to [o] does to the parts. *)
Record turn_effect (p : reload_phase) (o : option reload_phase) st st' : Prop := {
  te_phase p' : o = Some p' → phase_ok p';
  te_authentic : authentic st → authentic st';
  te_served : served_as p st → served_as (default RLoad o) st';
  te_files : from_files st → from_files st'
}.

(** A turn that leaves the parts, from a phase to one with the same sources. *)
Lemma effect_same p p' st st' :
  same_parts st st' → phase_ok p' → (∀ cfg0, sources cfg0 p' = sources cfg0 p) →
  turn_effect p (Some p') st st'.
Proof.
  intros Hs Hp Hsrc. split.
  - by intros ? [= <-].
  - by apply same_parts_authentic.
  - intros Hv. apply (same_parts_served _ _ _ Hs) in Hv. unfold served_as in *. simpl. by rewrite Hsrc.
  - by apply same_parts_files.
Qed.
Lemma effect_runtime raw cfg p st st' :
  loads raw cfg → (∀ cfg0, sources cfg0 p = (cfg0, cfg0)) →
  config_state st' = config_state st → served_snapshot st' = served_snapshot st → runtime_of cfg st' →
  turn_effect p (Some (RXds raw cfg)) st st'.
Proof.
  intros Hl Hp Hc Hn Hr. split.
  - by intros ? [= <-].
  - unfold authentic. by rewrite Hc.
  - unfold served_as, snapshot_of. simpl. rewrite Hp, Hc, Hn. by intros [_ ?].
  - unfold from_files, authentic, snapshot_of. rewrite Hc, Hn. intros (? & _ & ?). eauto 10.
Qed.
Lemma effect_snapshot raw cfg p p' st st' :
  loads raw cfg → phase_ok p' → (∀ cfg0, sources cfg0 p = (cfg, cfg0)) →
  (∀ cfg0, sources cfg0 p' = (cfg, cfg)) →
  config_state st' = config_state st → served_runtime st' = served_runtime st → snapshot_of cfg st' →
  turn_effect p (Some p') st st'.
Proof.
  intros Hl Hok Hp Hp' Hc Hr Hn. split.
  - by intros ? [= <-].
  - unfold authentic. by rewrite Hc.
  - unfold served_as, runtime_of. simpl. rewrite Hp, Hp', Hr. by intros [? _].
  - unfold from_files, authentic, runtime_of. rewrite Hc, Hr. intros (? & ? & _). eauto 10.
Qed.
Lemma effect_commit env raw cfg st :
  loads raw cfg → turn_effect (RCommit raw cfg) None st (commit_reload sha256_hex env raw cfg st).2.
Proof.
  intros Hl. destruct (commit_parts env raw cfg st) as (Hc & Hn & Hr). split; [done|..].
  - intros _. exists raw. by rewrite Hc.
  - unfold served_as, runtime_of, snapshot_of. simpl. by rewrite Hc, Hn, Hr.
  - unfold from_files, runtime_of, snapshot_of. rewrite Hn, Hr. intros (_ & ? & ?).
    split; [|done]. exists raw. by rewrite Hc.
Qed.
Lemma effect_refuse msg now st :
  turn_effect (RRefuse msg) None st (reload_validation_error now msg st).2.
Proof. split; [done|done|done|done]. Qed.

Lemma reload_load_ok env st raw cfg :
  reload_load url_parse_ok yaml_from_str env st = Ok (raw, cfg) → loads raw cfg.
Proof.
  unfold reload_load, loads. destruct (re_read env) as [raw'|]; [|done].
  destruct (load_config_from_str _ _ _) as [cfg'|] eqn:El; [|done]. by intros [= <- <-].
Qed.

Lemma reload_turn_effect t env p c c' :
  phase_ok p → turn t env p c = Some c' →
  ∃ o, tasks c' = after_turn t env o (tasks c) ∧ turn_effect p o (state c) (state c').
Proof.
  intros Hok. destruct c as [g l ts ans]. destruct p; cbn [reload_turn gateway config_lock].
  - destruct (reload_load _ _ env _) as [[raw cfg]|msg] eqn:El; intros [= <-].
    + exists (Some (RPlugins raw cfg)). split; [done|]. apply effect_same; [done| |done].
      by eapply reload_load_ok.
    + exists (Some (RRefuse msg)). split; [done|]. by apply effect_same.
  - destruct (take_runtime_parts env cfg (Gateway.app g)) as [Hs Hr].
    destruct (take_runtime _ _ _ _ _) as [[[rt|]|e] st]; simpl in Hs, Hr; intros [= <-].
    + exists (Some (RRuntime raw cfg rt)). split; [done|]. by apply effect_same.
    + exists (Some (RXds raw cfg)). split; [done|]. destruct Hs as [Hc Hn Hrt].
      apply effect_runtime; [done..|]. unfold runtime_of. simpl. by rewrite Hrt, Hr.
    + eexists (Some (RRefuse _)). split; [done|]. by apply effect_same.
  - intros [= <-]. exists (Some (RXds raw cfg)). split; [done|]. destruct Hok as [Hl Hrt].
    destruct (put_runtime_parts rt (Gateway.app g)) as (Hc & Hn & Hr).
    apply effect_runtime; [done..|]. intros rt'. simpl. rewrite Hr.
    destruct (plugin_engine _); [by intros [= <-]|done].
  - destruct (take_snapshot_parts cfg (Gateway.app g)) as [Hs Hn].
    destruct (take_snapshot _ _) as [[[s|]|e] st]; simpl in Hs, Hn; intros [= <-].
    + exists (Some (RSnapshot raw cfg s)). split; [done|]. by apply effect_same.
    + exists (Some (RCommit raw cfg)). split; [done|]. destruct Hs as [Hc Hsn Hrt].
      eapply effect_snapshot; [exact Hok|done..|]. unfold snapshot_of. simpl. by rewrite Hsn, Hn.
    + destruct Hn. by eapply loads_valid.
  - intros [= <-]. exists (Some (RBroadcast raw cfg s push_start)). split; [done|]. destruct Hok as [Hl Hsn].
    destruct (put_snapshot_parts s (Gateway.app g)) as (Hc & Hr & Hn).
    eapply effect_snapshot; [exact Hl|done..|]. intros s'. simpl. rewrite Hn.
    destruct (xds _); [by intros [= <-]|done].
  - intros ([o st] & Hpush%push_snapshot_parts & [= <-])%bind_Some. destruct Hok as [Hl Hsn].
    exists (Some (match o with Some p' => RBroadcast raw cfg s p' | None => RCommit raw cfg end)).
    destruct o; (split; [done|]); by apply effect_same.
  - intros (l' & _ & Hc')%bind_Some. pose proof (effect_commit env raw cfg (Gateway.app g) Hok) as He.
    destruct (commit_reload _ _ _ _ _) as [r st]. injection Hc' as <-. by exists None.
  - intros (l' & _ & [= <-])%bind_Some. exists None. split; [done|]. apply effect_refuse.
Qed.

(** The other steps leave the parts. *)
Lemma same_served_parts g g' : same_served g g' → same_parts (Gateway.app g) (Gateway.app g').
Proof. intros [Hc He Hx _ _]. split; [done|unfold served_snapshot|unfold served_runtime]; congruence. Qed.
Lemma check_turn_parts t thread clock i p c c' :
  check_turn t thread clock i p c = Some c' →
  same_parts (state c) (state c') ∧
  ((∃ p', tasks c' = <[t := Check i p']> (tasks c)) ∨ tasks c' = delete t (tasks c)).
Proof.
  intros Hs. apply check_turn_shape in Hs as (l & g & _ & Hsv & _ & [(p' & -> & _)|(resp & ->)]).
  - split; [by apply same_served_parts|]. left. by exists p'.
  - destruct (answer_check_shape t thread clock i resp (set_gateway g (set_lock l c))) as (? & g' & -> & Hsv' & _).
    split; [|by right]. apply same_served_parts. by eapply same_served_trans.
Qed.
Lemma check_arrives_parts t i c :
  same_parts (state c) (state (check_arrives t i c)) ∧
  (tasks (check_arrives t i c) = tasks c ∨
   ∃ i' p, tasks (check_arrives t i c) = <[t := Check i' p]> (tasks c)).
Proof.
  unfold check_arrives. pose proof (on_thread_served (in_thread i) (in_clock i)
    (check_begin (Hp := engine_host (in_clock i)) (in_nanos i)) (gateway c)) as Hsv.
  destruct (on_thread _ _ _ (gateway c)) as [[id|resp] g]; (split; [by apply same_served_parts|]).
  - right. by eexists _, _.
  - by left.
Qed.
(** ** The steps, as reloads see them *)
Definition reload_at (ts : gmap nat task) (t : nat) (env : reload_env) (p : reload_phase) : Prop :=
  ts !! t = Some (Reload env p).
Definition same_reloads (ts ts' : gmap nat task) : Prop :=
  ∀ t env p, reload_at ts' t env p ↔ reload_at ts t env p.

Lemma same_reloads_check ts t i p :
  (∀ env p, ts !! t ≠ Some (Reload env p)) → same_reloads ts (<[t := Check i p]> ts).
Proof.
  intros Hn t' env q. unfold reload_at. destruct (decide (t' = t)) as [->|Hne].
  - rewrite lookup_insert_eq. split; [done|]. by intros ?%Hn.
  - by rewrite lookup_insert_ne.
Qed.
Lemma same_reloads_delete ts t :
  (∀ env p, ts !! t ≠ Some (Reload env p)) → same_reloads ts (delete t ts).
Proof.
  intros Hn t' env q. unfold reload_at. destruct (decide (t' = t)) as [->|Hne].
  - rewrite lookup_delete_eq. split; [done|]. by intros ?%Hn.
  - by rewrite lookup_delete_ne.
Qed.

Inductive reload_step (ev : conc_event) (c c' : Conc) : Prop :=
  | step_other :
      same_parts (state c) (state c') → same_reloads (tasks c) (tasks c') → reload_step ev c c'
  | step_arrives t env :
      ev = ReloadArrives t env → tasks c !! t = None → same_parts (state c) (state c') →
      tasks c' = <[t := Reload env RLoad]> (tasks c) → reload_step ev c c'
  | step_turn t env p o :
      reload_at (tasks c) t env p → turn_effect p o (state c) (state c') →
      tasks c' = after_turn t env o (tasks c) → reload_step ev c c'
  | step_gone t env p :
      ev = ClientGone t → reload_at (tasks c) t env p → same_parts (state c) (state c') →
      tasks c' = delete t (tasks c) → reload_step ev c c'.

Lemma step_reload_step ev c c' :
  (∀ t env p, reload_at (tasks c) t env p → phase_ok p) → step ev c = Some c' → reload_step ev c c'.
Proof.
  intros Hok Hs. destruct ev as [t env|t i|t thread clock|t|name reply now|e]; cbn [conc_step] in Hs.
  - destruct (tasks c !! t) eqn:Ht; [done|]. injection Hs as <-. by eapply step_arrives.
  - destruct (tasks c !! t) eqn:Ht; [done|]. injection Hs as <-.
    destruct (check_arrives_parts t i c) as [Hp Hts]. apply step_other; [done|].
    destruct Hts as [->|(i' & p & ->)]; [done|]. apply same_reloads_check. congruence.
  - apply bind_Some in Hs as ([env p|i p] & Ht & Hs).
    + destruct (reload_turn_effect t env p c c' (Hok t env p Ht) Hs) as (o & Hts & He).
      by eapply step_turn.
    + apply check_turn_parts in Hs as [Hp Hts]. apply step_other; [done|].
      destruct Hts as [(p' & ->)| ->]; [apply same_reloads_check|apply same_reloads_delete]; congruence.
  - apply bind_Some in Hs as ([env p|i p] & Ht & [= <-]).
    + by eapply step_gone.
    + apply step_other; [done|]. apply same_reloads_delete. congruence.
  - apply bind_Some in Hs as (g & Hg & [= <-]). unfold key_fetch in Hg.
    apply bind_Some in Hg as (ca & _ & [= <-]). by apply step_other.
  - apply bind_Some in Hs as (g & Hg & [= <-]). apply ads_turn_keeps in Hg as (Hc & Hsn & Hr & _ & _).
    by apply step_other.
Qed.

(** ** Any interleaving *)
Record files_inv c : Prop := {
  fi_phases t env p : reload_at (tasks c) t env p → phase_ok p;
  fi_files : from_files (state c)
}.

(** The reloads after a turn. *)
Lemma after_turn_at t env o ts t' env' p' :
  reload_at (after_turn t env o ts) t' env' p' →
  (t' = t ∧ env' = env ∧ o = Some p') ∨ (t' ≠ t ∧ reload_at ts t' env' p').
Proof.
  unfold reload_at, after_turn. destruct (decide (t' = t)) as [->|Hne].
  - destruct o as [p|]; [|by rewrite lookup_delete_eq]. rewrite lookup_insert_eq. intros [= <- <-]. by left.
  - destruct o as [p|]; [rewrite lookup_insert_ne by done|rewrite lookup_delete_ne by done]; by right.
Qed.

Lemma files_step ev c c' : files_inv c → step ev c = Some c' → files_inv c'.
Proof.
  intros [Hok Hf] Hs. apply step_reload_step in Hs; [|done].
  destruct Hs as [Hp Hr|t env Hev Ht Hp Hts|t env p o Ht [Hph _ _ Hfi] Hts|t env p Hev Ht Hp Hts].
  - split; [|by eapply same_parts_files]. intros t env p Hat. apply Hr in Hat. by eapply Hok.
  - split; [|by eapply same_parts_files]. intros t' env' p' Hat.
    change (<[t := Reload env RLoad]> (tasks c)) with (after_turn t env (Some RLoad) (tasks c)) in Hts.
    rewrite Hts in Hat. apply after_turn_at in Hat as [(_ & _ & [= <-])|[_ Hat]]; [done|by eapply Hok].
  - split; [|by apply Hfi]. intros t' env' p' Hat. rewrite Hts in Hat.
    apply after_turn_at in Hat as [(_ & _ & Ho)|[_ Hat]]; [by apply Hph|by eapply Hok].
  - split; [|by eapply same_parts_files]. intros t' env' p' Hat.
    change (delete t (tasks c)) with (after_turn t env None (tasks c)) in Hts.
    rewrite Hts in Hat. apply after_turn_at in Hat as [(_ & _ & [=])|[_ Hat]]. by eapply Hok.
Qed.
Lemma files_run evs c c' : files_inv c → run evs c = Some c' → files_inv c'.
Proof.
  revert c. induction evs as [|ev evs IH]; intros c Hi Hr; simpl in Hr; [by injection Hr as <-|].
  apply bind_Some in Hr as (c1 & Hs & Hr). eapply IH; [|exact Hr]. by eapply files_step.
Qed.

Lemma boot_consistent env db g : boot env db = Ok g → consistent (Gateway.app g).
Proof.
  unfold gateway_start. intros (st & Hst & [= <-])%result_bind_Ok. simpl. by eapply start_consistent.
Qed.

(** [C17] However requests interleave - reloads overlapping each other, clients
    leaving in the middle of a reload, checks, key fetches and ADS turns
    between any two awaits - nothing invalid is ever served: the active
    configuration is the validated content of the file whose digest is
    reported, and the plugin chains and the xDS snapshot are each built from
    some file that passed validation. *)
Theorem interleaved_reloads_authentic (env : start_env) (db : redis_db) (g : Gateway)
    (evs : list conc_event) (c : Conc) :
  boot env db = Ok g → run evs (conc_start g) = Some c → from_files (state c).
Proof.
  intros Hb Hr. apply (files_run evs (conc_start g) c); [|done].
  split; [by intros t env' p Hat|]. by eapply consistent_from_files, boot_consistent.
Qed.

(** ** Reloads one at a time *)
Definition idle (ts : gmap nat task) : Prop := map_Forall (λ _ k, is_check k = true) ts.
Global Instance idle_dec ts : Decision (idle ts).
Proof. apply _. Defined.

(** A reload arrives when no other is in progress, and its client waits for the
    answer. *)
Definition serial (ev : conc_event) (c : Conc) : bool :=
  match ev with
  | ReloadArrives _ _ => bool_decide (idle (tasks c))
  | ClientGone t => from_option is_check true (tasks c !! t)
  | _ => true
  end.
Fixpoint serial_run (evs : list conc_event) (c : Conc) : option Conc :=
  match evs with
  | [] => Some c
  | ev :: evs => if serial ev c then c' ← step ev c; serial_run evs c' else None
  end.

Lemma idle_no_reload ts t env p : idle ts → ¬ reload_at ts t env p.
Proof. intros Hi Hat. by specialize (Hi t _ Hat). Qed.

Record serial_inv c : Prop := {
  si_authentic : authentic (state c);
  si_idle : idle (tasks c) → served_as RLoad (state c);
  si_one t env p t' env' p' :
    reload_at (tasks c) t env p → reload_at (tasks c) t' env' p' → t' = t;
  si_phase t env p : reload_at (tasks c) t env p → phase_ok p ∧ served_as p (state c)
}.

(** With one reload in progress, what is left after its turn. *)
Lemma after_turn_idle t env p o ts :
  reload_at ts t env p → (∀ t' env' p', reload_at ts t' env' p' → t' = t) →
  idle (after_turn t env o ts) ↔ o = None.
Proof.
  intros Ht Hone. split.
  - intros Hi. destruct o as [p'|]; [|done]. exfalso. apply (idle_no_reload _ t env p' Hi).
    apply lookup_insert_eq.
  - intros ->. intros t' k Hk. simpl in Hk. apply lookup_delete_Some in Hk as [Hne Hk].
    destruct k as [env' p'|]; [|done]. destruct Hne. symmetry. by eapply Hone.
Qed.

Lemma serial_step ev c c' : serial_inv c → serial ev c = true → step ev c = Some c' → serial_inv c'.
Proof.
  intros [Ha Hi Hone Hph] Hser Hs. apply step_reload_step in Hs; [|intros; by eapply Hph].
  destruct Hs as [Hp Hr|t env -> Ht Hp Hts|t env p o Ht [Hpo Hau Hse _] Hts|t env p -> Ht Hp Hts].
  - split.
    + by eapply same_parts_authentic.
    + intros Hidle. eapply same_parts_served; [done|]. apply Hi. intros t k Hk.
      destruct k as [env p|]; [|done]. destruct (idle_no_reload _ t env p Hidle). by apply Hr.
    + intros t env p t' env' p' Hat%Hr Hat'%Hr. by eapply Hone.
    + intros t env p Hat%Hr. apply Hph in Hat as [? ?]. split; [done|by eapply same_parts_served].
  - apply bool_decide_eq_true in Hser.
    assert (Hat : ∀ t' env' p', reload_at (tasks c') t' env' p' → t' = t ∧ p' = RLoad).
    { intros t' env' p' Hat. rewrite Hts in Hat.
      apply (after_turn_at t env (Some RLoad)) in Hat as [(-> & _ & [= <-])|[_ Hat]]; [done|].
      by apply idle_no_reload in Hat. }
    assert (Hserved : served_as RLoad (state c')) by (eapply same_parts_served; [done|by apply Hi]).
    split; [by eapply same_parts_authentic|done| |].
    + intros t1 ? ? t2 ? ? [-> _]%Hat [-> _]%Hat. done.
    + intros t1 ? ? [_ ->]%Hat. done.
  - destruct (Hph _ _ _ Ht) as [Hok Hsv]. split; [by apply Hau| | |].
    + rewrite Hts, (after_turn_idle _ _ p) by (try done; intros; by eapply Hone). intros ->. by apply Hse.
    + intros t1 e1 p1 t2 e2 p2. rewrite Hts.
      intros [(-> & _)|[_ H1]]%after_turn_at [(-> & _)|[_ H2]]%after_turn_at;
        rewrite ?(Hone _ _ _ _ _ _ Ht H1), ?(Hone _ _ _ _ _ _ Ht H2); done.
    + intros t1 e1 p1. rewrite Hts. intros [(-> & _ & ->)|[Hne H1]]%after_turn_at.
      * split; [by apply Hpo|by apply Hse].
      * by destruct Hne, (Hone _ _ _ _ _ _ Ht H1).
  - simpl in Hser. rewrite Ht in Hser. done.
Qed.
Lemma serial_run_inv evs c c' : serial_inv c → serial_run evs c = Some c' → serial_inv c'.
Proof.
  revert c. induction evs as [|ev evs IH]; intros c Hi Hr; simpl in Hr; [by injection Hr as <-|].
  destruct (serial ev c) eqn:Hser; [|done]. apply bind_Some in Hr as (c1 & Hs & Hr).
  eapply IH; [|exact Hr]. by eapply serial_step.
Qed.

(** [C16] Reloads that do not overlap and are not abandoned keep the control
    plane consistent, with any number of checks, key fetches and ADS turns
    interleaved at their awaits: whenever no reload is in progress, the active
    configuration, its digest, the plugin chains and the xDS snapshot are those
    of one and the same file; and while one is in progress, the configuration
    that checks see is still the validated content of the file its digest
    names. *)
Theorem serial_reloads_consistent (env : start_env) (db : redis_db) (g : Gateway)
    (evs : list conc_event) (c : Conc) :
  boot env db = Ok g → serial_run evs (conc_start g) = Some c →
  authentic (state c) ∧ (idle (tasks c) → consistent (state c)).
Proof.
  intros Hb Hr. apply boot_consistent, consistent_parts in Hb as [Ha Hs].
  destruct (serial_run_inv evs (conc_start g) c) as [Ha' Hi _ _]; [|done|].
  - split; [done|done|by intros t e p t' e' p' Hat|by intros t e p Hat].
  - split; [done|]. intros Hidle. apply consistent_parts. split; [done|by apply Hi].
Qed.
End order.

(** ** Overlapping and abandoned reloads

    The premises of [serial_reloads_consistent] are needed: two reloads that
    overlap, and one whose client leaves, on a control plane that starts with
    one service in its file. *)
Section divergence.
Context `{D : DashMapLib} `{Y : YamlLib} `{P : ProstLib} `{V : LuaVm} `{J : JwtLib}.

(** The number of clusters of the snapshot that new streams are sent. *)
Definition clusters_served (st : AppState) : option nat :=
  s ← served_snapshot st; length <$> XdsSnapshot.resources s !! CLUSTER_TYPE_URL.

Lemma build_clusters_length cfg v s :
  XdsSnapshot.build cfg v = Ok s →
  length <$> XdsSnapshot.resources s !! CLUSTER_TYPE_URL = Some (length (GatewayConfig.services cfg)).
Proof.
  unfold XdsSnapshot.build. intros (cs & Hcs & (es & _ & (l & _ & (r & _ & [= <-])%result_bind_Ok)
    %result_bind_Ok)%result_bind_Ok)%result_bind_Ok. simpl.
  rewrite !lookup_insert_ne, lookup_insert_eq by (vm_compute; by intros [=]). simpl. f_equal.
  unfold Resources.build_clusters in Hcs. by apply mapM_Ok, Forall2_length in Hcs.
Qed.

(** A consistent control plane serves a cluster per service. *)
Lemma consistent_clusters sha url yaml tj sc st n :
  consistent sha url yaml tj sc st → clusters_served st = Some n →
  n = length (GatewayConfig.services (ConfigState.config (config_state st))).
Proof.
  intros [_ [Hs _]] Hn. unfold clusters_served in Hn. apply bind_Some in Hn as (s & Hs' & Hn).
  destruct (Hs s Hs') as [v Hb]. apply build_clusters_length in Hb. congruence.
Qed.
End divergence.

Import JwtModel LuaVmModel AdminModel GatewayModel ConcModel.
Notation sample_consistent := (consistent digest (λ _, true) parse_any no_json any_schema).

Definition reloads_answered (c : Conc) : list (nat * option ReloadResponse) :=
  omap (λ '(t, a), match a with ReloadAnswered r => Some (t, r) | CheckAnswered _ => None end) (answers c).

(** The second reload takes the later version and stores its snapshot first; a
    broadcast takes [n] turns. *)
Definition overlap (n : nat) : list conc_event :=
  [ReloadArrives 0 (sample_reload "v2"); ReloadArrives 1 (sample_reload "v3")] ++
  turns 0 4 ++ turns 1 5 ++ turns 0 (S n) ++ turns 1 n ++ turns 0 1 ++ turns 1 1.
Definition overlapped : Conc := default stopped (run_conc (overlap 5) begun).

(** The client leaves while the reload waits for a check to end. *)
Definition leave : list conc_event :=
  [CheckArrives 0 (incoming 0 "/public/x")] ++ turns 0 1 ++
  [ReloadArrives 1 (sample_reload "v3")] ++ turns 1 10 ++ [ClientGone 1] ++ turns 0 3.
Definition abandoned_reload : Conc := default stopped (run_conc leave begun).

(** Two reloads that overlap can both be answered with success and leave a
    control plane that serves parts of two files: the active configuration and
    the reported digest are those of the file with two services, and the xDS
    snapshot has the one cluster of the other file, at an older version than the
    one already pushed.  Nothing orders the stores of the snapshot like the
    stores of the configuration. *)
Theorem overlapping_reloads_diverge :
  run_conc (overlap 5) begun = Some overlapped ∧ size (tasks overlapped) = 0 ∧
  reloads_answered overlapped =
    [(0, Some (ReloadSuccess "sha:v1" "sha:v2" 200)); (1, Some (ReloadSuccess "sha:v2" "sha:v3" 200))] ∧
  ConfigState.sha256 (config_state (Gateway.app (gateway overlapped))) = "sha:v3" ∧
  clusters_served (Gateway.app (gateway overlapped)) = Some 1 ∧
  ¬ sample_consistent (Gateway.app (gateway overlapped)).
Proof.
  assert (Hc : clusters_served (Gateway.app (gateway overlapped)) = Some 1) by (vm_compute; reflexivity).
  split; [apply some_default; vm_compute; reflexivity|].
  split_and!; [vm_compute; reflexivity..|]. intros Hcon. apply (consistent_clusters _ _ _ _ _ _ 1 Hcon) in Hc. revert Hc. vm_compute. discriminate.
Qed.

(** A reload whose client leaves while it waits for the configuration is
    dropped half way: the request was never answered, the active configuration
    and its digest are the old ones, and the plugin chains and the xDS snapshot
    of the new file stay in service. *)
Theorem abandoned_reload_diverges :
  run_conc leave begun = Some abandoned_reload ∧ size (tasks abandoned_reload) = 0 ∧
  (answers abandoned_reload).*1 = [0] ∧
  ConfigState.sha256 (config_state (Gateway.app (gateway abandoned_reload))) = "sha:v1" ∧
  clusters_served (Gateway.app (gateway abandoned_reload)) = Some 2 ∧
  ¬ sample_consistent (Gateway.app (gateway abandoned_reload)).
Proof.
  assert (Hc : clusters_served (Gateway.app (gateway abandoned_reload)) = Some 2)
    by (vm_compute; reflexivity).
  split; [apply some_default; vm_compute; reflexivity|].
  split_and!; [vm_compute; reflexivity..|]. intros Hcon. apply (consistent_clusters _ _ _ _ _ _ 2 Hcon) in Hc. revert Hc. vm_compute. discriminate.
Qed.

Lemma interleaved_reloads_authentic_witness :
  boot = Ok booted ∧
  from_files digest (λ _, true) parse_any no_json any_schema (Gateway.app (gateway overlapped)).
Proof.
  split; [exact boot_ok|].
  apply (interleaved_reloads_authentic digest (λ _, true) parse_any no_json any_schema sample_start ∅ booted
    (overlap 5) overlapped boot_ok). apply some_default. vm_compute. reflexivity.
Defined.

(** A check and a stream in the middle of a reload. *)
Definition serially : list conc_event :=
  [CheckArrives 0 (incoming 0 "/public/x"); ReloadArrives 1 (sample_reload "v3")] ++ turns 0 1 ++
  turns 1 3 ++ [AdsEvent (Xds.Open 0)] ++ turns 0 3 ++ turns 1 8.
Definition settled_down : Conc :=
  default stopped (serial_run digest (λ _, true) parse_any no_json any_schema serially begun).

Lemma serial_reloads_consistent_witness :
  ConfigState.sha256 (config_state (Gateway.app (gateway settled_down))) = "sha:v3" ∧
  clusters_served (Gateway.app (gateway settled_down)) = Some 2 ∧
  sample_consistent (Gateway.app (gateway settled_down)).
Proof.
  split; [vm_compute; reflexivity|]. split; [vm_compute; reflexivity|].
  apply (serial_reloads_consistent digest (λ _, true) parse_any no_json any_schema sample_start ∅ booted
    serially settled_down boot_ok).
  - apply some_default. vm_compute. reflexivity.
  - apply (bool_decide_unpack _). vm_compute. exact I.
Defined.
