(* ===== verification/PushSpec.v ===== *)
(** * xDS pushes while reloads run

    [Concurrent] cuts a rebuild where it waits for the snapshot and at every send
    of its broadcast, so that reloads overlap and streams and clients turn in
    between.  Every response sent still comes from a file
    that passed validation, and a version still names one configuration; only
    the order of the pushes is lost. *)
From S2P Require Import Prelude RustStr F64 Yaml ConfigTypes Validation Samples ValidationSpec.
From S2P Require Import EnvoyGen RateLimit RateLimitSpec Auth AuthSpec Observability Plugins PluginsSpec Http ExtAuthz ExtAuthzSpec ExtAuthzResponses.
From S2P Require Import XdsResources XdsResourcesSpec Xds XdsSpec Admin AdminSpec Server ServerSpec Gateway GatewaySpec Concurrent ConcurrentSpec InterleavingSpec ReloadOrderSpec.

Section push.
Context `{D : DashMapLib} `{Y : YamlLib} `{P : ProstLib} `{!ProstLaws P} `{V : LuaVm} `{J : JwtLib} `{L : LuaLib} `{H : HeaderLib}.
Context (sha256_hex : string → string).
Context (url_parse_ok : string → bool) (yaml_from_str : string → result YamlError GatewayConfig).
Context (to_json : Value → JsonValue) (schema_check : JsonValue → JsonValue → result string unit).
Notation step := (conc_step sha256_hex url_parse_ok yaml_from_str to_json schema_check).
Notation run := (conc_run sha256_hex url_parse_ok yaml_from_str to_json schema_check).
Notation turn := (reload_turn sha256_hex url_parse_ok yaml_from_str to_json schema_check).
Notation boot := (gateway_start sha256_hex url_parse_ok yaml_from_str to_json schema_check).
Notation files_inv := (files_inv sha256_hex url_parse_ok yaml_from_str to_json schema_check).
Notation loads := (loads url_parse_ok yaml_from_str).
Notation state c := (Gateway.app (gateway c)).
Implicit Types c : Conc.

(** The snapshot a reload carries was built. *)
Definition carried (cfgs : list GatewayConfig) (p : reload_phase) : Prop :=
  match p with
  | RSnapshot _ _ s => ∃ i, built cfgs i s
  | RBroadcast _ _ s p =>
      (∃ i, built cfgs i s) ∧ ∀ r, r ∈ p_left p → r ∈ XdsSnapshot.ordered_responses s
  | _ => True
  end.
(** [cfgs] are the configurations that were given a version, in order. *)
Definition pushes_ok (cfgs : list GatewayConfig) (g : Gateway) : Prop :=
  ∀ x, xds (Gateway.app g) = Some x → prov_inv cfgs (mk_sys x (Gateway.streams g)).
Record push_inv (cfgs : list GatewayConfig) c : Prop := {
  pu_files : files_inv c;
  pu_loaded cfg : cfg ∈ cfgs → ∃ raw, loads raw cfg;
  pu_carried t env p : reload_at (tasks c) t env p → carried cfgs p;
  pu_xds : pushes_ok cfgs (gateway c)
}.

Lemma carried_mono cfgs new p : length new ≤ 1 → carried cfgs p → carried (cfgs ++ new) p.
Proof.
  destruct new as [|cfg [|]]; simpl; [by rewrite app_nil_r| |lia]. intros _.
  destruct p; simpl; try done; [|intros [Hb Hl]; split; [revert Hb|exact Hl]];
    intros [i Hi]; exists i; by apply built_mono.
Qed.

(** Only the snapshot, the versions and the channels matter. *)
Lemma pushes_ok_same cfgs g g' :
  xds (Gateway.app g') = xds (Gateway.app g) → Gateway.streams g' = Gateway.streams g →
  pushes_ok cfgs g → pushes_ok cfgs g'.
Proof. unfold pushes_ok. by intros -> ->. Qed.
Lemma pushes_ok_lent cfgs g m x :
  pushes_ok cfgs g → xds (Gateway.app g) = Some x →
  prov_inv cfgs (mk_sys (lend_metrics m x) (Gateway.streams g)).
Proof.
  intros Hp Hx. specialize (Hp x Hx).
  apply (prov_quiet _ _ _ _ Hp); [done|done|apply (pv_sent _ _ Hp)|apply (pv_pending _ _ Hp)].
Qed.

(** ** The stretches of a reload *)
Lemma take_snapshot_push cfgs cfg g :
  (Z.of_nat (length cfgs) < u64_max)%Z → pushes_ok cfgs g →
  let '(r, st) := take_snapshot cfg (Gateway.app g) in
  ∃ new, (new = [] ∨ new = [cfg]) ∧ pushes_ok (cfgs ++ new) (set_app st g) ∧
    match r with Ok (Some s) => ∃ i, built (cfgs ++ new) i s | _ => True end.
Proof.
  intros Hlen Hp. unfold take_snapshot. destruct (xds (Gateway.app g)) as [x|] eqn:Hx.
  2: { exists []. rewrite app_nil_r. split; [by left|]. split; [|done]. by apply (pushes_ok_same _ g). }
  pose proof (next_version _ _ Hlen (Hp x Hx)) as Hv.
  unfold VersionCounter.increment. cbn [control_plane] in Hv. rewrite Hv. cbn zeta iota beta.
  assert (Hok : ∀ m st, xds st = Some (mk_cp (snapshot x) (VersionCounter.mk (Z.of_nat (length cfgs) + 1))
                          (connections x) (status_cells x) (channels x) m) → pushes_ok (cfgs ++ [cfg]) (set_app st g)).
  { intros m st Hst x'. simpl. rewrite Hst. intros [= <-]. by apply (prov_take _ _ _ _ (Hp x Hx)). }
  destruct (XdsSnapshot.build cfg _) as [s|e] eqn:Hb; exists [cfg]; (split; [by right|]).
  - split; [by eapply Hok|]. exists (length cfgs). by apply built_last.
  - split; [by eapply Hok|done].
Qed.
Lemma put_snapshot_push cfgs i s g :
  pushes_ok cfgs g → built cfgs i s → pushes_ok cfgs (set_app (put_snapshot s (Gateway.app g)) g).
Proof.
  intros Hp Hb x. unfold put_snapshot, with_xds. destruct (xds (Gateway.app g)) as [x0|] eqn:Hx; simpl;
    [|by rewrite Hx]. intros [= <-]. by eapply (prov_put _ _ i s _ (Hp x0 Hx)).
Qed.
Lemma push_snapshot_push cfgs env s p g o st :
  pushes_ok cfgs g → (∃ i, built cfgs i s) → (∀ r, r ∈ p_left p → r ∈ XdsSnapshot.ordered_responses s) →
  push_snapshot env s p (Gateway.app g) = Some (o, st) →
  pushes_ok cfgs (set_app st g) ∧
  ∀ p', o = Some p' → ∀ r, r ∈ p_left p' → r ∈ XdsSnapshot.ordered_responses s.
Proof.
  intros Hp [i Hb] Hleft. unfold push_snapshot. destruct (xds (Gateway.app g)) as [x0|] eqn:Hx.
  2: { intros [= <- <-]. split; [|done]. by apply (pushes_ok_same _ g). }
  intros ([o' cp] & Ht & [= <- <-])%bind_Some.
  destruct (push_turn_cases _ _ _ _ _ Ht) as (Hs & Hv & _ & _ & Hch & Hl). split.
  2: { intros p' -> r Hr. destruct (Hl p' eq_refl r Hr); auto. }
  pose proof (pushes_ok_lent _ _ (app_metrics (Gateway.app g)) _ Hp Hx) as Hpv.
  assert (prov_inv cfgs (mk_sys cp (Gateway.streams g))) as Hpv'.
  { apply (prov_quiet _ _ _ _ Hpv); [done|done| |exact (pv_pending _ _ Hpv)]. intros sid c r Hc Hr.
    destruct Hch as [Heq|(key & h & items & r0 & rest & c0 & c' & _ & Hpl & Hc0 & Hsend & Heq)]; rewrite Heq in Hc.
    - by eapply (pv_sent _ _ Hpv).
    - apply lookup_insert_Some in Hc as [[<- <-]|[_ Hc]]; [|by eapply (pv_sent _ _ Hpv)].
      apply send_taken in Hsend as [_ ->]. simpl in Hr. apply elem_of_app in Hr as [Hr|Hr]; [by eapply (pv_sent _ _ Hpv)|].
      apply list_elem_of_singleton in Hr as ->. eapply from_built_ordered; [exact Hb|]. apply Hleft. rewrite Hpl. left. }
  intros x. simpl. intros [= <-]. destruct o'; [done|].
  by apply (prov_quiet _ _ _ _ Hpv'); [done|done|apply (pv_sent _ _ Hpv')|apply (pv_pending _ _ Hpv')].
Qed.

(** A turn of a reload gives at most one configuration a version. *)
Lemma reload_turn_push cfgs t env p c c' :
  (Z.of_nat (length cfgs) < u64_max)%Z → phase_ok url_parse_ok yaml_from_str to_json schema_check p →
  carried cfgs p → pushes_ok cfgs (gateway c) → turn t env p c = Some c' →
  ∃ new o, length new ≤ 1 ∧ (∀ cfg, cfg ∈ new → ∃ raw, loads raw cfg) ∧
    tasks c' = after_turn t env o (tasks c) ∧ (∀ p', o = Some p' → carried (cfgs ++ new) p') ∧
    pushes_ok (cfgs ++ new) (gateway c').
Proof.
  intros Hlen Hok Hca Hp.
  (* a turn that takes no version *)
  assert (Hquiet : ∀ o c', tasks c' = after_turn t env o (tasks c) → (∀ p', o = Some p' → carried cfgs p') →
    pushes_ok cfgs (gateway c') → ∃ new o, length new ≤ 1 ∧ (∀ cfg, cfg ∈ new → ∃ raw, loads raw cfg) ∧
    tasks c' = after_turn t env o (tasks c) ∧ (∀ p', o = Some p' → carried (cfgs ++ new) p') ∧
    pushes_ok (cfgs ++ new) (gateway c')).
  { intros o c1 Hts Hc1 Hp1. exists [], o. rewrite app_nil_r. split_and!; [simpl; lia|set_solver|done..]. }
  destruct c as [g l ts ans]. destruct p; cbn [reload_turn gateway config_lock tasks] in *.
  - destruct (reload_load _ _ env _) as [[raw cfg]|msg]; intros [= <-];
      [apply (Hquiet (Some (RPlugins raw cfg)))|apply (Hquiet (Some (RRefuse msg)))]; try done;
      by intros ? [= <-].
  - unfold take_runtime. destruct (plugin_engine (Gateway.app g)) as [e|]; [|intros [= <-]].
    + destruct (build_runtime _ _ _ _ _ cfg _) as [rt|er]; simpl; intros [= <-];
        [apply (Hquiet (Some (RRuntime raw cfg rt)))|eapply (Hquiet (Some (RRefuse _)))]; try done;
        by intros ? [= <-].
    + apply (Hquiet (Some (RXds raw cfg))); [done|by intros ? [= <-]|done].
  - intros [= <-]. apply (Hquiet (Some (RXds raw cfg))); [done|by intros ? [= <-]|done].
  - pose proof (take_snapshot_push cfgs cfg g Hlen Hp) as Ht.
    destruct (take_snapshot _ _) as [r st]. destruct Ht as (new & Hnew & Hp' & Hr).
    assert (length new ≤ 1) by (destruct Hnew as [-> | ->]; simpl; lia).
    assert (∀ cfg', cfg' ∈ new → ∃ raw, loads raw cfg').
    { destruct Hnew as [-> | ->]; intros cfg'; [set_solver|]. intros ->%list_elem_of_singleton. by exists raw. }
    destruct r as [[s|]|e]; intros [= <-]; eexists new, (Some _); split_and!; try done; by intros ? [= <-].
  - intros [= <-]. destruct Hca as [i Hb]. apply (Hquiet (Some (RBroadcast raw cfg s push_start))); [done| |].
    + intros ? [= <-]. split; [by exists i|]. set_solver.
    + by eapply put_snapshot_push.
  - intros ([o st] & Hpush & [= <-])%bind_Some. destruct Hca as [Hb Hl].
    destruct (push_snapshot_push cfgs env s p g o st Hp Hb Hl Hpush) as [Hp' Hl'].
    apply (Hquiet (Some (match o with Some p' => RBroadcast raw cfg s p' | None => RCommit raw cfg end)));
      [by destruct o| |by destruct o]. intros ? [= <-]. destruct o as [p'|]; [|done].
    split; [done|]. by apply Hl'.
  - intros (l' & _ & Hc')%bind_Some. unfold commit_reload in Hc'.
    match type of Hc' with context [regenerate_envoy env ?s] =>
      destruct (regenerate_cases env s) as (f & Hf & _); rewrite Hf in Hc' end.
    injection Hc' as <-. by apply (Hquiet None).
  - intros (l' & _ & [= <-])%bind_Some. by apply (Hquiet None).
Qed.

(** ** Any interleaving *)
Lemma push_inv_same cfgs c c' :
  push_inv cfgs c → files_inv c' → same_reloads (tasks c) (tasks c') →
  xds (state c') = xds (state c) → Gateway.streams (gateway c') = Gateway.streams (gateway c) →
  push_inv cfgs c'.
Proof.
  intros [_ Hl Hc Hp] Hf Hr Hx Hs. split; [done|done| |by eapply pushes_ok_same].
  intros t env p Hat. apply Hr in Hat. by eapply Hc.
Qed.
Lemma ads_turn_push cfgs e g g' :
  pushes_ok cfgs g → ads_turn e g = Some g' → pushes_ok cfgs g'.
Proof.
  intros Hp Ha. assert (Hne : ∀ cfg el reads, e ≠ Xds.Rebuild cfg el reads) by (by intros cfg el reads ->).
  assert (∃ x sys, xds (Gateway.app g) = Some x ∧
    xds_step e (mk_sys (lend_metrics (app_metrics (Gateway.app g)) x) (Gateway.streams g)) = Some sys ∧
    xds (Gateway.app g') = Some (control_plane sys) ∧ Gateway.streams g' = Xds.streams sys) as (x & sys & Hx & Hs & Hx' & Hst).
  { unfold ads_turn in Ha. destruct e; try done;
      apply bind_Some in Ha as (x & Hx & (sys & Hsys & [= <-])%bind_Some); by exists x, sys. }
  intros x'. rewrite Hx', Hst. intros [= <-].
  apply prov_step with (cfgs := cfgs) in Hs as [Hi _]; [by destruct sys|by apply pushes_ok_lent|done].
Qed.

Lemma push_step cfgs ev c c' :
  (Z.of_nat (length cfgs) < u64_max)%Z → push_inv cfgs c → step ev c = Some c' →
  ∃ new, length new ≤ 1 ∧ push_inv (cfgs ++ new) c'.
Proof.
  intros Hlen Hi Hs. pose proof (files_step _ _ _ _ _ _ _ _ (pu_files _ _ Hi) Hs) as Hf.
  assert (Hsame : push_inv cfgs c' → ∃ new, length new ≤ 1 ∧ push_inv (cfgs ++ new) c').
  { intros ?. exists []. rewrite app_nil_r. split; [simpl; lia|done]. }
  destruct ev as [t env|t i|t thread clock|t|name reply now|e]; cbn [conc_step] in Hs.
  - destruct (tasks c !! t) eqn:Ht; [done|]. injection Hs as <-. apply Hsame. destruct Hi as [_ Hl Hc Hp].
    split; [done|done| |done]. intros t' env' p' Hat.
    apply (after_turn_at t env (Some RLoad)) in Hat as [(_ & _ & [= <-])|[_ Hat]]; [done|by eapply Hc].
  - destruct (tasks c !! t) eqn:Ht; [done|]. injection Hs as <-. apply Hsame.
    destruct (check_arrives_parts t i c) as [_ Hts]. pose proof (on_thread_served (in_thread i) (in_clock i)
      (check_begin (Hp := engine_host (in_clock i)) (in_nanos i)) (gateway c)) as Hsv.
    apply (push_inv_same _ _ _ Hi Hf).
    + destruct Hts as [->|(i' & p & ->)]; [done|]. apply same_reloads_check. congruence.
    + unfold check_arrives. destruct (on_thread _ _ _ _) as [[id|resp] g]; apply Hsv.
    + unfold check_arrives. destruct (on_thread _ _ _ _) as [[id|resp] g]; apply Hsv.
  - apply bind_Some in Hs as ([env p|i p] & Ht & Hs).
    + destruct Hi as [Hfi Hl Hc Hp].
      destruct (reload_turn_push cfgs t env p c c' Hlen (fi_phases _ _ _ _ _ _ Hfi t env p Ht) (Hc t env p Ht) Hp Hs)
        as (new & o & Hn & Hnl & Hts & Hca & Hp'). exists new. split; [done|]. split; [done| | |done].
      * intros cfg [?|?]%elem_of_app; [by apply Hl|by apply Hnl].
      * intros t' env' p' Hat. rewrite Hts in Hat.
        apply after_turn_at in Hat as [(_ & _ & Ho)|[_ Hat]]; [by apply Hca|]. apply carried_mono; [done|by eapply Hc].
    + apply Hsame. destruct (check_turn_parts _ _ _ _ _ _ _ Hs) as [_ Hts].
      apply check_turn_shape in Hs as (l & g & _ & Hsv & _ & Hc').
      assert (Hg : same_served (gateway c) (gateway c')).
      { destruct Hc' as [(p' & -> & _)|(resp & ->)]; [done|].
        destruct (answer_check_shape t thread clock i resp (set_gateway g (set_lock l c))) as (? & g' & -> & Hsv' & _).
        by eapply same_served_trans. }
      apply (push_inv_same _ _ _ Hi Hf); [|apply Hg|apply Hg].
      destruct Hts as [(p' & ->)| ->]; [apply same_reloads_check|apply same_reloads_delete]; congruence.
  - apply Hsame. apply bind_Some in Hs as (k & Ht & [= <-]). destruct Hi as [_ Hl Hc Hp].
    split; [done|done| |by destruct k]. intros t' env' p' Hat.
    assert (Hat' : reload_at (after_turn t env' None (tasks c)) t' env' p') by (by destruct k).
    apply after_turn_at in Hat' as [(_ & _ & [=])|[_ ?]]. by eapply Hc.
  - apply Hsame. apply bind_Some in Hs as (g & Hg & [= <-]). unfold key_fetch in Hg.
    apply bind_Some in Hg as (ca & _ & [= <-]). by apply (push_inv_same _ _ _ Hi Hf).
  - apply Hsame. apply bind_Some in Hs as (g & Hg & [= <-]). destruct Hi as [_ Hl Hc Hp].
    split; [done|done|done|]. by eapply ads_turn_push.
Qed.
Lemma push_run evs : ∀ cfgs c c',
  (Z.of_nat (length cfgs) + Z.of_nat (length evs) ≤ u64_max)%Z → push_inv cfgs c → run evs c = Some c' →
  ∃ cfgs', push_inv cfgs' c'.
Proof.
  induction evs as [|ev evs IH]; intros cfgs c c' Hlen Hi Hr; simpl in Hr; [injection Hr as <-; eauto|].
  cbn [length] in Hlen. apply bind_Some in Hr as (c1 & Hs & Hr).
  apply (push_step cfgs) in Hs as (new & Hn & Hi'); [|lia|done].
  eapply IH; [|exact Hi'|exact Hr]. rewrite length_app. lia.
Qed.

(** The first version is that of the configuration at startup. *)
Lemma push_boot env db g : boot env db = Ok g → ∃ cfg, push_inv [cfg] (conc_start g).
Proof.
  intros Hb. pose proof (boot_consistent _ _ _ _ _ _ _ _ Hb) as Hcon.
  assert (Hf : files_inv (conc_start g))
    by (split; [by intros t env' p Hat|by apply consistent_from_files]).
  exists (ConfigState.config (config_state (Gateway.app g))). split; [done| |by intros t env' p Hat|].
  - intros cfg ->%list_elem_of_singleton. destruct Hcon as [(raw & _ & Hraw) _]. by exists raw.
  - unfold gateway_start in Hb. apply result_bind_Ok in Hb as (st & Hst & [= <-]). intros x Hx. simpl in Hx |- *.
    destruct (start_xds_new _ _ _ _ _ _ _ _ Hst Hx) as (m & Hnew). unfold XdsControlPlane_new in Hnew.
    apply result_bind_Ok in Hnew as (s & Hbs & [= <-]). split; simpl; [done|exists 0; by apply (built_last [])|set_solver..].
Qed.
End push.

Section theorems.
Context `{D : DashMapLib} `{Y : YamlLib} `{P : ProstLib} `{!ProstLaws P} `{V : LuaVm} `{J : JwtLib} `{L : LuaLib} `{H : HeaderLib}.
Context (sha256_hex : string → string).
Context (url_parse_ok : string → bool) (yaml_from_str : string → result YamlError GatewayConfig).
Context (to_json : Value → JsonValue) (schema_check : JsonValue → JsonValue → result string unit).

(** [C18] However reloads overlap each other and the turns of the ADS streams - a
    rebuild is cut between its build, the store of its snapshot and every send of
    its broadcast, and may wait or be abandoned at any of them - there is one sequence of
    configurations, each the content of a file that passed validation, such that
    the snapshot in service and every response ever sent to a stream are built
    from the configuration that their version counts; and two responses of the
    same type and version, on whatever streams, are the same response. *)
Theorem concurrent_pushes_authentic (env : start_env) (db : redis_db) (g : Gateway)
    (evs : list conc_event) (c : Conc) (x : XdsControlPlane) :
  gateway_start sha256_hex url_parse_ok yaml_from_str to_json schema_check env db = Ok g →
  (Z.of_nat (length evs) < u64_max)%Z →
  conc_run sha256_hex url_parse_ok yaml_from_str to_json schema_check evs (conc_start g) = Some c →
  xds (Gateway.app (gateway c)) = Some x →
  (∃ cfgs, (∀ cfg, cfg ∈ cfgs → ∃ raw, loads url_parse_ok yaml_from_str raw cfg) ∧
    (∃ i, built cfgs i (snapshot x)) ∧
    ∀ sid ch r, channels x !! sid = Some ch → r ∈ sent ch → from_built cfgs r) ∧
  ∀ sid sid' ch ch' r r', channels x !! sid = Some ch → channels x !! sid' = Some ch' →
    r ∈ sent ch → r' ∈ sent ch' → DiscoveryResponse.type_url r = DiscoveryResponse.type_url r' →
    DiscoveryResponse.version_info r = DiscoveryResponse.version_info r' → r = r'.
Proof.
  intros Hb Hlen Hr Hx. destruct (push_boot _ _ _ _ _ _ _ _ Hb) as [cfg Hi].
  destruct (push_run _ _ _ _ _ evs [cfg] _ _ ltac:(simpl; lia) Hi Hr) as [cfgs [_ Hl _ Hp]].
  destruct (Hp x Hx) as [_ Hs Hc _]. split; [by exists cfgs|].
  intros sid sid' ch ch' r r' Hch Hch' Hr1 Hr2 Hu Hv. eapply from_built_unique; eauto.
Qed.
End theorems.

(** ** Two Envoys and overlapping reloads *)
Import JwtModel LuaVmModel AdminModel GatewayModel ConcModel.
Definition two_envoys : list conc_event :=
  (AdsEvent <$> greet 0 "envoy-1") ++ overlap 10 ++ (AdsEvent <$> greet 1 "envoy-2").
Definition pushed : Conc := default stopped (run_conc two_envoys begun).
Lemma pushed_ok : run_conc two_envoys begun = Some pushed.
Proof. apply some_default. vm_compute. reflexivity. Qed.
Definition pushed_cp : XdsControlPlane := default sample_cp (xds (Gateway.app (gateway pushed))).
Definition sent_to (sid : nat) : list string := versions_sent sid (mk_sys pushed_cp ∅).

(** Envoys can be left on different configurations: after two reloads that
    overlap, both answered with success and nothing left to do, an Envoy that was
    connected all along has been pushed version 3 last, and an Envoy that
    connects afterwards is sent version 2, of the other file. *)
Theorem overlapping_reloads_split_envoys :
  run_conc two_envoys begun = Some pushed ∧ size (tasks pushed) = 0 ∧
  reloads_answered pushed =
    [(0, Some (ReloadSuccess "sha:v1" "sha:v2" 200)); (1, Some (ReloadSuccess "sha:v2" "sha:v3" 200))] ∧
  last (sent_to 0) = Some "3" ∧ sent_to 1 = ["2"].
Proof. split; [exact pushed_ok|]. split_and!; vm_compute; reflexivity. Qed.

Lemma concurrent_pushes_authentic_witness :
  sent_to 0 = ["1"; "2"; "2"; "2"; "2"; "3"; "3"; "3"; "3"] ∧
  ∃ cfgs, (∀ cfg, cfg ∈ cfgs → ∃ raw, loads (λ _, true) parse_any raw cfg) ∧
    (∃ i, built cfgs i (snapshot pushed_cp)) ∧
    ∀ sid ch r, channels pushed_cp !! sid = Some ch → r ∈ sent ch → from_built cfgs r.
Proof.
  split; [vm_compute; reflexivity|].
  assert (Hlen : (Z.of_nat (length two_envoys) < u64_max)%Z) by (vm_compute; reflexivity).
  assert (Hx : xds (Gateway.app (gateway pushed)) = Some pushed_cp) by (apply some_default; vm_compute; reflexivity).
  pose proof pushed_ok as Hrun. unfold run_conc, begun in Hrun.
  destruct (concurrent_pushes_authentic digest (λ _, true) parse_any no_json any_schema sample_start ∅ booted
    two_envoys pushed pushed_cp boot_ok Hlen Hrun Hx) as [Hc _]. exact Hc.
Defined.
