(* ===== verification/AdmissionSpec.v ===== *)
(** * Admission under interleaving

    The safety of the gateway while requests overlap: whatever reloads, key
    fetches, ADS turns and other checks happen between the awaits of a check, a
    request for a protected route that is let through, and that no plugin
    answered, was authenticated for the configuration that is active when it is
    answered. *)
From S2P Require Import Prelude RustStr F64 Yaml ConfigTypes Validation Samples ValidationSpec.
From S2P Require Import RateLimit RateLimitSpec Auth AuthSpec Observability Plugins PluginsSpec Http ExtAuthz ExtAuthzSpec ExtAuthzResponses.
From S2P Require Import XdsResources XdsResourcesSpec Xds XdsSpec Admin AdminSpec Server ServerSpec Gateway GatewaySpec Concurrent ConcurrentSpec InterleavingSpec ProgressSpec.

(** ** The halves of the authentication *)
Section halves.
Context `{Y : YamlLib} `{J : JwtLib} `{L : LuaLib} `{H : HeaderLib} `{Hp : PluginHost}.

(** A denial is answered with its own status. *)
Lemma or_deny_result {A} e m route req (auth : st App (result AuthDeny A)) s :
  match (or_deny e m route req auth s).1 with
  | Ok a => (auth s).1 = Ok a
  | Err resp => ∃ deny, (auth s).1 = Err deny ∧ Http.status resp = deny_status deny
  end.
Proof.
  unfold or_deny. rewrite bind_fst. destruct (auth s).1 as [a|deny]; [done|].
  rewrite !bind_fst. cbn [st_ret fst]. exists deny. by rewrite early_deny_status.
Qed.
Lemma verdict_result route rh v s :
  match (auth_verdict route rh v s).1 with
  | Ok _ => ∃ id, v = Ok id
  | Err deny => deny_status deny ≠ 200%Z
  end.
Proof.
  pose proof (verdict_denies route rh v s) as Hd. destruct v as [id|err]; simpl in *; [by exists id|].
  destruct Hd as (_ & _ & Hd). intros Heq. specialize (Hd _ eq_refl). simpl in Hd, Heq. rewrite Heq in Hd. set_solver.
Qed.

(** What the two halves of the authentication find. *)
Definition auth_finding (e : req_env) (cfg : GatewayConfig) (route : RouteConfig) (headers : HeaderMap)
    (s : App) (a : HeaderMap * option string + string * AuthProvider * JwksCache) : Prop :=
  (RouteConfig.auth_required route = false ∧ ∃ ok, a = inl ok) ∨
  ∃ token p ca, extract_bearer headers = Some (Valid token) ∧ provider_of cfg route = Some p ∧
    ExtAuthz.jwks_registry s !! AuthProvider.name p = Some ca ∧
    match a with
    | inl _ => ∃ id, validate_token (e_now_secs e) token p (cached_keys ca) (required_scopes_of route) = Ok id
    | inr x => x = (token, p, ca)
    end.

Lemma auth_begin_result e cfg route headers rh s :
  match (auth_begin e cfg route headers rh s).1 with
  | Ok a => auth_finding e cfg route headers s a
  | Err deny => deny_status deny ≠ 200%Z
  end.
Proof.
  unfold auth_begin, auth_finding. destruct (RouteConfig.auth_required route); cbn [negb]; [|left; eauto].
  pose proof (credentials_spec cfg route headers s) as Hc. rewrite bind_fst.
  destruct (auth_credentials _ _ _ s) as [[[[token p] ca]|deny] s']; simpl in *; cycle 1.
  { destruct Hc as (_ & _ & Hd). intros Heq. rewrite Heq in Hd. set_solver. }
  destruct Hc as (-> & Hb & Hpr & Hc). rewrite <-(provider_of_name _ _ _ Hpr) in Hc.
  destruct (validate_cached _ _ _ _ _ _) as [v|] eqn:Hv; [|right; by exists token, p, ca].
  rewrite bind_fst. pose proof (verdict_result route rh v s) as Hr.
  destruct (auth_verdict route rh v s).1 as [ok|deny]; simpl; [|done]. destruct Hr as [id ->].
  right. exists token, p, ca. split_and!; [done..|]. exists id. by apply validate_cached_ok in Hv as [_ Hv].
Qed.
Lemma auth_resume_result e route rh token p ca s :
  match (auth_resume e route rh token p ca s).1 with
  | Ok _ => ∃ id, validate_token (e_now_again e) token p
      (cached_keys (default ca (ExtAuthz.jwks_registry s !! AuthProvider.name p))) (required_scopes_of route) = Ok id
  | Err deny => deny_status deny ≠ 200%Z
  end.
Proof.
  unfold auth_resume. rewrite bind_fst. cbn [st_gets fst snd]. unfold registry_get. rewrite get_keys_cached.
  apply verdict_result.
Qed.
End halves.

Section answer.
Context `{D : DashMapLib} `{Y : YamlLib} `{P : ProstLib} `{V : LuaVm} `{J : JwtLib} `{L : LuaLib} `{H : HeaderLib}.

(** The answer keeps its status to the end. *)
Lemma answer_check_status t thread clock i resp (c : Conc) :
  ∃ resp', answers (answer_check t thread clock i resp c) = answers c ++ [(t, CheckAnswered resp')] ∧
    tasks (answer_check t thread clock i resp c) = delete t (tasks c) ∧
    Http.status resp' = Http.status resp.
Proof.
  unfold answer_check. destruct (on_thread _ _ _ _) as [resp' g'] eqn:E. exists resp'. split_and!; [done..|].
  unfold on_thread, check_end in E. injection E as <- _. by match goal with |- context [if ?b then _ else _] => destruct b end.
Qed.

End answer.

Section admission.
Context `{D : DashMapLib} `{Y : YamlLib} `{P : ProstLib} `{!ProstLaws P} `{V : LuaVm} `{J : JwtLib} `{L : LuaLib} `{H : HeaderLib}.
Context (sha256_hex : string → string).
Context (url_parse_ok : string → bool) (yaml_from_str : string → result YamlError GatewayConfig).
Context (to_json : Value → JsonValue) (schema_check : JsonValue → JsonValue → result string unit).
Context (signed : string → DecodingKey → Prop) `{!JwtLaws J signed}.
Context (env : start_env) (cfg0 : GatewayConfig).
Notation step := (conc_step sha256_hex url_parse_ok yaml_from_str to_json schema_check).
Notation run := (conc_run sha256_hex url_parse_ok yaml_from_str to_json schema_check).
Notation boot := (gateway_start sha256_hex url_parse_ok yaml_from_str to_json schema_check).
Implicit Types c : Conc.
Implicit Types i : Incoming.

(** The key fetches of a run. *)
Definition key_events (evs : list conc_event) : list gateway_event :=
  omap (λ ev, match ev with KeyFetch name reply now => Some (KeysFetched name reply now) | _ => None end) evs.

(** ** What a check has established at each await *)
Definition routed (cfg : GatewayConfig) i (route : RouteConfig) : Prop :=
  match_route (GatewayConfig.routes cfg) (request_host (in_headers i)) (in_path i) = Some route ∧
  existsb (λ x, eq_ignore_ascii_case x (in_method i)) (RouteConfig.methods route) = true.

(** Keys that the endpoint of a provider published. *)
Definition authentic_keys (evs : list conc_event) (p : AuthProvider) (keys : list JwksKey) : Prop :=
  ∃ doc, published env cfg0 (key_events evs) (AuthProvider.name p) doc ∧ parse_jwks_keys doc = Ok keys.
(** The request carries a token of the route's provider, signed by a key that
    the provider published. *)
Definition admitted (evs : list conc_event) (cfg : GatewayConfig) i (route : RouteConfig) : Prop :=
  RouteConfig.auth_required route = true →
  ∃ token p now keys id,
    extract_bearer (in_headers i) = Some (Valid token) ∧ provider_of cfg route = Some p ∧
    now ∈ [e_now_secs (in_env i); e_now_again (in_env i)] ∧
    accepted_token signed now token p keys (default [] (RouteConfig.required_scopes route)) id ∧
    authentic_keys evs p keys.
(** What a check that waits for fresh keys has in hand. *)
Definition refreshing (evs : list conc_event) (cfg : GatewayConfig) i (route : RouteConfig)
    (token : string) (p : AuthProvider) (ca : JwksCache) : Prop :=
  extract_bearer (in_headers i) = Some (Valid token) ∧ provider_of cfg route = Some p ∧
  authentic_keys evs p (cached_keys ca).

Definition phase_fact (evs : list conc_event) i (p : check_phase) : Prop :=
  match p with
  | CLock => True
  | CPlugins cfg route | CAuth cfg route _ _ _ => routed cfg i route
  | CRefresh cfg route _ _ _ token p ca => routed cfg i route ∧ refreshing evs cfg i route token p ca
  | CLimit cfg route _ _ _ _ => routed cfg i route ∧ admitted evs cfg i route
  end.

Lemma authentic_keys_app evs evs' p keys : authentic_keys evs p keys → authentic_keys (evs ++ evs') p keys.
Proof.
  intros (doc & Hpub & Hdoc). exists doc. split; [|done]. unfold key_events. rewrite omap_app.
  by apply published_app.
Qed.
Lemma admitted_app evs evs' cfg i route :
  admitted evs cfg i route → admitted (evs ++ evs') cfg i route.
Proof.
  intros Ha Hreq. destruct (Ha Hreq) as (token & p & now & keys & id & Ht & Hp & Hnow & Hacc & Hk).
  exists token, p, now, keys, id. split_and!; [done..|]. by apply authentic_keys_app.
Qed.
Lemma phase_fact_app evs evs' i p : phase_fact evs i p → phase_fact (evs ++ evs') i p.
Proof.
  destruct p; try done.
  - intros [? (? & ? & ?)]. split; [done|]. split; [done|]. split; [done|by apply authentic_keys_app].
  - intros [? ?]. split; [done|by apply admitted_app].
Qed.

(** ** The stretches *)
Section stretches.
Context `{Hp : PluginHost}.

Lemma check_route_result e i cfg s :
  match (check_route e (meta_of (in_headers i) (in_method i) (in_path i)) cfg s).1 with
  | Ok route => routed cfg i route
  | Err resp => Http.status resp = 200%Z →
      match_route (GatewayConfig.routes cfg) (request_host (in_headers i)) (in_path i) = None
  end.
Proof.
  unfold check_route, routed. cbn [m_host m_path m_method meta_of]. fold (request_host (in_headers i)).
  destruct (match_route _ _ _) as [route|] eqn:Hm; [|by rewrite !bind_fst].
  destruct (existsb _ _) eqn:Hmeth; cbn [negb]; [done|].
  rewrite bind_fst. cbn [st_ret fst]. unfold method_denied. by rewrite early_deny_status.
Qed.

Lemma access_result e route m rh s :
  plugins_continue s route m → is_ok (execute_access_plugins e route m rh s).1 = true.
Proof.
  intros Hc. unfold execute_access_plugins. unfold st_bind at 1, st_gets.
  destruct (ExtAuthz.plugin_engine s) as [p|] eqn:He; [|done]. destruct (Hc p He) as (up & rh0 & d & Ha).
  unfold st_bind at 1, call_access. destruct (host_access (plugin_request route m) p) as [r p'].
  simpl in Ha. by subst r.
Qed.

End stretches.

Lemma registry_authentic evs p reg ca :
  registry_ok env cfg0 (key_events evs) reg → reg !! AuthProvider.name p = Some ca →
  authentic_keys evs p (cached_keys ca).
Proof. intros Hreg Hc. by destruct (Hreg _ _ Hc) as (_ & _ & Hdoc). Qed.
Lemma refresh_admitted evs cfg i route token p ca reg id :
  registry_ok env cfg0 (key_events evs) reg → refreshing evs cfg i route token p ca →
  validate_token (e_now_again (in_env i)) token p (cached_keys (default ca (reg !! AuthProvider.name p)))
    (required_scopes_of route) = Ok id →
  admitted evs cfg i route.
Proof.
  intros Hreg (Hb & Hpr & Hk) Hv _. exists token, p, (e_now_again (in_env i)).
  eexists. exists id. split_and!; [done|done|right; by left|by apply validate_token_accepted|].
  destruct (reg !! AuthProvider.name p) as [c1|] eqn:Hc; simpl; [|done]. by eapply registry_authentic.
Qed.

(** Who let a request through, by the turn that answered it. *)
Definition let_through (evs : list conc_event) c (thread : nat) (clock : nat → Z) i (p : check_phase) : Prop :=
  let cfg := active_config (gateway c) in
  match p with
  | CLock => match_route (GatewayConfig.routes cfg) (request_host (in_headers i)) (in_path i) = None
  | CPlugins cfg' route =>
      ¬ plugins_continue (P := engine_host clock) (request_view clock thread (gateway c)) route
          (request_meta (in_headers i) (in_method i) (in_path i))
  | CAuth _ _ _ _ _ | CRefresh _ _ _ _ _ _ _ _ => False
  | CLimit cfg' route _ _ _ _ => cfg' = cfg ∧ routed cfg i route ∧ admitted evs cfg i route
  end.

(** A turn of a check: it goes on with what is known in its phase, or it is
    answered, with 200 only if it may be let through. *)
Definition turn_admits evs t thread clock i p c c' : Prop :=
  (∃ p', tasks c' = <[t := Check i p']> (tasks c) ∧ answers c' = answers c ∧ phase_fact evs i p') ∨
  (∃ resp, tasks c' = delete t (tasks c) ∧ answers c' = answers c ++ [(t, CheckAnswered resp)] ∧
     (Http.status resp = 200%Z → let_through evs c thread clock i p)).

Lemma answer_admits evs t thread clock i p c g l resp :
  (Http.status resp = 200%Z → let_through evs c thread clock i p) →
  turn_admits evs t thread clock i p c (answer_check t thread clock i resp (set_gateway g (set_lock l c))).
Proof.
  intros Hl. right. destruct (answer_check_status t thread clock i resp (set_gateway g (set_lock l c)))
    as (resp' & Ha & Ht & Hst). exists resp'. split_and!; [done..|]. by rewrite Hst.
Qed.

Lemma auth_turn_admits evs t thread clock i cfg route req up rh c c' :
  phase_fact evs i (CAuth cfg route req up rh) →
  registry_ok env cfg0 (key_events evs) (Admin.jwks_registry (Gateway.app (gateway c))) →
  check_turn t thread clock i (CAuth cfg route req up rh) c = Some c' →
  turn_admits evs t thread clock i (CAuth cfg route req up rh) c c'.
Proof.
  intros Hf Hreg Hs. cbn [check_turn] in Hs.
  unfold on_thread, check_auth in Hs. set (s0 := request_view clock thread (gateway c)) in *.
  match type of Hs with context [or_deny ?e ?m ?route ?req ?auth s0] =>
    pose proof (or_deny_result (Hp := engine_host clock) e m route req auth s0) as Hr;
    destruct (or_deny e m route req auth s0) as [[a|resp] s] end; cbn [fst] in Hr; cycle 1.
  { injection Hs as <-. apply answer_admits. intros Hst.
    destruct Hr as (deny & Hd & Heq). pose proof (auth_begin_result (Hp := engine_host clock) (in_env i) cfg route
      (in_headers i) rh s0) as Hb. cbn [m_headers meta_of] in Hd. rewrite Hd in Hb. congruence. }
  pose proof (auth_begin_result (Hp := engine_host clock) (in_env i) cfg route (in_headers i) rh s0) as Hb.
  cbn [m_headers meta_of] in Hr. rewrite Hr in Hb. left.
  destruct Hb as [[Hreq [[rh' sub] ->]]|(token & p & ca & Htok & Hpr & Hca & Ha)].
  - injection Hs as <-. eexists (CLimit _ _ _ _ _ _). split_and!; [done..|]. split; [done|].
    intros ?. congruence.
  - pose proof (registry_authentic evs p _ ca Hreg Hca) as Hk. destruct a as [[rh' sub]|x].
    + injection Hs as <-. destruct Ha as [id Hv]. eexists (CLimit _ _ _ _ _ _). split_and!; [done..|].
      split; [done|]. intros _. exists token, p, (e_now_secs (in_env i)). eexists. exists id.
      split_and!; [done|done|by left|by apply validate_token_accepted|done].
    + subst x. injection Hs as <-. by eexists (CRefresh _ _ _ _ _ _ _ _).
Qed.

Lemma refresh_turn_admits evs t thread clock i cfg route req up rh token p ca c c' :
  phase_fact evs i (CRefresh cfg route req up rh token p ca) →
  registry_ok env cfg0 (key_events evs) (Admin.jwks_registry (Gateway.app (gateway c))) →
  check_turn t thread clock i (CRefresh cfg route req up rh token p ca) c = Some c' →
  turn_admits evs t thread clock i (CRefresh cfg route req up rh token p ca) c c'.
Proof.
  intros Hf Hreg Hs. cbn [check_turn] in Hs.
  unfold on_thread, check_refresh in Hs. set (s0 := request_view clock thread (gateway c)) in *.
  match type of Hs with context [or_deny ?e ?m ?route ?req ?auth s0] =>
    pose proof (or_deny_result (Hp := engine_host clock) e m route req auth s0) as Hr;
    destruct (or_deny e m route req auth s0) as [[a|resp] s] end; cbn [fst] in Hr;
    pose proof (auth_resume_result (Hp := engine_host clock) (in_env i) route rh token p ca s0) as Hb.
  - destruct a as [rh' sub]. injection Hs as <-. left. rewrite Hr in Hb. destruct Hb as [id Hv], Hf as [? Hf].
    eexists (CLimit _ _ _ _ _ _). split_and!; [done..|]. split; [done|]. by eapply refresh_admitted.
  - injection Hs as <-. apply answer_admits. intros Hst.
    destruct Hr as (deny & Hd & Heq). rewrite Hd in Hb. congruence.
Qed.

Lemma check_turn_admits evs t thread clock i p c c' :
  phase_fact evs i p → (∀ cfg, config_of p = Some cfg → cfg = active_config (gateway c)) →
  registry_ok env cfg0 (key_events evs) (Admin.jwks_registry (Gateway.app (gateway c))) →
  check_turn t thread clock i p c = Some c' → turn_admits evs t thread clock i p c c'.
Proof.
  intros Hf Hcfg Hreg Hs.
  destruct p as [|cfg route|cfg route req up rh|cfg route req up rh token p ca|cfg route req up rh sub].
  3: by apply auth_turn_admits.
  3: by apply refresh_turn_admits.
  all: cbn [check_turn] in Hs.
  - apply bind_Some in Hs as (l & _ & Hs). unfold on_thread in Hs.
    pose proof (check_route_result (Hp := engine_host clock) (in_env i) i (active_config (gateway c))
      (request_view clock thread (gateway c))) as Hr. cbn [gateway set_lock] in Hs.
    destruct (check_route _ _ _ _) as [[route|resp] s]; simpl in Hr; injection Hs as <-.
    + left. eexists (CPlugins _ route). by split_and!.
    + by apply answer_admits.
  - unfold on_thread in Hs. pose proof (access_result (Hp := engine_host clock) (in_env i) route
      (request_meta (in_headers i) (in_method i) (in_path i)) hm_new (request_view clock thread (gateway c))) as Hr.
    change (meta_of (in_headers i) (in_method i) (in_path i))
      with (request_meta (in_headers i) (in_method i) (in_path i)) in Hs.
    destruct (execute_access_plugins _ _ _ _ _) as [[[[req up] rh]|resp] s]; injection Hs as <-.
    + left. by eexists (CAuth _ _ _ _ _).
    + apply answer_admits. intros _ Hc. by specialize (Hr Hc).
  - destruct (on_thread _ _ _ _) as [resp g]. injection Hs as <-.
    apply (answer_admits _ _ _ _ _ _ _ _ (config_lock c)). intros _. destruct Hf as [? ?]. simpl.
    by pose proof (Hcfg cfg eq_refl) as ->.
Qed.

(** ** The invariant *)
Record admission_inv (evs : list conc_event) c : Prop := {
  ai_registry : registry_ok env cfg0 (key_events evs) (Admin.jwks_registry (Gateway.app (gateway c)));
  ai_phases t i p : tasks c !! t = Some (Check i p) → phase_fact evs i p
}.

(** A step that leaves the keys and takes no check further. *)
Lemma admission_keep evs ev c c' :
  admission_inv evs c → (∀ name reply now, ev ≠ KeyFetch name reply now) →
  Admin.jwks_registry (Gateway.app (gateway c')) = Admin.jwks_registry (Gateway.app (gateway c)) →
  (∀ t i p, tasks c' !! t = Some (Check i p) → p = CLock ∨ tasks c !! t = Some (Check i p)) →
  admission_inv (evs ++ [ev]) c'.
Proof.
  intros [Hr Hp] Hev Hj Ht. split.
  - unfold key_events. rewrite omap_app, Hj. by apply registry_ok_app.
  - intros t i p Hin. destruct (Ht t i p Hin) as [->|Hin']; [done|]. by apply phase_fact_app, (Hp t).
Qed.

Lemma admission_check_turn evs limit gone t thread clock i p c c' :
  admission_inv evs c → inflight limit gone c → tasks c !! t = Some (Check i p) →
  check_turn t thread clock i p c = Some c' → admission_inv (evs ++ [Turn t thread clock]) c'.
Proof.
  intros [Hr Hp] Hi Ht Hs.
  assert (Hj : Admin.jwks_registry (Gateway.app (gateway c')) = Admin.jwks_registry (Gateway.app (gateway c))).
  { apply check_turn_shape in Hs as (l & g & _ & Hsv & _ & [(p' & -> & _)|(resp & ->)]); [apply Hsv|].
    destruct (answer_check_shape t thread clock i resp (set_gateway g (set_lock l c))) as (? & g' & -> & Hsv' & _).
    simpl. rewrite (ss_jwks _ _ Hsv'). apply Hsv. }
  split; [unfold key_events; rewrite omap_app, Hj; by apply registry_ok_app|].
  intros t' i' p1 Hin. apply phase_fact_app.
  destruct (check_turn_admits evs t thread clock i p c c') as [(p' & Hts & _ & Hf)|(resp & Hts & _)];
    [by eapply Hp|intros cfg Hcfg; by eapply (if_config _ _ _ Hi)|done|done|..]; rewrite Hts in Hin.
  - destruct (decide (t' = t)) as [->|Hne].
    + rewrite lookup_insert_eq in Hin. by injection Hin as <- <-.
    + rewrite lookup_insert_ne in Hin by done. by eapply Hp.
  - destruct (decide (t' = t)) as [->|Hne]; [by rewrite lookup_delete_eq in Hin|].
    rewrite lookup_delete_ne in Hin by done. by eapply Hp.
Qed.

(** The tasks of checks after a change of one task. *)
Lemma insert_reload_checks (ts : gmap nat task) t renv q t' i p :
  <[t := Reload renv q]> ts !! t' = Some (Check i p) → ts !! t' = Some (Check i p).
Proof.
  destruct (decide (t' = t)) as [->|Hne]; [by rewrite lookup_insert_eq|by rewrite lookup_insert_ne].
Qed.
Lemma delete_checks (ts : gmap nat task) t t' k : delete t ts !! t' = Some k → ts !! t' = Some k.
Proof. by intros [_ ?]%lookup_delete_Some. Qed.

Lemma admission_step evs limit gone ev c c' :
  admission_inv evs c → inflight limit gone c → step ev c = Some c' → admission_inv (evs ++ [ev]) c'.
Proof.
  intros Ha Hi Hs. destruct ev as [t renv|t i|t thread clock|t|name reply now|e]; cbn [conc_step] in Hs.
  - destruct (tasks c !! t) eqn:Ht; [done|]. injection Hs as <-. eapply admission_keep; [done..|].
    intros t' i p Hin. right. exact (insert_reload_checks _ _ _ _ _ _ _ Hin).
  - destruct (tasks c !! t) eqn:Ht; [done|]. injection Hs as <-.
    pose proof (on_thread_served (in_thread i) (in_clock i)
      (check_begin (Hp := engine_host (in_clock i)) (in_nanos i)) (gateway c)) as Hsv.
    unfold check_arrives. destruct (on_thread _ _ _ (gateway c)) as [[id|resp] g]; simpl in Hsv.
    + eapply admission_keep; [done|done|apply Hsv|]. intros t' i' p Hin. simpl in Hin.
      destruct (decide (t' = t)) as [->|Hne].
      * rewrite lookup_insert_eq in Hin. injection Hin as <- <-. by left.
      * rewrite lookup_insert_ne in Hin by done. by right.
    + eapply admission_keep; [done|done|apply Hsv|by right].
  - apply bind_Some in Hs as ([renv p|i p] & Ht & Hs); [|by eapply admission_check_turn].
    apply reload_turn_shape in Hs as (st & _ & Hj & Hcase).
    destruct Hcase as [(p' & -> & _)|[(p' & -> & _)|(r & l & _ & _ & ->)]];
      (eapply admission_keep; [done|done|exact Hj|]); intros t' i p'' Hin; right.
    + exact (insert_reload_checks _ _ _ _ _ _ _ Hin).
    + exact (insert_reload_checks _ _ _ _ _ _ _ Hin).
    + exact (delete_checks _ _ _ _ Hin).
  - apply bind_Some in Hs as (k & Ht & [= <-]). eapply admission_keep; [done|done|by destruct k|].
    intros t' i p Hin. right. exact (delete_checks _ _ _ _ Hin).
  - apply bind_Some in Hs as (g & Hg & [= <-]). unfold key_fetch in Hg.
    apply bind_Some in Hg as (ca & Hca & [= <-]). destruct Ha as [Hr Hp]. split.
    + unfold key_events. rewrite omap_app. by apply registry_ok_fetch.
    + intros t i p Hin. by apply phase_fact_app, (Hp t).
  - apply bind_Some in Hs as (g & Hg & [= <-]). apply ads_turn_keeps in Hg as (_ & _ & _ & Hj & _).
    eapply admission_keep; [done|done|exact Hj|by right].
Qed.

Lemma admission_run evs evs' limit gone c c' :
  admission_inv evs c → inflight limit gone c → run evs' c = Some c' → admission_inv (evs ++ evs') c'.
Proof.
  revert evs gone c. induction evs' as [|ev evs' IH]; intros evs gone c Ha Hi Hr; simpl in Hr.
  - injection Hr as <-. by rewrite app_nil_r.
  - apply bind_Some in Hr as (c1 & Hs & Hr). rewrite (cons_middle ev evs evs'), (assoc_L (++)).
    eapply IH; [by eapply admission_step|by eapply inflight_step|exact Hr].
Qed.
End admission.

Section theorem.
Context `{D : DashMapLib} `{Y : YamlLib} `{P : ProstLib} `{!ProstLaws P} `{V : LuaVm} `{J : JwtLib} `{L : LuaLib} `{H : HeaderLib}.
Context (sha256_hex : string → string).
Context (url_parse_ok : string → bool) (yaml_from_str : string → result YamlError GatewayConfig).
Context (to_json : Value → JsonValue) (schema_check : JsonValue → JsonValue → result string unit).
Notation step := (conc_step sha256_hex url_parse_ok yaml_from_str to_json schema_check).
Notation run := (conc_run sha256_hex url_parse_ok yaml_from_str to_json schema_check).
Notation boot := (gateway_start sha256_hex url_parse_ok yaml_from_str to_json schema_check).

(** [C14] Requests in flight are only let through when authorised.  In any run
    from startup, with reloads, key fetches, ADS turns, other checks and
    disconnections interleaved at will, when a turn answers a check with 200,
    then: no route of the active configuration matches the request; or a plugin
    (or the failure of the plugin engine) answered it; or the last step, the
    rate limiting, did, and then the request is for a route of the
    configuration that is active at that moment and, if that route requires
    authentication, it carried a token that the route's provider accepts,
    when it was checked before or after the request waited for fresh keys,
    signed by a key that the provider's endpoint published, at startup or to
    its refresh loop.  The authentication itself never answers 200. *)
Theorem concurrent_admission (signed : string → DecodingKey → Prop) `{!JwtLaws J signed}
    (env : start_env) (db : redis_db) (g0 : Gateway) (evs : list conc_event) (c c' : Conc)
    (t thread : nat) (clock : nat → Z) (i : Incoming) (p : check_phase) (resp : Response) :
  boot env db = Ok g0 → (0 ≤ concurrency_limit (Gateway.app g0))%Z → run evs (conc_start g0) = Some c →
  tasks c !! t = Some (Check i p) → step (Turn t thread clock) c = Some c' →
  answers c' = answers c ++ [(t, CheckAnswered resp)] → Http.status resp = 200%Z →
  let_through signed env (active_config g0) evs c thread clock i p.
Proof.
  intros Hb Hg Hr Ht Hs Hans Hst.
  pose proof (inflight_run _ _ _ _ _ _ _ _ _ _ (inflight_start g0 Hg) Hr) as Hi.
  assert (Ha : admission_inv signed env (active_config g0) ([] ++ evs) c).
  { eapply admission_run; [done| |exact (inflight_start g0 Hg)|exact Hr]. split; [|done].
    unfold gateway_start in Hb. apply result_bind_Ok in Hb as (st & Hb & [= <-]). simpl.
    by eapply start_registry. }
  cbn [app] in Ha. destruct Ha as [Hreg Hp]. cbn [conc_step] in Hs. rewrite Ht in Hs. cbn [mbind option_bind] in Hs.
  destruct (check_turn_admits signed env (active_config g0) evs t thread clock i p c c')
    as [(p' & _ & Heq & _)|(resp' & _ & Heq & Hl)];
    [by eapply Hp|intros cfg Hcfg; by eapply (if_config _ _ _ Hi)|done|done|..].
  - rewrite Heq in Hans. apply (f_equal length) in Hans. rewrite length_app in Hans. simpl in Hans. lia.
  - rewrite Heq in Hans. apply app_inv_head in Hans as [= ->]. by apply Hl.
Qed.
End theorem.

(** A check for a protected route, a reload of another file between its awaits,
    and its last turn. *)
Import JwtModel LuaVmModel AdminModel GatewayModel ConcModel.
Definition protected_check : list conc_event :=
  [KeyFetch "main" (Ok [JwksRawKey.mk "k1" "RSA" None "secret-1" "e"]) 10;
   ReloadArrives 7 (sample_reload "v2")] ++ turns 7 11 ++
  [CheckArrives 0 (incoming 0 "/private/x")] ++ turns 0 2 ++
  [ReloadArrives 1 (sample_reload "v3")] ++ turns 1 10 ++ turns 0 1.
Definition deciding : Conc := default stopped (run_conc protected_check begun).
Lemma deciding_ok : run_conc protected_check begun = Some deciding.
Proof. apply some_default. vm_compute. reflexivity. Qed.
Definition decided : Conc := default stopped (run_conc (turns 0 1) deciding).
Lemma decided_ok : run_conc (turns 0 1) deciding = Some decided.
Proof. apply some_default. vm_compute. reflexivity. Qed.

(** The check that decides. *)
Definition decider : Incoming * check_phase * GatewayConfig :=
  default (incoming 0 "/", CLock, extra_config) (check_task deciding 0).
Definition at_protected_limit (p : check_phase) : bool :=
  match p with CLimit _ route _ _ _ _ => RouteConfig.auth_required route | _ => false end.
(** The last answer, when it is that of a check. *)
Definition last_response (c : Conc) : Response :=
  match last (answers c) with Some (_, CheckAnswered r) => r | _ => overload_response "none" end.

Definition answers_check (t : nat) (c : Conc) : bool :=
  match last (answers c) with Some (t', CheckAnswered _) => Nat.eqb t' t | _ => false end.
Lemma last_answer t thread clock c c' :
  conc_step digest (λ _, true) parse_any no_json any_schema (Turn t thread clock) c = Some c' →
  length (answers c') = S (length (answers c)) → answers_check t c' = true →
  answers c' = answers c ++ [(t, CheckAnswered (last_response c'))].
Proof.
  intros Hs Hlen Hl. apply turn_advances in Hs as (_ & (new & Hnew) & _). rewrite Hnew, length_app in Hlen.
  destruct new as [|x [|y new]]; simpl in Hlen; [lia| |lia]. rewrite Hnew. f_equal. f_equal.
  unfold answers_check in Hl. unfold last_response. rewrite Hnew, last_snoc in Hl |- *.
  destruct x as [t' [r|r]]; [done|]. by apply Nat.eqb_eq in Hl as ->.
Qed.

Lemma concurrent_admission_witness :
  Http.status (last_response decided) = 200%Z ∧
  ∃ token p now keys id, extract_bearer (in_headers decider.1.1) = Some (Valid token) ∧
    accepted_token (J := jwt_model) JwtModel.signed now token p keys ["api.read"] id.
Proof.
  assert (Hst : Http.status (last_response decided) = 200%Z) by (vm_compute; reflexivity).
  split; [exact Hst|].
  assert (Hd : check_task deciding 0 = Some decider) by (apply some_default; vm_compute; reflexivity).
  assert (Hlim : at_protected_limit decider.1.2 = true) by (vm_compute; reflexivity).
  assert (Hsc : match decider.1.2 with CLimit _ route _ _ _ _ => RouteConfig.required_scopes route | _ => None end
                = Some ["api.read"]) by (vm_compute; reflexivity).
  destruct decider as [[i p] cfg]. destruct (check_task_inv _ _ _ _ _ Hd) as [Ht _]. cbn [fst snd] in *.
  pose proof decided_ok as Hs. unfold run_conc, turns in Hs. cbn [replicate conc_run] in Hs.
  apply bind_Some in Hs as (c1 & Hs & Hc1). apply (inj Some) in Hc1. subst c1.
  pose proof (last_answer 0 0 (λ _, 0%Z) deciding decided Hs ltac:(vm_compute; reflexivity)
                ltac:(vm_compute; reflexivity)) as Hans.
  pose proof (concurrent_admission digest (λ _, true) parse_any no_json any_schema JwtModel.signed
    (JwtLaws0 := JwtModel.jwt_model_laws) sample_start ∅ booted protected_check deciding decided 0 0 (λ _, 0%Z)
    i p (last_response decided) boot_ok ltac:(vm_compute; discriminate) deciding_ok Ht Hs Hans Hst) as Hl.
  destruct p as [| | | |cfg' route req up rh sub]; try discriminate Hlim.
  destruct Hl as (_ & _ & Ha). destruct (Ha Hlim) as (token & p & now & keys & id & Htok & _ & _ & Hacc & _).
  exists token, p, now, keys, id. split; [exact Htok|]. cbn in Hsc. rewrite Hsc in Hacc. exact Hacc.
Defined.
