(* ===== verification/LiveSpec.v ===== *)
(** * Theorems on the refresh of keys while requests run

    A check that waits for keys waits for a fetch that is under way or about to
    start; requests complete also when no fetch ever ends; and what happens when a
    key is new: it is accepted when the loop was idle and nobody else asks, refused
    when the loop is busy or another check asks meanwhile. *)
From S2P Require Import Prelude RustStr F64 Yaml ConfigTypes Validation Samples ValidationSpec.
From S2P Require Import RateLimit RateLimitSpec Auth Refresh AuthSpec RefreshSpec Observability Plugins PluginsSpec Http ExtAuthz ExtAuthzSpec ExtAuthzResponses.
From S2P Require Import XdsResources XdsResourcesSpec Xds XdsSpec Admin AdminSpec Server ServerSpec Gateway GatewaySpec Concurrent Live ConcurrentSpec InterleavingSpec ProgressSpec AdmissionSpec.

Section live.
Context `{D : DashMapLib} `{Y : YamlLib} `{P : ProstLib} `{V : LuaVm} `{J : JwtLib} `{L : LuaLib} `{H : HeaderLib}.
Context (sha256_hex : string → string).
Context (url_parse_ok : string → bool) (yaml_from_str : string → result YamlError GatewayConfig).
Context (to_json : Value → JsonValue) (schema_check : JsonValue → JsonValue → result string unit).
Notation step := (conc_step sha256_hex url_parse_ok yaml_from_str to_json schema_check).
Notation run := (conc_run sha256_hex url_parse_ok yaml_from_str to_json schema_check).
Notation lstep := (live_step sha256_hex url_parse_ok yaml_from_str to_json schema_check).
Notation lrun := (live_run sha256_hex url_parse_ok yaml_from_str to_json schema_check).
Notation turn := (task_turn sha256_hex url_parse_ok yaml_from_str to_json schema_check).
Notation registry c := (Admin.jwks_registry (Gateway.app (gateway c))).
Implicit Types c : Conc.
Implicit Types l : Live.

(** ** What a step does to the tasks *)
Lemma step_other_wait ev c c' t :
  step ev c = Some c' → event_task ev ≠ Some t → waiting_for c' t = waiting_for c t.
Proof. intros Hs Ht. unfold waiting_for. by rewrite (step_other_task _ _ _ _ _ _ _ _ _ Hs Ht). Qed.

(** Arrivals and the other tasks of the control plane. *)
Lemma quiet_wait ev c c' t :
  step ev c = Some c' → match ev with Turn _ _ _ | ClientGone _ => False | _ => True end →
  waiting_for c' t = waiting_for c t.
Proof.
  intros Hs Hev. destruct ev as [t' renv|t' i| | |name reply now|e]; try done.
  1-2: destruct (decide (t' = t)) as [->|Hne]; [|apply (step_other_wait _ _ _ _ Hs); simpl; congruence].
  1-2: cbn [conc_step] in Hs; unfold waiting_for; destruct (tasks c !! t) eqn:Ht; [done|]; injection Hs as <-.
  - simpl. by rewrite lookup_insert_eq.
  - unfold check_arrives. destruct (on_thread _ _ _ _) as [[id|resp] g]; simpl; [by rewrite lookup_insert_eq|].
    by rewrite Ht.
  - by apply (step_other_wait _ _ _ _ Hs).
  - by apply (step_other_wait _ _ _ _ Hs).
Qed.

(** The turn after the wait ends it. *)
Lemma resumed_turn t thread clock c c' name :
  waiting_for c t = Some name → step (Turn t thread clock) c = Some c' → waiting_for c' t = None.
Proof.
  unfold waiting_for. intros Hw Hs. cbn [conc_step] in Hs. apply bind_Some in Hs as ([env p|i p] & Ht & Hs);
    rewrite Ht in Hw; [done|]. destruct p as [| | |cfg route req up rh token p ca|]; try done.
  apply check_turn_shape in Hs as (lo & g & _ & _ & _ & [(p' & -> & _ & Hlt)|(resp & ->)]).
  - simpl. rewrite lookup_insert_eq. by destruct p'; simpl in Hlt; try lia.
  - destruct (answer_check_shape t thread clock i resp (set_gateway g (set_lock lo c))) as (? & ? & -> & _).
    simpl. by rewrite lookup_delete_eq.
Qed.
(** The turn after the wait is always possible. *)
Lemma resume_enabled t thread clock c name :
  waiting_for c t = Some name → is_Some (step (Turn t thread clock) c).
Proof.
  unfold waiting_for. intros Hw. cbn [conc_step]. destruct (tasks c !! t) as [[|i []]|]; try done.
  cbn [mbind option_bind check_turn]. destruct (on_thread _ _ _ _). eauto.
Qed.

(** ** Refinement *)
Definition fetches (evs : list live_event) : list gateway_event :=
  omap (λ ev, match ev with Loop name (FetchEnds reply now _) => Some (KeysFetched name reply now) | _ => None end) evs.

Lemma conc_run_app evs evs' c : run (evs ++ evs') c = (c' ← run evs c; run evs' c').
Proof.
  revert c. induction evs as [|ev evs IH]; intros c; [done|]. simpl. destruct (step ev c); simpl; [apply IH|done].
Qed.

Lemma live_run_app evs evs' l : lrun (evs ++ evs') l = (l' ← lrun evs l; lrun evs' l').
Proof.
  revert l. induction evs as [|ev evs IH]; intros l; [done|]. simpl. destruct (lstep ev l); simpl; [apply IH|done].
Qed.

Lemma drop_wait_conc t c l : conc (drop_wait t c l) = c.
Proof. unfold drop_wait. by destruct (waiting_for _ _ ≫= _) as [[]|]. Qed.

(** Turns of the requests, waits that run out, and Envoys that receive. *)
Definition is_move (ev : live_event) : bool :=
  match ev with Request ev => is_step ev | TimeUp _ _ _ => true | Loop _ _ => false end.

Lemma step_simulated ev l l' :
  lstep ev l = Some l' →
  ∃ evs, run evs (conc l) = Some (conc l') ∧ key_events evs = fetches [ev] ∧
    (is_move ev = true → forallb is_step evs = true ∧ evs ≠ []).
Proof.
  intros Hs. destruct ev as [ev|t thread clock|name ev]; cbn [live_step] in Hs.
  - destruct ev as [t env|t i|t thread clock|t|name reply now|e].
    3: { unfold task_turn in Hs. destruct (waiting_for (conc l) t) as [name|].
         - apply bind_Some in Hs as (r & _ & (n & _ & (c & Hc & [= <-])%bind_Some)%bind_Some).
           exists [Turn t thread clock]. cbn [conc_run]. by rewrite Hc.
         - apply bind_Some in Hs as (c & Hc & Hs). destruct (waiting_for c t) as [name|].
           + apply bind_Some in Hs as (r & _ & Hs). destruct (request_refresh t r) as [[] r'].
             * apply bind_Some in Hs as (c' & Hc' & [= <-]). exists [Turn t thread clock; Turn t thread clock].
               cbn [conc_run]. rewrite Hc. cbn [mbind option_bind]. by rewrite Hc'.
             * injection Hs as <-. exists [Turn t thread clock]. cbn [conc_run]. by rewrite Hc.
           + injection Hs as <-. exists [Turn t thread clock]. cbn [conc_run]. by rewrite Hc. }
    4: done.
    all: apply bind_Some in Hs as (c & Hc & [= <-]); eexists [_]; cbn [conc_run];
      rewrite Hc, ?drop_wait_conc; try done.
    split_and!; [done..|]. cbn [is_move forallb]. by intros ->.
  - apply bind_Some in Hs as (name & _ & (r & _ & Hs)%bind_Some). case_bool_decide; [|done].
    apply bind_Some in Hs as (c & Hc & [= <-]). exists [Turn t thread clock]. cbn [conc_run].
    by rewrite Hc, drop_wait_conc.
  - apply bind_Some in Hs as (r & _ & (r' & _ & Hs)%bind_Some). destruct ev as [tick| | |reply now tick].
    4: { apply bind_Some in Hs as (c & Hc & [= <-]). exists [KeyFetch name reply now]. cbn [conc_run]. by rewrite Hc. }
    all: injection Hs as <-; by exists [].
Qed.
(** ** The invariant

    The tasks of a notifier are the checks that wait for its provider. *)
Record live_inv l : Prop := {
  lv_ok name r : refreshers l !! name = Some r → refresher_ok r;
  lv_tasks name r t : refreshers l !! name = Some r → present (S t) (notify r) →
    waiting_for (conc l) t = Some name;
  lv_waits t name : waiting_for (conc l) t = Some name → is_Some (refreshers l !! name);
  lv_loops name : is_Some (registry (conc l) !! name) → is_Some (refreshers l !! name)
}.

(** Only a fetch changes the keys of a provider. *)
Lemma step_registry_eq ev c c' name :
  step ev c = Some c' → (∀ reply now, ev ≠ KeyFetch name reply now) → registry c' !! name = registry c !! name.
Proof.
  assert (Heq : registry c' = registry c → registry c' !! name = registry c !! name) by (by intros ->).
  intros Hs Hev. destruct ev as [t renv|t i|t thread clock|t|name' reply now|e]; cbn [conc_step] in Hs.
  - destruct (tasks c !! t); [done|]. by injection Hs as <-.
  - destruct (tasks c !! t); [done|]. injection Hs as <-. apply Heq. unfold check_arrives.
    pose proof (on_thread_served (in_thread i) (in_clock i)
      (check_begin (Hp := engine_host (in_clock i)) (in_nanos i)) (gateway c)) as Hsv.
    destruct (on_thread _ _ _ _) as [[id|resp] g]; apply Hsv.
  - apply Heq. apply bind_Some in Hs as ([env p|i p] & _ & Hs).
    + apply reload_turn_shape in Hs as (st & _ & Hj & Hcase).
      by destruct Hcase as [(p' & -> & _)|[(p' & -> & _)|(r & lo & _ & _ & ->)]].
    + apply check_turn_shape in Hs as (lo & g & _ & Hsv & _ & [(p' & -> & _)|(resp & ->)]); [apply Hsv|].
      destruct (answer_check_shape t thread clock i resp (set_gateway g (set_lock lo c))) as (? & g' & -> & Hsv' & _).
      simpl. rewrite (ss_jwks _ _ Hsv'). apply Hsv.
  - apply bind_Some in Hs as (k & _ & [= <-]). by destruct k.
  - apply bind_Some in Hs as (g & Hg & [= <-]). unfold key_fetch in Hg. apply bind_Some in Hg as (ca & Hca & [= <-]).
    simpl. rewrite lookup_insert_ne; [done|]. intros ->. by destruct (Hev reply now).
  - apply bind_Some in Hs as (g & Hg & [= <-]). apply ads_turn_keeps in Hg as (_ & _ & _ & Hj & _). by apply Heq.
Qed.
Lemma step_registry ev c c' name :
  step ev c = Some c' → is_Some (registry c' !! name) → is_Some (registry c !! name).
Proof.
  intros Hs. assert (Hcase : (∃ reply now, ev = KeyFetch name reply now) ∨ ∀ reply now, ev ≠ KeyFetch name reply now).
  { destruct ev as [| | | |name' reply now|]; try (by right). destruct (decide (name' = name)) as [->|]; [by left; eauto|].
    right. congruence. }
  destruct Hcase as [(reply & now & ->)|Hne]; [|by rewrite (step_registry_eq _ _ _ _ Hs Hne)].
  cbn [conc_step] in Hs. apply bind_Some in Hs as (g & (ca & Hca & _)%bind_Some & _). by rewrite Hca.
Qed.

(** A step that leaves the notifiers. *)
Lemma inv_same c' l :
  live_inv l → (∀ t name, waiting_for (conc l) t = Some name ↔ waiting_for c' t = Some name) →
  (∀ name, is_Some (registry c' !! name) → is_Some (registry (conc l) !! name)) →
  live_inv (mk_live c' (refreshers l)).
Proof. intros [Hok Hta Hwa Hlo] Hw Hr. split; simpl; naive_solver. Qed.

(** A step that changes one notifier. *)
Lemma inv_set name r r' c' l :
  live_inv l → refreshers l !! name = Some r → refresher_ok r' →
  (∀ t, present (S t) (notify r') → waiting_for c' t = Some name) →
  (∀ t name', name' ≠ name → waiting_for (conc l) t = Some name' ↔ waiting_for c' t = Some name') →
  (∀ name', is_Some (registry c' !! name') → is_Some (registry (conc l) !! name')) →
  live_inv (set_refresher name r' c' l).
Proof.
  intros [Hok Hta Hwa Hlo] Hr Hr' Hp Hw Hreg. split; simpl.
  - intros name' r''. destruct (decide (name' = name)) as [->|Hne].
    + rewrite lookup_insert_eq. by intros [= <-].
    + rewrite lookup_insert_ne by done. apply Hok.
  - intros name' r'' t. destruct (decide (name' = name)) as [->|Hne].
    + rewrite lookup_insert_eq. intros [= <-]. apply Hp.
    + rewrite lookup_insert_ne by done. intros Hn Hpr. apply Hw; [done|]. by eapply Hta.
  - intros t name' Ht. destruct (decide (name' = name)) as [->|Hne].
    + rewrite lookup_insert_eq. eauto.
    + rewrite lookup_insert_ne by done. eapply Hwa. by apply Hw.
  - intros name' Hn. destruct (decide (name' = name)) as [->|Hne].
    + rewrite lookup_insert_eq. eauto.
    + rewrite lookup_insert_ne by done. by apply Hlo, Hreg.
Qed.

(** The wait of [t] ends, in one way or another. *)
Lemma inv_end_wait t name r r' ev c' l :
  live_inv l → refreshers l !! name = Some r → waiting_for (conc l) t = Some name →
  step ev (conc l) = Some c' → event_task ev = Some t → waiting_for c' t = None → refresher_ok r' →
  (∀ x, present x (notify r') → present x (notify r) ∧ x ≠ S t) → live_inv (set_refresher name r' c' l).
Proof.
  intros Hi Hr Hw Hs He Hw' Hr' Hp. eapply inv_set; [done|done|done| | |by intros ?; apply (step_registry _ _ _ _ Hs)].
  - intros t' [Hpr Hne]%Hp. rewrite (step_other_wait _ _ _ _ Hs) by congruence. by eapply lv_tasks.
  - intros t' name' Hne. destruct (decide (t' = t)) as [->|Ht]; [rewrite Hw, Hw'; split; congruence|].
    by rewrite (step_other_wait _ _ _ _ Hs) by congruence.
Qed.
Lemma inv_drop_wait t ev c' l :
  live_inv l → step ev (conc l) = Some c' → event_task ev = Some t → waiting_for c' t = None →
  live_inv (drop_wait t c' l).
Proof.
  intros Hi Hs He Hw'. unfold drop_wait. destruct (waiting_for (conc l) t) as [name|] eqn:Hw; simpl.
  - destruct (lv_waits _ Hi _ _ Hw) as [r Hr]. rewrite Hr. simpl. pose proof (lv_ok _ Hi _ _ Hr) as Hok.
    eapply inv_end_wait; [done..|by apply ok_dropped|]. intros x. apply present_dropped, (ok_nodup _ Hok).
  - apply inv_same; [done| |by intros ?; apply (step_registry _ _ _ _ Hs)]. intros t' name.
    destruct (decide (t' = t)) as [->|Ht]; [by rewrite Hw, Hw'|].
    by rewrite (step_other_wait _ _ _ _ Hs) by congruence.
Qed.

Lemma inv_turn t thread clock l l' : live_inv l → turn t thread clock l = Some l' → live_inv l'.
Proof.
  intros Hi Hs. unfold task_turn in Hs. destruct (waiting_for (conc l) t) as [name|] eqn:Hw.
  - apply bind_Some in Hs as (r & Hr & (n & Hn & (c & Hc & [= <-])%bind_Some)%bind_Some).
    eapply inv_end_wait; [done|done|done|done|done|by eapply resumed_turn| |].
    + eapply ok_polled; [|done]. by eapply lv_ok.
    + intros x. by apply present_polled.
  - apply bind_Some in Hs as (c & Hc & Hs).
    assert (Hother : ∀ t', t' ≠ t → waiting_for c t' = waiting_for (conc l) t')
      by (intros t' Ht'; apply (step_other_wait _ _ _ _ Hc); simpl; congruence).
    destruct (waiting_for c t) as [name|] eqn:Hw'.
    2: { injection Hs as <-. apply inv_same; [done| |by intros ?; apply (step_registry _ _ _ _ Hc)]. intros t' name.
         destruct (decide (t' = t)) as [->|Ht]; [by rewrite Hw, Hw'|by rewrite Hother]. }
    apply bind_Some in Hs as (r & Hr & Hs). pose proof (lv_ok _ Hi _ _ Hr) as Hok.
    assert (Habs : ¬ present (S t) (notify r)) by (intros Hp; pose proof (lv_tasks _ Hi _ _ _ Hr Hp); congruence).
    pose proof (ok_request r t Hok Habs) as Hok'. pose proof (λ x, present_request x t r) as Hp.
    destruct (request_refresh t r) as [[] r']; simpl in Hok', Hp.
    + apply bind_Some in Hs as (c2 & Hc2 & [= <-]). pose proof (resumed_turn _ _ _ _ _ _ Hw' Hc2) as Hw2.
      assert (Hother2 : ∀ t', t' ≠ t → waiting_for c2 t' = waiting_for (conc l) t').
      { intros t' Ht'. rewrite <-Hother by done. apply (step_other_wait _ _ _ _ Hc2). simpl. congruence. }
      eapply inv_set; [done|done|done| | |].
      * intros t' [Hpr|[_ ?]]%Hp; [|done]. assert (t' ≠ t) by congruence. rewrite Hother2 by done. by eapply lv_tasks.
      * intros t' name' Hne. destruct (decide (t' = t)) as [->|Ht]; [by rewrite Hw, Hw2|by rewrite Hother2].
      * intros name' Hn. by apply (step_registry _ _ _ _ Hc), (step_registry _ _ _ _ Hc2).
    + injection Hs as <-. eapply inv_set; [done|done|done| | |by intros ?; apply (step_registry _ _ _ _ Hc)].
      * intros t' [Hpr|[[= ->] _]]%Hp; [|done]. assert (t' ≠ t) by congruence. rewrite Hother by done. by eapply lv_tasks.
      * intros t' name' Hne. destruct (decide (t' = t)) as [->|Ht]; [|by rewrite Hother].
        rewrite Hw, Hw'. split; congruence.
Qed.

Lemma inv_loop name ev l l' : live_inv l → lstep (Loop name ev) l = Some l' → live_inv l'.
Proof.
  intros Hi Hs. cbn [live_step] in Hs. apply bind_Some in Hs as (r & Hr & (r' & Hr' & Hs)%bind_Some).
  pose proof (lv_ok _ Hi _ _ Hr) as Hok. pose proof (ok_loop_turn _ _ _ Hok Hr') as Hok'.
  assert (Hset : ∀ c', tasks c' = tasks (conc l) →
    (∀ name', is_Some (registry c' !! name') → is_Some (registry (conc l) !! name')) →
    live_inv (set_refresher name r' c' l)).
  { intros c' Ht Hreg. assert (Hw : ∀ t, waiting_for c' t = waiting_for (conc l) t)
      by (intros t; unfold waiting_for; by rewrite Ht).
    eapply inv_set; [done|done|done| | |done]; [|intros; by rewrite Hw].
    intros t Hp. rewrite Hw. eapply lv_tasks; [done|done|]. by eapply present_loop_turn. }
  destruct ev as [tick| | |reply now tick]; [by injection Hs as <-; apply Hset..|].
  apply bind_Some in Hs as (c & Hc & [= <-]). apply Hset; [|by intros name'; apply (step_registry _ _ _ _ Hc)].
  cbn [conc_step] in Hc. by apply bind_Some in Hc as (g & _ & [= <-]).
Qed.

Lemma inv_step ev l l' : live_inv l → lstep ev l = Some l' → live_inv l'.
Proof.
  intros Hi Hs. destruct ev as [ev|t thread clock|name ev]; [| |by eapply inv_loop].
  - cbn [live_step] in Hs. destruct ev as [t env|t i|t thread clock|t|name reply now|e].
    3: by eapply inv_turn.
    4: done.
    3: { apply bind_Some in Hs as (c & Hc & [= <-]). eapply inv_drop_wait; [done|done|done|].
         cbn [conc_step] in Hc. apply bind_Some in Hc as (k & _ & [= <-]).
         unfold waiting_for. simpl. by rewrite lookup_delete_eq. }
    all: apply bind_Some in Hs as (c & Hc & [= <-]); apply inv_same;
      [done| |by intros name; apply (step_registry _ _ _ _ Hc)]; intros t' name;
      by rewrite (quiet_wait _ _ _ t' Hc).
  - apply bind_Some in Hs as (name & Hw & (r & Hr & Hs)%bind_Some). case_bool_decide; [|done].
    apply bind_Some in Hs as (c & Hc & [= <-]). eapply inv_drop_wait; [done|done|done|]. by eapply resumed_turn.
Qed.

Lemma inv_start g : live_inv (live_start g).
Proof.
  split; simpl.
  - intros name r. unfold spawn_all_refresh_loops. rewrite lookup_fmap.
    intros (ca & _ & ->)%fmap_Some. apply ok_spawn.
  - intros name r t. unfold spawn_all_refresh_loops. rewrite lookup_fmap.
    intros (ca & _ & ->)%fmap_Some. unfold present. simpl. by intros ?%not_elem_of_nil.
  - done.
  - intros name. unfold spawn_all_refresh_loops. rewrite lookup_fmap. by intros [ca ->]; eauto.
Qed.
Lemma inv_run evs l l' : live_inv l → lrun evs l = Some l' → live_inv l'.
Proof.
  revert l. induction evs as [|ev evs IH]; intros l Hi Hr; simpl in Hr; [by injection Hr as <-|].
  apply bind_Some in Hr as (l1 & Hs & Hr). eapply IH; [|exact Hr]. by eapply inv_step.
Qed.

(** ** Waiting checks *)
Lemma fetch_wakes name reply now tick l l' t r :
  live_inv l → refreshers l !! name = Some r → waiting_for (conc l) t = Some name →
  lstep (Loop name (FetchEnds reply now tick)) l = Some l' →
  waiting_for (conc l') t = Some name ∧
  ∃ r', refreshers l' !! name = Some r' ∧ S t ∉ Notify.waiters (notify r').
Proof.
  intros Hi Hr Hw Hs. cbn [live_step] in Hs. rewrite Hr in Hs. cbn [mbind option_bind] in Hs.
  apply bind_Some in Hs as (r' & Hr' & (c & Hc & [= <-])%bind_Some). cbn [set_refresher conc refreshers].
  split; [by rewrite (quiet_wait _ _ _ _ Hc)|]. exists r'. rewrite lookup_insert_eq. split; [done|].
  unfold loop_turn in Hr'. destruct (loop r); try done. injection Hr' as <-.
  unfold select, Notify.notified. destruct tick; simpl; [by intros ?%not_elem_of_nil|].
  destruct (Notify.permit (notify r)); simpl; [by intros ?%not_elem_of_nil|]. by intros ?%list_elem_of_singleton.
Qed.

Lemma free_turn_conc t thread clock l name r c :
  waiting_for (conc l) t = Some name → refreshers l !! name = Some r →
  S t ∉ Notify.waiters (notify r) → step (Turn t thread clock) (conc l) = Some c →
  ∃ l', lstep (Request (Turn t thread clock)) l = Some l' ∧ conc l' = c.
Proof.
  intros Hw Hr Hn Hc. cbn [live_step]. unfold task_turn. rewrite Hw, Hr. cbn [mbind option_bind].
  unfold Notify.polled. rewrite bool_decide_eq_false_2 by done. cbn [mbind option_bind]. rewrite Hc.
  by eexists.
Qed.
Lemma free_turn t thread clock l name r :
  waiting_for (conc l) t = Some name → refreshers l !! name = Some r →
  S t ∉ Notify.waiters (notify r) → is_Some (lstep (Request (Turn t thread clock)) l).
Proof.
  intros Hw Hr Hn. destruct (resume_enabled t thread clock _ _ Hw) as [c Hc].
  destruct (free_turn_conc t thread clock l name r c Hw Hr Hn Hc) as (l' & -> & _). eauto.
Qed.
Lemma timeout_turn t thread clock l name r :
  waiting_for (conc l) t = Some name → refreshers l !! name = Some r →
  S t ∈ Notify.waiters (notify r) → is_Some (lstep (TimeUp t thread clock) l).
Proof.
  intros Hw Hr Hn. cbn [live_step]. rewrite Hw. cbn [mbind option_bind]. rewrite Hr. cbn [mbind option_bind].
  rewrite bool_decide_eq_true_2 by done. destruct (resume_enabled t thread clock _ _ Hw) as [c ->].
  cbn [mbind option_bind]. eauto.
Qed.

(** A check starts to wait only for a provider that has a loop. *)
Lemma entered_wait t thread clock c c' name :
  waiting_for c t = None → step (Turn t thread clock) c = Some c' → waiting_for c' t = Some name →
  is_Some (registry c !! name).
Proof.
  intros Hw Hs Hw'. cbn [conc_step] in Hs. apply bind_Some in Hs as ([env p|i p] & Ht & Hs).
  { apply reload_turn_shape in Hs as (st & _ & _ & [(p' & -> & _)|[(p' & -> & _)|(r & lo & _ & _ & ->)]]);
      unfold waiting_for in Hw'; simpl in Hw'; rewrite ?lookup_insert_eq, ?lookup_delete_eq in Hw'; done. }
  assert (Hans : ∀ resp c1, waiting_for (answer_check t thread clock i resp c1) t = None).
  { intros resp c1. unfold waiting_for, answer_check. destruct (on_thread _ _ _ _). simpl. by rewrite lookup_delete_eq. }
  assert (Hgo : ∀ q c1, waiting_for (set_task t (Check i q) c1) t =
    match q with CRefresh _ _ _ _ _ _ p _ => Some (AuthProvider.name p) | _ => None end).
  { intros q c1. unfold waiting_for, set_task. simpl. rewrite lookup_insert_eq. by destruct q. }
  destruct p as [|cfg route|cfg route req up rh|cfg route req up rh token p ca|cfg route req up rh sub];
    cbn [check_turn] in Hs.
  - apply bind_Some in Hs as (lo & _ & Hs). destruct (on_thread _ _ _ _) as [[route|resp] g];
      injection Hs as <-; [by rewrite Hgo in Hw'|by rewrite Hans in Hw'].
  - destruct (on_thread _ _ _ _) as [[[[req up] rh]|resp] g];
      injection Hs as <-; [by rewrite Hgo in Hw'|by rewrite Hans in Hw'].
  - unfold on_thread, check_auth in Hs. set (s0 := request_view clock thread (gateway c)) in *.
    match type of Hs with context [or_deny ?e ?m ?route ?req ?auth s0] =>
      pose proof (or_deny_result (Hp := engine_host clock) e m route req auth s0) as Hr;
      destruct (or_deny e m route req auth s0) as [[a|resp] s] end; cbn [fst] in Hr; cycle 1.
    { injection Hs as <-. by rewrite Hans in Hw'. }
    pose proof (auth_begin_result (Hp := engine_host clock) (in_env i) cfg route (in_headers i) rh s0) as Hb.
    cbn [m_headers meta_of] in Hr. rewrite Hr in Hb.
    destruct Hb as [[_ [[rh' sub] ->]]|(token & p & ca & _ & _ & Hca & Ha)].
    + injection Hs as <-. by rewrite Hgo in Hw'.
    + destruct a as [[rh' sub]|x]; [injection Hs as <-; by rewrite Hgo in Hw'|]. subst x.
      injection Hs as <-. rewrite Hgo in Hw'. injection Hw' as <-. by exists ca.
  - unfold waiting_for in Hw. by rewrite Ht in Hw.
  - destruct (on_thread _ _ _ _) as [resp g]. injection Hs as <-. by rewrite Hans in Hw'.
Qed.

Lemma unblocked_turn t thread clock l :
  live_inv l → waiting_for (conc l) t = None → is_Some (step (Turn t thread clock) (conc l)) →
  is_Some (lstep (Request (Turn t thread clock)) l).
Proof.
  intros Hi Hw [c Hc]. cbn [live_step]. unfold task_turn. rewrite Hw, Hc. cbn [mbind option_bind].
  destruct (waiting_for c t) as [name|] eqn:Hw'; [|eauto].
  destruct (lv_loops _ Hi name) as [r Hr]; [by eapply entered_wait|]. rewrite Hr. cbn [mbind option_bind].
  destruct (request_refresh t r) as [[] r']; [|eauto].
  destruct (resume_enabled t thread clock _ _ Hw') as [c' ->]. cbn [mbind option_bind]. eauto.
Qed.

(** ** Completion *)

(** When no task can move here, none can in [Concurrent]. *)
Definition stuck l : Prop :=
  ∀ t, lstep (Request (Turn t 0 (λ _, 0%Z))) l = None ∧ lstep (TimeUp t 0 (λ _, 0%Z)) l = None.
Lemma move_of_turn t thread clock l :
  live_inv l → is_Some (step (Turn t thread clock) (conc l)) →
  is_Some (lstep (Request (Turn t thread clock)) l) ∨ is_Some (lstep (TimeUp t thread clock) l).
Proof.
  intros Hi Ht. destruct (waiting_for (conc l) t) as [name|] eqn:Hw; [|left; by apply unblocked_turn].
  destruct (lv_waits _ Hi _ _ Hw) as [r Hr]. destruct (decide (S t ∈ Notify.waiters (notify r))) as [Hin|Hin].
  - right. by eapply timeout_turn.
  - left. by eapply free_turn.
Qed.
Lemma stuck_conc l t : live_inv l → stuck l → step (Turn t 0 (λ _, 0%Z)) (conc l) = None.
Proof.
  intros Hi Hs. apply eq_None_not_Some. intros Ht. destruct (Hs t) as [H1 H2].
  destruct (move_of_turn _ _ _ _ Hi Ht) as [[? Hm]|[? Hm]]; congruence.
Qed.

(** While there are tasks, one of them or an Envoy can move. *)
Lemma some_move l :
  live_inv l → lock_inv (config_lock (conc l)) (tasks (conc l)) → tasks (conc l) ≠ ∅ →
  ∃ ev, is_move ev = true ∧ is_Some (lstep ev l).
Proof.
  intros Hi Hl Hne.
  destruct (some_step sha256_hex url_parse_ok yaml_from_str to_json schema_check _ Hl Hne) as (ev & c & Hev & Hs).
  destruct ev as [| |t thread clock| | |e]; try done.
  - destruct (move_of_turn t thread clock l Hi ltac:(by exists c)) as [Hm|Hm];
      [exists (Request (Turn t thread clock))|exists (TimeUp t thread clock)]; done.
  - exists (Request (AdsEvent e)). split; [done|]. cbn [live_step]. rewrite Hs. simpl. eauto.
Qed.

Lemma moves_advance evs l l' :
  forallb is_move evs = true → lrun evs l = Some l' →
  length evs + moves_left (conc l') ≤ moves_left (conc l) ∧ served (conc l) (conc l').
Proof.
  revert l. induction evs as [|ev evs IH]; intros l Hall Hr; simpl in Hr.
  - simplify_eq. split; [simpl; lia|apply served_refl].
  - cbn [forallb] in Hall. apply andb_true_iff in Hall as [Hev Hall]. apply bind_Some in Hr as (l1 & Hs & Hr).
    destruct (step_simulated _ _ _ Hs) as (cevs & Hrun & _ & Hst). destruct (Hst Hev) as [Hsteps Hnil].
    destruct (steps_bounded _ _ _ _ _ _ _ _ Hsteps Hrun) as [Hlt Hsv]. destruct (IH l1 Hall Hr) as [Hlen Hsv'].
    assert (1 ≤ length cevs) by (destruct cevs; [done|simpl; lia]).
    split; [simpl; lia|by eapply served_trans].
Qed.

Lemma moves_complete n limit gone l :
  moves_left (conc l) ≤ n → live_inv l → inflight limit gone (conc l) →
  ∃ evs l', forallb is_move evs = true ∧ lrun evs l = Some l' ∧ tasks (conc l') = ∅ ∧ served (conc l) (conc l').
Proof.
  revert l gone. induction n as [|n IH]; intros l gone Hw Hi Hf;
    (destruct (decide (tasks (conc l) = ∅)) as [He|Hne]; [exists [], l; split_and!; try done; apply served_refl|]);
    destruct (some_move l Hi (if_lock _ _ _ Hf) Hne) as (ev & Hev & l1 & Hs);
    (destruct (moves_advance [ev] l l1) as [Hlt Hsv];
      [cbn [forallb]; by rewrite Hev|cbn [live_run]; by rewrite Hs|simpl in Hlt]); [lia|].
  destruct (step_simulated _ _ _ Hs) as (cevs & Hrun & _ & _).
  destruct (IH l1 _ ltac:(lia) (inv_step _ _ _ Hi Hs) (inflight_run _ _ _ _ _ _ _ _ _ _ Hf Hrun))
    as (evs & l' & Hm & Hr & He & Hsv').
  exists (ev :: evs), l'. split_and!; [cbn [forallb]; by rewrite Hev| |done|by eapply served_trans].
  cbn [live_run]. by rewrite Hs.
Qed.

Lemma live_simulated evs l l' :
  lrun evs l = Some l' → ∃ cevs, run cevs (conc l) = Some (conc l') ∧ key_events cevs = fetches evs.
Proof.
  revert l. induction evs as [|ev evs IH]; intros l0 Hr; simpl in Hr; [injection Hr as <-; by exists []|].
  apply bind_Some in Hr as (l1 & Hs & Hr). destruct (step_simulated _ _ _ Hs) as (e1 & Hr1 & Hk1 & _).
  destruct (IH l1 Hr) as (e2 & Hr2 & Hk2). exists (e1 ++ e2). rewrite conc_run_app, Hr1. split; [done|].
  unfold key_events in *. rewrite omap_app, Hk1, Hk2. unfold fetches. by rewrite <-omap_app.
Qed.
Lemma live_reach g evs l :
  lrun evs (live_start g) = Some l → live_inv l ∧ ∃ cevs, run cevs (conc_start g) = Some (conc l) ∧ key_events cevs = fetches evs.
Proof. intros Hr. split; [eapply inv_run; [apply inv_start|done]|by apply live_simulated in Hr]. Qed.

(** ** A token signed by a new key *)
Section rotation.
Context (t : nat) (i : Incoming) (cfg : GatewayConfig) (route : RouteConfig) (req : PluginRequest).
Context (up : gmap string string) (rh : HeaderMap) (token : string) (p : AuthProvider).

(** The check [t] is about to authenticate a request whose token names a key
    that the cache, which is fresh, does not have. *)
Record unknown_key c (ca : JwksCache) : Prop := {
  uk_task : tasks c !! t = Some (Check i (CAuth cfg route req up rh));
  uk_required : RouteConfig.auth_required route = true;
  uk_token : extract_bearer (in_headers i) = Some (Valid token);
  uk_provider : provider_of cfg route = Some p;
  uk_cache : registry c !! AuthProvider.name p = Some ca;
  uk_fresh : is_stale (e_instant (in_env i)) ca = false;
  uk_unknown : validate_token (e_now_secs (in_env i)) token p (cached_keys ca) (required_scopes_of route) =
    Err UnknownKeyId
}.

Lemma auth_turn thread clock c ca :
  unknown_key c ca →
  ∃ g, step (Turn t thread clock) c =
         Some (set_task t (Check i (CRefresh cfg route req up rh token p ca)) (set_gateway g c)) ∧
       same_served (gateway c) g.
Proof.
  intros [Ht Hreq Htok Hpr Hca Hst Hun]. cbn [conc_step]. rewrite Ht. cbn [mbind option_bind check_turn].
  pose proof (on_thread_served thread clock (check_auth (Hp := engine_host clock) (in_env i)
    (meta_of (in_headers i) (in_method i) (in_path i)) cfg route req rh) (gateway c)) as Hsv.
  unfold on_thread in Hsv |- *. set (s0 := request_view clock thread (gateway c)) in *.
  assert (Hb : auth_begin (Hp := engine_host clock) (in_env i) cfg route (in_headers i) rh s0 =
    (Ok (inr (token, p, ca)), s0)).
  { unfold auth_begin, auth_credentials. rewrite Hreq, Htok. cbn [negb]. fold (provider_of cfg route). rewrite Hpr.
    unfold st_bind, st_gets, registry_get. cbn [ExtAuthz.jwks_registry s0 request_view].
    rewrite <-(provider_of_name _ _ _ Hpr), Hca. cbn [st_ret]. unfold validate_cached.
    by rewrite Hst, get_keys_cached, Hun. }
  unfold check_auth, or_deny, st_bind in Hsv |- *. cbn [m_headers meta_of] in *. rewrite Hb in Hsv |- *.
  cbn [st_ret] in *. eexists. split; [reflexivity|exact Hsv].
Qed.

Lemma resume_turn_ok thread clock c ca ca' id :
  tasks c !! t = Some (Check i (CRefresh cfg route req up rh token p ca)) →
  registry c !! AuthProvider.name p = Some ca' →
  validate_token (e_now_again (in_env i)) token p (cached_keys ca') (required_scopes_of route) = Ok id →
  ∃ g, step (Turn t thread clock) c =
         Some (set_task t (Check i (CLimit cfg route req up (auth_headers id rh) (Some (ValidatedIdentity.sub id))))
                 (set_gateway g c)).
Proof.
  intros Ht Hca Hv. cbn [conc_step]. rewrite Ht. cbn [mbind option_bind check_turn].
  unfold on_thread, check_refresh, or_deny, auth_resume, st_bind, st_gets, registry_get.
  cbn [ExtAuthz.jwks_registry request_view]. rewrite Hca, get_keys_cached. change (default ca (Some ca')) with ca'. rewrite Hv.
  cbn [auth_verdict st_ret]. by eexists.
Qed.
Lemma resume_turn_denied thread clock c ca ca' err :
  tasks c !! t = Some (Check i (CRefresh cfg route req up rh token p ca)) →
  registry c !! AuthProvider.name p = Some ca' →
  validate_token (e_now_again (in_env i)) token p (cached_keys ca') (required_scopes_of route) = Err err →
  ∃ c' resp, step (Turn t thread clock) c = Some c' ∧
    answers c' = answers c ++ [(t, CheckAnswered resp)] ∧ Http.status resp = http_status err.
Proof.
  intros Ht Hca Hv. cbn [conc_step]. rewrite Ht. cbn [mbind option_bind check_turn]. unfold on_thread, check_refresh.
  set (s0 := request_view clock thread (gateway c)).
  match goal with |- context [or_deny ?e ?m ?route ?req ?auth s0] =>
    pose proof (or_deny_result (Hp := engine_host clock) e m route req auth s0) as Hr;
    assert (Hd : (auth s0).1 = Err (mk_deny (http_status err) (error_code err)));
    [|destruct (or_deny e m route req auth s0) as [[a|resp] s]] end.
  - unfold auth_resume, st_bind, st_gets, registry_get, s0. cbn [ExtAuthz.jwks_registry request_view].
    rewrite Hca, get_keys_cached. change (default ca (Some ca')) with ca'. by rewrite Hv.
  - cbn [fst] in Hr. congruence.
  - cbn [fst] in Hr. destruct Hr as (deny & Hd' & Hst). rewrite Hd in Hd'. injection Hd' as <-.
    destruct (answer_check_status t thread clock i resp (set_gateway (absorb clock thread s (gateway c)) c))
      as (resp' & Ha & _ & Hst'). eexists _, resp'. split_and!; [reflexivity|exact Ha|]. by rewrite Hst', Hst.
Qed.

(** It asks for a refresh. *)
Lemma ask_step thread clock l ca r :
  live_inv l → unknown_key (conc l) ca → refreshers l !! AuthProvider.name p = Some r →
  ∃ c1, tasks c1 !! t = Some (Check i (CRefresh cfg route req up rh token p ca)) ∧
    answers c1 = answers (conc l) ∧
    registry c1 !! AuthProvider.name p = Some ca ∧
    turn t thread clock l =
      let '(ready, r') := request_refresh t r in
      if ready then
        c ← step (Turn t thread clock) c1; Some (set_refresher (AuthProvider.name p) r' c l)
      else Some (set_refresher (AuthProvider.name p) r' c1 l).
Proof.
  intros Hi Huk Hr. destruct (auth_turn thread clock _ _ Huk) as (g1 & Hs1 & Hsv).
  eexists. split_and!; cycle 3.
  - unfold task_turn. unfold waiting_for at 1. rewrite (uk_task _ _ Huk), Hs1. cbn [mbind option_bind].
    unfold waiting_for, set_task at 1. cbn [tasks]. rewrite lookup_insert_eq, Hr. cbn [mbind option_bind]. reflexivity.
  - apply lookup_insert_eq.
  - done.
  - simpl. rewrite (ss_jwks _ _ Hsv). apply (uk_cache _ _ Huk).
Qed.
End rotation.

(** ** What happens elsewhere

    Events that are not about the task [t] nor about the loop of the provider
    [name], and leave its notifier as it is: no other check asks for its keys. *)
Definition about (name : string) (t : nat) (ev : live_event) : bool :=
  match ev with
  | Request ev => bool_decide (event_task ev = Some t)
  | TimeUp t' _ _ => bool_decide (t' = t)
  | Loop name' _ => bool_decide (name' = name)
  end.
Inductive elsewhere (name : string) (t : nat) : Live → Live → Prop :=
  | elsewhere_refl l : elsewhere name t l l
  | elsewhere_step ev l l1 l2 :
      about name t ev = false → lstep ev l = Some l1 → refreshers l1 !! name = refreshers l !! name →
      elsewhere name t l1 l2 → elsewhere name t l l2.

(** Two states that agree on the task, the keys and the notifier. *)
Definition alike (name : string) (t : nat) l l' : Prop :=
  tasks (conc l') !! t = tasks (conc l) !! t ∧ registry (conc l') !! name = registry (conc l) !! name ∧
  refreshers l' !! name = refreshers l !! name.
Lemma step_alike ev c c' name t :
  step ev c = Some c' → event_task ev ≠ Some t → (∀ reply now, ev ≠ KeyFetch name reply now) →
  tasks c' !! t = tasks c !! t ∧ registry c' !! name = registry c !! name.
Proof.
  intros Hs Ht Hk. split; [by apply (step_other_task _ _ _ _ _ _ _ _ _ Hs)|by eapply step_registry_eq].
Qed.
Lemma about_alike ev name t l l' :
  about name t ev = false → lstep ev l = Some l' →
  tasks (conc l') !! t = tasks (conc l) !! t ∧ registry (conc l') !! name = registry (conc l) !! name.
Proof.
  intros Hab Hs. destruct ev as [ev|t' thread clock|name' ev]; cbn [live_step about] in Hs, Hab;
    apply bool_decide_eq_false in Hab.
  - destruct ev as [t' env|t' i|t' thread clock|t'|name' reply now|e]; [| | | |done|].
    3: { unfold task_turn in Hs. destruct (waiting_for (conc l) t') as [n|].
         - apply bind_Some in Hs as (r & _ & (nf & _ & (c & Hc & [= <-])%bind_Some)%bind_Some).
           by eapply step_alike.
         - apply bind_Some in Hs as (c & Hc & Hs).
           pose proof (step_alike _ _ _ name t Hc Hab ltac:(done)) as [H1 H2].
           destruct (waiting_for c t') as [n|]; [|by injection Hs as <-].
           apply bind_Some in Hs as (r & _ & Hs). destruct (request_refresh t' r) as [[] r']; [|by injection Hs as <-].
           apply bind_Some in Hs as (c' & Hc' & [= <-]).
           pose proof (step_alike _ _ _ name t Hc' Hab ltac:(done)) as [H3 H4]. simpl. split; congruence. }
    all: apply bind_Some in Hs as (c & Hc & [= <-]); rewrite ?drop_wait_conc; by eapply step_alike.
  - apply bind_Some in Hs as (n & _ & (r & _ & Hs)%bind_Some). case_bool_decide; [|done].
    apply bind_Some in Hs as (c & Hc & [= <-]). rewrite drop_wait_conc. eapply step_alike; [exact Hc| |done].
    simpl. congruence.
  - apply bind_Some in Hs as (r & _ & (r' & _ & Hs)%bind_Some). destruct ev as [tick| | |reply now tick].
    4: { apply bind_Some in Hs as (c & Hc & [= <-]). eapply step_alike; [exact Hc|done|]. congruence. }
    all: by injection Hs as <-.
Qed.
Lemma elsewhere_alike name t l l' : elsewhere name t l l' → alike name t l l'.
Proof.
  induction 1 as [l|ev l l1 l2 Hab Hs Hr _ (H1 & H2 & H3)]; [done|].
  destruct (about_alike _ _ _ _ _ Hab Hs) as [H4 H5]. split_and!; congruence.
Qed.

(** A woken loop fetches, and frees whoever waits. *)
Lemma loop_wakes name t wk l :
  refreshers l !! name = Some (mk_refresher (Notify.mk false [S t] wk) LoopWaiting) →
  lstep (Loop name LoopWoken) l =
    Some (set_refresher name
            (mk_refresher (Notify.mk false [S t] (filter (.≠ loop_task) wk)) LoopFetching) (conc l) l).
Proof.
  intros Hr. cbn [live_step]. rewrite Hr. cbn [mbind option_bind loop_turn loop notify].
  unfold Notify.polled. cbn [Notify.waiters Notify.woken Notify.permit].
  by rewrite bool_decide_eq_false_2 by (by intros ?%list_elem_of_singleton).
Qed.
Lemma fetch_stores name l n ca doc keys now tick :
  refreshers l !! name = Some (mk_refresher n LoopFetching) → registry (conc l) !! name = Some ca →
  parse_jwks_keys doc = Ok keys →
  ∃ l', lstep (Loop name (FetchEnds (Ok doc) now tick)) l = Some l' ∧ tasks (conc l') = tasks (conc l) ∧
    registry (conc l') !! name = Some (mk_cache (provider ca) keys now) ∧
    refreshers l' !! name = Some (select tick (Notify.notify_waiters n)).
Proof.
  intros Hr Hca Hdoc. cbn [live_step]. rewrite Hr. cbn [mbind option_bind loop_turn loop notify conc_step].
  unfold key_fetch. rewrite Hca. cbn [mbind option_bind]. unfold fetch_and_store. cbn [map_err mbind result_bind].
  rewrite Hdoc. eexists. split; [reflexivity|]. simpl. by rewrite !lookup_insert_eq.
Qed.
Lemma select_frees tick n t : S t ∉ Notify.waiters (notify (select tick (Notify.notify_waiters n))).
Proof.
  unfold select, Notify.notified. destruct tick; simpl; [by intros ?%not_elem_of_nil|].
  destruct (Notify.permit n); simpl; [by intros ?%not_elem_of_nil|by intros ?%list_elem_of_singleton].
Qed.
End live.

Section theorems.
Context `{D : DashMapLib} `{Y : YamlLib} `{P : ProstLib} `{V : LuaVm} `{J : JwtLib} `{L : LuaLib} `{H : HeaderLib}.
Context (sha256_hex : string → string).
Context (url_parse_ok : string → bool) (yaml_from_str : string → result YamlError GatewayConfig).
Context (to_json : Value → JsonValue) (schema_check : JsonValue → JsonValue → result string unit).
Notation run := (conc_run sha256_hex url_parse_ok yaml_from_str to_json schema_check).
Notation lstep := (live_step sha256_hex url_parse_ok yaml_from_str to_json schema_check).
Notation lrun := (live_run sha256_hex url_parse_ok yaml_from_str to_json schema_check).
Notation meanwhile := (elsewhere sha256_hex url_parse_ok yaml_from_str to_json schema_check).

(** [C24] A check never waits for a fetch that is not coming.  In every state that
    can be reached, a check that waits for the keys of a provider either has
    been woken and can go on, or the provider's loop is fetching or has been
    woken to fetch; the end of that fetch wakes the check, and its timeout can
    end the wait before. *)
Theorem refresh_wait_is_served (g : Gateway) (evs : list live_event) (l : Live) (t : nat) (name : string) :
  lrun evs (live_start g) = Some l → waiting_for (conc l) t = Some name →
  ∃ r, refreshers l !! name = Some r ∧
    (S t ∉ Notify.waiters (notify r) → ∀ thread clock, is_Some (lstep (Request (Turn t thread clock)) l)) ∧
    (S t ∈ Notify.waiters (notify r) →
      (loop r = LoopFetching ∨ loop r = LoopWaiting ∧ is_Some (lstep (Loop name LoopWoken) l)) ∧
      (∀ thread clock, is_Some (lstep (TimeUp t thread clock) l)) ∧
      ∀ reply now tick l', lstep (Loop name (FetchEnds reply now tick)) l = Some l' →
        ∀ thread clock, is_Some (lstep (Request (Turn t thread clock)) l')).
Proof.
  intros [Hi _]%live_reach Hw. destruct (lv_waits _ Hi _ _ Hw) as [r Hr]. exists r. split_and!; [done|..].
  - intros Hn thread clock. by eapply free_turn.
  - intros Hin. pose proof (lv_ok _ Hi _ _ Hr) as Hok. split_and!.
    + destruct (queued_fetch r t Hok Hin) as [?|[Hl Hk]]; [by left|right]. split; [done|].
      cbn [live_step]. rewrite Hr. cbn [mbind option_bind]. unfold loop_turn, Notify.polled. rewrite Hl.
      rewrite bool_decide_eq_false_2; [simpl; eauto|].
      intros Hx. pose proof (ok_nodup _ Hok) as (_ & Hd & _)%NoDup_app. by eapply Hd.
    + intros thread clock. by eapply timeout_turn.
    + intros reply now tick l' Hs thread clock. destruct (fetch_wakes _ _ _ _ _ name reply now tick l l' t r Hi Hr Hw Hs)
        as (Hw' & r' & Hr' & Hn). by eapply free_turn.
Qed.


(** [C26] A rotated key is accepted without waiting for the next scheduled refresh,
    when the loop is idle and no other check asks for the same keys meanwhile.  A
    check whose token names a key that the cache does not have wakes the loop; the
    loop can then fetch; and when its fetch ends with a document in which the token
    validates, the check goes on to the rate limiting as the token's subject.
    Between these four events anything may happen elsewhere that does not time the
    check out, drop it or move that loop. *)
Theorem rotated_key_accepted (g : Gateway) (evs : list live_event) (l : Live)
    (t : nat) (i : Incoming) (cfg : GatewayConfig) (route : RouteConfig) (req : PluginRequest)
    (up : gmap string string) (rh : HeaderMap) (token : string) (p : AuthProvider) (ca : JwksCache)
    (r : refresher) (thread : nat) (clock : nat → Z) (doc : JwksDocument) (keys : list JwksKey) (now : Z)
    (tick : bool) (id : ValidatedIdentity) :
  let name := AuthProvider.name p in
  lrun evs (live_start g) = Some l → unknown_key t i cfg route req up rh token p (conc l) ca →
  refreshers l !! name = Some r → loop_task ∈ Notify.waiters (notify r) →
  parse_jwks_keys doc = Ok keys →
  validate_token (e_now_again (in_env i)) token p keys (required_scopes_of route) = Ok id →
  ∃ l1, lstep (Request (Turn t thread clock)) l = Some l1 ∧ ∀ l2, meanwhile name t l1 l2 →
  ∃ l3, lstep (Loop name LoopWoken) l2 = Some l3 ∧ ∀ l4, meanwhile name t l3 l4 →
  ∃ l5, lstep (Loop name (FetchEnds (Ok doc) now tick)) l4 = Some l5 ∧ ∀ l6, meanwhile name t l5 l6 →
  ∃ l7, lstep (Request (Turn t thread clock)) l6 = Some l7 ∧
    tasks (conc l7) !! t =
      Some (Check i (CLimit cfg route req up (auth_headers id rh) (Some (ValidatedIdentity.sub id)))).
Proof.
  cbv zeta. intros [Hi _]%live_reach Huk Hr Hidle Hdoc Hv.
  destruct (ask_step sha256_hex url_parse_ok yaml_from_str to_json schema_check _ _ _ _ _ _ _ _ _ thread clock _ _ r Hi Huk Hr)
    as (c1 & Ht1 & _ & Hca1 & Hs1). rewrite (idle_request r t (lv_ok _ Hi _ _ Hr) Hidle) in Hs1.
  eexists. split; [exact Hs1|]. intros l2 (Ht2 & Hca2 & Hr2)%elsewhere_alike.
  cbn [set_refresher conc refreshers] in Ht2, Hca2, Hr2. rewrite lookup_insert_eq in Hr2. rewrite Ht1 in Ht2. rewrite Hca1 in Hca2.
  eexists. split; [eapply loop_wakes; exact Hr2|]. intros l4 (Ht4 & Hca4 & Hr4)%elsewhere_alike.
  cbn [set_refresher conc refreshers] in Ht4, Hca4, Hr4. rewrite lookup_insert_eq in Hr4. rewrite Ht2 in Ht4. rewrite Hca2 in Hca4.
  edestruct (fetch_stores sha256_hex url_parse_ok yaml_from_str to_json schema_check (AuthProvider.name p) l4) as (l5 & Hs5 & Ht5 & Hca5 & Hr5);
    [exact Hr4|exact Hca4|exact Hdoc|].
  exists l5. split; [exact Hs5|]. intros l6 (Ht6 & Hca6 & Hr6)%elsewhere_alike.
  rewrite Ht5, Ht4 in Ht6. rewrite Hca5 in Hca6. rewrite Hr5 in Hr6.
  destruct (resume_turn_ok sha256_hex url_parse_ok yaml_from_str to_json schema_check _ _ _ _ _ _ _ _ _ thread clock
    _ _ _ id Ht6 Hca6 Hv) as (g7 & Hs7).
  destruct (free_turn_conc sha256_hex url_parse_ok yaml_from_str to_json schema_check t thread clock l6 (AuthProvider.name p) _ _
    ltac:(unfold waiting_for; by rewrite Ht6) Hr6 (select_frees _ _ _) Hs7) as (l7 & Hs & Hl7).
  exists l7. split; [exact Hs|]. rewrite Hl7. apply lookup_insert_eq.
Qed.

(** [C23] A new key is refused while the loop is busy: when nobody waits in the
    notifier of the provider (the loop is fetching already, or has not started),
    a check whose token names a key that the cache does not have is answered 401
    in the same turn.  Its request for a refresh is stored as a permit, which its
    own wait consumes, so it neither waits for the fetch that is under way nor
    causes another one, and the loop is left as it was. *)
Theorem busy_loop_refuses_new_key (g : Gateway) (evs : list live_event) (l : Live)
    (t : nat) (i : Incoming) (cfg : GatewayConfig) (route : RouteConfig) (req : PluginRequest)
    (up : gmap string string) (rh : HeaderMap) (token : string) (p : AuthProvider) (ca : JwksCache)
    (r : refresher) (thread : nat) (clock : nat → Z) :
  lrun evs (live_start g) = Some l → unknown_key t i cfg route req up rh token p (conc l) ca →
  refreshers l !! AuthProvider.name p = Some r → Notify.waiters (notify r) = [] →
  ∃ l' resp r', lstep (Request (Turn t thread clock)) l = Some l' ∧
    answers (conc l') = answers (conc l) ++ [(t, CheckAnswered resp)] ∧ Http.status resp = 401%Z ∧
    refreshers l' !! AuthProvider.name p = Some r' ∧ loop r' = loop r ∧ Notify.permit (notify r') = false.
Proof.
  intros [Hi _]%live_reach Huk Hr Hbusy.
  destruct (ask_step sha256_hex url_parse_ok yaml_from_str to_json schema_check _ _ _ _ _ _ _ _ _ thread clock _ _ r Hi Huk Hr)
    as (c1 & Ht1 & Ha1 & Hca1 & Hs1). rewrite (busy_request r t Hbusy) in Hs1. cbn beta iota in Hs1.
  destruct (resume_turn_denied sha256_hex url_parse_ok yaml_from_str to_json schema_check _ _ _ _ _ _ _ _ _ thread clock
    _ _ ca UnknownKeyId Ht1 Hca1) as (c2 & resp & Hs2 & Ha2 & Hst).
  { eapply unknown_key_any_time, (uk_unknown _ _ _ _ _ _ _ _ _ _ _ Huk). }
  rewrite Hs2 in Hs1. cbn [mbind option_bind] in Hs1. eexists _, resp, _. cbn [live_step].
  split_and!; [exact Hs1|by rewrite <-Ha1|done|apply lookup_insert_eq|done|done].
Qed.
End theorems.

(** ** Witnesses

    A control plane whose loop is idle, or busy, and a check for a protected
    route whose token names a key that was published after startup. *)
Import JwtModel LuaVmModel AdminModel GatewayModel ConcModel.
Module LiveModel.
Definition run_live (evs : list live_event) (l : Live) : option Live :=
  live_run digest (λ _, true) parse_any no_json any_schema evs l.
Definition live_turns (t n : nat) : list live_event := replicate n (Request (Turn t t (λ _, 0%Z))).
Definition halted : Live := mk_live stopped ∅.
Definition fresh_doc : JwksDocument := [JwksRawKey.mk "k1" "RSA" None "secret-1" "e"].

(** The check is about to authenticate. *)
Definition asking : list live_event :=
  [Loop "main" (LoopBegins true); Loop "main" (FetchEnds (Ok [JwksRawKey.mk "k0" "RSA" None "secret-0" "e"]) 5 false);
   Request (ReloadArrives 7 (sample_reload "v2"))] ++ live_turns 7 11 ++
  [Request (CheckArrives 0 (incoming 0 "/private/x"))] ++ live_turns 0 2.
Definition idle_loop : Live := default halted (run_live asking (live_start booted)).
Definition busy_loop : Live := default halted (run_live (asking ++ [Loop "main" TtlElapsed]) (live_start booted)).
Definition waiting : Live := default halted (run_live (asking ++ live_turns 0 1) (live_start booted)).

(** A task at its authentication. *)
Definition auth_task (l : Live) (t : nat)
    : option (Incoming * GatewayConfig * RouteConfig * PluginRequest * gmap string string * HeaderMap) :=
  match tasks (conc l) !! t with
  | Some (Check i (CAuth cfg route req up rh)) => Some (i, cfg, route, req, up, rh)
  | _ => None
  end.
Definition asker (l : Live) : Incoming * GatewayConfig * RouteConfig * PluginRequest * gmap string string * HeaderMap :=
  default (incoming 0 "/", sample_config, sample_private_route,
    plugin_request sample_private_route (meta_of AuthzModel.headers "GET" "/"), ∅, hm_new) (auth_task l 0).
Definition main_loop (l : Live) : refresher := default (spawn_refresh_loop sample_provider) (refreshers l !! "main").
Definition main_cache (l : Live) : JwksCache :=
  default (mk_cache sample_provider [] 0) (Admin.jwks_registry (Gateway.app (gateway (conc l))) !! "main").
End LiveModel.
Import LiveModel.

Lemma asking_ok : run_live asking (live_start booted) = Some idle_loop.
Proof. apply some_default. vm_compute. reflexivity. Qed.
Lemma busy_ok' : run_live (asking ++ [Loop "main" TtlElapsed]) (live_start booted) = Some busy_loop.
Proof. apply some_default. vm_compute. reflexivity. Qed.
Lemma waiting_ok : run_live (asking ++ live_turns 0 1) (live_start booted) = Some waiting.
Proof. apply some_default. vm_compute. reflexivity. Qed.

(** The premises of the two theorems on new keys, by evaluation. *)
Definition unknown_keyb (l : Live) (x : Incoming * GatewayConfig * RouteConfig * PluginRequest * gmap string string * HeaderMap)
    (token : string) (p : AuthProvider) (ca : JwksCache) : bool :=
  let '(i, cfg, route, req, up, rh) := x in
  RouteConfig.auth_required route &&
  match extract_bearer (in_headers i) with Some (Valid tok) => bool_decide (tok = token) | _ => false end &&
  negb (is_stale (e_instant (in_env i)) ca) &&
  match validate_token (e_now_secs (in_env i)) token p (cached_keys ca) (required_scopes_of route) with
  | Err UnknownKeyId => true
  | _ => false
  end.
Lemma unknown_keyb_ok l t i cfg route req up rh token p ca :
  auth_task l t = Some (i, cfg, route, req, up, rh) → provider_of cfg route = Some p →
  Admin.jwks_registry (Gateway.app (gateway (conc l))) !! AuthProvider.name p = Some ca →
  unknown_keyb l (i, cfg, route, req, up, rh) token p ca = true →
  unknown_key t i cfg route req up rh token p (conc l) ca.
Proof.
  unfold auth_task, unknown_keyb. intros Ht Hp Hca. rewrite !andb_true_iff, negb_true_iff.
  intros [[[Hr Hb] Hs] Hv].
  destruct (tasks (conc l) !! t) as [[|i' []]|] eqn:E; simplify_eq. split; try done.
  - destruct (extract_bearer _) as [[tok|]|]; try done. by apply bool_decide_eq_true in Hb as ->.
  - by destruct (validate_token _ _ _ _ _) as [|[]].
Qed.

Lemma refresh_wait_is_served_witness :
  S 0 ∈ Notify.waiters (notify (main_loop waiting)) ∧
  (loop (main_loop waiting) = LoopFetching ∨
   loop (main_loop waiting) = LoopWaiting ∧ is_Some (run_live [Loop "main" LoopWoken] waiting)).
Proof.
  assert (Hin : S 0 ∈ Notify.waiters (notify (main_loop waiting))).
  { assert (Notify.waiters (notify (main_loop waiting)) = [1]) as -> by (vm_compute; reflexivity).
    apply list_elem_of_here. }
  split; [exact Hin|].
  destruct (refresh_wait_is_served digest (λ _, true) parse_any no_json any_schema booted _ waiting 0 "main"
    waiting_ok ltac:(vm_compute; reflexivity)) as (r & Hr & _ & Hs).
  assert (Hm : refreshers waiting !! "main" = Some (main_loop waiting)) by (apply some_default; vm_compute; reflexivity).
  rewrite Hr in Hm. apply (inj Some) in Hm. subst r. destruct (Hs Hin) as [[Hf|[Hw [l' Hl]]] _]; [left; exact Hf|right].
  split; [exact Hw|]. exists l'. unfold run_live. cbn [live_run]. rewrite Hl. reflexivity.
Defined.


(** The check of a sample at its authentication. *)
Lemma asker_unknown (l : Live) i cfg route req up rh :
  auth_task l 0 = Some (asker l) → asker l = (i, cfg, route, req, up, rh) →
  provider_of (asker l).1.1.1.1.2 (asker l).1.1.1.2 = Some sample_provider →
  Admin.jwks_registry (Gateway.app (gateway (conc l))) !! "main" = Some (main_cache l) →
  unknown_keyb l (asker l) "tok-1" sample_provider (main_cache l) = true →
  unknown_key 0 i cfg route req up rh "tok-1" sample_provider (conc l) (main_cache l).
Proof. intros Ht Ha Hp Hc Hu. rewrite Ha in Ht, Hp, Hu. by apply (unknown_keyb_ok l). Qed.
Ltac sample_state := apply some_default; vm_compute; reflexivity.
Ltac evaluate := vm_compute; reflexivity.

(** The check has asked; another request arrives while it waits. *)
Definition asked : Live := default halted (run_live [Request (Turn 0 0 (λ _, 0%Z))] idle_loop).
Definition joined : Live :=
  default halted (run_live [Request (CheckArrives 5 (incoming 0 "/public/x"))] asked).
Notation live1 := (live_step digest (λ _, true) parse_any no_json any_schema).
Lemma one_step ev l l' : run_live [ev] l = Some l' → live1 ev l = Some l'.
Proof. unfold run_live. cbn [live_run]. by intros (l1 & -> & [= <-])%bind_Some. Qed.
Lemma asked_ok : live1 (Request (Turn 0 0 (λ _, 0%Z))) idle_loop = Some asked.
Proof. apply one_step, some_default. vm_compute. reflexivity. Qed.
Lemma joined_ok : elsewhere digest (λ _, true) parse_any no_json any_schema "main" 0 asked joined.
Proof.
  eapply (elsewhere_step _ _ _ _ _ _ _ (Request (CheckArrives 5 (incoming 0 "/public/x")))); [reflexivity| | |apply elsewhere_refl].
  - apply one_step, some_default. vm_compute. reflexivity.
  - vm_compute. reflexivity.
Qed.

Lemma rotated_key_accepted_witness :
  ∃ l3 l5 l7 cfg route req up rh sub,
    live1 (Loop "main" LoopWoken) joined = Some l3 ∧
    live1 (Loop "main" (FetchEnds (Ok fresh_doc) 6 false)) l3 = Some l5 ∧
    live1 (Request (Turn 0 0 (λ _, 0%Z))) l5 = Some l7 ∧
    tasks (conc l7) !! 0 = Some (Check (asker idle_loop).1.1.1.1.1 (CLimit cfg route req up rh (Some sub))).
Proof.
  destruct (asker idle_loop) as [[[[[i cfg] route] req] up] rh] eqn:Ha.
  pose proof (asker_unknown idle_loop i cfg route req up rh ltac:(sample_state) Ha ltac:(evaluate)
    ltac:(sample_state) ltac:(evaluate)) as Huk.
  destruct (parse_jwks_keys fresh_doc) as [keys|] eqn:Hk; [|vm_compute in Hk; discriminate Hk].
  destruct (validate_token (e_now_again (in_env i)) "tok-1" sample_provider keys (required_scopes_of route))
    as [id|e] eqn:Hv.
  - pose proof (rotated_key_accepted digest (λ _, true) parse_any no_json any_schema booted asking idle_loop
      0 i cfg route req up rh "tok-1" sample_provider (main_cache idle_loop) (main_loop idle_loop) 0 (λ _, 0%Z)
      fresh_doc keys 6 false id) as Hw. cbv zeta in Hw.
    specialize (Hw asking_ok).
    specialize (Hw Huk).
    specialize (Hw ltac:(sample_state)).
    specialize (Hw ltac:(vm_compute; apply list_elem_of_here)).
    specialize (Hw Hk Hv).
    change (AuthProvider.name sample_provider) with "main" in Hw.
    destruct Hw as (l1 & H1 & Hw). rewrite asked_ok in H1. apply (inj Some) in H1. subst l1.
    destruct (Hw joined joined_ok) as (l3 & H3 & Hw3).
    destruct (Hw3 l3 (elsewhere_refl _ _ _ _ _ _ _ _)) as (l5 & H5 & Hw5).
    destruct (Hw5 l5 (elsewhere_refl _ _ _ _ _ _ _ _)) as (l7 & H7 & Ht).
    exists l3, l5, l7. do 6 eexists. split; [exact H3|]. split; [exact H5|]. split; [exact H7|exact Ht].
  - exfalso. assert (Hok : match parse_jwks_keys fresh_doc with
      | Ok ks => match validate_token (e_now_again (in_env (asker idle_loop).1.1.1.1.1)) "tok-1" sample_provider ks
                         (required_scopes_of (asker idle_loop).1.1.1.2) with Ok _ => true | Err _ => false end
      | Err _ => false end = true) by (vm_compute; reflexivity).
    rewrite Ha, Hk in Hok. cbn [fst snd] in Hok. rewrite Hv in Hok. discriminate Hok.
Defined.

(** Two checks that name the new key: the second one's notification wakes the
    first, which finds the old keys and is refused, before any fetch has ended
    and well within its five seconds. *)
Definition two_askers : list live_event :=
  asking ++ [Request (CheckArrives 1 (incoming 1 "/private/x"))] ++ live_turns 1 2 ++
  live_turns 0 1 ++ live_turns 1 1 ++ live_turns 0 1.
Definition refused_first : Live := default halted (run_live two_askers (live_start booted)).
Theorem second_check_wakes_first :
  run_live two_askers (live_start booted) = Some refused_first ∧
  loop (main_loop refused_first) = LoopWaiting ∧
  match last (answers (conc refused_first)) with
  | Some (0, CheckAnswered resp) => Http.status resp = 401%Z
  | _ => False
  end.
Proof. split; [apply some_default; vm_compute; reflexivity|]. split; vm_compute; reflexivity. Qed.

Lemma busy_loop_refuses_new_key_witness :
  loop (main_loop busy_loop) = LoopFetching ∧
  ∃ l' resp, run_live [Request (Turn 0 0 (λ _, 0%Z))] busy_loop = Some l' ∧
    answers (conc l') = answers (conc busy_loop) ++ [(0, CheckAnswered resp)] ∧ Http.status resp = 401%Z.
Proof.
  split; [vm_compute; reflexivity|].
  destruct (asker busy_loop) as [[[[[i cfg] route] req] up] rh] eqn:Ha.
  pose proof (asker_unknown busy_loop i cfg route req up rh ltac:(sample_state) Ha ltac:(evaluate)
    ltac:(sample_state) ltac:(evaluate)) as Huk.
  destruct (busy_loop_refuses_new_key digest (λ _, true) parse_any no_json any_schema booted _ busy_loop
    0 i cfg route req up rh "tok-1" sample_provider (main_cache busy_loop) (main_loop busy_loop) 0 (λ _, 0%Z)
    busy_ok' Huk ltac:(sample_state) ltac:(evaluate)) as (l' & resp & r' & Hl & Hans & Hst & _).
  exists l', resp. split_and!; [|exact Hans|exact Hst]. unfold run_live. cbn [live_run]. rewrite Hl. reflexivity.
Defined.
